(* ===== verification/_CoqProject ===== *)
-Q . S2P
Prelude.v
Machine.v
DataModel.v
Surface.v
Geometry.v
Extractor.v
Duration.v
Tooltip.v
RenderSet.v
Bounds.v
Proximity.v
WellFormed.v
Loops.v
Fallible.v
Escape.v
Uploader.v
App.v
Contract.v
Views.v
Lifecycle.v
Processing.v
Session.v
