(* ===== verification/Prelude.v ===== *)
(** * Trajectory map viewer: a verification development

    The program is a React dashboard that draws vessel journeys on a Leaflet
    map and shows a tooltip with interpolated data near the path under the
    cursor.  Its sources are [src/src/components/MapViewer.tsx] (the map
    engine), [src/src/components/App.tsx] (the state of the application and
    its handlers) and [src/src/components/FileUploader.tsx] (the file list
    and the drop zone).  The development models the logic of the three
    files, their effects and what their markup mounts; line numbers without
    a file name are lines of [MapViewer.tsx].

    ** How the program works

    [App] holds the set of selected journeys and passes it, with the parsed
    results, to [MapViewer]; its markup mounts the uploader until files were
    processed, then the reset button and the journey selector.  [MapViewer]
    loads Leaflet in its first effect and creates the map in the render
    after; from then on it keeps its state in six refs (the map, the
    markers, the polylines, the tooltip, whether hover mode is on, the
    polyline in focus).  An effect runs at every change of the selection
    or of the results: it calls [showSelectedJourneys], which clears the map,
    flattens and filters the intervals, finds the last interval of every
    complete journey, draws a polyline and two markers per interval with at
    least two usable coordinates, adds the journey-end markers and fits the
    view; then it registers a [mousemove] handler on the map.  Hovering a
    polyline turns hover mode on and opens the tooltip; the [mousemove]
    handler then follows the nearest vertex over all polylines, showing the
    tooltip below 500 m, leaving it between 500 and 800 m and ending the
    session beyond 800 m.  The tooltip text is computed by
    [generateTooltipContent] from the interval and the point.

    ** Files, in dependency order

    - [Prelude] (this file): the values and loops of the language as the
      code uses them.  [JsNum] with [truthy], [isNaN], [present]; rationals
      with boolean comparisons ([<?], [<=?], [==?] in scope [js]); [ExtQ]
      for minima that start at [Infinity]; [clamp01] for
      [Math.max(0, Math.min(1, x))]; [toFixed]; the running-minimum loop
      [scanMin] shared by the three nearest-candidate scans, with its
      contract [ScanResult] and the lemma [scanMin_spec]; [forEach] with the
      index of the element and its induction principle; [mapSet] for
      [Map.set] in insertion order.  Tactics [qbool], [qcase]; hint
      database [js].
    - [Machine]: the interface the systems of the development share.  A
      [Machine] is a start state, the test [allowed] of whether an event
      can arrive in a state, and the handler [advance].  The file proves
      once what every system needs: the states reached ([reach]) are the
      ends of the runs ([runs]) from the start; an [Invariant] holds in
      every state reached; a [Simulation] of one machine by another, in
      which an event of the first is answered by a run of the second,
      carries every state reached to a related state reached and so
      transfers invariants.  A [Projection] is the simulation given by a
      function from the states of one machine to those of another that
      commutes with every event: runs, reachable states and invariants
      are carried along it ([projection_runs], [projection_transfer]).
      Instances: [Contract.viewerMachine], [Contract.contractMachine],
      [Views.userMachine], [Processing.flightMachine],
      [Session.sessionMachine].
    - [DataModel]: the records the component reads ([CoordinatePoint],
      [Interval], [Journey], [CSVIntervalResult]), the usable-point test
      of lines 175-182 ([usablePoint], [intervalCoordinates]) and the
      truthiness of a time ([truthyTime]: the time 0 is shown as absent).
    - [Surface]: the distance of the map as the class [MapSurface], its laws
      [MapSurfaceLaws] (respects equality, non-negative, zero exactly on
      equal points) and [Isotropic] (grows with the planar distance).
      Instances: [planarSurface], [manhattanSurface] (metres, 111 km per
      degree, used for the scenarios) and [anisoSurface] (a degree of
      longitude is half a degree of latitude).
    - [Geometry]: [getClosestPointOnLine] (369-402) as [scanMin] over
      [segmentCandidate].  Its contract is the relation [ClosestSpec];
      [getClosestPointOnLine_characterised] shows the function is the only
      value that satisfies it.  Further: the point returned lies on its
      segment at a parameter in [0, 1]; minimality and first-index
      tie-break; [Infinity] exactly on lines without a segment of non-zero
      length; the division is never by zero; in the plane the projection is
      the nearest point of the segment; on an isotropic lawful surface the
      result is at most the distance to the vertices, and on [anisoSurface]
      it is not.
    - [Extractor]: [extractIntervalsFromResults] (100-123),
      [intervalsToShow] (142-147), [lastIntervalsByJourney] (151-167).
      Theorems: membership in the list shown; the map of terminal intervals
      is exactly the set described by [terminalAt], with distinct keys; no
      interval of an incomplete journey is terminal; a terminal interval
      need not be drawable.
    - [Duration]: [formatDuration] (193-205) on strings as lists of
      characters; the global replace of [/\s*\d+s/], [includes], [replace]
      and [trim] written out.  Theorems: the result on every duration of
      the form [<h>h <m>m <s>s], and that it is the intended text exactly
      when the hours do not end in the digit 0 or are the digit 0.
    - [Tooltip]: [generateTooltipContent] (242-366) as a function to the
      tagged payload [TooltipContent].  Theorems: the nearest sample
      ([ClosestSample]), the range of the progress, the interpolated time
      between start and end, the order in which the speed is resolved
      ([SpeedResolution]), the condition of the journey-end message, and
      the two-sample scenario evaluated.
    - [RenderSet]: the refs as the record [ViewerState]; the map as the set
      of stamped layers ([LeafletMap]); [clearMap] (77-97), [drawInterval]
      (169-482), [addFinalMarker] (485-544), [showSelectedJourneys]
      (126-555).  The invariant [Tracked] says the layers on the map are
      exactly the primitives held in the refs; every operation keeps it.
      Theorems: [clearMap] leaves nothing; a rebuild is idempotent (same
      primitives up to the identifiers stamped); the polylines are those of
      the drawable selected intervals, in order.
    - [Bounds]: the argument of [fitBounds] at lines 548-549: Leaflet's
      [LatLngBounds] with [extend], [pad] and [contains], modelled from
      their contract.  Theorems: the bounds are the least box around the
      positions; after a rebuild the view frames every vertex of every
      path on the map; a rebuild that draws nothing leaves the view.
    - [Proximity]: the handlers [polylineMouseOver] (442-466),
      [finalMarkerMouseOver] (503-518), [handleGlobalMouseMove] (569-629),
      [handleMapMouseMove] (405-439, never subscribed, and failing on the
      standard content, which reads [lat] of the array it is given),
      the selection effect [selectionEffect] (564-635), the events [Event],
      the handler [handle] and the step relation [step] with its reachable
      states.  The invariant [Ready] ([Tracked], the session invariant
      [SessionInv] and the presence of the map) holds in every reachable
      state.  Theorems: [step] and [handle] agree; the three outcomes of the
      watcher by distance; a pointer move is one run of the watcher however
      many handlers are registered; the events that reset the session; a
      hover session evaluated at 100, 600 and 900 m.
    - [WellFormed]: the typing of the primitives, [WellDrawn] for a
      polyline and [WellFormed] for the refs: at least two usable
      coordinates, a numeric journey index, the closure that finds its
      interval, one pair of endpoint markers per path.  It holds in every
      reachable state, and gives the handlers what they read without a
      test ([watcher_finds_vertex], [drawn_line_has_closest_point]).
    - [Loops]: the [for] statements of lines 376-399 and 577-589 with
      their counters and local variables, as [forLoop] (well-founded on
      the distance of the counter to the bound).  Theorems: the loops end
      after one iteration per segment; they return what the scans of
      [Geometry] and [Proximity] return; the watcher keeps the first
      nearest vertex in the order of the paths ([FirstNearest]), and the
      scenario of two paths at the same distance.  A read past the end
      of an array makes the body of a loop fail, so that the loops return
      a value is a statement about their bounds: [lineLoop_bound] shows
      the loop of [getClosestPointOnLine] returns exactly up to the bound
      [length - 1] of the code.
    - [Fallible]: [showSelectedJourneys] with its [try] and [catch], in
      the monad [Try] of state and exceptions; the calls of Leaflet are
      [LeafletCall], and which of them throw is the parameter [throws].
      [clearMapTry] is [clearMap] (77-97) with removals that may throw:
      it is called inside the [try] (line 132) and empties the refs after
      its last removal.  A Hoare logic ([hoare]) with a postcondition for
      the normal and one for the exceptional outcome.  Theorems: with no
      exception the rebuild is [RenderSet.showSelectedJourneys]; an
      exception at the k-th interval leaves the intervals before it and
      nothing else; an exception between adding a marker and recording it
      leaves a layer [clearMap] never removes; whatever throws while the
      primitives are created, the refs hold only layers that are on the
      map ([Contained]); a removal that throws leaves the refs and the
      session as they were with markers gone from the map, and then
      [Contained] is lost.
    - [Escape]: the selection effect (564-635) in the monad of
      [Fallible], with the calls that are outside the [try]: [clearMap]
      when the selection is empty (633) and the registration of the
      [mousemove] handler (631).  [raises] says which calls a computation
      can throw.  Theorems: with no exception the effect is
      [Proximity.selectionEffect]; with a selection only the registration
      can leave the effect, with the empty selection only a removal, and
      such a removal does.
    - [Uploader]: [FileUploader.tsx]: [processFiles] (49-61), [removeFile]
      (95-98), the drag state with [handleDragEnter], [handleDragLeave]
      and [handleDrop] (68-93), and the markup (100-261) as the record
      [UploaderView] of what depends on the props and the state.
      [DropZone] adds to the drag state the counter the handlers of the
      last render captured, and a render is an event of the zone.
      Theorems: what [processFiles] appends; a file picked twice at once
      is added twice; the highlight follows the counter when every event
      is rendered ([prompt_renders_DragInv]); the counter is exact
      whenever React renders; an enter and a leave handled on one
      render leave the highlight wrong exactly when the counter was 0 or
      1 ([enter_leave_one_render]); a file
      picked and removed again leaves the list as it was; the rows shown
      are the files, and the button is enabled exactly when there is a
      file and nothing is processing.
    - [App]: [App.tsx]: the state [AppState] and the handlers of lines
      21-95; [System] pairs it with the state of the viewer, [act] runs a
      user action and then the effect of [MapViewer] when the selection or
      the results were set.  [initialSystem] is the page once its map is
      created, which is the page at mount when Leaflet is there already;
      the page whose Leaflet is imported starts at [Lifecycle.mount] and
      is the subject of [Lifecycle] and [Session].  The invariant [SystemInv] says the viewer is
      [Ready] and shows the primitives of the current props.  Theorems:
      after every sequence of actions the map shows exactly the paths of
      the current selection ([runApp_rendered]); toggling a journey twice
      restores the selection and the map; the selection after
      [toggleMultipleJourneys]; what [resetForNewFiles] leaves.
    - [Contract]: the machine the specification describes (sections 4.3,
      4.4 and 4.6), written from the specification and not from the code:
      a [Display] is the cohort of pins and paths, a session that is
      [InactiveSession] or [ActiveSession path], at most one info panel,
      the positions the viewport was last framed to and whether the
      pointer is watched; its operations are [clear], [rebuildSelection],
      [hoverEnter], [leave], [pointerMove] and [selectionChanged].  The
      two sentences of the specification the code does not follow (the
      focus moves to the owner of the nearest vertex; the watcher is
      unsubscribed when the selection is emptied) are the [Policy] of the
      machine: [codePolicy] is what the code does, [specPolicy] what the
      specification says.  The component is the machine [viewerMachine]
      ([Proximity.handle] on the events that are enabled), and [display]
      maps its refs to a [Display], forgetting identifiers, layers and
      closures.  Theorems: [display] commutes with every event, so the
      component implements the contract under [codePolicy]
      ([component_implements_contract]); the invariant [DisplayInv],
      proved on the contract, holds of the component: the panel shows
      the content of a path on the map, the cohort is that of some
      selection and the view frames every path on the map in every
      reachable state; in the application an open tooltip shows a journey
      of the current selection; on the events [App] can cause the
      component and the machine under [specPolicy] show the same thing
      ([LookAlike], an equivalence of displays that the cohort, the
      panel and the view respect); and the steps on which the component
      and the machine under [specPolicy] differ are exactly those of
      [Departs]: a pointer move next to a vertex of a path that is not in
      focus, and a selection emptied while the watcher is subscribed
      ([code_departs_from_spec]).
    - [Views]: the markup of [App.tsx] (97-185) as [appView], the list of
      the components mounted with their props; [offers] and [available]
      give the actions a state allows, [userMachine] is the user who can
      only use what is mounted; [syncListeners] counts the listeners
      the uploader holds on the document.  Theorems: while the uploader
      is shown nothing is selected and nothing is drawn; two guards of
      the handlers never fire for such a user; from every reachable state
      the user can return to the start; a reset leaves the statistics
      panel open.  A statistics panel stays mounted while it is not
      visible: [offers] lets it call its callbacks all the same, the safe
      reading for the invariants, and [visiblyAvailable] does not, the
      safe reading for what the user can bring about;
      [return_to_start_visible] gives the screens from which the start
      is reached through what is visible only.
    - [Lifecycle]: the effects of lines 33-75: [Component] adds
      [isMapLoaded], [window.L], the pending import and the setup of the
      map to the refs; [Page] pairs it with [App]; the events are the end
      of the import and the actions of the user.  Theorems: with Leaflet
      present at mount the page is [App.System]; the state of [App] does
      not depend on the map; before the map exists every action leaves
      the refs alone; a map created after the user selected journeys is
      empty until the selection changes; a rejected import leaves no map;
      once the import is fulfilled the map exists and stays.
    - [Processing]: [handleProcessFiles] (App.tsx, 21-35) split at its
      [await]: [beginProcess] is the guard and the call, [endProcess] what
      runs when the promise is fulfilled or rejected; a [Flight] is the
      system with the files of the call that has not settled, and the
      user acts in between; [flightMachine] is that system.  Theorems:
      the user of [Views] is simulated by the flight answered at once, and
      the handler of [App] is that flight; [isProcessing] holds exactly
      while a call is in
      flight, during which the uploader stays, nothing is selected and
      the process and reset buttons cannot be used; a call fulfilled with
      data hides the uploader and publishes its results; the files listed
      may by then differ from the files sent.
    - [Session]: the page of [Lifecycle] and the flight of [Processing]
      in one machine: the import of Leaflet, the actions of the user and
      the answers of the hook arrive in any order, and the pointer reaches
      the map only once there is one.  Theorems: seen from [App] the
      session is simulated by the flight, the import being no event of
      [App], so what [Processing] proves of the state of [App] holds on
      the whole page (what it proves of the map does not: the map of a
      late Leaflet is blank); a map exists only where [window.L] is
      defined, so the second test of the guard of [showSelectedJourneys]
      never decides ([map_needs_leaflet]);
      with Leaflet present at mount the session is the flight, refs
      included, and the map always shows the props; the map goes from
      [Loading] to [Mapped] or [Failed] at the end of the import and never
      back; a map that does not show the props is blank and exists only
      behind the selector with journeys selected; the next event that
      draws repairs it for good, and one action of the user is enough.

    ** Conventions of the model

    - A number is an exact rational [Q] compared with [Qeq] ([==]); [NaN],
      [null] and [undefined] are constructors of [JsNum] because the code
      tests for them.  Floating-point rounding and infinite data are not
      modelled.
    - An absent array is the empty list; every use in the code is guarded by
      a test that fails for both.  A read of an array past its end is
      [None] in the loops of [Loops], where the code would pass
      [undefined] to [map.distance].
    - A journey index that is a number is an integer, and the intervals
      of the results are distinct objects, as a parser that numbers the
      journeys and builds one object per interval gives them: [NaN] and
      fractions as indices, and one interval object listed twice, are not
      modelled.  A time is an integer of milliseconds, and 0 is falsy.
    - The identity of an object is a position ([indexOf] of an interval is
      its position among the intervals shown) or an identifier from the
      counter [nextId], as Leaflet stamps its layers.
    - Effects are explicit state passing over [ViewerState]; a closure is
      the record of what it captures ([TooltipEnv]).
    - Every loop of the code is a fold over an array or a counted [for]:
      the folds are structurally recursive, and [Loops.forLoop] is defined
      with Equations by well-founded recursion on [bound - i].  There is no
      fuel and no bound to choose, and every function is total.  The
      scenarios evaluate by [vm_compute].  The elimination principle
      Equations derives for [forLoop] uses functional extensionality, an
      axiom of the Standard Library; nothing else is assumed.
    - An exception is a value: [Fallible.Outcome] is [Returned] or
      [Thrown], and the state reached is kept in both.  Whether a call of
      Leaflet throws is a parameter of the theorems, not a choice of the
      model.
    - A render sees the state of the render before: an effect with a
      dependency list runs when one of its dependencies was set, and reads
      the values captured by its render ([Lifecycle.initMap] takes the
      value of [isMapLoaded] it saw, [Uploader.zoneStep] the counter its
      render saw).  The handlers of [App] run on clicks, each rendered
      before the next is handled, so they read the current state; the
      drag events of the uploader may share a render.
    - A component that is not among the sources can call any callback it
      is given while it is mounted, and nothing else.
    - An asynchronous handler is two steps, before and after its [await],
      with the events of the page between them ([Processing],
      [Lifecycle.importSettled]).
    - A system is an instance of [Machine.Machine]; what one system
      promises another is a [Machine.Simulation], and the theorems of the
      larger system are obtained from those of the smaller through it
      ([Session] from [Processing], [Processing] from [Views]).
    - What the specification promises is a machine too, without the
      representation of the code; the component refines it by the
      abstraction function [Contract.display], and a property of what the
      user sees is proved on the specification's machine and transferred.
      Where the specification and the code differ the difference is a
      parameter of that machine, and the theorems say when it shows.
    - An exception that no [try] of the component encloses is the outcome
      [Thrown] of the effect or handler: what React or Leaflet does with it
      is outside the component.
    - A theorem stated for every [MapSurface] holds for whatever distance
      the map computes; the theorems that need properties of the distance
      take [MapSurfaceLaws] or [Isotropic] as hypotheses, and the instances
      show these can be met.

    ** Not modelled

    - The text of the HTML templates, class names, styles and colours (the
      payload holds the values interpolated; a colour is the journey index
      it is computed from), the locale formatting of dates, the static
      markup and the style sheet of [MapViewer.tsx] (637-727).
    - Leaflet itself ([distance], layers, events, tiles, pan and zoom, the
      opening of the tooltip bound to a journey-end marker): the model is
      its contract, with the bounds of [Bounds] and the oracle of
      [Fallible] as the parts the component depends on.
    - The configuration of the default icons (40-45): the component draws
      circle markers only.
    - [handleMapMouseMove] (405-439) is modelled but is no event: the code
      never subscribes it.  It is the only caller of
      [getClosestPointOnLine], so what [Geometry] and [Loops] prove of
      that function is about code the running component does not reach.
    - The hook [useCSVInterval] that parses the files, [JourneySelector]
      and the statistics panels are not among the sources: the result of
      the hook is an input of [handleProcessFiles], and the panels are
      known by the props and callbacks [App] gives them.  Of the state of
      the hook, [isProcessing] is taken to hold exactly while a call of
      [processFiles] has not settled; what the hook does with the files is
      not modelled.
    - [preventDefault] and [stopPropagation] in the drag handlers.
    - Floating-point rounding: numbers are exact rationals.  On a surface
      whose distance is zero between equal positions, as Leaflet's is, no
      division of the code is by zero; elsewhere the division of [Q]
      gives 0 where JavaScript gives [NaN].
    - The white-space characters outside ASCII in the pattern of
      [formatDuration].
    - Exceptions other than those of the calls of Leaflet (of
      [getJourneyColor], of a read of the data).

    - What React does with an exception that leaves an effect or a
      handler, and the handlers of the pointer under exceptions: they run
      in Leaflet's dispatch, outside any [try] of the component.

    ** What is left to do

    The tooltip bound to a journey-end marker, which Leaflet opens by
    itself; the unmounting of [MapViewer], which [App] never does and for
    which the effects return no clean-up; the contract of [Contract]
    under exceptions (the machine of [Fallible] is not projected on it).
    Every line of the three files that is not an import, a declaration
    of types, static markup or style is modelled: the parts listed above
    as not modelled are outside the sources or are Leaflet's, and cannot
    be modelled more closely than by their contract. *)

From Stdlib Require Import QArith Qround Qminmax Qabs Lqa.
From stdpp Require Import prelude.

#[global] Open Scope Q_scope.

Declare Scope js_scope.
Delimit Scope js_scope with js.

Create HintDb js discriminated.

(** ** Rationals with the comparisons of the code *)

Definition Qltb (x y : Q) : bool := negb (Qle_bool y x).

Notation "x <? y" := (Qltb x y) (at level 70, no associativity) : js_scope.
Notation "x <=? y" := (Qle_bool x y) (at level 70, no associativity) : js_scope.
Notation "x ==? y" := (Qeq_bool x y) (at level 70, no associativity) : js_scope.

Lemma Qltb_lt (x y : Q) : Qltb x y = true <-> x < y.
Proof.
  unfold Qltb. rewrite negb_true_iff, <- not_true_iff_false, Qle_bool_iff.
  split; [apply Qnot_le_lt | apply Qlt_not_le].
Qed.

Lemma Qltb_ge (x y : Q) : Qltb x y = false <-> y <= x.
Proof. unfold Qltb. rewrite negb_false_iff. apply Qle_bool_iff. Qed.

Lemma Qle_bool_gt (x y : Q) : Qle_bool x y = false <-> y < x.
Proof. rewrite <- Qltb_lt. unfold Qltb. now rewrite negb_true_iff. Qed.

Lemma Qeq_bool_false (x y : Q) : Qeq_bool x y = false <-> ~ x == y.
Proof. rewrite <- Qeq_bool_iff. symmetry. apply not_true_iff_false. Qed.

#[export] Instance Qltb_proper : Proper (Qeq ==> Qeq ==> eq) Qltb.
Proof. intros x x' Hx y y' Hy. unfold Qltb. now rewrite Hx, Hy. Qed.

(** [qbool] turns every boolean comparison among the hypotheses and in the
    goal into the proposition it decides; [qcase b] splits on the boolean [b]
    and does the same in both branches. *)
Ltac qbool :=
  repeat match goal with
  | H : Qltb _ _ = true |- _ => apply Qltb_lt in H
  | H : Qltb _ _ = false |- _ => apply Qltb_ge in H
  | H : Qle_bool _ _ = true |- _ => apply Qle_bool_iff in H
  | H : Qle_bool _ _ = false |- _ => apply Qle_bool_gt in H
  | H : Qeq_bool _ _ = true |- _ => apply Qeq_bool_iff in H
  | H : Qeq_bool _ _ = false |- _ => apply Qeq_bool_false in H
  | |- Qltb _ _ = true => apply Qltb_lt
  | |- Qltb _ _ = false => apply Qltb_ge
  | |- Qle_bool _ _ = true => apply Qle_bool_iff
  | |- Qle_bool _ _ = false => apply Qle_bool_gt
  | |- Qeq_bool _ _ = true => apply Qeq_bool_iff
  | |- Qeq_bool _ _ = false => apply Qeq_bool_false
  end.

Ltac qcase b := destruct b eqn:?; qbool.

(** Squares, for the planar distances of the geometry. *)
Lemma Qsq_nonneg (x : Q) : 0 <= x * x.
Proof. nra. Qed.

Lemma Qsq_sum_zero (x y : Q) : x * x + y * y == 0 <-> x == 0 /\ y == 0.
Proof. split; [intros H; split; nra | intros [Hx Hy]; nra]. Qed.

Lemma Qsq_sum_pos (x y : Q) : ~ (x == 0 /\ y == 0) -> 0 < x * x + y * y.
Proof.
  intros H. destruct (Qeq_dec (x * x + y * y) 0) as [Hz|Hnz].
  - apply Qsq_sum_zero in Hz. contradiction.
  - pose proof (Qsq_nonneg x). pose proof (Qsq_nonneg y). lra.
Qed.

(** [Math.max(0, Math.min(1, x))]. *)
Definition clamp01 (x : Q) : Q := Qmax 0 (Qmin 1 x).

Lemma clamp01_range (x : Q) : 0 <= clamp01 x <= 1.
Proof.
  unfold clamp01. split; [apply Q.le_max_l |].
  apply Q.max_lub; [lra | apply Q.le_min_l].
Qed.

Lemma clamp01_id (x : Q) : 0 <= x <= 1 -> clamp01 x == x.
Proof.
  intros [H0 H1]. unfold clamp01.
  rewrite (Q.min_r 1 x) by exact H1. now apply Q.max_r.
Qed.

Lemma clamp01_low (x : Q) : x <= 0 -> clamp01 x == 0.
Proof.
  intros H. unfold clamp01. apply Q.max_l.
  apply Qle_trans with x; [apply Q.le_min_r | exact H].
Qed.

Lemma clamp01_high (x : Q) : 1 <= x -> clamp01 x == 1.
Proof.
  intros H. unfold clamp01. rewrite (Q.min_l 1 x) by exact H.
  apply Q.max_r. lra.
Qed.

#[export] Instance clamp01_proper : Proper (Qeq ==> Qeq) clamp01.
Proof. intros x y H. unfold clamp01. now rewrite H. Qed.

(** ** JavaScript numbers as the code tests them

    A value read from the data is a number, [NaN], [null] or [undefined].
    [truthy v] is the coercion of [v] by [&&], [if] and [?:]; [isNaN v] is
    the global [isNaN(v)], which converts [null] to [0] and [undefined] to
    [NaN]; [present v] is [v !== null && v !== undefined]. *)

Inductive JsNum : Type :=
| JNum (q : Q)
| JNaN
| JNull
| JUndefined.

Definition truthy (v : JsNum) : bool :=
  match v with
  | JNum q => negb (Qeq_bool q 0)
  | JNaN | JNull | JUndefined => false
  end.

Definition isNaN (v : JsNum) : bool :=
  match v with
  | JNaN | JUndefined => true
  | JNum _ | JNull => false
  end.

Definition present (v : JsNum) : bool :=
  match v with
  | JNull | JUndefined => false
  | JNum _ | JNaN => true
  end.

(** The number a truthy value is: [None] on every falsy value. *)
Definition truthyNum (v : JsNum) : option Q :=
  match v with
  | JNum q => if Qeq_bool q 0 then None else Some q
  | JNaN | JNull | JUndefined => None
  end.

Lemma truthy_truthyNum (v : JsNum) : truthy v = true <-> is_Some (truthyNum v).
Proof.
  destruct v as [q| | |]; simpl; try (split; [discriminate | intros [? [=]]]).
  destruct (Qeq_bool q 0); simpl; split; eauto; try discriminate.
  intros [? [=]].
Qed.

Lemma truthyNum_Some (v : JsNum) (q : Q) :
  truthyNum v = Some q <-> v = JNum q /\ ~ q == 0.
Proof.
  destruct v as [q'| | |]; simpl; try (split; [discriminate | intros [[=] _]]).
  qcase (Qeq_bool q' 0); split.
  - discriminate.
  - intros [[= ->] Hq]. contradiction.
  - intros [= ->]. auto.
  - intros [[= ->] _]. reflexivity.
Qed.

(** A truthy value is never [NaN] for [isNaN]: the [!isNaN] conjuncts of
    MapViewer.tsx line 179 follow from the truthiness conjuncts. *)
Lemma truthy_not_isNaN (v : JsNum) : truthy v = true -> isNaN v = false.
Proof. destruct v; simpl; congruence. Qed.

Lemma truthy_present (v : JsNum) : truthy v = true -> present v = true.
Proof. destruct v; simpl; congruence. Qed.

#[export] Hint Resolve truthy_not_isNaN truthy_present : js.

(** ** Distances with [Infinity]

    A running minimum starts at [Infinity]; every distance compared with it
    is finite. *)

Inductive ExtQ : Type :=
| Fin (q : Q)
| Infinity.

(** [d < m] for a finite [d]. *)
Definition ltExt (d : Q) (m : ExtQ) : bool :=
  match m with
  | Fin q => Qltb d q
  | Infinity => true
  end.

(** [m < c] and [m > c] for a finite constant [c]. *)
Definition extLt (m : ExtQ) (c : Q) : bool :=
  match m with
  | Fin q => Qltb q c
  | Infinity => false
  end.

Definition extGt (m : ExtQ) (c : Q) : bool :=
  match m with
  | Fin q => Qltb c q
  | Infinity => true
  end.

(** The order [m <= d] as a proposition. *)
Definition ExtLe (m : ExtQ) (d : Q) : Prop :=
  match m with
  | Fin q => q <= d
  | Infinity => False
  end.

Definition ExtLeExt (m n : ExtQ) : Prop :=
  match n with
  | Fin d => ExtLe m d
  | Infinity => True
  end.

Lemma ExtLe_trans (m : ExtQ) (d e : Q) : ExtLe m d -> d <= e -> ExtLe m e.
Proof. destruct m; simpl; [apply Qle_trans | tauto]. Qed.

Lemma ltExt_false (d : Q) (m : ExtQ) : ltExt d m = false <-> ExtLe m d.
Proof. destruct m; simpl; [apply Qltb_ge | split; [discriminate | tauto]]. Qed.

Lemma extLt_extGt (m : ExtQ) (c c' : Q) :
  c <= c' -> extLt m c = true -> extGt m c' = false.
Proof. destruct m; simpl; [| discriminate]. intros; qbool. lra. Qed.

#[export] Hint Resolve ExtLe_trans : js.

(** ** The min-scan shared by the "closest candidate" loops

    Three loops of MapViewer.tsx have the same shape: run over candidates in
    order, skip some ([continue], or a guard around the body), and replace the
    running best whenever [distance < minDistance] holds strictly.  A
    candidate is [Some (d, b)] (distance and payload) or [None] when the loop
    body skips it. *)

Section Scan.
Context {B : Type}.
Implicit Types (acc r : ExtQ * B) (c : option (Q * B)) (cs : list (option (Q * B))).

Definition scanStep acc c : ExtQ * B :=
  match c with
  | Some (d, b) => if ltExt d acc.1 then (Fin d, b) else acc
  | None => acc
  end.

Definition scanMin acc cs : ExtQ * B := foldl scanStep acc cs.

(** What a scan returns: the initial value when no candidate beats it, or the
    first candidate of least distance. *)
Inductive ScanResult acc cs : ExtQ * B -> Prop :=
| scan_keep :
    (forall j d b, cs !! j = Some (Some (d, b)) -> ExtLe acc.1 d) ->
    ScanResult acc cs acc
| scan_pick i d b :
    cs !! i = Some (Some (d, b)) ->
    ltExt d acc.1 = true ->
    (forall j d' b', (j < i)%nat -> cs !! j = Some (Some (d', b')) -> d < d') ->
    (forall j d' b', cs !! j = Some (Some (d', b')) -> d <= d') ->
    ScanResult acc cs (Fin d, b).

Lemma scanMin_snoc acc cs c : scanMin acc (cs ++ [c]) = scanStep (scanMin acc cs) c.
Proof. unfold scanMin. now rewrite foldl_app. Qed.

Lemma ltExt_trans_le (d d' : Q) (m : ExtQ) :
  ltExt d m = true -> ExtLe m d' -> d < d'.
Proof. destruct m; simpl; [| tauto]. intros; qbool. lra. Qed.

Lemma ltExt_lt_trans (d d' : Q) (m : ExtQ) :
  d < d' -> ltExt d' m = true -> ltExt d m = true.
Proof. destruct m; simpl; [| reflexivity]. intros; qbool. lra. Qed.

Lemma lookup_snoc_inv {A} (l : list A) (x y : A) (j : nat) :
  (l ++ [x]) !! j = Some y ->
  ((j < length l)%nat /\ l !! j = Some y) \/ (j = length l /\ y = x).
Proof.
  intros H. destruct (decide (j < length l)%nat) as [Hlt|Hge].
  - left. split; [exact Hlt|]. now rewrite lookup_app_l in H.
  - right. rewrite lookup_app_r in H by lia.
    destruct (j - length l)%nat as [|n] eqn:E; simpl in H; [|discriminate].
    split; [lia | congruence].
Qed.

Lemma ScanResult_snoc_skip acc cs c r :
  ScanResult acc cs r ->
  (forall d b, c = Some (d, b) -> ExtLe r.1 d) ->
  ScanResult acc (cs ++ [c]) r.
Proof.
  intros Hr Hc. destruct Hr as [Hall | i d b Hi Hd Hbefore Hall].
  - apply scan_keep. intros j d' b' Hj.
    apply lookup_snoc_inv in Hj as [[_ Hj]|[_ Hj]]; eauto.
  - apply (scan_pick _ _ i); [now apply lookup_app_l_Some | exact Hd | |].
    + intros j d' b' Hji Hj. apply lookup_snoc_inv in Hj as [[_ Hj]|[Hj _]].
      * eauto.
      * apply lookup_lt_Some in Hi. lia.
    + intros j d' b' Hj. apply lookup_snoc_inv in Hj as [[_ Hj]|[_ Hj]]; [eauto|].
      symmetry in Hj. apply (Hc _ _ Hj).
Qed.

Lemma ScanResult_snoc_pick acc cs r d0 b0 :
  ScanResult acc cs r -> ltExt d0 r.1 = true ->
  ScanResult acc (cs ++ [Some (d0, b0)]) (Fin d0, b0).
Proof.
  intros Hr Hlt.
  assert (Hnew : (cs ++ [Some (d0, b0)]) !! length cs = Some (Some (d0, b0))).
  { rewrite lookup_app_r by lia. now rewrite Nat.sub_diag. }
  assert (Hold : forall j d' b', cs !! j = Some (Some (d', b')) -> d0 < d').
  { destruct Hr as [Hall | i d b Hi Hd Hbefore Hall]; intros j d' b' Hj.
    - eapply ltExt_trans_le; eauto.
    - simpl in Hlt. qbool. specialize (Hall _ _ _ Hj). lra. }
  apply (scan_pick _ _ (length cs)); auto.
  - destruct Hr as [Hall | i d b Hi Hd Hbefore Hall]; [exact Hlt|].
    simpl in Hlt. qbool. eapply ltExt_lt_trans; eauto.
  - intros j d' b' Hj Hl. rewrite lookup_app_l in Hl by exact Hj. eauto.
  - intros j d' b' Hj.
    apply lookup_snoc_inv in Hj as [[_ Hj]|[_ [= -> ->]]]; [|lra].
    apply Qlt_le_weak. eauto.
Qed.

Lemma scanMin_spec acc cs : ScanResult acc cs (scanMin acc cs).
Proof.
  induction cs as [|c cs IH] using rev_ind.
  - apply scan_keep. intros j d b Hj. now rewrite lookup_nil in Hj.
  - rewrite scanMin_snoc. destruct c as [[d0 b0]|]; simpl.
    + destruct (ltExt d0 (scanMin acc cs).1) eqn:Hlt.
      * eapply ScanResult_snoc_pick; eauto.
      * apply ScanResult_snoc_skip; [exact IH|].
        intros d b [= -> ->]. now apply ltExt_false.
    + apply ScanResult_snoc_skip; [exact IH|]. discriminate.
Qed.

(** The distance returned is a lower bound of every candidate's. *)
Lemma scanMin_lower_bound acc cs j d b :
  cs !! j = Some (Some (d, b)) -> ExtLe (scanMin acc cs).1 d.
Proof.
  intros Hj. destruct (scanMin_spec acc cs) as [Hall | i d0 b0 Hi Hd Hbefore Hall].
  - eauto.
  - simpl. eauto.
Qed.

(** The scan leaves [Infinity] only when it started there and every
    candidate was skipped. *)
Lemma scanMin_Infinity acc cs :
  (scanMin acc cs).1 = Infinity <->
  acc.1 = Infinity /\ forall j c, cs !! j = Some c -> c = None.
Proof.
  split.
  - intros Hinf. destruct (scanMin_spec acc cs) as [Hall | i d0 b0 Hi Hd Hbefore Hall].
    + split; [exact Hinf|]. intros j [[d b]|] Hj; [|reflexivity].
      specialize (Hall _ _ _ Hj). rewrite Hinf in Hall. contradiction.
    + discriminate.
  - intros [Hacc Hnone]. destruct (scanMin_spec acc cs) as [Hall | i d0 b0 Hi Hd Hbefore Hall].
    + exact Hacc.
    + specialize (Hnone _ _ Hi). discriminate.
Qed.

End Scan.

(** A scan does not look at the payloads: mapping them commutes with it. *)
Lemma scanMin_fmap {B C} (f : B -> C) (acc : ExtQ * B) (cs : list (option (Q * B))) :
  scanMin (acc.1, f acc.2) (fmap (M := option) (prod_map id f) <$> cs) =
  prod_map id f (scanMin acc cs).
Proof.
  induction cs as [|c cs IH] using rev_ind; [now destruct acc|].
  rewrite fmap_app, list_fmap_singleton, !scanMin_snoc, IH.
  destruct c as [[d b]|]; [|reflexivity].
  simpl. now destruct (ltExt d (scanMin acc cs).1).
Qed.

(** ** [Number.prototype.toFixed]

    [toFixed digits x] is the integer [n] for which [n / 10^digits - x] is as
    close to zero as possible, the larger [n] on a tie, computed on [|x|] with
    the sign restored: the digits the method prints, read without the decimal
    point.  (The sign of a negative value that rounds to zero is lost.) *)

Definition roundHalfUp (x : Q) : Z := Qfloor (x + (1 # 2)).

Definition pow10 (digits : nat) : Q := inject_Z (10 ^ Z.of_nat digits).

Definition toFixed (digits : nat) (x : Q) : Z :=
  if Qltb x 0
  then (- roundHalfUp (- x * pow10 digits))%Z
  else roundHalfUp (x * pow10 digits).

Lemma pow10_pos (digits : nat) : 0 < pow10 digits.
Proof.
  unfold pow10. change 0 with (inject_Z 0). rewrite <- Zlt_Qlt.
  apply Z.pow_pos_nonneg; lia.
Qed.

Lemma roundHalfUp_error (x : Q) :
  - (1 # 2) < inject_Z (roundHalfUp x) - x <= 1 # 2.
Proof.
  unfold roundHalfUp.
  pose proof (Qfloor_le (x + (1 # 2))) as Hle.
  pose proof (Qlt_floor (x + (1 # 2))) as Hlt.
  rewrite inject_Z_plus in Hlt. change (inject_Z 1) with 1 in Hlt. lra.
Qed.

Lemma roundHalfUp_inject (n : Z) : roundHalfUp (inject_Z n) = n.
Proof.
  pose proof (roundHalfUp_error (inject_Z n)) as [Hlo Hhi].
  assert (H1 : inject_Z (roundHalfUp (inject_Z n)) < inject_Z (n + 1)%Z).
  { rewrite inject_Z_plus. change (inject_Z 1%Z) with 1. lra. }
  assert (H2 : inject_Z (n - 1)%Z < inject_Z (roundHalfUp (inject_Z n))).
  { unfold Z.sub. rewrite inject_Z_plus, inject_Z_opp. change (inject_Z 1%Z) with 1. lra. }
  rewrite <- Zlt_Qlt in H1, H2. lia.
Qed.

(** ** [Array.prototype.forEach] with the index, and insertion-ordered [Map]

    [forEach f s l] threads the state [s] through the callback, which
    receives the index and the element, in array order. *)

Section ForEach.
Context {A St : Type}.
Implicit Types (f : St -> nat -> A -> St) (s : St) (l : list A).

Fixpoint forEachFrom f (k : nat) s l : St :=
  match l with
  | [] => s
  | x :: l' => forEachFrom f (S k) (f s k x) l'
  end.

Definition forEach f s l : St := forEachFrom f 0 s l.

Lemma forEachFrom_app f k s l1 l2 :
  forEachFrom f k s (l1 ++ l2) = forEachFrom f (k + length l1) (forEachFrom f k s l1) l2.
Proof.
  revert k s. induction l1 as [|x l1 IH]; intros k s; simpl.
  - now rewrite Nat.add_0_r.
  - rewrite IH. f_equal. lia.
Qed.

Lemma forEach_snoc f s l x :
  forEach f s (l ++ [x]) = f (forEach f s l) (length l) x.
Proof. unfold forEach. now rewrite forEachFrom_app. Qed.

(** An invariant of the callback that holds initially holds at the end. *)
Lemma forEach_invariant (P : St -> Prop) f s l :
  P s -> (forall s' k x, l !! k = Some x -> P s' -> P (f s' k x)) -> P (forEach f s l).
Proof.
  intros Hs Hf. induction l as [|x l IH] using rev_ind; [exact Hs|].
  rewrite forEach_snoc. apply Hf.
  - rewrite lookup_app_r by lia. now rewrite Nat.sub_diag.
  - apply IH. intros s' k y Hk. apply Hf. now apply lookup_app_l_Some.
Qed.

(** The same with the index in the invariant. *)
Lemma forEach_ind (P : nat -> St -> Prop) f s l :
  P 0%nat s ->
  (forall s' k x, l !! k = Some x -> P k s' -> P (S k) (f s' k x)) ->
  P (length l) (forEach f s l).
Proof.
  intros Hs Hf. induction l as [|x l IH] using rev_ind; [exact Hs|].
  rewrite forEach_snoc, length_app, Nat.add_1_r. apply Hf.
  - rewrite lookup_app_r by lia. now rewrite Nat.sub_diag.
  - apply IH. intros s' k y Hk. apply Hf. now apply lookup_app_l_Some.
Qed.

End ForEach.

(** A JavaScript [Map] keeps its keys in insertion order; [set] on a key
    that is present replaces the value in place. *)
Section JsMap.
Context {K V : Type} `{EqDecision K}.
Implicit Types (k : K) (v : V) (m : list (K * V)).

Fixpoint mapSet k v m : list (K * V) :=
  match m with
  | [] => [(k, v)]
  | (k', v') :: m' => if decide (k' = k) then (k, v) :: m' else (k', v') :: mapSet k v m'
  end.

Lemma mapSet_fresh k v m : k ∉ m.*1 -> mapSet k v m = m ++ [(k, v)].
Proof.
  induction m as [|[k' v'] m IH]; simpl; [reflexivity|].
  rewrite not_elem_of_cons. intros [Hne Hnotin].
  destruct (decide (k' = k)); [congruence|]. now rewrite IH.
Qed.

Lemma mapSet_keys k v m : (mapSet k v m).*1 = if decide (k ∈ m.*1) then m.*1 else m.*1 ++ [k].
Proof.
  induction m as [|[k' v'] m IH]; csimpl; [reflexivity|].
  destruct (decide (k' = k)) as [->|Hne]; csimpl.
  - rewrite decide_True by (apply elem_of_cons; now left). reflexivity.
  - rewrite IH. destruct (decide (k ∈ m.*1)) as [Hin|Hnotin].
    + rewrite decide_True by (apply elem_of_cons; now right). reflexivity.
    + rewrite decide_False; [reflexivity|].
      rewrite not_elem_of_cons. split; [congruence | exact Hnotin].
Qed.

Lemma mapSet_fresh_elem k v m kv :
  k ∉ m.*1 -> kv ∈ mapSet k v m <-> kv ∈ m \/ kv = (k, v).
Proof. intros Hk. rewrite mapSet_fresh by exact Hk. rewrite elem_of_app, list_elem_of_singleton. tauto. Qed.

Lemma mapSet_fresh_NoDup k v m : k ∉ m.*1 -> NoDup m.*1 -> NoDup (mapSet k v m).*1.
Proof.
  intros Hk Hnd. rewrite mapSet_keys, decide_False by exact Hk.
  apply NoDup_app. split_and!; [exact Hnd | | apply NoDup_singleton].
  intros x Hx ->%list_elem_of_singleton. contradiction.
Qed.

End JsMap.
