(* ===== verification/Machine.v ===== *)
(** * Machine: systems driven by events

    The components of the page are driven the same way: a state, events
    that arrive from outside (the user, a promise, the pointer), a test of
    whether an event can arrive in a state (the control that raises it is
    mounted, the promise is pending) and a handler.  [Machine] is that
    interface.  The files that model a system give an instance of it and
    get from here the states it can reach, its runs, the principle that an
    invariant holds in every state reached, and the transfer of invariants
    along a simulation; none of them proves these again.

    [Contract] (the events of the map, and the machine of the
    specification), [Views] (the user and the mounted controls),
    [Processing] (the call of the hook in flight) and [Session] (the page
    with the map still loading) are instances. *)

From stdpp Require Import prelude.

Class Machine (State Event : Type) : Type := mkMachine {
  start : State;
  allowed : State -> Event -> bool;
  advance : State -> Event -> State;
}.

Section Machine.
Context {State Event : Type} {M : Machine State Event}.
Implicit Types (s : State) (e : Event) (events : list Event) (P Q : State -> Prop).

(** The states the machine can be in. *)
Inductive reach : State -> Prop :=
| reach_start : reach start
| reach_advance s e : reach s -> allowed s e = true -> reach (advance s e).

(** A list of events, each allowed when its turn comes. *)
Fixpoint runs events s : option State :=
  match events with
  | [] => Some s
  | e :: rest => if allowed s e then runs rest (advance s e) else None
  end.

(** The handlers alone, whether or not the events are allowed. *)
Definition drive events s : State := foldl advance s events.

(** [P] holds at the start and every handler keeps it. *)
Record Invariant P : Prop := mkInvariant {
  invariant_start : P start;
  invariant_advance s e : P s -> allowed s e = true -> P (advance s e);
}.

(** From [s] some run leads to a state with [Q]. *)
Definition canReach s Q : Prop := exists events s', runs events s = Some s' /\ Q s'.

Lemma runs_app events1 events2 s :
  runs (events1 ++ events2) s = runs events1 s ≫= runs events2.
Proof.
  revert s. induction events1 as [|e events1 IH]; intros s; simpl; [reflexivity|].
  destruct (allowed s e); [apply IH | reflexivity].
Qed.

Lemma runs_snoc events e s s' :
  runs events s = Some s' -> allowed s' e = true ->
  runs (events ++ [e]) s = Some (advance s' e).
Proof. intros Hr He. rewrite runs_app, Hr. simpl. now rewrite He. Qed.

Lemma runs_drive events s s' : runs events s = Some s' -> s' = drive events s.
Proof.
  revert s. induction events as [|e events IH]; intros s; simpl.
  - now intros [= <-].
  - destruct (allowed s e); [apply IH | discriminate].
Qed.

Lemma runs_reach events s s' : reach s -> runs events s = Some s' -> reach s'.
Proof.
  revert s. induction events as [|e events IH]; intros s Hs; simpl.
  - now intros [= <-].
  - destruct (allowed s e) eqn:He; [|discriminate]. apply IH. now apply reach_advance.
Qed.

(** Every state reached is the end of a run from the start. *)
Lemma reach_runs s : reach s <-> exists events, runs events start = Some s.
Proof.
  split.
  - induction 1 as [|s e _ [events Hr] He]; [now exists []|].
    exists (events ++ [e]). now apply runs_snoc.
  - intros [events Hr]. exact (runs_reach events start s reach_start Hr).
Qed.

Lemma invariant_reach P : Invariant P -> forall s, reach s -> P s.
Proof. intros [H0 Hstep]. induction 1; eauto. Qed.

(** An invariant may lean on one already proved. *)
Lemma invariant_reach_with P Q :
  (forall s, reach s -> Q s) -> P start ->
  (forall s e, Q s -> P s -> allowed s e = true -> P (advance s e)) ->
  forall s, reach s -> P s.
Proof. intros HQ H0 Hstep. induction 1; eauto. Qed.

Lemma invariant_runs P events s s' :
  (forall s e, P s -> allowed s e = true -> P (advance s e)) ->
  P s -> runs events s = Some s' -> P s'.
Proof.
  intros Hstep. revert s. induction events as [|e events IH]; intros s Hs; simpl.
  - now intros [= <-].
  - destruct (allowed s e) eqn:He; [|discriminate]. apply IH. now apply Hstep.
Qed.

Lemma canReach_now s Q : Q s -> canReach s Q.
Proof. intros Hq. now exists [], s. Qed.

Lemma canReach_advance s e Q :
  allowed s e = true -> canReach (advance s e) Q -> canReach s Q.
Proof.
  intros He (events & s' & Hr & Hq). exists (e :: events), s'. simpl. now rewrite He.
Qed.

Lemma canReach_runs events s s' Q : runs events s = Some s' -> canReach s' Q -> canReach s Q.
Proof.
  intros Hr (events' & s'' & Hr' & Hq). exists (events ++ events'), s''.
  now rewrite runs_app, Hr.
Qed.

Lemma canReach_reach s Q : reach s -> canReach s Q -> exists s', reach s' /\ Q s'.
Proof. intros Hs (events & s' & Hr & Hq). exists s'. eauto using runs_reach. Qed.

End Machine.

Arguments reach {State Event} M s.
Arguments runs {State Event} M events s.
Arguments drive {State Event} M events s.
Arguments Invariant {State Event} M P.
Arguments canReach {State Event} M s Q.

(** ** Simulation

    [Concrete] is simulated by [Abstract] when related states stay related:
    every event allowed in the concrete state is answered by a run of the
    abstract machine, the events [translate] gives for it, none when the
    event changes nothing the abstract machine sees. *)

Section Simulation.
Context {CState CEvent AState AEvent : Type}.
Context (Concrete : Machine CState CEvent) (Abstract : Machine AState AEvent).
Context (related : CState -> AState -> Prop) (translate : CEvent -> list AEvent).

Record Simulation : Prop := mkSimulation {
  simulation_start : related (start (Machine := Concrete)) (start (Machine := Abstract));
  simulation_advance c a e :
    reach Concrete c -> related c a -> allowed c e = true ->
    exists a', runs Abstract (translate e) a = Some a' /\ related (advance c e) a';
}.

Context (Hsim : Simulation).

Lemma simulation_runs events c c' a :
  reach Concrete c -> related c a -> runs Concrete events c = Some c' ->
  exists a', runs Abstract (events ≫= translate) a = Some a' /\ related c' a'.
Proof.
  revert c a. induction events as [|e events IH]; intros c a Hc Hrel; simpl.
  - intros [= <-]. eauto.
  - destruct (allowed c e) eqn:He; [|discriminate]. intros Hr.
    destruct (simulation_advance Hsim c a e Hc Hrel He) as (a1 & Ha1 & Hrel1).
    destruct (IH _ _ (reach_advance c e Hc He) Hrel1 Hr) as (a' & Ha' & Hrel').
    exists a'. rewrite runs_app, Ha1. auto.
Qed.

(** Every state the concrete machine reaches is related to one the
    abstract machine reaches. *)
Lemma simulation_reach c : reach Concrete c -> exists a, reach Abstract a /\ related c a.
Proof.
  induction 1 as [|c e Hc (a & Ha & Hrel) He].
  - exists start. split; [constructor | apply (simulation_start Hsim)].
  - destruct (simulation_advance Hsim c a e Hc Hrel He) as (a' & Hr & Hrel').
    exists a'. eauto using runs_reach.
Qed.

(** What holds of every abstract state reached holds, read through the
    relation, of every concrete state reached. *)
Lemma simulation_transfer (P : AState -> Prop) (Q : CState -> Prop) :
  (forall a, reach Abstract a -> P a) ->
  (forall c a, related c a -> P a -> Q c) ->
  forall c, reach Concrete c -> Q c.
Proof.
  intros HP HQ c Hc. destruct (simulation_reach c Hc) as (a & Ha & Hrel). eauto.
Qed.

End Simulation.

(** ** Projection

    A simulation given by a function: the two machines have the same
    events, every state of [Concrete] has one abstract state, an event
    allowed in a state reached is allowed in its abstract state, and the
    handlers commute with the function. *)

Section Projection.
Context {CState AState Event : Type}.
Context (Concrete : Machine CState Event) (Abstract : Machine AState Event).
Context (project : CState -> AState).

Record Projection : Prop := mkProjection {
  projection_start : project (start (Machine := Concrete)) = start (Machine := Abstract);
  projection_allowed c e :
    reach Concrete c -> allowed c e = true -> allowed (project c) e = true;
  projection_advance c e :
    reach Concrete c -> allowed c e = true -> project (advance c e) = advance (project c) e;
}.

Context (Hproj : Projection).

Lemma projection_simulation :
  Simulation Concrete Abstract (fun c a => a = project c) (fun e => [e]).
Proof.
  split; [symmetry; apply (projection_start Hproj)|].
  intros c a e Hc -> He. exists (project (advance c e)). split; [|reflexivity].
  simpl. rewrite (projection_allowed Hproj c e Hc He).
  now rewrite (projection_advance Hproj c e Hc He).
Qed.

(** The abstract machine runs the same events to the abstract state. *)
Lemma projection_runs events c c' :
  reach Concrete c -> runs Concrete events c = Some c' ->
  runs Abstract events (project c) = Some (project c').
Proof.
  revert c. induction events as [|e events IH]; intros c Hc; simpl.
  - now intros [= <-].
  - destruct (allowed c e) eqn:He; [|discriminate].
    rewrite (projection_allowed Hproj c e Hc He), <- (projection_advance Hproj c e Hc He).
    apply IH. now apply reach_advance.
Qed.

Lemma projection_reach c : reach Concrete c -> reach Abstract (project c).
Proof.
  intros Hc. destruct (simulation_reach _ _ _ _ projection_simulation c Hc) as (a & Ha & ->).
  exact Ha.
Qed.

(** What holds of every abstract state reached holds of the abstract
    state of every concrete state reached. *)
Lemma projection_transfer (P : AState -> Prop) :
  (forall a, reach Abstract a -> P a) -> forall c, reach Concrete c -> P (project c).
Proof. intros HP c Hc. apply HP, projection_reach, Hc. Qed.

End Projection.
