(* ===== verification/DataModel.v ===== *)
(** * The journey model read by the map viewer

    The records of [CSVIntervalResult] as [MapViewer.tsx] reads them (the
    type itself is declared by the ingestion hook, outside [src/]): the
    fields the component accesses, with the tests it applies to them.
    A point of a polyline is a pair [[lat, lon]] of numbers. *)

From Stdlib Require Import QArith Lqa.
From stdpp Require Import prelude strings.
From S2P Require Import Prelude.

(** A position: the array [[lat, lng]] the code builds, or a Leaflet
    [LatLng]; [p.1] is [p[0]] / [p.lat] and [p.2] is [p[1]] / [p.lng]. *)
Abbreviation LatLng := (Q * Q)%type.

#[export] Instance Q_equiv : Equiv Q := Qeq.
#[export] Instance Q_equivalence : Equivalence (≡@{Q}) := Q_Setoid.

Lemma LatLng_equiv_unfold (p q : LatLng) : p ≡ q <-> p.1 == q.1 /\ p.2 == q.2.
Proof. destruct p, q. split; intros [? ?]; split; assumption. Qed.

Record CoordinatePoint : Type := mkPoint {
  lat : JsNum;
  lon : JsNum;
  speed : JsNum;
}.

Record Interval : Type := mkInterval {
  journeyIndex : option Z;        (* [None]: not of type number; a number is an integer *)
  intervalNumber : Z;
  startTime : option Z;           (* epoch milliseconds; [None]: absent *)
  endTime : option Z;
  avgSpeed : JsNum;
  navStatus : string;
  classificationType : string;    (* the empty string is falsy *)
  duration : string;
  coordinatePoints : list CoordinatePoint;
}.

(** [interval.startTime ? ... : 'N/A'] (lines 208-210, 304-310, 521-522): the
    test is for a truthy value, and the time 0 is falsy like an absent
    one. *)
Definition truthyTime (t : option Z) : option Z :=
  match t with
  | Some 0%Z => None
  | _ => t
  end.

Record JourneyMetadata : Type := mkMetadata {
  isIncomplete : bool;
}.

Record Journey : Type := mkJourney {
  journey_journeyIndex : Z;
  metadata : option JourneyMetadata;
  intervals : list Interval;
}.

Record CSVData : Type := mkData {
  journeys : list Journey;
}.

Record CSVIntervalResult : Type := mkResult {
  success : bool;
  data : option CSVData;
}.

(** ** Usable points (MapViewer.tsx 176-182)

    [if (point.lat && point.lon && !isNaN(point.lat) && !isNaN(point.lon))
       intervalCoordinates.push([point.lat, point.lon])] *)

Definition usablePoint (p : CoordinatePoint) : bool :=
  truthy (lat p) && truthy (lon p) && negb (isNaN (lat p)) && negb (isNaN (lon p)).

Definition coordinateOf (p : CoordinatePoint) : option LatLng :=
  if usablePoint p
  then match lat p, lon p with
       | JNum a, JNum b => Some (a, b)
       | _, _ => None
       end
  else None.

Definition intervalCoordinates (i : Interval) : list LatLng :=
  omap coordinateOf (coordinatePoints i).

(** The test of lines 250 and 489, without the [isNaN] conjuncts. *)
Definition truthyPoint (p : CoordinatePoint) : option LatLng :=
  match truthyNum (lat p), truthyNum (lon p) with
  | Some a, Some b => Some (a, b)
  | _, _ => None
  end.

Section DataModelFacts.
Implicit Types (p : CoordinatePoint) (i : Interval) (c : LatLng).

Lemma usablePoint_truthy p :
  usablePoint p = true <-> truthy (lat p) = true /\ truthy (lon p) = true.
Proof.
  unfold usablePoint. rewrite !andb_true_iff, !negb_true_iff. split.
  - tauto.
  - intros [Hlat Hlon]. auto with js.
Qed.

(** The two tests accept the same points: the [isNaN] conjuncts are
    redundant. *)
Lemma coordinateOf_truthyPoint p : coordinateOf p = truthyPoint p.
Proof.
  unfold coordinateOf, truthyPoint, usablePoint.
  destruct (lat p) as [a| | |], (lon p) as [b| | |]; simpl; try reflexivity;
    destruct (Qeq_bool a 0); simpl; try reflexivity;
    destruct (Qeq_bool b 0); reflexivity.
Qed.

Lemma truthyPoint_Some p c :
  truthyPoint p = Some c <->
  truthyNum (lat p) = Some c.1 /\ truthyNum (lon p) = Some c.2.
Proof.
  unfold truthyPoint. destruct c as [a b]. simpl.
  destruct (truthyNum (lat p)), (truthyNum (lon p)); split;
    try discriminate; try (intros [[=] [=]]; fail);
    [intros [= -> ->] | intros [[= ->] [= ->]]]; auto.
Qed.

Lemma coordinateOf_Some p c :
  coordinateOf p = Some c <->
  lat p = JNum c.1 /\ lon p = JNum c.2 /\ ~ c.1 == 0 /\ ~ c.2 == 0.
Proof.
  rewrite coordinateOf_truthyPoint, truthyPoint_Some, !truthyNum_Some. tauto.
Qed.

(** No coordinate of a polyline lies on the equator or on the prime
    meridian: such points are dropped as falsy. *)
Lemma intervalCoordinates_nonzero i c :
  c ∈ intervalCoordinates i -> ~ c.1 == 0 /\ ~ c.2 == 0.
Proof.
  unfold intervalCoordinates. rewrite list_elem_of_omap.
  intros (p & _ & Hp). apply coordinateOf_Some in Hp. tauto.
Qed.

Lemma intervalCoordinates_length i :
  (length (intervalCoordinates i) <= length (coordinatePoints i))%nat.
Proof.
  unfold intervalCoordinates. induction (coordinatePoints i) as [|p ps IH]; csimpl.
  - lia.
  - destruct (coordinateOf p); csimpl; lia.
Qed.

End DataModelFacts.
