(* ===== verification/Surface.v ===== *)
(** * The map surface capability

    [MapViewer.tsx] measures every distance with
    [mapInstanceRef.current.distance(a, b)], a service of the Leaflet map
    that is not part of the sources.  The model states what the viewer needs
    of it as a class: the operation [distance] and, separately, the laws the
    geometric theorems assume.  Three instances run inside the kernel and
    serve as concrete surfaces for the examples. *)

From Stdlib Require Import QArith Qabs Lqa.
From stdpp Require Import prelude.
From S2P Require Import Prelude DataModel.

(** [map.distance(a, b)] (lines 251, 381, 390, 581), as an exact rational:
    Leaflet returns a double.  Leaflet's distance is the great-circle
    distance on the sphere: it is lawful, up to rounding, and it is not
    isotropic, a degree of longitude being shorter than a degree of
    latitude away from the equator; [anisoSurface] has that property and
    [Geometry] shows what fails on it. *)
Class MapSurface : Type := distance : LatLng -> LatLng -> Q.

(** A surface is lawful when [distance] respects equality of rationals and
    is zero exactly between equal positions. *)
Class MapSurfaceLaws (S : MapSurface) : Prop := {
  distance_proper :: Proper ((≡) ==> (≡) ==> Qeq) (@distance S);
  distance_nonneg (p q : LatLng) : 0 <= distance p q;
  distance_zero (p q : LatLng) : distance p q == 0 <-> p ≡ q;
}.

(** The squared planar distance in degree space: the metric in which the
    projection of [getClosestPointOnLine] is computed. *)
Definition sqDist (p q : LatLng) : Q :=
  (p.1 - q.1) * (p.1 - q.1) + (p.2 - q.2) * (p.2 - q.2).

(** A surface is isotropic when its distances are ordered like the planar
    ones. *)
Class Isotropic (S : MapSurface) : Prop :=
  distance_isotropic (m p q : LatLng) :
    distance m p <= distance m q <-> sqDist m p <= sqDist m q.

(** A function of two positions built from the field operations respects
    equality of rationals: rewrite with the four component equations. *)
Ltac latlng_proper :=
  let p := fresh "p" in let p' := fresh "p'" in let Hp := fresh "Hp" in
  let q := fresh "q" in let q' := fresh "q'" in let Hq := fresh "Hq" in
  intros p p' Hp q q' Hq;
  apply LatLng_equiv_unfold in Hp as [?Ha ?Hb];
  apply LatLng_equiv_unfold in Hq as [?Hc ?Hd];
  unfold equiv, Q_equiv in *;
  repeat match goal with H : _ == _ |- _ => rewrite H; clear H end;
  reflexivity.

#[export] Instance sqDist_proper : Proper ((≡) ==> (≡) ==> Qeq) sqDist.
Proof. unfold sqDist. latlng_proper. Qed.

Lemma sqDist_nonneg (p q : LatLng) : 0 <= sqDist p q.
Proof.
  unfold sqDist. pose proof (Qsq_nonneg (p.1 - q.1)).
  pose proof (Qsq_nonneg (p.2 - q.2)). lra.
Qed.

Lemma sqDist_zero (p q : LatLng) : sqDist p q == 0 <-> p ≡ q.
Proof.
  rewrite LatLng_equiv_unfold. unfold sqDist. rewrite Qsq_sum_zero.
  split; intros [H1 H2]; split; lra.
Qed.

(** ** Instances *)

(** Planar: the squared degree distance itself. *)
Definition planarSurface : MapSurface := sqDist.

(** Manhattan distance in metres, 111 km to the degree. *)
Definition manhattanSurface : MapSurface :=
  fun p q => 111000 * (Qabs (p.1 - q.1) + Qabs (p.2 - q.2)).

(** A surface on which a degree of longitude is half a degree of latitude,
    as on the sphere at 60 degrees north. *)
Definition anisoSurface : MapSurface :=
  fun p q => (p.1 - q.1) * (p.1 - q.1) + (1 # 4) * ((p.2 - q.2) * (p.2 - q.2)).

#[export] Instance planarSurface_laws : MapSurfaceLaws planarSurface.
Proof.
  split.
  - exact sqDist_proper.
  - exact sqDist_nonneg.
  - exact sqDist_zero.
Qed.

#[export] Instance planarSurface_isotropic : Isotropic planarSurface.
Proof. intros m p q. reflexivity. Qed.

Lemma Qabs_zero_iff (x : Q) : Qabs x == 0 <-> x == 0.
Proof.
  split; intros H.
  - revert H. apply Qabs_case; intros; lra.
  - rewrite H. reflexivity.
Qed.

#[export] Instance manhattanSurface_laws : MapSurfaceLaws manhattanSurface.
Proof.
  split.
  - cbv [distance manhattanSurface]. latlng_proper.
  - intros p q. cbv [distance manhattanSurface].
    pose proof (Qabs_nonneg (p.1 - q.1)). pose proof (Qabs_nonneg (p.2 - q.2)). lra.
  - intros p q. rewrite LatLng_equiv_unfold. cbv [distance manhattanSurface].
    pose proof (Qabs_nonneg (p.1 - q.1)). pose proof (Qabs_nonneg (p.2 - q.2)).
    split.
    + intros H1. assert (Qabs (p.1 - q.1) == 0 /\ Qabs (p.2 - q.2) == 0) as [Ha Hb]
        by (split; lra).
      apply (proj1 (Qabs_zero_iff _)) in Ha, Hb. split; lra.
    + intros [Ha Hb].
      assert (Qabs (p.1 - q.1) == 0) as -> by (apply Qabs_zero_iff; lra).
      assert (Qabs (p.2 - q.2) == 0) as -> by (apply Qabs_zero_iff; lra).
      lra.
Qed.

#[export] Instance anisoSurface_laws : MapSurfaceLaws anisoSurface.
Proof.
  split.
  - cbv [distance anisoSurface]. latlng_proper.
  - intros p q. cbv [distance anisoSurface].
    pose proof (Qsq_nonneg (p.1 - q.1)). pose proof (Qsq_nonneg (p.2 - q.2)). lra.
  - intros p q. rewrite LatLng_equiv_unfold. cbv [distance anisoSurface].
    set (x := p.1 - q.1). set (y := p.2 - q.2).
    assert (Hx : x == 0 <-> p.1 == q.1) by (unfold x; split; lra).
    assert (Hy : y == 0 <-> p.2 == q.2) by (unfold y; split; lra).
    rewrite <- Hx, <- Hy. clearbody x y. split; [intros H; split; nra | intros [? ?]; nra].
Qed.

Section SurfaceFacts.
Context {S : MapSurface} {Laws : MapSurfaceLaws S}.

Lemma distance_self (p : LatLng) : distance p p == 0.
Proof. apply distance_zero. reflexivity. Qed.

Lemma distance_pos (p q : LatLng) : ~ p ≡ q -> 0 < distance p q.
Proof.
  intros Hne. pose proof (distance_nonneg p q) as Hge.
  destruct (Qeq_dec (distance p q) 0) as [Hz|Hnz].
  - apply distance_zero in Hz. contradiction.
  - lra.
Qed.

End SurfaceFacts.
