(* ===== verification/Geometry.v ===== *)
(** * Geometry engine: the closest point on a polyline

    [getClosestPointOnLine] of [MapViewer.tsx] (lines 369-402): for each
    consecutive pair of vertices, the projection of the cursor on the
    segment, clamped to the segment, and the least distance over the
    segments.  The file states the loop over the shared min-scan of the
    prelude and proves what the tooltip relies on. *)

From Stdlib Require Import QArith Qabs Lqa.
From stdpp Require Import prelude.
From S2P Require Import Prelude DataModel Surface.

(** The value [{ point, distance, segmentIndex }] returned, under the names
    of the local variables that hold its fields.  [closestPoint] is [None]
    when the line is empty ([lineCoordinates[0]] is [undefined]). *)
Record ClosestPoint : Type := mkClosestPoint {
  closestPoint : option LatLng;
  closestDistance : ExtQ;
  closestSegmentIndex : nat;
}.

(** ** The projection on one segment (lines 385-390) *)

Definition projectionNumerator (mouseLatLng p1 p2 : LatLng) : Q :=
  (mouseLatLng.1 - p1.1) * (p2.1 - p1.1) + (mouseLatLng.2 - p1.2) * (p2.2 - p1.2).

Definition projectionDenominator (p1 p2 : LatLng) : Q :=
  (p2.1 - p1.1) * (p2.1 - p1.1) + (p2.2 - p1.2) * (p2.2 - p1.2).

(** [t]: the parameter of the projection, clamped to the segment.  The
    denominator is zero only when the two vertices are equal.  The code
    divides after the test [segmentLength === 0]: on a surface whose
    distance is zero between equal positions, as Leaflet's is, the
    division is never by zero ([segmentCandidate_division_safe]).  On
    another surface JavaScript would give [NaN] where the division of [Q]
    gives 0. *)
Definition projectionParam (mouseLatLng p1 p2 : LatLng) : Q :=
  clamp01 (projectionNumerator mouseLatLng p1 p2 / projectionDenominator p1 p2).

(** The point [p1 + t (p2 - p1)]. *)
Definition pointAt (p1 p2 : LatLng) (t : Q) : LatLng :=
  (p1.1 + t * (p2.1 - p1.1), p1.2 + t * (p2.2 - p1.2)).

Definition projectedPoint (mouseLatLng p1 p2 : LatLng) : LatLng :=
  pointAt p1 p2 (projectionParam mouseLatLng p1 p2).

(** The pairs [(lineCoordinates[i], lineCoordinates[i + 1])] for
    [0 <= i < length - 1]. *)
Definition segments (lineCoordinates : list LatLng) : list (LatLng * LatLng) :=
  zip lineCoordinates (drop 1 lineCoordinates).

Section Geometry.
Context {surface : MapSurface}.
Implicit Types (m : LatLng) (l : list LatLng).

(** One iteration of the loop body: [None] when the segment has length zero
    ([continue]), else the distance to the projected point with the values
    the loop would store. *)
Definition segmentCandidate (mouseLatLng : LatLng) (i : nat) (seg : LatLng * LatLng)
  : option (Q * (nat * option LatLng)) :=
  let segmentLength := distance seg.1 seg.2 in
  if Qeq_bool segmentLength 0 then None
  else
    let projected := projectedPoint mouseLatLng seg.1 seg.2 in
    Some (distance mouseLatLng projected, (i, Some projected)).

Definition getClosestPointOnLine (mouseLatLng : LatLng) (lineCoordinates : list LatLng)
  : ClosestPoint :=
  let r := scanMin (Infinity, (O, head lineCoordinates))
             (imap (segmentCandidate mouseLatLng) (segments lineCoordinates)) in
  {| closestPoint := r.2.2; closestDistance := r.1; closestSegmentIndex := r.2.1 |}.

(** ** Segments and candidates *)

Lemma segments_lookup l i p1 p2 :
  segments l !! i = Some (p1, p2) <-> l !! i = Some p1 /\ l !! S i = Some p2.
Proof.
  unfold segments. rewrite lookup_zip_with_Some. setoid_rewrite lookup_drop. split.
  - intros (x & y & [= -> ->] & Hx & Hy). auto.
  - intros [Hx Hy]. eauto.
Qed.

Lemma segments_length l : length (segments l) = (length l - 1)%nat.
Proof. unfold segments. rewrite length_zip_with, length_drop. lia. Qed.

Lemma candidate_lookup m l i d b :
  imap (segmentCandidate m) (segments l) !! i = Some (Some (d, b)) <->
  exists p1 p2, l !! i = Some p1 /\ l !! S i = Some p2 /\
    ~ distance p1 p2 == 0 /\
    d = distance m (projectedPoint m p1 p2) /\
    b = (i, Some (projectedPoint m p1 p2)).
Proof.
  rewrite list_lookup_imap. unfold segmentCandidate. split.
  - destruct (segments l !! i) as [[p1 p2]|] eqn:Hseg; simpl; [|discriminate].
    apply segments_lookup in Hseg as [H1 H2].
    qcase (Qeq_bool (distance p1 p2) 0); [discriminate|].
    intros [= <- <-]. eauto 10.
  - intros (p1 & p2 & H1 & H2 & Hne & -> & ->).
    rewrite (proj2 (segments_lookup l i p1 p2) (conj H1 H2)). simpl.
    qcase (Qeq_bool (distance p1 p2) 0); [contradiction | reflexivity].
Qed.

Lemma candidate_skipped m l i :
  imap (segmentCandidate m) (segments l) !! i = Some None <->
  exists p1 p2, l !! i = Some p1 /\ l !! S i = Some p2 /\ distance p1 p2 == 0.
Proof.
  rewrite list_lookup_imap. unfold segmentCandidate. split.
  - destruct (segments l !! i) as [[p1 p2]|] eqn:Hseg; simpl; [|discriminate].
    apply segments_lookup in Hseg as [H1 H2].
    qcase (Qeq_bool (distance p1 p2) 0); [eauto 10 | discriminate].
  - intros (p1 & p2 & H1 & H2 & Hz).
    rewrite (proj2 (segments_lookup l i p1 p2) (conj H1 H2)). simpl.
    qcase (Qeq_bool (distance p1 p2) 0); [reflexivity | contradiction].
Qed.

(** ** The contract of [getClosestPointOnLine]

    Either every segment is degenerate and the initial values are returned,
    or the result is the projection on the first segment of least distance
    among the non-degenerate ones. *)

Definition nondegenerate l (i : nat) (p1 p2 : LatLng) : Prop :=
  l !! i = Some p1 /\ l !! S i = Some p2 /\ ~ distance p1 p2 == 0.

Inductive ClosestSpec m l : ClosestPoint -> Prop :=
| closest_none :
    (forall i p1 p2, l !! i = Some p1 -> l !! S i = Some p2 -> distance p1 p2 == 0) ->
    ClosestSpec m l (mkClosestPoint (head l) Infinity 0)
| closest_some i p1 p2 :
    nondegenerate l i p1 p2 ->
    (forall j q1 q2, (j < i)%nat -> nondegenerate l j q1 q2 ->
       distance m (projectedPoint m p1 p2) < distance m (projectedPoint m q1 q2)) ->
    (forall j q1 q2, nondegenerate l j q1 q2 ->
       distance m (projectedPoint m p1 p2) <= distance m (projectedPoint m q1 q2)) ->
    ClosestSpec m l
      (mkClosestPoint (Some (projectedPoint m p1 p2))
         (Fin (distance m (projectedPoint m p1 p2))) i).

Lemma nondegenerate_candidate m l j q1 q2 :
  nondegenerate l j q1 q2 ->
  imap (segmentCandidate m) (segments l) !! j =
    Some (Some (distance m (projectedPoint m q1 q2), (j, Some (projectedPoint m q1 q2)))).
Proof. intros (H1 & H2 & Hne). apply candidate_lookup. eauto 10. Qed.

Lemma segment_cases l i p1 p2 :
  l !! i = Some p1 -> l !! S i = Some p2 ->
  distance p1 p2 == 0 \/ nondegenerate l i p1 p2.
Proof.
  intros H1 H2. unfold nondegenerate. destruct (Qeq_dec (distance p1 p2) 0); auto.
Qed.

Lemma getClosestPointOnLine_ClosestSpec m l : ClosestSpec m l (getClosestPointOnLine m l).
Proof.
  unfold getClosestPointOnLine.
  destruct (scanMin_spec (Infinity, (O, head l)) (imap (segmentCandidate m) (segments l)))
    as [Hall | i d b Hi _ Hbefore Hall]; simpl.
  - apply closest_none. intros i p1 p2 H1 H2.
    destruct (segment_cases l i p1 p2 H1 H2) as [Hz|Hnd]; [exact Hz|].
    destruct (Hall _ _ _ (nondegenerate_candidate m l i p1 p2 Hnd)).
  - apply candidate_lookup in Hi as (p1 & p2 & H1 & H2 & Hne & -> & ->). simpl.
    apply closest_some; [unfold nondegenerate; auto | |].
    + intros j q1 q2 Hj Hnd.
      exact (Hbefore j _ _ Hj (nondegenerate_candidate m l j q1 q2 Hnd)).
    + intros j q1 q2 Hnd.
      exact (Hall j _ _ (nondegenerate_candidate m l j q1 q2 Hnd)).
Qed.

Lemma nondegenerate_inj l i p1 p2 q1 q2 :
  nondegenerate l i p1 p2 -> nondegenerate l i q1 q2 -> p1 = q1 /\ p2 = q2.
Proof. intros (H1 & H2 & _) (H1' & H2' & _). split; congruence. Qed.

Lemma ClosestSpec_unique m l r r' :
  ClosestSpec m l r -> ClosestSpec m l r' -> r = r'.
Proof.
  intros [Hz | i p1 p2 Hnd Hbefore Hall] [Hz' | i' p1' p2' Hnd' Hbefore' Hall'].
  - reflexivity.
  - destruct Hnd' as (H1 & H2 & Hne). destruct Hne. eauto.
  - destruct Hnd as (H1 & H2 & Hne). destruct Hne. eauto.
  - assert (i = i') as <-.
    { destruct (Nat.lt_trichotomy i i') as [Hlt|[Heq|Hgt]]; [|exact Heq|].
      - specialize (Hbefore' _ _ _ Hlt Hnd). specialize (Hall _ _ _ Hnd'). lra.
      - specialize (Hbefore _ _ _ Hgt Hnd'). specialize (Hall' _ _ _ Hnd). lra. }
    destruct (nondegenerate_inj _ _ _ _ _ _ Hnd Hnd') as [<- <-]. reflexivity.
Qed.

(** C1. [getClosestPointOnLine] is characterised by its contract: a value
    satisfies [ClosestSpec] exactly when it is the value the function
    returns. *)
Theorem getClosestPointOnLine_characterised m l r :
  ClosestSpec m l r <-> r = getClosestPointOnLine m l.
Proof.
  split.
  - intros Hr. eapply ClosestSpec_unique; [exact Hr|]. apply getClosestPointOnLine_ClosestSpec.
  - intros ->. apply getClosestPointOnLine_ClosestSpec.
Qed.

Lemma projectionParam_range m (p1 p2 : LatLng) : 0 <= projectionParam m p1 p2 <= 1.
Proof. apply clamp01_range. Qed.

(** C13. When a distance is returned, the returned point lies on the segment
    of the returned index, at a parameter between 0 and 1, that segment is
    not degenerate, and the returned distance is the distance from the
    cursor to the returned point. *)
Theorem getClosestPointOnLine_on_segment m l d :
  closestDistance (getClosestPointOnLine m l) = Fin d ->
  exists p1 p2 t,
    nondegenerate l (closestSegmentIndex (getClosestPointOnLine m l)) p1 p2 /\
    0 <= t <= 1 /\
    closestPoint (getClosestPointOnLine m l) = Some (pointAt p1 p2 t) /\
    d = distance m (pointAt p1 p2 t).
Proof.
  destruct (getClosestPointOnLine_ClosestSpec m l) as [Hz | i p1 p2 Hnd _ _]; simpl.
  - discriminate.
  - intros [= <-]. exists p1, p2, (projectionParam m p1 p2).
    split_and!; auto; apply projectionParam_range.
Qed.

Lemma getClosestPointOnLine_minimal_aux m l j q1 q2 :
  nondegenerate l j q1 q2 ->
  ExtLe (closestDistance (getClosestPointOnLine m l))
        (distance m (projectedPoint m q1 q2)).
Proof.
  intros Hnd. destruct (getClosestPointOnLine_ClosestSpec m l) as [Hz | i p1 p2 _ _ Hall]; simpl.
  - destruct Hnd as (H1 & H2 & Hne). destruct Hne. eauto.
  - eauto.
Qed.

Lemma getClosestPointOnLine_Infinity_aux m l :
  (forall i p1 p2, l !! i = Some p1 -> l !! S i = Some p2 -> distance p1 p2 == 0) ->
  closestDistance (getClosestPointOnLine m l) = Infinity.
Proof.
  intros Hz. destruct (getClosestPointOnLine_ClosestSpec m l) as [_ | i p1 p2 Hnd _ _]; simpl.
  - reflexivity.
  - destruct Hnd as (H1 & H2 & Hne). destruct Hne. eauto.
Qed.

(** The returned distance is at most the distance from the cursor to
    the projection on any non-degenerate segment of the line. *)
Theorem getClosestPointOnLine_minimal m l j q1 q2 :
  nondegenerate l j q1 q2 ->
  ExtLe (closestDistance (getClosestPointOnLine m l))
        (distance m (projectedPoint m q1 q2)).
Proof.
  apply getClosestPointOnLine_minimal_aux.
Qed.

(** Ties go to the first segment: every non-degenerate segment before
    the returned index is strictly farther than the returned distance. *)
Theorem getClosestPointOnLine_first_minimum m l d j q1 q2 :
  closestDistance (getClosestPointOnLine m l) = Fin d ->
  (j < closestSegmentIndex (getClosestPointOnLine m l))%nat ->
  nondegenerate l j q1 q2 ->
  d < distance m (projectedPoint m q1 q2).
Proof.
  destruct (getClosestPointOnLine_ClosestSpec m l) as [Hz | i p1 p2 _ Hbefore _]; simpl.
  - discriminate.
  - intros [= <-] Hj Hnd. eauto.
Qed.

(** No distance is returned ([Infinity]) exactly when every segment of
    the line has length zero; this includes the lines of fewer than two
    points. *)
Theorem getClosestPointOnLine_Infinity m l :
  closestDistance (getClosestPointOnLine m l) = Infinity <->
  forall i p1 p2, l !! i = Some p1 -> l !! S i = Some p2 -> distance p1 p2 == 0.
Proof.
  split; [|apply getClosestPointOnLine_Infinity_aux].
  destruct (getClosestPointOnLine_ClosestSpec m l) as [Hz | i p1 p2 Hnd _ _]; simpl.
  - auto.
  - discriminate.
Qed.

End Geometry.

(** ** The projection is the nearest point of the segment

    These facts are planar: they concern the degree space in which the
    projection is computed, whatever the surface measures. *)

Lemma quad_factor (D t0 s t : Q) :
  s * s * D - 2 * s * (t0 * D) - (t * t * D - 2 * t * (t0 * D))
  == D * ((s - t) * (s + t - 2 * t0)).
Proof. ring. Qed.

Lemma clamp01_nearest (t0 s : Q) :
  0 <= s <= 1 -> 0 <= (s - clamp01 t0) * (s + clamp01 t0 - 2 * t0).
Proof.
  intros [Hs0 Hs1]. destruct (Qlt_le_dec t0 0) as [Hneg|Hpos].
  - rewrite (clamp01_low t0) by lra. apply Qmult_le_0_compat; lra.
  - destruct (Qlt_le_dec 1 t0) as [Hbig|Hsmall].
    + rewrite (clamp01_high t0) by lra.
      assert (E : (s - 1) * (s + 1 - 2 * t0) == (1 - s) * (2 * t0 - s - 1)) by ring.
      rewrite E. apply Qmult_le_0_compat; lra.
    + rewrite (clamp01_id t0) by lra.
      assert (E : (s - t0) * (s + t0 - 2 * t0) == (s - t0) * (s - t0)) by ring.
      rewrite E. apply Qsq_nonneg.
Qed.

Lemma quad_clamp (D N t0 s : Q) :
  0 < D -> t0 * D == N -> 0 <= s <= 1 ->
  clamp01 t0 * clamp01 t0 * D - 2 * clamp01 t0 * N <= s * s * D - 2 * s * N.
Proof.
  intros HD <- Hs. pose proof (clamp01_nearest t0 s Hs) as Hprod.
  pose proof (quad_factor D t0 s (clamp01 t0)) as Hq.
  assert (0 <= D * ((s - clamp01 t0) * (s + clamp01 t0 - 2 * t0)))
    by (apply Qmult_le_0_compat; lra).
  lra.
Qed.

Lemma sqDist_pointAt (m p1 p2 : LatLng) (t : Q) :
  sqDist m (pointAt p1 p2 t) ==
  sqDist m p1 + (t * t * projectionDenominator p1 p2 - 2 * t * projectionNumerator m p1 p2).
Proof. unfold sqDist, pointAt, projectionDenominator, projectionNumerator. simpl. ring. Qed.

Lemma projectionDenominator_pos (p1 p2 : LatLng) :
  ~ p1 ≡ p2 -> 0 < projectionDenominator p1 p2.
Proof.
  intros Hne. apply Qsq_sum_pos. intros [H1 H2]. apply Hne.
  apply LatLng_equiv_unfold. split; lra.
Qed.

Lemma pointAt_0 (p1 p2 : LatLng) : pointAt p1 p2 0 ≡ p1.
Proof. apply LatLng_equiv_unfold. unfold pointAt. simpl. split; ring. Qed.

Lemma pointAt_1 (p1 p2 : LatLng) : pointAt p1 p2 1 ≡ p2.
Proof. apply LatLng_equiv_unfold. unfold pointAt. simpl. split; ring. Qed.

Lemma sqDist_projected_le (m p1 p2 : LatLng) (s : Q) :
  ~ p1 ≡ p2 -> 0 <= s <= 1 ->
  sqDist m (projectedPoint m p1 p2) <= sqDist m (pointAt p1 p2 s).
Proof.
  intros Hne Hs. unfold projectedPoint, projectionParam. rewrite !sqDist_pointAt.
  pose proof (projectionDenominator_pos p1 p2 Hne) as HD.
  apply Qplus_le_r, quad_clamp; [exact HD | | exact Hs].
  field. lra.
Qed.

(** On a non-degenerate segment, the point the code projects the cursor
    to is the point of the segment nearest to the cursor in the plane: no
    point [p1 + s (p2 - p1)] with [0 <= s <= 1] is nearer. *)
Theorem projectedPoint_nearest_on_segment (m p1 p2 q : LatLng) (s : Q) :
  ~ p1 ≡ p2 -> 0 <= s <= 1 -> q ≡ pointAt p1 p2 s ->
  sqDist m (projectedPoint m p1 p2) <= sqDist m q.
Proof. intros Hne Hs ->. now apply sqDist_projected_le. Qed.

Section GeometryLaws.
Context {surface : MapSurface} {laws : MapSurfaceLaws surface}.
Implicit Types (m : LatLng) (l : list LatLng).

Lemma nondegenerate_distinct l i (p1 p2 : LatLng) :
  nondegenerate l i p1 p2 -> ~ p1 ≡ p2.
Proof. intros (_ & _ & Hne) Heq. apply Hne. now apply distance_zero. Qed.

(** The division of line 386 is never by zero: when the loop body
    reaches it (the segment was not skipped), the denominator is positive. *)
Theorem segmentCandidate_division_safe m i (p1 p2 : LatLng) c :
  segmentCandidate m i (p1, p2) = Some c -> 0 < projectionDenominator p1 p2.
Proof.
  unfold segmentCandidate. simpl. qcase (Qeq_bool (distance p1 p2) 0); [discriminate|].
  intros _. apply projectionDenominator_pos. intros Heq. now apply distance_zero in Heq.
Qed.

(** A line of equal points has no distance: every segment is skipped. *)
Lemma getClosestPointOnLine_repeated m (p : LatLng) (n : nat) :
  closestDistance (getClosestPointOnLine m (replicate n p)) = Infinity.
Proof.
  apply getClosestPointOnLine_Infinity_aux. intros i p1 p2 H1 H2.
  apply lookup_replicate in H1 as [-> _], H2 as [-> _]. apply distance_self.
Qed.

Context {iso : Isotropic surface}.

Lemma projected_le_endpoints m (p1 p2 : LatLng) :
  ~ p1 ≡ p2 ->
  distance m (projectedPoint m p1 p2) <= distance m p1 /\
  distance m (projectedPoint m p1 p2) <= distance m p2.
Proof.
  intros Hne. split; apply distance_isotropic.
  - rewrite <- (pointAt_0 p1 p2) at 2. apply sqDist_projected_le; [exact Hne | lra].
  - rewrite <- (pointAt_1 p1 p2) at 2. apply sqDist_projected_le; [exact Hne | lra].
Qed.

(** C38. On a lawful isotropic surface the returned distance is at most the
    distance from the cursor to either vertex of any non-degenerate
    segment. *)
Theorem getClosestPointOnLine_vertex_bound m l j (p1 p2 : LatLng) :
  nondegenerate l j p1 p2 ->
  ExtLe (closestDistance (getClosestPointOnLine m l)) (distance m p1) /\
  ExtLe (closestDistance (getClosestPointOnLine m l)) (distance m p2).
Proof.
  intros Hnd. pose proof (getClosestPointOnLine_minimal_aux m l j p1 p2 Hnd) as Hmin.
  destruct (projected_le_endpoints m p1 p2 (nondegenerate_distinct _ _ _ _ Hnd)).
  split; eapply ExtLe_trans; eauto.
Qed.

End GeometryLaws.

(** ** Concrete runs on the planar surface *)

Lemma getClosestPointOnLine_on_segment_witness :
  exists d p1 p2 t,
    nondegenerate (surface := planarSurface) [(0, 0); (1, 1)]
      (closestSegmentIndex (getClosestPointOnLine (surface := planarSurface) (1, 0) [(0, 0); (1, 1)]))
      p1 p2 /\
    0 <= t <= 1 /\
    closestPoint (getClosestPointOnLine (surface := planarSurface) (1, 0) [(0, 0); (1, 1)])
      = Some (pointAt p1 p2 t) /\
    d = distance (MapSurface := planarSurface) (1, 0) (pointAt p1 p2 t).
Proof.
  eexists.
  apply (getClosestPointOnLine_on_segment (surface := planarSurface) (1, 0) [(0, 0); (1, 1)]).
  vm_compute. reflexivity.
Defined.

Lemma getClosestPointOnLine_minimal_witness :
  ExtLe (closestDistance
           (getClosestPointOnLine (surface := planarSurface) (5, 5)
              [(0, 0); (1, 0); (1, 0); (1, 3); (4, 3)]))
        (distance (MapSurface := planarSurface) (5, 5) (projectedPoint (5, 5) (0, 0) (1, 0))).
Proof.
  apply (getClosestPointOnLine_minimal (surface := planarSurface) (5, 5)
           [(0, 0); (1, 0); (1, 0); (1, 3); (4, 3)] 0%nat (0, 0) (1, 0)).
  split_and!; [reflexivity | reflexivity | vm_compute; discriminate].
Defined.

Lemma getClosestPointOnLine_first_minimum_witness :
  exists d,
    d < distance (MapSurface := planarSurface) (5, 5) (projectedPoint (5, 5) (1, 0) (1, 3)).
Proof.
  eexists.
  apply (getClosestPointOnLine_first_minimum (surface := planarSurface) (5, 5)
           [(0, 0); (1, 0); (1, 0); (1, 3); (4, 3)] _ 2%nat (1, 0) (1, 3)).
  - vm_compute. reflexivity.
  - vm_compute. lia.
  - split_and!; [reflexivity | reflexivity | vm_compute; discriminate].
Defined.

Lemma distinct_00_11 : ~ ((0, 0) : LatLng) ≡ (1, 1).
Proof. intros H. apply LatLng_equiv_unfold in H as [H _]. vm_compute in H. discriminate. Qed.

Lemma projectedPoint_nearest_on_segment_witness :
  sqDist (1, 0) (projectedPoint (1, 0) (0, 0) (1, 1)) <= sqDist (1, 0) (1, 1).
Proof.
  apply (projectedPoint_nearest_on_segment (1, 0) (0, 0) (1, 1) (1, 1) 1).
  - exact distinct_00_11.
  - lra.
  - apply LatLng_equiv_unfold. split; vm_compute; reflexivity.
Defined.

Lemma segmentCandidate_division_safe_witness :
  0 < projectionDenominator (0, 0) (1, 1).
Proof.
  eapply (segmentCandidate_division_safe (surface := planarSurface) (1, 0) 0%nat (0, 0) (1, 1)).
  vm_compute. reflexivity.
Defined.

Lemma getClosestPointOnLine_vertex_bound_witness :
  ExtLe (closestDistance (getClosestPointOnLine (surface := planarSurface) (5, 5)
                            [(0, 0); (1, 0); (1, 0); (1, 3); (4, 3)]))
        (distance (MapSurface := planarSurface) (5, 5) (1, 0)) /\
  ExtLe (closestDistance (getClosestPointOnLine (surface := planarSurface) (5, 5)
                            [(0, 0); (1, 0); (1, 0); (1, 3); (4, 3)]))
        (distance (MapSurface := planarSurface) (5, 5) (1, 3)).
Proof.
  apply (getClosestPointOnLine_vertex_bound (surface := planarSurface) (5, 5)
           [(0, 0); (1, 0); (1, 0); (1, 3); (4, 3)] 2%nat (1, 0) (1, 3)).
  split_and!; [reflexivity | reflexivity | vm_compute; discriminate].
Defined.

(** ** Where the bound fails *)

(** On a surface that is not isotropic the returned "closest" distance
    can exceed the distance to a vertex of the line: with longitude
    compressed by one half, the cursor at (1, 0) and the segment from (0, 0)
    to (1, 1), the projection (1/2, 1/2) is farther than the vertex (1, 1). *)
Theorem getClosestPointOnLine_aniso_exceeds_vertex :
  exists d,
    closestDistance (getClosestPointOnLine (surface := anisoSurface) (1, 0) [(0, 0); (1, 1)])
      = Fin d /\
    distance (MapSurface := anisoSurface) (1, 0) (1, 1) < d.
Proof. eexists. split; vm_compute; reflexivity. Qed.

(** A line whose points are all equal yields no distance at all, on any
    lawful surface and however many points it has. *)
Theorem getClosestPointOnLine_degenerate_line
  {surface : MapSurface} {laws : MapSurfaceLaws surface} (m p : LatLng) (n : nat) :
  closestDistance (getClosestPointOnLine m (replicate n p)) = Infinity /\
  closestPoint (getClosestPointOnLine m (replicate n p)) = head (replicate n p).
Proof.
  pose proof (getClosestPointOnLine_repeated m p n) as Hinf.
  destruct (getClosestPointOnLine_ClosestSpec m (replicate n p)) as [_ | i p1 p2 _ _ _].
  - auto.
  - discriminate.
Qed.

Lemma getClosestPointOnLine_degenerate_line_witness :
  closestDistance (getClosestPointOnLine (surface := planarSurface) (1, 0) (replicate 3 (2, 2)))
    = Infinity /\
  closestPoint (getClosestPointOnLine (surface := planarSurface) (1, 0) (replicate 3 (2, 2)))
    = head (replicate 3 ((2, 2) : LatLng)).
Proof. apply (getClosestPointOnLine_degenerate_line (surface := planarSurface)). Defined.
