(* ===== verification/Extractor.v ===== *)
(** * Trajectory extractor

    The first half of [showSelectedJourneys] in [MapViewer.tsx]:
    [extractIntervalsFromResults] (lines 100-123) flattens the journeys,
    the filter of lines 142-147 keeps the intervals of the selected
    journeys, and lines 151-167 find, for each journey, its last interval
    among those kept and record it when the journey is complete. *)

From Stdlib Require Import QArith.
From stdpp Require Import prelude gmap strings.
From S2P Require Import Prelude DataModel.

(** ** Definitions *)

(** Lines 100-123.  The [typeof interval.journeyIndex === 'number'] guard is
    [is_Some (journeyIndex interval)]. *)
Definition extractIntervalsFromResults (csvResults : option CSVIntervalResult)
  : list Interval :=
  match csvResults with
  | Some r =>
      match success r, data r with
      | true, Some d =>
          journeys d ≫= (fun journey =>
            filter (fun interval => is_Some (journeyIndex interval)) (intervals journey))
      | _, _ => []
      end
  | None => []
  end.

(** Lines 142-147: [journeysToShow.has(interval.journeyIndex)]. *)
Definition selectedInterval (journeysToShow : gset Z) (interval : Interval) : Prop :=
  match journeyIndex interval with
  | Some j => j ∈ journeysToShow
  | None => False
  end.

#[export] Instance selectedInterval_dec (journeysToShow : gset Z) (interval : Interval) :
  Decision (selectedInterval journeysToShow interval).
Proof. unfold selectedInterval. destruct (journeyIndex interval); apply _. Defined.

Definition intervalsToShow (journeysToShow : gset Z) (allIntervals : list Interval)
  : list Interval :=
  filter (selectedInterval journeysToShow) allIntervals.

(** [intervalsToShow.filter(i => i.journeyIndex === journeyIndex)]
    (lines 155 and 263). *)
Definition intervalsOfThisJourney (journeyIndex' : option Z) (shown : list Interval)
  : list Interval :=
  filter (fun i => journeyIndex i = journeyIndex') shown.

(** [intervalsOfThisJourney.indexOf(interval)] for the interval at position
    [k] of [shown].  [indexOf] compares objects by identity, and the
    intervals shown are taken to be distinct objects, as a parser that
    builds one object per interval gives them: the index is then the
    number of intervals of the journey before position [k].  Two intervals
    with equal fields are still two objects, which is why the position
    [k] is an argument and the content of [interval] is not compared. *)
Definition currentIntervalIndex (shown : list Interval) (k : nat) (interval : Interval) : Z :=
  Z.of_nat (length (intervalsOfThisJourney (journeyIndex interval) (take k shown))).

(** Lines 155-157 and 263-265. *)
Definition isLastIntervalOfJourney (shown : list Interval) (k : nat) (interval : Interval)
  : bool :=
  bool_decide (currentIntervalIndex shown k interval =
               (Z.of_nat (length (intervalsOfThisJourney (journeyIndex interval) shown)) - 1)%Z).

(** [csvResults?.data?.journeys?.find(j => j.journeyIndex === journeyIndex)]
    (lines 160 and 273). *)
Definition findJourney (csvResults : option CSVIntervalResult) (journeyIndex' : option Z)
  : option Journey :=
  r ← csvResults; d ← data r;
  snd <$> list_find (fun j => Some (journey_journeyIndex j) = journeyIndex') (journeys d).

(** [!journey?.metadata?.isIncomplete] (lines 161 and 276). *)
Definition isJourneyComplete (csvResults : option CSVIntervalResult)
  (journeyIndex' : option Z) : bool :=
  negb (default false
          (journey ← findJourney csvResults journeyIndex';
           md ← metadata journey; Some (isIncomplete md))).

(** The body of the [forEach] of lines 153-167. *)
Definition lastIntervalsStep (csvResults : option CSVIntervalResult) (shown : list Interval)
  (acc : list (option Z * Interval)) (k : nat) (interval : Interval)
  : list (option Z * Interval) :=
  if isLastIntervalOfJourney shown k interval
  then if isJourneyComplete csvResults (journeyIndex interval)
       then mapSet (journeyIndex interval) interval acc
       else acc
  else acc.

(** Lines 151-167. *)
Definition lastIntervalsByJourney (csvResults : option CSVIntervalResult)
  (shown : list Interval) : list (option Z * Interval) :=
  forEach (lastIntervalsStep csvResults shown) [] shown.

(** ** Extraction and selection *)

Section ExtractorFacts.
Implicit Types (csv : option CSVIntervalResult) (sel : gset Z)
  (shown all : list Interval) (i : Interval) (j : option Z).

Lemma extractIntervalsFromResults_elem csv i :
  i ∈ extractIntervalsFromResults csv <->
  exists r d journey,
    csv = Some r /\ success r = true /\ data r = Some d /\
    journey ∈ journeys d /\ i ∈ intervals journey /\ is_Some (journeyIndex i).
Proof.
  unfold extractIntervalsFromResults. split.
  - destruct csv as [r|]; [|intros []%elem_of_nil].
    destruct (success r) eqn:Hs; [|intros []%elem_of_nil].
    destruct (data r) as [d|] eqn:Hd; [|intros []%elem_of_nil].
    rewrite list_elem_of_bind. intros (journey & Hi & Hj).
    apply list_elem_of_filter in Hi as [Hsome Hi]. eauto 10.
  - intros (r & d & journey & -> & -> & -> & Hj & Hi & Hsome).
    apply list_elem_of_bind. exists journey. split; [|exact Hj].
    apply list_elem_of_filter. auto.
Qed.

Lemma intervalsToShow_elem sel all i :
  i ∈ intervalsToShow sel all <->
  i ∈ all /\ exists n, journeyIndex i = Some n /\ n ∈ sel.
Proof.
  unfold intervalsToShow. rewrite list_elem_of_filter. unfold selectedInterval.
  destruct (journeyIndex i) as [n|]; split.
  - intros [Hn Hi]. eauto.
  - intros [Hi (n' & [= <-] & Hn)]. auto.
  - intros [[] _].
  - intros [_ (n' & [=] & _)].
Qed.

Lemma intervalsToShow_idemp sel all :
  intervalsToShow sel (intervalsToShow sel all) = intervalsToShow sel all.
Proof. unfold intervalsToShow. apply list_filter_filter_l. auto. Qed.

Lemma intervalsToShow_empty all : intervalsToShow ∅ all = [].
Proof.
  unfold intervalsToShow. induction all as [|i all IH]; [reflexivity|].
  rewrite filter_cons_False; [exact IH|].
  unfold selectedInterval. destruct (journeyIndex i); set_solver.
Qed.

(** ** The last interval of a journey *)

(** No interval after position [k] belongs to the journey of [i]. *)
Definition noLaterInterval shown (k : nat) i : Prop :=
  forall k' i', (k < k')%nat -> shown !! k' = Some i' -> journeyIndex i' <> journeyIndex i.

Lemma intervalsOfThisJourney_split shown k i :
  shown !! k = Some i ->
  length (intervalsOfThisJourney (journeyIndex i) shown) =
  (length (intervalsOfThisJourney (journeyIndex i) (take k shown)) + 1 +
   length (intervalsOfThisJourney (journeyIndex i) (drop (S k) shown)))%nat.
Proof.
  intros Hk. unfold intervalsOfThisJourney.
  rewrite <- (take_drop_middle shown k i Hk) at 1.
  rewrite filter_app, filter_cons_True by reflexivity.
  rewrite length_app. simpl. lia.
Qed.

Lemma filter_length_0 {A} (P : A -> Prop) `{!forall x, Decision (P x)} (l : list A) :
  length (filter P l) = 0%nat <-> forall k x, l !! k = Some x -> ~ P x.
Proof.
  rewrite length_zero_iff_nil. split.
  - intros Hnil k x Hk HP. eapply filter_nil_not_elem_of; eauto.
    eapply list_elem_of_lookup_2; eauto.
  - intros Hall. induction l as [|x l IH]; [reflexivity|].
    rewrite filter_cons_False by apply (Hall 0%nat x eq_refl).
    apply IH. intros k y Hk. apply (Hall (S k) y Hk).
Qed.

Lemma isLastIntervalOfJourney_noLater shown k i :
  shown !! k = Some i ->
  isLastIntervalOfJourney shown k i = true <-> noLaterInterval shown k i.
Proof.
  intros Hk. unfold isLastIntervalOfJourney, currentIntervalIndex.
  rewrite bool_decide_eq_true, (intervalsOfThisJourney_split shown k i Hk).
  transitivity (length (intervalsOfThisJourney (journeyIndex i) (drop (S k) shown)) = 0%nat);
    [lia|].
  unfold intervalsOfThisJourney. rewrite filter_length_0. unfold noLaterInterval. split.
  - intros Hall k' i' Hlt Hk'. apply (Hall (k' - S k)%nat).
    rewrite lookup_drop. replace (S k + (k' - S k))%nat with k' by lia. exact Hk'.
  - intros Hall n x Hn. rewrite lookup_drop in Hn. apply (Hall (S k + n)%nat); [lia | exact Hn].
Qed.

(** The interval at position [k] is terminal: last of its journey among the
    intervals shown, and its journey is complete. *)
Definition terminalAt csv shown (k : nat) i : Prop :=
  shown !! k = Some i /\ noLaterInterval shown k i /\
  isJourneyComplete csv (journeyIndex i) = true.

Lemma lastIntervalsStep_terminal csv shown acc k i :
  shown !! k = Some i ->
  (terminalAt csv shown k i /\
   lastIntervalsStep csv shown acc k i = mapSet (journeyIndex i) i acc) \/
  (~ terminalAt csv shown k i /\ lastIntervalsStep csv shown acc k i = acc).
Proof.
  intros Hk. unfold lastIntervalsStep, terminalAt.
  destruct (isLastIntervalOfJourney shown k i) eqn:Hlast.
  - apply (isLastIntervalOfJourney_noLater _ _ _ Hk) in Hlast.
    destruct (isJourneyComplete csv (journeyIndex i)); [left | right]; intuition congruence.
  - right. split; [|reflexivity]. intros (_ & Hno & _).
    apply (isLastIntervalOfJourney_noLater _ _ _ Hk) in Hno. congruence.
Qed.

(** The state of the loop after [n] iterations: the entries are the
    terminal intervals at positions below [n], one per journey. *)
Definition lastIntervalsInv csv shown (n : nat) (acc : list (option Z * Interval)) : Prop :=
  NoDup acc.*1 /\
  forall j i, (j, i) ∈ acc <-> exists k, (k < n)%nat /\ terminalAt csv shown k i /\ j = journeyIndex i.

Lemma lastIntervalsInv_fresh csv shown n acc i :
  lastIntervalsInv csv shown n acc -> shown !! n = Some i -> journeyIndex i ∉ acc.*1.
Proof.
  intros [_ Hacc] Hn Hin. apply list_elem_of_fmap in Hin as ([j i0] & Hj & Hin). simpl in Hj.
  apply Hacc in Hin as (k & Hlt & (_ & Hno & _) & ->). apply (Hno n i Hlt Hn). congruence.
Qed.

Lemma lastIntervalsInv_step csv shown n acc i :
  shown !! n = Some i -> lastIntervalsInv csv shown n acc ->
  lastIntervalsInv csv shown (S n) (lastIntervalsStep csv shown acc n i).
Proof.
  intros Hn Hinv. pose proof (lastIntervalsInv_fresh _ _ _ _ _ Hinv Hn) as Hfresh.
  destruct Hinv as [Hnd Hacc].
  destruct (lastIntervalsStep_terminal csv shown acc n i Hn) as [[Ht ->]|[Hnt ->]]; split.
  - now apply mapSet_fresh_NoDup.
  - intros j i0. rewrite mapSet_fresh_elem, Hacc by exact Hfresh. split.
    + intros [(k & Hlt & Hk & ->)|[= -> ->]]; [exists k | exists n]; auto with lia.
    + intros (k & Hlt & Hk & ->). destruct (decide (k = n)) as [->|Hne].
      * right. destruct Hk as (Hk & _). congruence.
      * left. exists k. auto with lia.
  - exact Hnd.
  - intros j i0. rewrite Hacc. split.
    + intros (k & Hlt & Hk & ->). exists k. auto with lia.
    + intros (k & Hlt & Hk & ->). destruct (decide (k = n)) as [->|Hne].
      * destruct Hnt. destruct Hk as (Hk & ?). replace i with i0 by congruence. now split.
      * exists k. auto with lia.
Qed.

Lemma lastIntervalsByJourney_inv csv shown :
  lastIntervalsInv csv shown (length shown) (lastIntervalsByJourney csv shown).
Proof.
  unfold lastIntervalsByJourney.
  apply (forEach_ind (lastIntervalsInv csv shown)).
  - split; [constructor|]. intros j i. split; [intros []%elem_of_nil | intros (k & Hlt & _); lia].
  - intros acc k i Hk Hinv. now apply lastIntervalsInv_step.
Qed.

End ExtractorFacts.

(** ** Theorems *)

(** The intervals shown are exactly the intervals of the journeys of a
    successful result whose [journeyIndex] is a number of the selection. *)
Theorem intervalsToShow_extract_elem (csv : option CSVIntervalResult) (sel : gset Z)
  (i : Interval) :
  i ∈ intervalsToShow sel (extractIntervalsFromResults csv) <->
  exists r d journey n,
    csv = Some r /\ success r = true /\ data r = Some d /\
    journey ∈ journeys d /\ i ∈ intervals journey /\
    journeyIndex i = Some n /\ n ∈ sel.
Proof.
  rewrite intervalsToShow_elem, extractIntervalsFromResults_elem. split.
  - intros [(r & d & journey & ? & ? & ? & ? & ? & _) (n & ? & ?)]. eauto 12.
  - intros (r & d & journey & n & ? & ? & ? & ? & ? & Hn & ?).
    split; [|eauto]. exists r, d, journey. rewrite Hn. eauto 10.
Qed.

(** The selection filter keeps the order of the intervals: the list
    shown is a sublist of the list extracted. *)
Theorem intervalsToShow_sublist (sel : gset Z) (all : list Interval) :
  sublist (intervalsToShow sel all) all.
Proof. apply sublist_filter. Qed.

(** C7. The map built by lines 151-167 holds exactly the terminal
    intervals: an entry [(j, i)] is present when [i] stands at some position
    of the list shown with no later interval of its journey, its journey is
    complete, and [j] is its journey index. *)
Theorem lastIntervalsByJourney_spec (csv : option CSVIntervalResult)
  (shown : list Interval) (j : option Z) (i : Interval) :
  (j, i) ∈ lastIntervalsByJourney csv shown <->
  exists k, terminalAt csv shown k i /\ j = journeyIndex i.
Proof.
  destruct (lastIntervalsByJourney_inv csv shown) as [_ Hacc]. rewrite Hacc. split.
  - intros (k & _ & Hk & ->). eauto.
  - intros (k & Hk & ->). exists k. split_and!; auto.
    destruct Hk as (Hk & _). now apply lookup_lt_Some in Hk.
Qed.

(** At most one terminal interval is recorded per journey: the keys of
    the map are pairwise distinct, so [Map.set] never overwrites. *)
Theorem lastIntervalsByJourney_one_per_journey (csv : option CSVIntervalResult)
  (shown : list Interval) :
  NoDup (lastIntervalsByJourney csv shown).*1.
Proof. apply lastIntervalsByJourney_inv. Qed.

Lemma isJourneyComplete_incomplete (csv : option CSVIntervalResult) (j : option Z)
  (journey : Journey) (md : JourneyMetadata) :
  findJourney csv j = Some journey -> metadata journey = Some md ->
  isIncomplete md = true -> isJourneyComplete csv j = false.
Proof. intros Hf Hm Hi. unfold isJourneyComplete. rewrite Hf. simpl. rewrite Hm. simpl. now rewrite Hi. Qed.

(** C11. No interval of a journey marked incomplete is ever terminal. *)
Theorem incomplete_journey_never_terminal (csv : option CSVIntervalResult)
  (shown : list Interval) (j : option Z) (journey : Journey) (md : JourneyMetadata)
  (i : Interval) :
  findJourney csv j = Some journey -> metadata journey = Some md ->
  isIncomplete md = true ->
  (j, i) ∉ lastIntervalsByJourney csv shown.
Proof.
  intros Hf Hm Hi Hin.
  destruct (lastIntervalsByJourney_inv csv shown) as [_ Hacc].
  apply Hacc in Hin as (k & _ & (_ & _ & Hc) & ->).
  rewrite (isJourneyComplete_incomplete _ _ _ _ Hf Hm Hi) in Hc. discriminate.
Qed.

(** ** A concrete selection *)

Definition samplePoint (a b : Q) : CoordinatePoint := mkPoint (JNum a) (JNum b) JNull.

Definition sampleInterval (j n : Z) (pts : list CoordinatePoint) : Interval :=
  mkInterval (Some j) n (Some 0%Z) (Some 60000%Z) JNull EmptyString EmptyString EmptyString pts.

(** Journey 1: complete, two intervals, the second with a single point.
    Journey 2: incomplete. *)
Definition sampleResults : option CSVIntervalResult :=
  Some (mkResult true (Some (mkData
    [ mkJourney 1 (Some (mkMetadata false))
        [ sampleInterval 1 1 [samplePoint 36 (-5); samplePoint 37 (-6)];
          sampleInterval 1 2 [samplePoint 37 (-6)] ];
      mkJourney 2 (Some (mkMetadata true))
        [ sampleInterval 2 1 [samplePoint 35 (-5); samplePoint 35 (-4)] ] ]))).

Definition sampleShown : list Interval :=
  intervalsToShow {[1%Z; 2%Z]} (extractIntervalsFromResults sampleResults).

Lemma incomplete_journey_never_terminal_witness :
  (Some 2%Z, sampleInterval 2 1 [samplePoint 35 (-5); samplePoint 35 (-4)])
    ∉ lastIntervalsByJourney sampleResults sampleShown.
Proof.
  apply (incomplete_journey_never_terminal sampleResults sampleShown (Some 2%Z)
           (mkJourney 2 (Some (mkMetadata true))
              [sampleInterval 2 1 [samplePoint 35 (-5); samplePoint 35 (-4)]])
           (mkMetadata true)); reflexivity.
Defined.

(** The terminal interval is chosen before the two-usable-points test:
    in the sample, the interval recorded for journey 1 has a single usable
    point, so it is never drawn as a path, while the last drawable interval
    of the journey is not recorded. *)
Theorem terminal_interval_not_renderable :
  lastIntervalsByJourney sampleResults sampleShown
    = [(Some 1%Z, sampleInterval 1 2 [samplePoint 37 (-6)])] /\
  length (intervalCoordinates (sampleInterval 1 2 [samplePoint 37 (-6)])) = 1%nat.
Proof. split; vm_compute; reflexivity. Qed.
