(* ===== verification/Duration.v ===== *)
(** * Durations

    [formatDuration] of [MapViewer.tsx] (lines 193-205): the text of an
    interval's duration with the seconds removed and a zero count of hours
    elided.  Strings are lists of characters; the regular expression
    [/\s*\d+s/g] and the calls [includes], [replace] (of a string, so of its
    first occurrence) and [trim] are written out as list functions.

    The expression [\s*\d+s] needs no backtracking: white space, digits and
    the letter [s] are disjoint classes, so a match at a position takes all
    the white space there, then all the digits, and succeeds exactly when
    at least one digit was taken and the next character is [s].
    [secondsMatch] computes the length of that match.  White space is the
    ASCII part of the class [\s]. *)

From Stdlib Require Import Ascii String.
From stdpp Require Import prelude strings.
From S2P Require Import Prelude.

#[local] Open Scope nat_scope.

(** A literal of the code as a list of characters. *)
Abbreviation lit s := (list_ascii_of_string s%string).

(** ** Characters *)

(** The class [\s] of the pattern of line 197, on ASCII: the space and the
    characters 9 to 13.  The characters of [\s] outside ASCII (the
    no-break space, the Unicode spaces) are not modelled: strings are
    ASCII. *)
Definition isSpace (c : ascii) : bool :=
  let n := nat_of_ascii c in ((n =? 32) || ((9 <=? n) && (n <=? 13)))%nat.

Definition isDigit (c : ascii) : bool :=
  let n := nat_of_ascii c in ((48 <=? n) && (n <=? 57))%nat.

(** The number of leading elements that satisfy [f]. *)
Fixpoint spanLength {A} (f : A -> bool) (l : list A) : nat :=
  match l with
  | x :: l' => if f x then S (spanLength f l') else 0
  | [] => 0
  end.

(** ** [duration.replace(/\s*\d+s/g, '')] (line 197) *)

(** The length of the match of [\s*\d+s] at the head of [l], if any. *)
Definition secondsMatch (l : list ascii) : option nat :=
  let spaces := spanLength isSpace l in
  let digits := spanLength isDigit (drop spaces l) in
  match digits, drop (spaces + digits) l with
  | S _, c :: _ => if Ascii.eqb c "s"%char then Some (spaces + digits + 1) else None
  | _, _ => None
  end.

(** The scan of a global replace: [skip] characters of a match are still to
    be dropped; otherwise a match at the position is dropped, and where
    there is none the character is kept and the scan moves one on. *)
Fixpoint stripFrom (skip : nat) (l : list ascii) : list ascii :=
  match l with
  | [] => []
  | c :: l' =>
      match skip with
      | S k => stripFrom k l'
      | O =>
          match secondsMatch l with
          | Some (S k) => stripFrom k l'
          | _ => c :: stripFrom 0 l'
          end
      end
  end.

Definition stripSeconds (l : list ascii) : list ascii := stripFrom 0 l.

(** ** [includes], [replace] of a string, [trim] (lines 200-201) *)

Fixpoint isPrefix (pat l : list ascii) : bool :=
  match pat, l with
  | [], _ => true
  | p :: pat', c :: l' => Ascii.eqb p c && isPrefix pat' l'
  | _ :: _, [] => false
  end.

Fixpoint includes (pat l : list ascii) : bool :=
  isPrefix pat l ||
  match l with
  | _ :: l' => includes pat l'
  | [] => false
  end.

(** [l.replace(pat, '')]: the first occurrence of [pat] removed. *)
Fixpoint replaceFirst (pat l : list ascii) : list ascii :=
  if isPrefix pat l then drop (length pat) l
  else match l with
       | c :: l' => c :: replaceFirst pat l'
       | [] => []
       end.

Fixpoint trimStart (l : list ascii) : list ascii :=
  match l with
  | c :: l' => if isSpace c then trimStart l' else l
  | [] => []
  end.

Definition trim (l : list ascii) : list ascii := rev (trimStart (rev (trimStart l))).

(** ** [formatDuration] (lines 193-205) *)

Definition formatDuration (duration : string) : string :=
  if decide (duration = EmptyString) then "N/A"%string
  else
    let formattedDuration := stripSeconds (list_ascii_of_string duration) in
    string_of_list_ascii
      (if includes (lit "0h") formattedDuration
       then trim (replaceFirst (lit "0h ") formattedDuration)
       else formattedDuration).

(** ** Durations of the form [<h>h <m>m <s>s] *)

Definition numeral (l : list ascii) : Prop := l <> [] /\ Forall (fun c => isDigit c = true) l.

Definition hms (h m s : list ascii) : list ascii :=
  h ++ lit "h " ++ m ++ lit "m " ++ s ++ lit "s".

Definition endsWithZero (h : list ascii) : bool :=
  match last h with
  | Some c => Ascii.eqb c "0"%char
  | None => false
  end.

(** The text the comments of the code promise for [h], [m]: hours and
    minutes, the hours left out when they are zero. *)
Definition hoursAndMinutes (h m : list ascii) : list ascii :=
  if forallb (Ascii.eqb "0"%char) h then m ++ lit "m" else h ++ lit "h " ++ m ++ lit "m".

(** ** Characters and runs *)

#[local] Abbreviation digits := (Forall (fun c => isDigit c = true)).

Lemma digit_not_space c : isDigit c = true -> isSpace c = false.
Proof.
  unfold isDigit, isSpace. intros H. apply andb_true_iff in H as [H1 H2].
  apply Nat.leb_le in H1, H2. apply orb_false_iff. split.
  - apply Nat.eqb_neq. lia.
  - apply andb_false_iff. right. apply Nat.leb_gt. lia.
Qed.

Lemma digit_neq c (e : ascii) : isDigit c = true -> isDigit e = false -> Ascii.eqb e c = false.
Proof. intros Hc He. apply Ascii.eqb_neq. intros ->. congruence. Qed.

Lemma spanLength_run {A} (f : A -> bool) ds c rest :
  Forall (fun x => f x = true) ds -> f c = false ->
  spanLength f (ds ++ c :: rest) = length ds.
Proof. intros Hds Hc. induction Hds as [|d ds Hd _ IH]; simpl; [now rewrite Hc | now rewrite Hd, IH]. Qed.

Lemma spanLength_all {A} (f : A -> bool) ds :
  Forall (fun x => f x = true) ds -> spanLength f ds = length ds.
Proof. intros Hds. induction Hds as [|d ds Hd _ IH]; simpl; [reflexivity | now rewrite Hd, IH]. Qed.

(** ** Where [\s*\d+s] matches *)

Lemma secondsMatch_eq l spaces digits' c rest :
  spanLength isSpace l = spaces -> spanLength isDigit (drop spaces l) = S digits' ->
  drop (spaces + S digits') l = c :: rest ->
  secondsMatch l = if Ascii.eqb c "s"%char then Some (spaces + S digits' + 1) else None.
Proof. unfold secondsMatch. intros -> -> ->. reflexivity. Qed.

(** Inside a number that is not a count of seconds there is no match. *)
Lemma secondsMatch_number d ds c rest :
  digits (d :: ds) -> isDigit c = false -> Ascii.eqb c "s"%char = false ->
  secondsMatch (d :: ds ++ c :: rest) = None.
Proof.
  intros Hds Hc Hs. rewrite (secondsMatch_eq _ 0 (length ds) c rest), Hs; [reflexivity | ..].
  - simpl. now rewrite digit_not_space by now inversion Hds.
  - apply (spanLength_run isDigit (d :: ds) c rest Hds Hc).
  - apply (drop_app_length (d :: ds)).
Qed.

(** At a character that is neither white space nor a digit there is none. *)
Lemma secondsMatch_other c rest :
  isSpace c = false -> isDigit c = false -> secondsMatch (c :: rest) = None.
Proof. intros Hsp Hd. unfold secondsMatch. simpl. rewrite Hsp. simpl. now rewrite Hd. Qed.

(** At a space before a number the match depends on the character after
    the number. *)
Lemma secondsMatch_space d ds c rest :
  digits (d :: ds) -> isDigit c = false ->
  secondsMatch (" "%char :: d :: ds ++ c :: rest) =
  if Ascii.eqb c "s"%char then Some (S (S (length ds)) + 1) else None.
Proof.
  intros Hds Hc. rewrite (secondsMatch_eq _ 1 (length ds) c rest); [reflexivity | ..].
  - simpl. now rewrite digit_not_space by now inversion Hds.
  - apply (spanLength_run isDigit (d :: ds) c rest Hds Hc).
  - apply (drop_app_length (" "%char :: d :: ds)).
Qed.

(** ** The scan *)

Lemma stripFrom_drop k l : stripFrom k l = stripFrom 0 (drop k l).
Proof.
  revert k. induction l as [|c l IH]; intros [|k]; try reflexivity.
  simpl stripFrom at 1. now rewrite IH.
Qed.

Lemma stripFrom_number ds c rest :
  digits ds -> isDigit c = false -> Ascii.eqb c "s"%char = false ->
  stripFrom 0 (ds ++ c :: rest) = ds ++ stripFrom 0 (c :: rest).
Proof.
  intros Hds Hc Hs. induction Hds as [|d ds Hd Hds IH]; [reflexivity|].
  change ((d :: ds) ++ c :: rest) with (d :: ds ++ c :: rest).
  cbn [stripFrom]. rewrite secondsMatch_number by (auto; now constructor).
  now rewrite IH.
Qed.

Lemma stripFrom_other c rest :
  isSpace c = false -> isDigit c = false ->
  stripFrom 0 (c :: rest) = c :: stripFrom 0 rest.
Proof. intros Hsp Hd. cbn [stripFrom]. now rewrite secondsMatch_other. Qed.

Lemma stripFrom_space d ds c rest :
  digits (d :: ds) -> isDigit c = false -> Ascii.eqb c "s"%char = false ->
  stripFrom 0 (" "%char :: d :: ds ++ c :: rest) = " "%char :: stripFrom 0 (d :: ds ++ c :: rest).
Proof. intros Hds Hc Hs. cbn [stripFrom]. now rewrite secondsMatch_space, Hs. Qed.

Lemma stripFrom_seconds d ds :
  digits (d :: ds) -> stripFrom 0 (" "%char :: d :: ds ++ ["s"%char]) = [].
Proof.
  intros Hds. cbn [stripFrom].
  rewrite secondsMatch_space by auto. simpl.
  rewrite stripFrom_drop, drop_ge by (rewrite length_app; simpl; lia). reflexivity.
Qed.

Lemma stripSeconds_hms h m s :
  numeral h -> numeral m -> numeral s ->
  stripSeconds (hms h m s) = h ++ lit "h " ++ m ++ lit "m".
Proof.
  intros [_ Hh] [Hm0 Hm] [Hs0 Hs]. unfold stripSeconds, hms. simpl.
  destruct m as [|m0 m]; [done|]. destruct s as [|s0 s]; [done|].
  rewrite stripFrom_number, stripFrom_other by auto.
  change ((m0 :: m) ++ ?x) with (m0 :: m ++ x).
  rewrite stripFrom_space by auto.
  change (m0 :: m ++ ?x) with ((m0 :: m) ++ x).
  rewrite stripFrom_number, stripFrom_other by auto.
  change ((s0 :: s) ++ ?x) with (s0 :: s ++ x).
  now rewrite (stripFrom_seconds s0 s).
Qed.

(** ** [includes('0h')] and [replace('0h ', '')] on hours and minutes *)

#[local] Abbreviation zeroH := ["0"%char; "h"%char].
#[local] Abbreviation zeroHSpace := ["0"%char; "h"%char; " "%char].

Lemma includes_cons pat c l : includes pat (c :: l) = isPrefix pat (c :: l) || includes pat l.
Proof. reflexivity. Qed.

(** No "0h" starts at a character whose successor is not [h]. *)
Lemma isPrefix_0h_next pat d c rest :
  Ascii.eqb "h"%char c = false -> isPrefix ("0"%char :: "h"%char :: pat) (d :: c :: rest) = false.
Proof. intros Hc. cbn [isPrefix]. rewrite Hc. now rewrite andb_false_r. Qed.

Lemma includes_number ds c rest :
  digits ds -> Ascii.eqb "h"%char c = false ->
  includes zeroH (ds ++ c :: rest) = includes zeroH (c :: rest).
Proof.
  intros Hds Hc. induction Hds as [|d ds Hd Hds IH]; [reflexivity|].
  change ((d :: ds) ++ c :: rest) with (d :: ds ++ c :: rest). rewrite includes_cons, IH.
  destruct Hds as [|d' ds Hd' _]; simpl app; rewrite isPrefix_0h_next; auto.
  now apply digit_neq.
Qed.

Lemma includes_minutes m :
  digits m -> includes zeroH ("h"%char :: " "%char :: m ++ ["m"%char]) = false.
Proof. intros Hm. rewrite !includes_cons, includes_number by auto. reflexivity. Qed.

Lemma includes_hours h m :
  numeral h -> digits m ->
  includes zeroH (h ++ "h"%char :: " "%char :: m ++ ["m"%char]) = endsWithZero h.
Proof.
  intros [Hh0 Hh] Hm. induction Hh as [|d h Hd Hh IH]; [done|].
  destruct Hh as [|d' h Hd' Hh].
  - change ([d] ++ ?x) with (d :: x). rewrite includes_cons, includes_minutes by exact Hm.
    unfold endsWithZero. cbn [isPrefix last]. rewrite (Ascii.eqb_sym d), Ascii.eqb_refl.
    now destruct (Ascii.eqb "0"%char d).
  - change ((d :: d' :: h) ++ ?x) with (d :: (d' :: h) ++ x). rewrite includes_cons, IH by done.
    change ((d' :: h) ++ ?x) with (d' :: h ++ x).
    now rewrite isPrefix_0h_next by now apply digit_neq.
Qed.

Lemma replaceFirst_hours h rest :
  numeral h -> endsWithZero h = true ->
  replaceFirst zeroHSpace (h ++ "h"%char :: " "%char :: rest) = removelast h ++ rest.
Proof.
  intros [Hh0 Hh] Hz. induction Hh as [|d h Hd Hh IH]; [done|].
  destruct Hh as [|d' h Hd' Hh].
  - unfold endsWithZero in Hz. simpl in Hz. apply Ascii.eqb_eq in Hz as ->. reflexivity.
  - change ((d :: d' :: h) ++ ?x) with (d :: (d' :: h) ++ x). cbn [replaceFirst].
    rewrite IH by done. change ((d' :: h) ++ ?x) with (d' :: h ++ x).
    now rewrite isPrefix_0h_next by now apply digit_neq.
Qed.

(** ** [trim] *)

Lemma trimStart_id c l : isSpace c = false -> trimStart (c :: l) = c :: l.
Proof. intros Hc. simpl. now rewrite Hc. Qed.

Lemma trim_id c l e :
  isSpace c = false -> isSpace e = false -> trim (c :: l ++ [e]) = c :: l ++ [e].
Proof.
  intros Hc He. unfold trim. rewrite trimStart_id by exact Hc.
  change (c :: l ++ [e]) with ((c :: l) ++ [e]). rewrite rev_app_distr.
  change (rev [e] ++ ?x) with (e :: x). rewrite trimStart_id by exact He.
  change (e :: ?x) with (rev [e] ++ x).
  now rewrite <- rev_app_distr, rev_involutive.
Qed.

Lemma trim_minutes h m :
  digits h -> numeral m -> trim (h ++ m ++ ["m"%char]) = h ++ m ++ ["m"%char].
Proof.
  intros Hh [Hm0 Hm]. destruct m as [|m0 m]; [done|].
  assert (Hd : exists c l, h ++ (m0 :: m) = c :: l /\ isDigit c = true).
  { destruct Hh as [|c h Hc _]; [exists m0, m | exists c, (h ++ m0 :: m)];
      split; auto. now inversion Hm. }
  destruct Hd as (c & l & Heq & Hc). rewrite !app_assoc, Heq.
  apply trim_id; [now apply digit_not_space | reflexivity].
Qed.

(** ** [formatDuration] on hours, minutes and seconds *)

Lemma digits_removelast h : digits h -> digits (removelast h).
Proof.
  intros Hh. induction Hh as [|d h Hd Hh IH]; [constructor|].
  destruct h; [constructor | now constructor].
Qed.

Lemma string_of_list_ascii_inj l1 l2 :
  string_of_list_ascii l1 = string_of_list_ascii l2 -> l1 = l2.
Proof.
  intros H. apply (f_equal list_ascii_of_string) in H.
  now rewrite !list_ascii_of_string_of_list_ascii in H.
Qed.

(** What the code shows for hours [h] and minutes [m]. *)
Definition shownDuration (h m : list ascii) : list ascii :=
  if endsWithZero h then removelast h ++ m ++ lit "m" else h ++ lit "h " ++ m ++ lit "m".

Lemma formatDuration_shownDuration h m s :
  numeral h -> numeral m -> numeral s ->
  formatDuration (string_of_list_ascii (hms h m s)) = string_of_list_ascii (shownDuration h m).
Proof.
  intros Hh Hm Hs. unfold formatDuration, shownDuration.
  rewrite decide_False by (destruct Hh as [Hh0 _]; destruct h; [done | discriminate]).
  rewrite list_ascii_of_string_of_list_ascii, stripSeconds_hms by assumption.
  cbn [list_ascii_of_string app]. rewrite includes_hours by (auto; apply Hm).
  destruct (endsWithZero h) eqn:Hz; [|reflexivity].
  rewrite replaceFirst_hours, trim_minutes; auto. apply digits_removelast, Hh.
Qed.

Lemma endsWithZero_zeros h : h <> [] -> forallb (Ascii.eqb "0"%char) h = true -> endsWithZero h = true.
Proof.
  intros Hh Hz. unfold endsWithZero. destruct (last h) as [c|] eqn:Hl.
  - apply last_Some in Hl as [h' ->]. rewrite forallb_app in Hz.
    apply andb_true_iff in Hz as [_ Hz]. simpl in Hz. rewrite andb_true_r in Hz.
    now rewrite Ascii.eqb_sym.
  - apply last_None in Hl. contradiction.
Qed.

Lemma length_removelast (h : list ascii) : h <> [] -> S (length (removelast h)) = length h.
Proof.
  intros Hh. destruct (exists_last Hh) as (h' & c & ->).
  rewrite removelast_last, length_app. simpl. lia.
Qed.

Lemma shownDuration_intent h m :
  numeral h ->
  shownDuration h m = hoursAndMinutes h m <-> endsWithZero h = false \/ h = ["0"%char].
Proof.
  intros [Hh0 Hh]. unfold shownDuration, hoursAndMinutes. split.
  - destruct (endsWithZero h) eqn:Hz; [|auto]. intros Heq. right.
    apply (f_equal length) in Heq. pose proof (length_removelast h Hh0) as Hl.
    destruct (forallb _ h) eqn:Hall; rewrite ?length_app in Heq; simpl in Heq; [|lia].
    destruct h as [|c [|c' h]]; [done | | simpl in Heq, Hl; lia].
    cbn [forallb] in Hall. rewrite andb_true_r in Hall. apply Ascii.eqb_eq in Hall as <-. reflexivity.
  - intros [Hz | ->]; [|reflexivity]. rewrite Hz.
    destruct (forallb _ h) eqn:Hall; [|reflexivity].
    rewrite endsWithZero_zeros in Hz by assumption. discriminate.
Qed.

(** On a duration of the form [<h>h <m>m <s>s] the seconds are
    removed, and whenever the hours end in the digit 0 that digit and the
    unit [h] are removed with the space after them, so that what is left of
    the hours runs into the minutes. *)
Theorem formatDuration_hms h m s :
  numeral h -> numeral m -> numeral s ->
  formatDuration (string_of_list_ascii (hms h m s)) = string_of_list_ascii (shownDuration h m).
Proof. apply formatDuration_shownDuration. Qed.

(** C12. The text shown is the one the comments of the code describe
    (hours and minutes, the hours left out when they are zero) exactly when
    the hours do not end in the digit 0 or are the single digit 0: ten,
    twenty or a hundred hours are shown as minutes. *)
Theorem formatDuration_intent h m s :
  numeral h -> numeral m -> numeral s ->
  formatDuration (string_of_list_ascii (hms h m s)) = string_of_list_ascii (hoursAndMinutes h m)
  <-> endsWithZero h = false \/ h = ["0"%char].
Proof.
  intros Hh Hm Hs. rewrite formatDuration_shownDuration by assumption.
  rewrite <- (shownDuration_intent h m Hh). split; [apply string_of_list_ascii_inj | now intros ->].
Qed.

Lemma numeral_lit (s : string) :
  s <> EmptyString -> forallb isDigit (list_ascii_of_string s) = true ->
  numeral (list_ascii_of_string s).
Proof.
  intros Hs Hd. split; [destruct s; [done | discriminate]|].
  apply Forall_forall. intros c Hc. apply list_elem_of_In in Hc.
  now apply (proj1 (forallb_forall _ _) Hd).
Qed.

Lemma formatDuration_hms_witness :
  formatDuration "10h 5m 26s" = "15m"%string.
Proof.
  apply (formatDuration_hms (lit "10") (lit "5") (lit "26")); now apply numeral_lit.
Defined.

Lemma formatDuration_intent_witness :
  formatDuration "10h 5m 26s" = "10h 5m"%string <-> true = false \/ lit "10" = lit "0".
Proof.
  apply (formatDuration_intent (lit "10") (lit "5") (lit "26")); now apply numeral_lit.
Defined.
