(* ===== verification/Tooltip.v ===== *)
(** * Content synthesizer

    [generateTooltipContent] of [MapViewer.tsx] (lines 242-366): the nearest
    sample of the interval, the progress along it, the speed shown, the
    interpolated time and the choice between the journey-end message and the
    standard one.  The function returns HTML text in the code; the model
    returns the values interpolated into the two templates, as the tagged
    payload [TooltipContent].  Dates stay timestamps: their locale
    formatting is not modelled. *)

From Stdlib Require Import QArith Qround Lqa.
From stdpp Require Import prelude gmap strings.
From S2P Require Import Prelude DataModel Surface Extractor Duration.

(** ** Payload *)

(** The text of a speed: [x.toFixed(1) + ' kn'] with its digits in tenths,
    ["NaN kn"], or ['N/A']. *)
Inductive SpeedText : Type :=
| SpeedKn (tenths : Z)
| SpeedNaN
| SpeedNA.

Inductive TooltipContent : Type :=
| JourneyEndContent
    (endJourneyIndex : option Z) (endPointTime : Z) (endDate : option Z)
    (endPointSpeed : SpeedText)
| StandardContent
    (position : Z * Z)              (* lat and lng, [toFixed(6)] *)
    (pointTime : Z) (date : option Z) (pointSpeed : SpeedText)
    (shownIntervalNumber : Z) (shownJourneyIndex : option Z)
    (avgSpeedText : SpeedText) (shownNavStatus : string)
    (progressText : Z)              (* [progress.toFixed(0)] *)
    (activity : option string)      (* [classificationType || 'N/A'] *)
    (durationText : string)         (* [formatDuration(interval.duration)] *)
    (shownStart shownEnd : option Z).

(** The data a polyline's closures capture when it is drawn: the results,
    the intervals shown and the position of its interval among them. *)
Record TooltipEnv : Type := mkEnv {
  envResults : option CSVIntervalResult;
  envShown : list Interval;
  envPosition : nat;
}.

(** ** Pieces of the computation *)

(** [v.toFixed(1) + ' kn'] for a value that is not [null] or [undefined]
    (on those the call throws; every call site excludes them first). *)
Definition knots (v : JsNum) : SpeedText :=
  match v with
  | JNum q => SpeedKn (toFixed 1 q)
  | JNaN => SpeedNaN
  | JNull | JUndefined => SpeedNA
  end.

(** [new Date(x)]: the time value is [x] truncated towards zero. *)
Definition dateOf (x : Q) : Z := if Qltb x 0 then Qceiling x else Qfloor x.

Section Tooltip.
Context {surface : MapSurface}.

(** Lines 245-257: the index of the sample nearest to the point, among the
    samples with truthy coordinates; 0 when there is none. *)
Definition sampleCandidate (pointLatLng : LatLng) (index : nat) (point : CoordinatePoint)
  : option (Q * nat) :=
  match truthyPoint point with
  | Some c => Some (distance pointLatLng c, index)
  | None => None
  end.

Definition closestPointIndex (pointLatLng : LatLng) (interval : Interval) : nat :=
  (scanMin (Infinity, O) (imap (sampleCandidate pointLatLng) (coordinatePoints interval))).2.

(** Line 260. *)
Definition progress (pointLatLng : LatLng) (interval : Interval) : Q :=
  let totalPoints := length (coordinatePoints interval) in
  if decide (1 < totalPoints)%nat
  then inject_Z (Z.of_nat (closestPointIndex pointLatLng interval))
       / inject_Z (Z.of_nat totalPoints - 1) * 100
  else 0.

(** Lines 268-269. *)
Definition isAtEndOfInterval (pointLatLng : LatLng) (interval : Interval) : bool :=
  let totalPoints := length (coordinatePoints interval) in
  bool_decide (Z.of_nat totalPoints - 1 <= Z.of_nat (closestPointIndex pointLatLng interval))%Z
  || Qle_bool 98 (progress pointLatLng interval).

(** Lines 263-279. *)
Definition isJourneyEnding (env : TooltipEnv) (pointLatLng : LatLng) (interval : Interval)
  : bool :=
  isLastIntervalOfJourney (envShown env) (envPosition env) interval
  && isAtEndOfInterval pointLatLng interval
  && isJourneyComplete (envResults env) (journeyIndex interval).

(** [p && p.speed !== null && p.speed !== undefined] and [p?.speed], for
    an array element that may be [undefined]. *)
Definition hasSpeed (p : option CoordinatePoint) : bool :=
  match p with
  | Some point => present (speed point)
  | None => false
  end.

Definition speedOf (p : option CoordinatePoint) : JsNum :=
  match p with
  | Some point => speed point
  | None => JUndefined
  end.

(** Lines 284-301. *)
Definition pointSpeedOf (pointLatLng : LatLng) (interval : Interval) : SpeedText :=
  let points := coordinatePoints interval in
  let totalPoints := length points in
  if decide (1 < totalPoints)%nat then
    let index := closestPointIndex pointLatLng interval in
    let currentPoint := points !! index in
    let nextPoint := points !! (S index `min` (totalPoints - 1))%nat in
    if hasSpeed currentPoint then knots (speedOf currentPoint)
    else if hasSpeed nextPoint then
      let interpolatedSpeed :=
        if truthy (speedOf currentPoint) then speedOf currentPoint else speedOf nextPoint in
      knots interpolatedSpeed
    else if truthy (avgSpeed interval) then knots (avgSpeed interval)
    else SpeedNA
  else SpeedNA.

(** Lines 309-312. *)
Definition pointTimestamp (pointLatLng : LatLng) (interval : Interval) : Q :=
  let startTimestamp := inject_Z (default 0%Z (startTime interval)) in
  let endTimestamp := inject_Z (default 0%Z (endTime interval)) in
  startTimestamp + (endTimestamp - startTimestamp) * (progress pointLatLng interval / 100).

(** Line 350: [interval.avgSpeed?.toFixed(1) || 'N/A']. *)
Definition avgSpeedTextOf (interval : Interval) : SpeedText :=
  if present (avgSpeed interval) then knots (avgSpeed interval) else SpeedNA.

(** Line 358: [interval.classificationType || 'N/A']. *)
Definition activityOf (interval : Interval) : option string :=
  if decide (classificationType interval = EmptyString) then None
  else Some (classificationType interval).

(** Lines 242-366. *)
Definition generateTooltipContent (env : TooltipEnv) (pointLatLng : LatLng)
  (interval : Interval) : TooltipContent :=
  let pointTime := dateOf (pointTimestamp pointLatLng interval) in
  let date := truthyTime (startTime interval) in
  let pointSpeed := pointSpeedOf pointLatLng interval in
  if isJourneyEnding env pointLatLng interval
  then JourneyEndContent (journeyIndex interval) pointTime date pointSpeed
  else StandardContent
         (toFixed 6 pointLatLng.1, toFixed 6 pointLatLng.2)
         pointTime date pointSpeed
         (intervalNumber interval) (journeyIndex interval)
         (avgSpeedTextOf interval) (navStatus interval)
         (toFixed 0 (progress pointLatLng interval))
         (activityOf interval)
         (formatDuration (duration interval))
         (truthyTime (startTime interval)) (truthyTime (endTime interval)).

End Tooltip.

(** ** The nearest sample *)

Section TooltipFacts.
Context {surface : MapSurface}.
Implicit Types (env : TooltipEnv) (p : LatLng) (interval : Interval).

Lemma sampleCandidate_lookup p interval j d idx :
  imap (sampleCandidate p) (coordinatePoints interval) !! j = Some (Some (d, idx)) <->
  exists point c, coordinatePoints interval !! j = Some point /\
    truthyPoint point = Some c /\ d = distance p c /\ idx = j.
Proof.
  rewrite list_lookup_imap. unfold sampleCandidate.
  destruct (coordinatePoints interval !! j) as [point|]; simpl.
  - destruct (truthyPoint point) as [c|] eqn:Hc; split.
    + intros [= <- <-]. eauto 10.
    + intros (? & ? & [= <-] & Hc' & -> & ->). congruence.
    + discriminate.
    + intros (? & ? & [= <-] & Hc' & _). congruence.
  - split; [discriminate | intros (? & ? & [=] & _)].
Qed.

(** What [closestPointIndex] returns: 0 when no sample has truthy
    coordinates, else the first sample of least distance among those. *)
Inductive ClosestSample p interval : nat -> Prop :=
| closest_sample_none :
    (forall j point, coordinatePoints interval !! j = Some point -> truthyPoint point = None) ->
    ClosestSample p interval 0
| closest_sample_some idx point c :
    coordinatePoints interval !! idx = Some point ->
    truthyPoint point = Some c ->
    (forall j point' c', (j < idx)%nat -> coordinatePoints interval !! j = Some point' ->
       truthyPoint point' = Some c' -> distance p c < distance p c') ->
    (forall j point' c', coordinatePoints interval !! j = Some point' ->
       truthyPoint point' = Some c' -> distance p c <= distance p c') ->
    ClosestSample p interval idx.

Lemma closestPointIndex_ClosestSample p interval :
  ClosestSample p interval (closestPointIndex p interval).
Proof.
  unfold closestPointIndex.
  destruct (scanMin_spec (Infinity, O) (imap (sampleCandidate p) (coordinatePoints interval)))
    as [Hall | i d b Hi _ Hbefore Hall]; simpl.
  - apply closest_sample_none. intros j point Hj.
    destruct (truthyPoint point) as [c|] eqn:Hc; [|reflexivity].
    destruct (Hall j (distance p c) j). apply sampleCandidate_lookup. eauto 10.
  - apply sampleCandidate_lookup in Hi as (point & c & Hi & Hc & -> & ->).
    apply (closest_sample_some _ _ i point c); auto.
    + intros j point' c' Hlt Hj Hc'. apply (Hbefore j _ j Hlt).
      apply sampleCandidate_lookup. eauto 10.
    + intros j point' c' Hj Hc'. apply (Hall j _ j).
      apply sampleCandidate_lookup. eauto 10.
Qed.

Lemma closestPointIndex_le p interval :
  (closestPointIndex p interval <= length (coordinatePoints interval) - 1)%nat.
Proof.
  destruct (closestPointIndex_ClosestSample p interval) as [_ | idx point c Hidx _ _ _].
  - lia.
  - apply lookup_lt_Some in Hidx. lia.
Qed.

(** ** Progress and time *)

Lemma progress_range_aux p interval : 0 <= progress p interval <= 100.
Proof.
  unfold progress. destruct (decide _) as [Hlen|_]; [|lra].
  pose proof (closestPointIndex_le p interval) as Hle.
  set (n := length (coordinatePoints interval)) in *.
  set (k := closestPointIndex p interval) in *.
  assert (Hd : 0 < inject_Z (Z.of_nat n - 1)).
  { change 0 with (inject_Z 0). rewrite <- Zlt_Qlt. lia. }
  assert (Hk : 0 <= inject_Z (Z.of_nat k) <= inject_Z (Z.of_nat n - 1)).
  { change 0 with (inject_Z 0). rewrite <- !Zle_Qle. lia. }
  assert (Hq : 0 <= inject_Z (Z.of_nat k) / inject_Z (Z.of_nat n - 1) <= 1).
  { split.
    - apply Qle_shift_div_l; [exact Hd | lra].
    - apply Qle_shift_div_r; [exact Hd | lra]. }
  lra.
Qed.

Lemma Qfloor_le_Qceiling (x : Q) : (Qfloor x <= Qceiling x)%Z.
Proof. rewrite Zle_Qle. apply Qle_floor_ceiling. Qed.

Lemma dateOf_between (a b : Z) (x : Q) :
  inject_Z a <= x <= inject_Z b -> (a <= dateOf x <= b)%Z.
Proof.
  intros [Ha Hb]. unfold dateOf. destruct (Qltb x 0).
  - split.
    + apply Z.le_trans with (Qfloor x); [|apply Qfloor_le_Qceiling].
      rewrite <- (Qfloor_Z a). now apply Qfloor_resp_le.
    + rewrite <- (Qceiling_Z b). now apply Qceiling_resp_le.
  - split.
    + rewrite <- (Qfloor_Z a). now apply Qfloor_resp_le.
    + apply Z.le_trans with (Qceiling x); [apply Qfloor_le_Qceiling|].
      rewrite <- (Qceiling_Z b). now apply Qceiling_resp_le.
Qed.

Lemma pointTimestamp_between p interval (s e : Z) :
  startTime interval = Some s -> endTime interval = Some e -> (s <= e)%Z ->
  inject_Z s <= pointTimestamp p interval <= inject_Z e.
Proof.
  intros Hs He Hle. unfold pointTimestamp. rewrite Hs, He. simpl.
  pose proof (progress_range_aux p interval) as [H0 H100].
  set (x := progress p interval) in *. rewrite Zle_Qle in Hle.
  set (a := inject_Z s) in *. set (b := inject_Z e) in *.
  assert (Hf : 0 <= x / 100 <= 1).
  { split; [apply Qle_shift_div_l | apply Qle_shift_div_r]; lra. }
  set (f := x / 100) in *. split; nra.
Qed.

(** ** Speed resolution *)

(** The decision table of lines 284-301, with [idx] the nearest sample and
    [next] the sample after it (the last one when [idx] is the last). *)
Inductive SpeedResolution p interval : SpeedText -> Prop :=
| speed_single :
    (length (coordinatePoints interval) <= 1)%nat ->
    SpeedResolution p interval SpeedNA
| speed_current point :
    (1 < length (coordinatePoints interval))%nat ->
    coordinatePoints interval !! closestPointIndex p interval = Some point ->
    present (speed point) = true ->
    SpeedResolution p interval (knots (speed point))
| speed_next point next :
    (1 < length (coordinatePoints interval))%nat ->
    coordinatePoints interval !! closestPointIndex p interval = Some point ->
    present (speed point) = false ->
    coordinatePoints interval
      !! (S (closestPointIndex p interval) `min` (length (coordinatePoints interval) - 1))%nat
      = Some next ->
    present (speed next) = true ->
    SpeedResolution p interval (knots (speed next))
| speed_average point next :
    (1 < length (coordinatePoints interval))%nat ->
    coordinatePoints interval !! closestPointIndex p interval = Some point ->
    present (speed point) = false ->
    coordinatePoints interval
      !! (S (closestPointIndex p interval) `min` (length (coordinatePoints interval) - 1))%nat
      = Some next ->
    present (speed next) = false ->
    SpeedResolution p interval
      (if truthy (avgSpeed interval) then knots (avgSpeed interval) else SpeedNA).

Lemma present_false_truthy (v : JsNum) : present v = false -> truthy v = false.
Proof. destruct v; simpl; congruence. Qed.

Lemma pointSpeedOf_SpeedResolution p interval :
  SpeedResolution p interval (pointSpeedOf p interval).
Proof.
  unfold pointSpeedOf. destruct (decide _) as [Hlen|Hlen]; [|apply speed_single; lia].
  pose proof (closestPointIndex_le p interval) as Hle.
  destruct (lookup_lt_is_Some_2 (coordinatePoints interval) (closestPointIndex p interval))
    as [point Hpoint]; [lia|].
  destruct (lookup_lt_is_Some_2 (coordinatePoints interval)
              (S (closestPointIndex p interval) `min` (length (coordinatePoints interval) - 1))%nat)
    as [next Hnext]; [lia|].
  rewrite Hpoint, Hnext. simpl.
  destruct (present (speed point)) eqn:Hp; [now apply speed_current|].
  rewrite (present_false_truthy _ Hp).
  destruct (present (speed next)) eqn:Hn.
  - eapply speed_next; eauto.
  - eapply speed_average; eauto.
Qed.

(** ** The journey-end variant *)

Lemma isJourneyEnding_terminal env p interval :
  envShown env !! envPosition env = Some interval ->
  isJourneyEnding env p interval = true <->
  terminalAt (envResults env) (envShown env) (envPosition env) interval /\
  ((Z.of_nat (length (coordinatePoints interval)) - 1
      <= Z.of_nat (closestPointIndex p interval))%Z \/
   98 <= progress p interval).
Proof.
  intros Hpos. unfold isJourneyEnding, isAtEndOfInterval, terminalAt.
  rewrite !andb_true_iff, orb_true_iff, bool_decide_eq_true, Qle_bool_iff.
  rewrite (isLastIntervalOfJourney_noLater _ _ _ Hpos). tauto.
Qed.

End TooltipFacts.

(** ** Theorems *)

Section TooltipTheorems.
Context {surface : MapSurface}.
Implicit Types (env : TooltipEnv) (p : LatLng) (interval : Interval).

Lemma ClosestSample_unique p interval idx idx' :
  ClosestSample p interval idx -> ClosestSample p interval idx' -> idx = idx'.
Proof.
  intros [Hnone | i point c Hi Hc Hbefore Hall] [Hnone' | i' point' c' Hi' Hc' Hbefore' Hall'].
  - reflexivity.
  - rewrite (Hnone _ _ Hi') in Hc'. discriminate.
  - rewrite (Hnone' _ _ Hi) in Hc. discriminate.
  - destruct (Nat.lt_trichotomy i i') as [Hlt|[Heq|Hgt]]; [|exact Heq|].
    + specialize (Hbefore' _ _ _ Hlt Hi Hc). specialize (Hall _ _ _ Hi' Hc'). lra.
    + specialize (Hbefore _ _ _ Hgt Hi' Hc'). specialize (Hall' _ _ _ Hi Hc). lra.
Qed.

(** C14. The sample index used by the tooltip is characterised: it is 0
    when no sample has truthy coordinates, and otherwise the first sample,
    among those with truthy coordinates, of least distance to the point. *)
Theorem closestPointIndex_characterised p interval idx :
  ClosestSample p interval idx <-> idx = closestPointIndex p interval.
Proof.
  split.
  - intros H. eapply ClosestSample_unique; [exact H|]. apply closestPointIndex_ClosestSample.
  - intros ->. apply closestPointIndex_ClosestSample.
Qed.

(** The progress shown lies between 0 and 100 percent, whatever the
    interval and the point. *)
Theorem progress_range p interval : 0 <= progress p interval <= 100.
Proof. apply progress_range_aux. Qed.

(** When the interval starts no later than it ends, the interpolated
    time of the point lies between its start and end times. *)
Theorem pointTime_between p interval (s e : Z) :
  startTime interval = Some s -> endTime interval = Some e -> (s <= e)%Z ->
  (s <= dateOf (pointTimestamp p interval) <= e)%Z.
Proof. intros Hs He Hle. apply dateOf_between. now apply pointTimestamp_between. Qed.

(** The speed shown follows the resolution order of the code: the
    nearest sample's own speed when it has one; else the next sample's
    speed, used as it is; else the interval's average speed when truthy;
    else "N/A"; and "N/A" for an interval of fewer than two samples. *)
Theorem pointSpeedOf_resolution p interval :
  SpeedResolution p interval (pointSpeedOf p interval).
Proof. apply pointSpeedOf_SpeedResolution. Qed.

(** C8. The journey-end message is produced exactly when the interval of
    the polyline is terminal (last of its journey among those shown, journey
    complete) and the nearest sample is the last one or the progress is at
    least 98 percent. *)
Theorem generateTooltipContent_journey_end env p interval :
  envShown env !! envPosition env = Some interval ->
  (exists t d s,
     generateTooltipContent env p interval = JourneyEndContent (journeyIndex interval) t d s)
  <->
  terminalAt (envResults env) (envShown env) (envPosition env) interval /\
  ((Z.of_nat (length (coordinatePoints interval)) - 1
      <= Z.of_nat (closestPointIndex p interval))%Z \/
   98 <= progress p interval).
Proof.
  intros Hpos. rewrite <- (isJourneyEnding_terminal env p interval Hpos).
  unfold generateTooltipContent. destruct (isJourneyEnding env p interval); split.
  - reflexivity.
  - eauto.
  - intros (t & d & s & [=]).
  - discriminate.
Qed.

End TooltipTheorems.

(** ** The scenario of two samples *)

Definition scenarioInterval : Interval :=
  mkInterval (Some 1%Z) 1 (Some 0%Z) (Some 60000%Z) JNull EmptyString EmptyString "0h 1m 0s"
    [ mkPoint (JNum 36) (JNum (- (54 # 10))) (JNum 5);
      mkPoint (JNum (3601 # 100)) (JNum (- (541 # 100))) (JNum 7) ].

Definition scenarioEnv : TooltipEnv :=
  mkEnv (Some (mkResult true (Some (mkData
           [mkJourney 1 (Some (mkMetadata false)) [scenarioInterval]]))))
        [scenarioInterval] 0.

Definition scenarioMidpoint : LatLng := (36005 # 1000, - (5405 # 1000)).
Definition scenarioEnd : LatLng := (3601 # 100, - (541 # 100)).

Lemma pointTime_between_witness :
  (0 <= dateOf (pointTimestamp (surface := planarSurface) scenarioMidpoint scenarioInterval)
     <= 60000)%Z.
Proof.
  apply (pointTime_between (surface := planarSurface) scenarioMidpoint scenarioInterval);
    [reflexivity | reflexivity | lia].
Defined.

Lemma generateTooltipContent_journey_end_witness :
  (exists t d s,
     generateTooltipContent (surface := planarSurface) scenarioEnv scenarioEnd scenarioInterval
       = JourneyEndContent (journeyIndex scenarioInterval) t d s)
  <->
  terminalAt (envResults scenarioEnv) (envShown scenarioEnv) (envPosition scenarioEnv)
    scenarioInterval /\
  ((Z.of_nat (length (coordinatePoints scenarioInterval)) - 1
      <= Z.of_nat (closestPointIndex (surface := planarSurface) scenarioEnd scenarioInterval))%Z \/
   98 <= progress (surface := planarSurface) scenarioEnd scenarioInterval).
Proof.
  apply (generateTooltipContent_journey_end (surface := planarSurface)). reflexivity.
Defined.

(** At the midpoint of a path of two samples with speeds 5 and 7, the
    tooltip is the standard one and shows progress 0 percent and speed
    5.0 kn: the nearest sample on a tie is the first, its own speed is
    present, and the progress is that of the sample, not of the point.
    The duration "0h 1m 0s" is shown as "1m"; the start time 0 is falsy,
    so the date and the start of the interval are shown as N/A. *)
Theorem scenario_midpoint_content :
  generateTooltipContent (surface := planarSurface) scenarioEnv scenarioMidpoint scenarioInterval
  = StandardContent (36005000%Z, (-5405000)%Z) 0 None (SpeedKn 50) 1 (Some 1%Z)
      SpeedNA EmptyString 0 None "1m" None (Some 60000%Z).
Proof. vm_compute. reflexivity. Qed.

(** At the final sample of the same path the journey-end message is
    produced, with the end time and the last sample's speed. *)
Theorem scenario_end_content :
  generateTooltipContent (surface := planarSurface) scenarioEnv scenarioEnd scenarioInterval
  = JourneyEndContent (Some 1%Z) 60000 None (SpeedKn 70).
Proof. vm_compute. reflexivity. Qed.
