(* ===== verification/RenderSet.v ===== *)
(** * Render set manager

    The mutable state of the [MapViewer] component and the operations that
    build and destroy the map primitives: [clearMap] (lines 78-97), the
    drawing loop of [showSelectedJourneys] (lines 170-482), the final
    markers (485-544), the fit of the view (547-550) and the whole of
    [showSelectedJourneys] (126-555).

    The refs of the component are the fields of [ViewerState].  The Leaflet
    map is the set of identifiers of the layers it holds (Leaflet stamps
    every layer with a number), the number of [mousemove] handlers
    registered on it, and the last view fitted.  [addLayer], [removeLayer]
    and [fitBounds] are Leaflet's; they are modelled from their contract. *)

From Stdlib Require Import QArith.
From stdpp Require Import prelude gmap strings.
From S2P Require Import Prelude DataModel Surface Extractor Tooltip.

#[local] Set Warnings "-clear-no-such-hyp".

(** ** State *)

Inductive MarkerKind : Type :=
| StartMarker
| EndMarker
| FinalMarker (finalJourneyIndex : option Z) (finalEndTime : option Z).

Record Marker : Type := mkMarker {
  markerId : nat;
  markerLatLng : LatLng;
  markerColor : option Z;         (* [getJourneyColor(journeyIndex)] *)
  markerKind : MarkerKind;
}.

(** A polyline with the two properties the code attaches to it: its
    [intervalData] and, through [polylineEnv], the closure
    [generateTooltipContent]. *)
Record Polyline : Type := mkPolyline {
  polylineId : nat;
  latlngs : list LatLng;
  polylineColor : option Z;
  intervalData : Interval;
  polylineEnv : TooltipEnv;
}.

Record Tooltip : Type := mkTooltip {
  tooltipId : nat;
  tooltipContent : TooltipContent;
  tooltipLatLng : LatLng;
}.

Record LeafletMap : Type := mkMap {
  layers : gset nat;
  moveHandlers : nat;
  fitted : option (list LatLng);
}.

Record ViewerState : Type := mkState {
  mapInstanceRef : option LeafletMap;
  markersRef : list Marker;
  polylinesRef : list Polyline;
  tooltipRef : option Tooltip;
  proximityActiveRef : bool;
  currentPolylineRef : option nat;   (* the identifier of the polyline *)
  nextId : nat;                      (* Leaflet's stamp counter *)
}.

(** The component after the map is created (lines 54-75): no primitive, no
    handler. *)
Definition initialState : ViewerState :=
  mkState (Some (mkMap ∅ 0 None)) [] [] None false None 0.

(** ** The map surface: layers *)

Definition addLayer (id : nat) (m : LeafletMap) : LeafletMap :=
  mkMap ({[id]} ∪ layers m) (moveHandlers m) (fitted m).

Definition removeLayer (id : nat) (m : LeafletMap) : LeafletMap :=
  mkMap (layers m ∖ {[id]}) (moveHandlers m) (fitted m).

Definition fitBounds (bounds : list LatLng) (m : LeafletMap) : LeafletMap :=
  mkMap (layers m) (moveHandlers m) (Some bounds).

(** [if (mapInstanceRef.current) mapInstanceRef.current.f(...)]. *)
Definition onMap (f : LeafletMap -> LeafletMap) (st : ViewerState) : ViewerState :=
  mkState (f <$> mapInstanceRef st) (markersRef st) (polylinesRef st) (tooltipRef st)
    (proximityActiveRef st) (currentPolylineRef st) (nextId st).

(** ** [clearMap] (lines 78-97) *)

Definition clearMap (st : ViewerState) : ViewerState :=
  let st1 := foldl (fun s marker => onMap (removeLayer (markerId marker)) s) st (markersRef st) in
  let st2 := foldl (fun s polyline => onMap (removeLayer (polylineId polyline)) s) st1
               (polylinesRef st) in
  let st3 := match tooltipRef st with
             | Some tooltip => onMap (removeLayer (tooltipId tooltip)) st2
             | None => st2
             end in
  mkState (mapInstanceRef st3) [] [] None false None (nextId st).

(** ** Drawing one interval (lines 170-482) *)

(** The markers and the polyline of an interval whose usable coordinates are
    [coords], stamped from [id]. *)
Definition startMarkerOf (id : nat) (interval : Interval) (startPoint : LatLng) : Marker :=
  mkMarker id startPoint (journeyIndex interval) StartMarker.

Definition endMarkerOf (id : nat) (interval : Interval) (endPoint : LatLng) : Marker :=
  mkMarker id endPoint (journeyIndex interval) EndMarker.

Definition polylineOf (id : nat) (env : TooltipEnv) (interval : Interval)
  (coords : list LatLng) : Polyline :=
  mkPolyline id coords (journeyIndex interval) interval env.

Definition drawInterval (csvResults : option CSVIntervalResult) (shown : list Interval)
  (st : ViewerState) (k : nat) (interval : Interval) : ViewerState :=
  if decide (1 < length (coordinatePoints interval))%nat then
    let coords := intervalCoordinates interval in
    if decide (1 < length coords)%nat then
      match head coords, last coords with
      | Some startPoint, Some endPoint =>
          let id := nextId st in
          let startMarker := startMarkerOf id interval startPoint in
          let endMarker := endMarkerOf (S id) interval endPoint in
          let polyline := polylineOf (S (S id)) (mkEnv csvResults shown k) interval coords in
          mkState
            (addLayer (S (S id)) <$> (addLayer (S id) <$> (addLayer id <$> mapInstanceRef st)))
            (markersRef st ++ [startMarker; endMarker])
            (polylinesRef st ++ [polyline])
            (tooltipRef st) (proximityActiveRef st) (currentPolylineRef st)
            (S (S (S id)))
      | _, _ => st
      end
    else st
  else st.

(** ** Final markers (lines 485-544) *)

Definition addFinalMarker (st : ViewerState) (entry : option Z * Interval) : ViewerState :=
  let '(journeyIndex', lastInterval) := entry in
  match last (coordinatePoints lastInterval) with
  | Some lastPoint =>
      match truthyPoint lastPoint with
      | Some c =>
          let finalMarker :=
            mkMarker (nextId st) c journeyIndex'
              (FinalMarker journeyIndex' (truthyTime (endTime lastInterval))) in
          mkState (addLayer (nextId st) <$> mapInstanceRef st)
            (markersRef st ++ [finalMarker]) (polylinesRef st) (tooltipRef st)
            (proximityActiveRef st) (currentPolylineRef st) (S (nextId st))
      | None => st
      end
  | None => st
  end.

(** ** [showSelectedJourneys] (lines 126-555) *)

(** [new L.featureGroup(polylinesRef.current).getBounds()]: the positions
    the view is fitted to. *)
Definition boundsOf (polylines : list Polyline) : list LatLng :=
  polylines ≫= latlngs.

(** The guard of line 127 is [!mapInstanceRef.current || !window.L].  The
    refs do not hold [window.L]; a map exists only where it is defined
    ([Session.map_needs_leaflet]), so the test of the map decides alone. *)
Definition showSelectedJourneys (csvResults : option CSVIntervalResult)
  (journeysToShow : gset Z) (st : ViewerState) : ViewerState :=
  match mapInstanceRef st with
  | None => st
  | Some _ =>
      let cleared := clearMap st in
      let allIntervals := extractIntervalsFromResults csvResults in
      if decide (length allIntervals = 0%nat) then cleared
      else
        let shown := intervalsToShow journeysToShow allIntervals in
        let lastIntervals := lastIntervalsByJourney csvResults shown in
        let drawn := forEach (drawInterval csvResults shown) cleared shown in
        let marked := foldl addFinalMarker drawn lastIntervals in
        if decide (0 < length shown /\ 0 < length (polylinesRef marked))%nat
        then onMap (fitBounds (boundsOf (polylinesRef marked))) marked
        else marked
  end.

(** ** The tracking invariant

    Every layer on the map is recorded in a ref, under an identifier that
    was stamped once. *)

Definition trackedIds (st : ViewerState) : list nat :=
  (markerId <$> markersRef st) ++ (polylineId <$> polylinesRef st)
  ++ option_list (tooltipId <$> tooltipRef st).

Record Tracked (st : ViewerState) : Prop := mkTracked {
  tracked_layers (m : LeafletMap) :
    mapInstanceRef st = Some m -> layers m = list_to_set (trackedIds st);
  tracked_fresh (id : nat) : id ∈ trackedIds st -> (id < nextId st)%nat;
  tracked_nodup : NoDup (trackedIds st);
}.

Definition mapLayers (f : gset nat -> gset nat) (m : LeafletMap) : LeafletMap :=
  mkMap (f (layers m)) (moveHandlers m) (fitted m).

Section RenderSetFacts.
Implicit Types (st : ViewerState) (m : LeafletMap) (ids : list nat).

Lemma Tracked_initial : Tracked initialState.
Proof.
  split.
  - intros m [= <-]. reflexivity.
  - intros id []%elem_of_nil.
  - constructor.
Qed.

(** Primitives stamped with the next [n] identifiers and added to the map
    keep the invariant. *)
Lemma Tracked_add st st' (n : nat) :
  Tracked st ->
  trackedIds st' ≡ₚ seq (nextId st) n ++ trackedIds st ->
  nextId st' = (nextId st + n)%nat ->
  (forall m', mapInstanceRef st' = Some m' ->
     exists m, mapInstanceRef st = Some m /\
       layers m' = list_to_set (seq (nextId st) n) ∪ layers m) ->
  Tracked st'.
Proof.
  intros [Hl Hf Hn] Hperm Hnext Hmap. split.
  - intros m' Hm'. destruct (Hmap m' Hm') as (m & Hm & ->).
    rewrite (Hl m Hm). apply leibniz_equiv. rewrite Hperm, list_to_set_app. reflexivity.
  - intros id. rewrite Hperm, elem_of_app, elem_of_seq, Hnext.
    intros [?|Hid]; [lia|]. specialize (Hf id Hid). lia.
  - rewrite Hperm. apply NoDup_app. split_and!; [apply NoDup_seq | | exact Hn].
    intros id Hid Hold. apply elem_of_seq in Hid. specialize (Hf id Hold). lia.
Qed.

(** A state with the same primitives and the same layers keeps it. *)
Lemma Tracked_same st st' :
  Tracked st ->
  trackedIds st' = trackedIds st -> (nextId st <= nextId st')%nat ->
  (forall m', mapInstanceRef st' = Some m' ->
     exists m, mapInstanceRef st = Some m /\ layers m' = layers m) ->
  Tracked st'.
Proof.
  intros [Hl Hf Hn] Hids Hnext Hmap. split.
  - intros m' Hm'. destruct (Hmap m' Hm') as (m & Hm & ->). rewrite Hids. auto.
  - intros id. rewrite Hids. intros Hid. specialize (Hf id Hid). lia.
  - now rewrite Hids.
Qed.

(** *** [clearMap] *)

Lemma removeLayers_foldl {A} (f : A -> nat) (l : list A) st :
  foldl (fun s x => onMap (removeLayer (f x)) s) st l =
  onMap (mapLayers (fun L => L ∖ list_to_set (f <$> l))) st.
Proof.
  revert st. induction l as [|x l IH]; intros st; simpl; rewrite ?IH;
    destruct st as [[[L h v]|] ? ? ? ? ? ?]; unfold onMap; simpl; try reflexivity;
    do 2 f_equal; unfold mapLayers, removeLayer; simpl; f_equal; set_solver.
Qed.

Lemma clearMap_map st :
  mapInstanceRef (clearMap st) =
  mapLayers (fun L => L ∖ list_to_set (trackedIds st)) <$> mapInstanceRef st.
Proof.
  unfold clearMap. rewrite !removeLayers_foldl. unfold trackedIds.
  destruct st as [[[L h v]|] ms ps [t|] ? ? ?]; simpl; try reflexivity;
    unfold mapLayers, removeLayer; simpl; do 2 f_equal;
    rewrite !list_to_set_app_L; simpl; set_solver.
Qed.

Lemma clearMap_Tracked st : Tracked st -> Tracked (clearMap st).
Proof.
  intros [Hl Hf Hn]. split.
  - intros m'. rewrite clearMap_map. destruct (mapInstanceRef st) as [m|] eqn:Hm; [|discriminate].
    intros [= <-]. simpl. rewrite (Hl m eq_refl). set_solver.
  - intros id []%elem_of_nil.
  - constructor.
Qed.

(** *** Drawing *)

Lemma drawInterval_Tracked csv shown st k interval :
  Tracked st -> Tracked (drawInterval csv shown st k interval).
Proof.
  intros Ht. unfold drawInterval.
  destruct (decide _); [|exact Ht]. destruct (decide _); [|exact Ht].
  destruct (head _) as [startPoint|]; [|exact Ht].
  destruct (last _) as [endPoint|]; [|exact Ht].
  apply (Tracked_add st _ 3 Ht); simpl.
  - unfold trackedIds. simpl. rewrite !fmap_app. simpl. solve_Permutation.
  - lia.
  - intros m'. destruct (mapInstanceRef st) as [m|]; [|discriminate].
    intros [= <-]. exists m. split; [reflexivity|]. simpl. set_solver.
Qed.

Lemma addFinalMarker_Tracked st entry : Tracked st -> Tracked (addFinalMarker st entry).
Proof.
  intros Ht. destruct entry as [j lastInterval]. unfold addFinalMarker.
  destruct (last _) as [lastPoint|]; [|exact Ht].
  destruct (truthyPoint lastPoint) as [c|]; [|exact Ht].
  apply (Tracked_add st _ 1 Ht); simpl.
  - unfold trackedIds. simpl. rewrite !fmap_app. simpl. solve_Permutation.
  - lia.
  - intros m'. destruct (mapInstanceRef st) as [m|]; [|discriminate].
    intros [= <-]. exists m. split; [reflexivity|]. simpl. set_solver.
Qed.

Lemma onMap_Tracked f st :
  (forall m, layers (f m) = layers m) -> Tracked st -> Tracked (onMap f st).
Proof.
  intros Hf Ht. apply (Tracked_same st); auto.
  intros m'. simpl. destruct (mapInstanceRef st) as [m|]; [|discriminate].
  intros [= <-]. eauto.
Qed.

Lemma foldl_invariant {A St} (P : St -> Prop) (f : St -> A -> St) (s : St) (l : list A) :
  P s -> (forall s' x, P s' -> P (f s' x)) -> P (foldl f s l).
Proof. revert s. induction l; simpl; auto. Qed.

Lemma showSelectedJourneys_Tracked csv sel st :
  Tracked st -> Tracked (showSelectedJourneys csv sel st).
Proof.
  intros Ht. unfold showSelectedJourneys.
  destruct (mapInstanceRef st); [|exact Ht].
  destruct (decide _); [now apply clearMap_Tracked|].
  assert (Tracked (foldl addFinalMarker
            (forEach (drawInterval csv (intervalsToShow sel (extractIntervalsFromResults csv)))
               (clearMap st) (intervalsToShow sel (extractIntervalsFromResults csv)))
            (lastIntervalsByJourney csv
               (intervalsToShow sel (extractIntervalsFromResults csv))))) as Hm.
  { apply foldl_invariant; [|intros; now apply addFinalMarker_Tracked].
    apply forEach_invariant; [now apply clearMap_Tracked|].
    intros; now apply drawInterval_Tracked. }
  destruct (decide _); [|exact Hm]. now apply onMap_Tracked.
Qed.

End RenderSetFacts.

(** ** What is drawn *)

(** An interval is drawn as a path when it has at least two usable
    coordinates. *)
Definition renderable (interval : Interval) : Prop :=
  (1 < length (intervalCoordinates interval))%nat.

#[export] Instance renderable_dec (interval : Interval) : Decision (renderable interval).
Proof. unfold renderable. apply _. Defined.

(** The primitives of a state without their identifiers. *)
Definition markerShape (marker : Marker) : LatLng * option Z * MarkerKind :=
  (markerLatLng marker, markerColor marker, markerKind marker).

Definition polylineShape (polyline : Polyline) : list LatLng * Interval * TooltipEnv :=
  (latlngs polyline, intervalData polyline, polylineEnv polyline).

Definition shape (st : ViewerState)
  : list (LatLng * option Z * MarkerKind) * list (list LatLng * Interval * TooltipEnv) :=
  (markerShape <$> markersRef st, polylineShape <$> polylinesRef st).

Section Drawing.
Implicit Types (st : ViewerState) (csv : option CSVIntervalResult)
  (shown : list Interval) (interval : Interval).

Lemma drawInterval_renderable csv shown st k interval :
  renderable interval ->
  exists startPoint endPoint,
    head (intervalCoordinates interval) = Some startPoint /\
    last (intervalCoordinates interval) = Some endPoint /\
    drawInterval csv shown st k interval =
      mkState
        (addLayer (S (S (nextId st))) <$>
           (addLayer (S (nextId st)) <$> (addLayer (nextId st) <$> mapInstanceRef st)))
        (markersRef st ++ [startMarkerOf (nextId st) interval startPoint;
                           endMarkerOf (S (nextId st)) interval endPoint])
        (polylinesRef st ++
           [polylineOf (S (S (nextId st))) (mkEnv csv shown k) interval
              (intervalCoordinates interval)])
        (tooltipRef st) (proximityActiveRef st) (currentPolylineRef st)
        (S (S (S (nextId st)))).
Proof.
  intros Hr. unfold renderable in Hr. unfold drawInterval.
  pose proof (intervalCoordinates_length interval) as Hlen.
  rewrite decide_True by lia. rewrite decide_True by exact Hr.
  destruct (intervalCoordinates interval) as [|c0 cs] eqn:Hc; [simpl in Hr; lia|].
  destruct (last (c0 :: cs)) as [e|] eqn:He.
  - exists c0, e. auto.
  - apply last_None in He. discriminate.
Qed.

Lemma drawInterval_not_renderable csv shown st k interval :
  ~ renderable interval -> drawInterval csv shown st k interval = st.
Proof.
  intros Hr. unfold renderable in Hr. unfold drawInterval.
  destruct (decide _); [|reflexivity]. now rewrite decide_False by exact Hr.
Qed.

(** The shape drawn for one interval. *)
Definition drawnShape csv shown (k : nat) interval
  : list (LatLng * option Z * MarkerKind) * list (list LatLng * Interval * TooltipEnv) :=
  if decide (renderable interval) then
    match head (intervalCoordinates interval), last (intervalCoordinates interval) with
    | Some startPoint, Some endPoint =>
        ([(startPoint, journeyIndex interval, StartMarker);
          (endPoint, journeyIndex interval, EndMarker)],
         [(intervalCoordinates interval, interval, mkEnv csv shown k)])
    | _, _ => ([], [])
    end
  else ([], []).

Lemma drawInterval_shape csv shown st k interval :
  shape (drawInterval csv shown st k interval) =
  ((shape st).1 ++ (drawnShape csv shown k interval).1,
   (shape st).2 ++ (drawnShape csv shown k interval).2).
Proof.
  unfold drawnShape. destruct (decide (renderable interval)) as [Hr|Hr].
  - destruct (drawInterval_renderable csv shown st k interval Hr)
      as (startPoint & endPoint & -> & -> & ->).
    unfold shape. simpl. now rewrite !fmap_app.
  - rewrite (drawInterval_not_renderable _ _ _ _ _ Hr). simpl. now rewrite !app_nil_r.
Qed.

(** The shape added by one final marker. *)
Definition finalShape (entry : option Z * Interval)
  : list (LatLng * option Z * MarkerKind) :=
  match last (coordinatePoints entry.2) with
  | Some lastPoint =>
      match truthyPoint lastPoint with
      | Some c => [(c, entry.1, FinalMarker entry.1 (truthyTime (endTime entry.2)))]
      | None => []
      end
  | None => []
  end.

Lemma addFinalMarker_shape st entry :
  shape (addFinalMarker st entry) = ((shape st).1 ++ finalShape entry, (shape st).2).
Proof.
  destruct entry as [j lastInterval]. unfold addFinalMarker, finalShape. simpl.
  destruct (last _) as [lastPoint|]; [|simpl; now rewrite app_nil_r].
  destruct (truthyPoint lastPoint) as [c|]; [|simpl; now rewrite app_nil_r].
  unfold shape. simpl. now rewrite fmap_app.
Qed.

(** The shape of everything [showSelectedJourneys] draws for a list of
    intervals: a function of the data alone. *)
Definition shownShape csv shown
  : list (LatLng * option Z * MarkerKind) * list (list LatLng * Interval * TooltipEnv) :=
  let drawn := imap (drawnShape csv shown) shown in
  ((drawn ≫= fst) ++ (lastIntervalsByJourney csv shown ≫= finalShape), drawn ≫= snd).

Lemma forEach_drawInterval_shape csv shown st (l : list Interval) :
  shape (forEach (drawInterval csv shown) st l) =
  ((shape st).1 ++ (imap (drawnShape csv shown) l ≫= fst),
   (shape st).2 ++ (imap (drawnShape csv shown) l ≫= snd)).
Proof.
  induction l as [|x l IH] using rev_ind.
  - simpl. now rewrite !app_nil_r.
  - rewrite forEach_snoc, drawInterval_shape, IH, imap_app. simpl.
    rewrite !bind_app, Nat.add_0_r. simpl. now rewrite !app_nil_r, !app_assoc.
Qed.

Lemma foldl_addFinalMarker_shape st (l : list (option Z * Interval)) :
  shape (foldl addFinalMarker st l) = ((shape st).1 ++ (l ≫= finalShape), (shape st).2).
Proof.
  revert st. induction l as [|x l IH]; intros st; simpl.
  - now rewrite app_nil_r.
  - rewrite IH, addFinalMarker_shape. simpl. now rewrite app_assoc.
Qed.

Lemma shape_clearMap st : shape (clearMap st) = ([], []).
Proof. reflexivity. Qed.

Lemma showSelectedJourneys_shape csv sel st :
  is_Some (mapInstanceRef st) ->
  shape (showSelectedJourneys csv sel st) =
  shownShape csv (intervalsToShow sel (extractIntervalsFromResults csv)).
Proof.
  intros [m Hm]. unfold showSelectedJourneys. rewrite Hm.
  destruct (decide (length (extractIntervalsFromResults csv) = 0%nat)) as [Hz|Hnz].
  - apply length_zero_iff_nil in Hz. rewrite Hz. reflexivity.
  - set (shown := intervalsToShow sel (extractIntervalsFromResults csv)).
    assert (Hs : shape (foldl addFinalMarker (forEach (drawInterval csv shown) (clearMap st) shown)
                          (lastIntervalsByJourney csv shown)) = shownShape csv shown).
    { rewrite foldl_addFinalMarker_shape, forEach_drawInterval_shape, shape_clearMap.
      reflexivity. }
    destruct (decide _); [|exact Hs]. rewrite <- Hs. reflexivity.
Qed.

End Drawing.

(** ** Theorems *)

Section RenderSetTheorems.
Implicit Types (st : ViewerState) (csv : option CSVIntervalResult) (sel : gset Z).

(** C15. After [clearMap] nothing is left: the refs are empty, the
    proximity session is off with no focus, and, when the state tracked its
    layers, the map holds no layer. *)
Theorem clearMap_leaves_nothing st :
  Tracked st ->
  markersRef (clearMap st) = [] /\ polylinesRef (clearMap st) = [] /\
  tooltipRef (clearMap st) = None /\
  proximityActiveRef (clearMap st) = false /\ currentPolylineRef (clearMap st) = None /\
  forall m, mapInstanceRef (clearMap st) = Some m -> layers m = ∅.
Proof.
  intros Ht. split_and!; try reflexivity.
  intros m Hm. apply (tracked_layers _ (clearMap_Tracked st Ht) m Hm).
Qed.

(** [clearMap] is idempotent: clearing a cleared state changes
    nothing, so it is safe to call when nothing is rendered. *)
Theorem clearMap_idempotent st : clearMap (clearMap st) = clearMap st.
Proof. reflexivity. Qed.

Lemma drawInterval_map_Some csv shown st k interval :
  is_Some (mapInstanceRef st) -> is_Some (mapInstanceRef (drawInterval csv shown st k interval)).
Proof.
  intros [m Hm]. destruct (decide (renderable interval)) as [Hr|Hr].
  - destruct (drawInterval_renderable csv shown st k interval Hr) as (a & b & _ & _ & ->).
    simpl. rewrite Hm. simpl. eauto.
  - rewrite (drawInterval_not_renderable _ _ _ _ _ Hr). eauto.
Qed.

Lemma addFinalMarker_map_Some st entry :
  is_Some (mapInstanceRef st) -> is_Some (mapInstanceRef (addFinalMarker st entry)).
Proof.
  intros [m Hm]. destruct entry as [j x]. unfold addFinalMarker.
  destruct (last (coordinatePoints x)) as [lp|]; [|eauto].
  destruct (truthyPoint lp); simpl; rewrite ?Hm; simpl; eauto.
Qed.

Lemma showSelectedJourneys_map_Some csv sel st :
  is_Some (mapInstanceRef st) -> is_Some (mapInstanceRef (showSelectedJourneys csv sel st)).
Proof.
  intros Hm. unfold showSelectedJourneys.
  destruct (mapInstanceRef st) eqn:Hst; [|destruct Hm; discriminate].
  assert (Hc : is_Some (mapInstanceRef (clearMap st))).
  { rewrite clearMap_map, Hst. simpl. eauto. }
  destruct (decide _); [exact Hc|].
  match goal with |- context [foldl addFinalMarker ?d ?l] =>
    assert (Hf : is_Some (mapInstanceRef (foldl addFinalMarker d l))) end.
  { apply foldl_invariant; [|intros; now apply addFinalMarker_map_Some].
    apply forEach_invariant; [exact Hc|]. intros; now apply drawInterval_map_Some. }
  destruct (decide _); [|exact Hf]. destruct Hf as [m' Hf]. simpl. rewrite Hf. simpl. eauto.
Qed.

(** C6. Rebuilding is idempotent: showing the same selection of the same
    results twice leaves the same paths and markers (up to the identifiers
    Leaflet stamps) as showing it once. *)
Theorem showSelectedJourneys_rebuild_idempotent csv sel st :
  is_Some (mapInstanceRef st) ->
  shape (showSelectedJourneys csv sel (showSelectedJourneys csv sel st)) =
  shape (showSelectedJourneys csv sel st).
Proof.
  intros Hm. rewrite !showSelectedJourneys_shape; auto.
  now apply showSelectedJourneys_map_Some.
Qed.

Lemma drawn_paths csv shown (l : list Interval) :
  (fun x => x.1.2) <$> (imap (drawnShape csv shown) l ≫= snd) = filter renderable l.
Proof.
  induction l as [|x l IH] using rev_ind; [reflexivity|].
  rewrite imap_app, bind_app, fmap_app, filter_app, IH. f_equal. simpl.
  rewrite app_nil_r. unfold drawnShape.
  destruct (decide (renderable x)) as [Hr|Hr].
  - rewrite filter_cons_True by exact Hr.
    destruct (drawInterval_renderable csv shown initialState 0 x Hr) as (a & b & -> & -> & _).
    reflexivity.
  - now rewrite filter_cons_False by exact Hr.
Qed.

(** The paths on the map after [showSelectedJourneys] are, in order,
    the intervals of the selected journeys that have at least two usable
    coordinates, one path each. *)
Theorem showSelectedJourneys_paths csv sel st :
  is_Some (mapInstanceRef st) ->
  intervalData <$> polylinesRef (showSelectedJourneys csv sel st) =
  filter renderable (intervalsToShow sel (extractIntervalsFromResults csv)).
Proof.
  intros Hm. pose proof (showSelectedJourneys_shape csv sel st Hm) as Hs.
  apply (f_equal snd) in Hs. simpl in Hs.
  rewrite <- drawn_paths with (csv := csv)
    (shown := intervalsToShow sel (extractIntervalsFromResults csv)).
  rewrite <- Hs, <- list_fmap_compose. reflexivity.
Qed.

End RenderSetTheorems.

(** ** The sample selection on the map *)

Definition sampleState : ViewerState :=
  showSelectedJourneys sampleResults {[1%Z; 2%Z]} initialState.

Lemma clearMap_leaves_nothing_witness :
  markersRef (clearMap sampleState) = [] /\ polylinesRef (clearMap sampleState) = [] /\
  tooltipRef (clearMap sampleState) = None /\
  proximityActiveRef (clearMap sampleState) = false /\
  currentPolylineRef (clearMap sampleState) = None /\
  forall m, mapInstanceRef (clearMap sampleState) = Some m -> layers m = ∅.
Proof.
  apply clearMap_leaves_nothing. apply showSelectedJourneys_Tracked, Tracked_initial.
Defined.

Lemma showSelectedJourneys_rebuild_idempotent_witness :
  shape (showSelectedJourneys sampleResults {[1%Z; 2%Z]} sampleState) = shape sampleState.
Proof.
  apply (showSelectedJourneys_rebuild_idempotent sampleResults {[1%Z; 2%Z]} initialState).
  simpl. eauto.
Defined.

Lemma showSelectedJourneys_paths_witness :
  intervalData <$> polylinesRef sampleState =
  filter renderable (intervalsToShow {[1%Z; 2%Z]} (extractIntervalsFromResults sampleResults)).
Proof.
  apply (showSelectedJourneys_paths sampleResults {[1%Z; 2%Z]} initialState). simpl. eauto.
Defined.

(** A journey-end marker can stand where no path ends: in the sample,
    the marker of journey 1 is placed at the single point of its second
    interval, which is not drawn; the paths drawn are the first interval of
    journey 1 and the interval of journey 2. *)
Theorem final_marker_without_path :
  markerShape <$> markersRef sampleState =
    [ ((36, -5), Some 1%Z, StartMarker); ((37, -6), Some 1%Z, EndMarker);
      ((35, -5), Some 2%Z, StartMarker); ((35, -4), Some 2%Z, EndMarker);
      ((37, -6), Some 1%Z, FinalMarker (Some 1%Z) (Some 60000%Z)) ] /\
  (fun p => (journeyIndex (intervalData p), intervalNumber (intervalData p)))
    <$> polylinesRef sampleState = [(Some 1%Z, 1%Z); (Some 2%Z, 1%Z)].
Proof. split; vm_compute; reflexivity. Qed.
