(* ===== verification/Bounds.v ===== *)
(** * Bounds: the view fitted after a rebuild

    [showSelectedJourneys] ends with
    [fitBounds(new L.featureGroup(polylinesRef.current).getBounds().pad(0.1))]
    (MapViewer.tsx, lines 547-550).  [RenderSet] records the positions the
    view is fitted to; this file gives them their meaning.  [LatLngBounds],
    [extend], [pad] and [contains] are Leaflet's and are modelled from their
    contract: the bounds of a group are the least box around the positions
    of its layers, and [pad r] moves every side outwards by [r] times the
    extent of the box in that direction.

    Theorems: the box is the least one around the positions; padding by a
    ratio that is not negative only grows it; after a rebuild that drew a
    path the view frames every vertex of every path on the map; a rebuild
    that drew no path leaves the view where it was. *)

From Stdlib Require Import QArith Qminmax Qabs Lqa.
From stdpp Require Import prelude gmap.
From S2P Require Import Prelude DataModel Surface Extractor Tooltip RenderSet.

(** ** Leaflet's [LatLngBounds] *)

Record LatLngBounds : Type := mkBounds {
  southWest : LatLng;
  northEast : LatLng;
}.

(** [bounds.extend(latlng)]; [None] is the bounds created without corners. *)
Definition extend (bounds : option LatLngBounds) (p : LatLng) : option LatLngBounds :=
  match bounds with
  | None => Some (mkBounds p p)
  | Some b =>
      Some (mkBounds (Qmin p.1 (southWest b).1, Qmin p.2 (southWest b).2)
                     (Qmax p.1 (northEast b).1, Qmax p.2 (northEast b).2))
  end.

(** [group.getBounds()] on the positions of the layers of the group. *)
Definition getBounds (positions : list LatLng) : option LatLngBounds :=
  foldl extend None positions.

(** [bounds.pad(bufferRatio)] *)
Definition pad (bufferRatio : Q) (b : LatLngBounds) : LatLngBounds :=
  let heightBuffer := Qabs ((southWest b).1 - (northEast b).1) * bufferRatio in
  let widthBuffer := Qabs ((southWest b).2 - (northEast b).2) * bufferRatio in
  mkBounds ((southWest b).1 - heightBuffer, (southWest b).2 - widthBuffer)
           ((northEast b).1 + heightBuffer, (northEast b).2 + widthBuffer).

(** [bounds.contains(latlng)] *)
Definition contains (b : LatLngBounds) (p : LatLng) : bool :=
  ((southWest b).1 <=? p.1)%js && (p.1 <=? (northEast b).1)%js &&
  ((southWest b).2 <=? p.2)%js && (p.2 <=? (northEast b).2)%js.

(** The argument of [fitBounds] at line 549, from the positions recorded by
    [RenderSet.fitBounds]. *)
Definition paddedBounds (positions : list LatLng) : option LatLngBounds :=
  pad (1 # 10) <$> getBounds positions.

(** The positions the map was last fitted to, and the view it shows then. *)
Definition fittedOf (st : ViewerState) : option (list LatLng) :=
  mapInstanceRef st ≫= fitted.

Definition viewOf (st : ViewerState) : option LatLngBounds :=
  fittedOf st ≫= paddedBounds.

(** ** What the bounds promise *)

(** [Inside b p]: the proposition [contains] decides. *)
Definition Inside (b : LatLngBounds) (p : LatLng) : Prop :=
  ((southWest b).1 <= p.1 <= (northEast b).1) /\
  ((southWest b).2 <= p.2 <= (northEast b).2).

(** The corners are in order. *)
Definition Valid (b : LatLngBounds) : Prop :=
  (southWest b).1 <= (northEast b).1 /\ (southWest b).2 <= (northEast b).2.

(** [Within b box]: [box] covers [b]. *)
Definition Within (b box : LatLngBounds) : Prop :=
  Inside box (southWest b) /\ Inside box (northEast b).

Lemma contains_Inside b p : contains b p = true <-> Inside b p.
Proof.
  unfold contains, Inside. rewrite !andb_true_iff, !Qle_bool_iff. tauto.
Qed.

Lemma Inside_Valid b p : Inside b p -> Valid b.
Proof. intros [[? ?] [? ?]]. split; eapply Qle_trans; eauto. Qed.

(** The four facts about [Qmin] and [Qmax] every lemma on [extend] uses. *)
Ltac minmax :=
  repeat match goal with
  | |- context [Qmin ?x ?y] =>
      lazymatch goal with
      | _ : Qmin x y <= x |- _ => fail
      | _ => pose proof (Q.le_min_l x y); pose proof (Q.le_min_r x y)
      end
  | |- context [Qmax ?x ?y] =>
      lazymatch goal with
      | _ : x <= Qmax x y |- _ => fail
      | _ => pose proof (Q.le_max_l x y); pose proof (Q.le_max_r x y)
      end
  end.

Lemma extend_is_Some bounds p : is_Some (extend bounds p).
Proof. destruct bounds; simpl; eauto. Qed.

Lemma extend_new bounds p b : extend bounds p = Some b -> Inside b p.
Proof.
  destruct bounds as [b0|]; intros [= <-]; unfold Inside; simpl.
  - minmax. lra.
  - lra.
Qed.

Lemma extend_old b0 p b q : extend (Some b0) p = Some b -> Inside b0 q -> Inside b q.
Proof.
  intros [= <-] [[? ?] [? ?]]. unfold Inside; simpl. minmax.
  repeat split; eapply Qle_trans; eauto.
Qed.

(** [extend] gives the least box: a box that covers the old bounds and the
    new position covers the new bounds. *)
Lemma extend_least bounds p b box :
  extend bounds p = Some b ->
  (forall b0, bounds = Some b0 -> Within b0 box) -> Inside box p -> Within b box.
Proof.
  destruct bounds as [b0|]; intros [= <-] Hold Hp; [|now split].
  destruct (Hold b0 eq_refl) as [[[? ?] [? ?]] [[? ?] [? ?]]].
  destruct Hp as [[? ?] [? ?]]. unfold Within, Inside; simpl.
  repeat split;
    first [apply Q.min_glb | apply Q.max_lub | idtac]; try assumption;
    first [ eapply Qle_trans; [apply Q.le_min_l|]; assumption
          | eapply Qle_trans; [|apply Q.le_max_l]; assumption ].
Qed.

(** The fold, from any bounds: every position folded in is inside, and so
    is what was inside before. *)
Lemma foldl_extend_is_Some bounds positions :
  is_Some bounds \/ positions <> [] -> is_Some (foldl extend bounds positions).
Proof.
  revert bounds. induction positions as [|p positions IH]; intros bounds; simpl.
  - intros [H|H]; [exact H | contradiction].
  - intros _. apply IH. left. apply extend_is_Some.
Qed.

Lemma foldl_extend_old positions b0 b q :
  foldl extend (Some b0) positions = Some b -> Inside b0 q -> Inside b q.
Proof.
  revert b0. induction positions as [|p positions IH]; intros b0; simpl.
  - now intros [= <-].
  - intros Hf Hq. eapply (IH _ Hf). now eapply extend_old.
Qed.

Lemma foldl_extend_Inside positions bounds b p :
  foldl extend bounds positions = Some b -> p ∈ positions -> Inside b p.
Proof.
  revert bounds. induction positions as [|q positions IH]; intros bounds Hf Hp.
  - now apply elem_of_nil in Hp.
  - simpl in Hf. apply elem_of_cons in Hp as [->|Hp]; [|now apply (IH _ Hf)].
    destruct (extend_is_Some bounds q) as [b1 Hb1]. rewrite Hb1 in Hf.
    eapply foldl_extend_old; [exact Hf|]. now apply (extend_new bounds).
Qed.

Lemma foldl_extend_least positions bounds b box :
  foldl extend bounds positions = Some b ->
  (forall b0, bounds = Some b0 -> Within b0 box) ->
  (forall p, p ∈ positions -> Inside box p) -> Within b box.
Proof.
  revert bounds. induction positions as [|q positions IH]; intros bounds Hf Hold Hall.
  - simpl in Hf. auto.
  - simpl in Hf. apply (IH _ Hf).
    + intros b1 Hb1. apply (extend_least bounds q); auto. apply Hall. left.
    + intros p Hp. apply Hall. now right.
Qed.

(** ** [getBounds] *)

Lemma getBounds_None positions : getBounds positions = None <-> positions = [].
Proof.
  split; [|now intros ->]. intros Hn. destruct positions as [|p positions]; [reflexivity|].
  destruct (foldl_extend_is_Some None (p :: positions)) as [b Hb]; [now right|].
  unfold getBounds in Hn. congruence.
Qed.

Lemma getBounds_Inside positions b p :
  getBounds positions = Some b -> p ∈ positions -> Inside b p.
Proof. apply foldl_extend_Inside. Qed.

Lemma getBounds_least positions b box :
  getBounds positions = Some b ->
  (forall p, p ∈ positions -> Inside box p) -> Within b box.
Proof. intros Hb. apply (foldl_extend_least _ _ _ _ Hb). discriminate. Qed.

Lemma getBounds_Valid positions b : getBounds positions = Some b -> Valid b.
Proof.
  intros Hb. destruct positions as [|p positions]; [discriminate|].
  apply (Inside_Valid b p), (getBounds_Inside _ _ _ Hb). left.
Qed.

(** ** [pad] *)

Lemma pad_Inside bufferRatio b p :
  0 <= bufferRatio -> Inside b p -> Inside (pad bufferRatio b) p.
Proof.
  intros Hr [[? ?] [? ?]]. unfold Inside, pad; cbn [southWest northEast fst snd].
  pose proof (Qmult_le_0_compat _ _ (Qabs_nonneg ((southWest b).1 - (northEast b).1)) Hr).
  pose proof (Qmult_le_0_compat _ _ (Qabs_nonneg ((southWest b).2 - (northEast b).2)) Hr).
  lra.
Qed.

(** On valid bounds each side moves by the ratio times the extent. *)
Lemma pad_margin bufferRatio b :
  Valid b ->
  (southWest (pad bufferRatio b)).1 ==
    (southWest b).1 - ((northEast b).1 - (southWest b).1) * bufferRatio /\
  (northEast (pad bufferRatio b)).1 ==
    (northEast b).1 + ((northEast b).1 - (southWest b).1) * bufferRatio /\
  (southWest (pad bufferRatio b)).2 ==
    (southWest b).2 - ((northEast b).2 - (southWest b).2) * bufferRatio /\
  (northEast (pad bufferRatio b)).2 ==
    (northEast b).2 + ((northEast b).2 - (southWest b).2) * bufferRatio.
Proof.
  intros [Hlat Hlng]. unfold pad; cbn [southWest northEast fst snd].
  assert (Hh : Qabs ((southWest b).1 - (northEast b).1) == (northEast b).1 - (southWest b).1).
  { rewrite Qabs_neg by lra. ring. }
  assert (Hw : Qabs ((southWest b).2 - (northEast b).2) == (northEast b).2 - (southWest b).2).
  { rewrite Qabs_neg by lra. ring. }
  rewrite Hh, Hw. repeat split; reflexivity.
Qed.

(** ** The view after a rebuild *)

Lemma clearMap_fittedOf st : fittedOf (clearMap st) = fittedOf st.
Proof.
  unfold fittedOf. rewrite clearMap_map. now destruct (mapInstanceRef st).
Qed.

Lemma drawInterval_fittedOf csv shown st k interval :
  fittedOf (drawInterval csv shown st k interval) = fittedOf st.
Proof.
  destruct (decide (renderable interval)) as [Hr|Hr].
  - destruct (drawInterval_renderable csv shown st k interval Hr) as (a & b & _ & _ & ->).
    unfold fittedOf. simpl. now destruct (mapInstanceRef st).
  - now rewrite (drawInterval_not_renderable _ _ _ _ _ Hr).
Qed.

Lemma addFinalMarker_fittedOf st entry : fittedOf (addFinalMarker st entry) = fittedOf st.
Proof.
  destruct entry as [j x]. unfold addFinalMarker, fittedOf.
  destruct (last (coordinatePoints x)) as [lp|]; [|reflexivity].
  destruct (truthyPoint lp); simpl; now destruct (mapInstanceRef st).
Qed.

(** What the map is fitted to after [showSelectedJourneys]: the positions
    of the paths on the map when there is one, else what it was fitted to
    before. *)
Lemma showSelectedJourneys_fittedOf csv sel st :
  is_Some (mapInstanceRef st) ->
  let st' := showSelectedJourneys csv sel st in
  fittedOf st' =
    if decide (polylinesRef st' = []) then fittedOf st else Some (boundsOf (polylinesRef st')).
Proof.
  intros [m Hm]. cbv zeta. unfold showSelectedJourneys. rewrite Hm.
  destruct (decide (length _ = 0%nat)); [now rewrite clearMap_fittedOf|].
  set (shown := intervalsToShow sel (extractIntervalsFromResults csv)).
  set (marked := foldl addFinalMarker _ _).
  assert (Hf : fittedOf marked = fittedOf st).
  { subst marked. apply foldl_invariant; [|intros; now rewrite addFinalMarker_fittedOf].
    apply forEach_invariant; [apply clearMap_fittedOf|].
    intros; now rewrite drawInterval_fittedOf. }
  assert (Hs : is_Some (mapInstanceRef marked)).
  { subst marked. apply foldl_invariant; [|intros; now apply addFinalMarker_map_Some].
    apply forEach_invariant; [|intros; now apply drawInterval_map_Some].
    rewrite clearMap_map, Hm. simpl. eauto. }
  destruct (decide (0 < length shown /\ 0 < length (polylinesRef marked))%nat) as [[_ Hp]|Hn].
  - destruct Hs as [m' Hm']. unfold fittedOf, onMap. simpl. rewrite Hm'. simpl.
    rewrite decide_False; [reflexivity|]. intros Hnil. rewrite Hnil in Hp. simpl in Hp. lia.
  - rewrite Hf. destruct (decide (polylinesRef marked = [])) as [_|Hne]; [reflexivity|].
    exfalso. apply Hn. split.
    + destruct shown eqn:Hshown; [|simpl; lia]. now subst marked.
    + destruct (polylinesRef marked); [contradiction | simpl; lia].
Qed.

(** A view fitted to the polylines of the refs frames each of their
    vertices. *)
Lemma fitted_frames st polyline p :
  fittedOf st = Some (boundsOf (polylinesRef st)) ->
  polyline ∈ polylinesRef st -> p ∈ latlngs polyline ->
  exists view, viewOf st = Some view /\ contains view p = true.
Proof.
  intros Hf Hpoly Hp.
  assert (Hin : p ∈ boundsOf (polylinesRef st)).
  { unfold boundsOf. apply list_elem_of_bind. eauto. }
  destruct (getBounds (boundsOf (polylinesRef st))) as [b|] eqn:Hb.
  - exists (pad (1 # 10) b). split.
    + unfold viewOf. rewrite Hf. simpl. unfold paddedBounds. now rewrite Hb.
    + apply contains_Inside, pad_Inside; [lra|]. now apply (getBounds_Inside _ _ _ Hb).
  - apply getBounds_None in Hb. rewrite Hb in Hin. inversion Hin.
Qed.

(** ** Theorems *)

(** C16. After a rebuild the view frames every path on the map: each vertex
    of each path lies inside the bounds the map was fitted to. *)
Theorem showSelectedJourneys_frames_paths csv sel st polyline p :
  is_Some (mapInstanceRef st) ->
  polyline ∈ polylinesRef (showSelectedJourneys csv sel st) ->
  p ∈ latlngs polyline ->
  exists view, viewOf (showSelectedJourneys csv sel st) = Some view /\ contains view p = true.
Proof.
  intros Hm Hpoly Hp. pose proof (showSelectedJourneys_fittedOf csv sel st Hm) as Hf.
  cbv zeta in Hf. rewrite decide_False in Hf by (intros Hnil; rewrite Hnil in Hpoly; inversion Hpoly).
  now apply (fitted_frames _ polyline).
Qed.

(** A rebuild that draws no path does not move the view: after the last
    journey is deselected the map stays where the previous selection had
    put it. *)
Theorem showSelectedJourneys_view_kept csv sel st :
  is_Some (mapInstanceRef st) ->
  polylinesRef (showSelectedJourneys csv sel st) = [] ->
  viewOf (showSelectedJourneys csv sel st) = viewOf st.
Proof.
  intros Hm Hnil. pose proof (showSelectedJourneys_fittedOf csv sel st Hm) as Hf.
  cbv zeta in Hf. rewrite decide_True in Hf by exact Hnil.
  unfold viewOf. now rewrite Hf.
Qed.

(** The margin is a share of the extent, so it is zero in a direction in
    which the paths have no extent: a path along a parallel is framed with
    no margin to the north and south. *)
Theorem pad_flat bufferRatio b :
  (southWest b).1 == (northEast b).1 ->
  (southWest (pad bufferRatio b)).1 == (southWest b).1 /\
  (northEast (pad bufferRatio b)).1 == (northEast b).1.
Proof.
  intros Hflat. unfold pad; cbn [southWest northEast fst snd].
  assert (Hz : Qabs ((southWest b).1 - (northEast b).1) == 0).
  { rewrite Hflat. unfold Qminus. now rewrite Qplus_opp_r. }
  rewrite Hz. split; ring.
Qed.

(** ** The sample selection

    The paths of the sample run from (36, -5) to (37, -6) and from (35, -5)
    to (35, -4): the box is [35, 37] by [-6, -4] and the view adds a fifth
    of a degree on every side. *)

Lemma sample_positions :
  latlngs <$> polylinesRef sampleState = [[(36, -5); (37, -6)]; [(35, -5); (35, -4)]].
Proof. vm_compute. reflexivity. Qed.

Example sample_view :
  match viewOf sampleState with
  | Some view =>
      (southWest view).1 == 348 # 10 /\ (southWest view).2 == - (62 # 10) /\
      (northEast view).1 == 372 # 10 /\ (northEast view).2 == - (38 # 10)
  | None => False
  end.
Proof. vm_compute. repeat split. Qed.

Lemma showSelectedJourneys_frames_paths_witness :
  match polylinesRef sampleState with
  | polyline :: _ =>
      exists view, viewOf sampleState = Some view /\ contains view (37, -6) = true
  | [] => False
  end.
Proof.
  pose proof sample_positions as Hv.
  destruct (polylinesRef sampleState) as [|polyline rest] eqn:Hp; [discriminate|].
  injection Hv as Hv _.
  apply (showSelectedJourneys_frames_paths sampleResults {[1%Z; 2%Z]} initialState polyline).
  - simpl. eauto.
  - fold sampleState. rewrite Hp. apply elem_of_cons. now left.
  - rewrite Hv. apply elem_of_cons. right. apply elem_of_cons. now left.
Defined.

Lemma showSelectedJourneys_view_kept_witness :
  viewOf (showSelectedJourneys sampleResults ∅ sampleState) = viewOf sampleState.
Proof.
  apply showSelectedJourneys_view_kept; [|vm_compute; reflexivity].
  apply showSelectedJourneys_map_Some. simpl. eauto.
Defined.
