(* ===== verification/Proximity.v ===== *)
(** * Proximity state machine and interaction dispatcher

    The event handlers of [MapViewer.tsx] as functions on [ViewerState]:
    the polyline [mouseover] (lines 442-466), the final-marker [mouseover]
    (503-518), the global [mousemove] watcher (569-629), the per-polyline
    watcher [handleMapMouseMove] (405-439, defined by the code but never
    subscribed), and the effect that rebuilds the map when the selection
    changes (564-635).  Events are the constructors of [Event]; [handle] runs
    one, [step] is the same as a relation, [reachable] its closure from
    [initialState]. *)

From Stdlib Require Import QArith Lqa.
From stdpp Require Import prelude gmap strings.
From S2P Require Import Prelude DataModel Surface Geometry Extractor Tooltip RenderSet.

(** ** The tooltip of the map *)

(** The block repeated at lines 415-431, 451-465 and 598-616: create the
    tooltip or replace its content, place it, open it on the map. *)
Definition showTooltip (content : TooltipContent) (latlng : LatLng) (st : ViewerState)
  : ViewerState :=
  let id := match tooltipRef st with
            | Some tooltip => tooltipId tooltip
            | None => nextId st
            end in
  mkState (addLayer id <$> mapInstanceRef st) (markersRef st) (polylinesRef st)
    (Some (mkTooltip id content latlng))
    (proximityActiveRef st) (currentPolylineRef st)
    (match tooltipRef st with Some _ => nextId st | None => S (nextId st) end).

(** [if (tooltipRef.current) { closeTooltip(tooltipRef.current);
    tooltipRef.current = null }]. *)
Definition closeTooltip (st : ViewerState) : ViewerState :=
  match tooltipRef st with
  | Some tooltip =>
      mkState (removeLayer (tooltipId tooltip) <$> mapInstanceRef st) (markersRef st)
        (polylinesRef st) None (proximityActiveRef st) (currentPolylineRef st) (nextId st)
  | None => st
  end.

Definition setProximity (active : bool) (current : option nat) (st : ViewerState)
  : ViewerState :=
  mkState (mapInstanceRef st) (markersRef st) (polylinesRef st) (tooltipRef st)
    active current (nextId st).

(** Proximity off, focus cleared, tooltip closed (lines 511-517, 619-626). *)
Definition deactivate (st : ViewerState) : ViewerState :=
  closeTooltip (setProximity false None st).

Section Handlers.
Context {surface : MapSurface}.

(** ** Polyline [mouseover] (lines 442-466) *)

Definition polylineMouseOver (polyline : Polyline) (latlng : LatLng) (st : ViewerState)
  : ViewerState :=
  let st1 := setProximity true (Some (polylineId polyline)) st in
  let dynamicContent :=
    generateTooltipContent (polylineEnv polyline) latlng (intervalData polyline) in
  showTooltip dynamicContent latlng st1.

(** ** Final-marker [mouseover] (lines 503-518)

    The polylines have no bound tooltip (none is ever bound), so the loop of
    lines 505-510 changes nothing. *)
Definition finalMarkerMouseOver (st : ViewerState) : ViewerState :=
  let st1 := match tooltipRef st, mapInstanceRef st with
             | Some _, Some _ => closeTooltip st
             | _, _ => st
             end in
  setProximity false None st1.

(** ** The global watcher (lines 569-629) *)

(** Lines 577-589: every vertex of every polyline, in order. *)
Definition vertexCandidates (latlng : LatLng) (polylines : list Polyline)
  : list (option (Q * option (LatLng * Polyline))) :=
  polylines ≫= (fun polyline =>
    (fun vertex => Some (distance latlng vertex, Some (vertex, polyline)))
      <$> latlngs polyline).

Definition closestVertex (latlng : LatLng) (polylines : list Polyline)
  : ExtQ * option (LatLng * Polyline) :=
  scanMin (Infinity, None) (vertexCandidates latlng polylines).

Definition handleGlobalMouseMove (latlng : LatLng) (st : ViewerState) : ViewerState :=
  if negb (proximityActiveRef st) then st
  else
    let found := closestVertex latlng (polylinesRef st) in
    match found.2 with
    | Some (closestPoint, closestPolyline) =>
        if extLt found.1 500
        then
          let dynamicContent :=
            generateTooltipContent (polylineEnv closestPolyline) closestPoint
              (intervalData closestPolyline) in
          showTooltip dynamicContent closestPoint st
        else if extGt found.1 800 then deactivate st else st
    | None => if extGt found.1 800 then deactivate st else st
    end.

(** ** The per-polyline watcher (lines 405-439)

    Defined inside the drawing loop with a 150 m threshold.  No line of the
    component subscribes it to an event, so it is not an event of [Event].

    The handler gives [generateTooltipContent] the point returned by
    [getClosestPointOnLine], an array [[lat, lng]], where the other callers
    give a [LatLng] object.  The distances are computed all the same, and
    the journey-end message does not show the position; the standard
    content reads [pointLatLng.lat.toFixed(6)] (line 336), and [lat] of an
    array is [undefined]: the handler fails there ([None]), before any ref
    is assigned.  It fails too on an empty line, whose point is
    [undefined]; the distance is [Infinity] then, so this is never
    reached. *)
Definition handleMapMouseMove (polyline : Polyline) (latlng : LatLng) (st : ViewerState)
  : option ViewerState :=
  if negb (proximityActiveRef st) || negb (bool_decide (is_Some (currentPolylineRef st)))
  then Some st
  else
    let found := getClosestPointOnLine latlng (latlngs polyline) in
    if extLt (closestDistance found) 150
    then
      point ← closestPoint found;
      match generateTooltipContent (polylineEnv polyline) point (intervalData polyline) with
      | JourneyEndContent _ _ _ _ as dynamicContent => Some (showTooltip dynamicContent point st)
      | StandardContent _ _ _ _ _ _ _ _ _ _ _ _ _ => None
      end
    else Some (closeTooltip st).

(** ** The selection effect (lines 564-635) *)

Definition registerMouseMove (m : LeafletMap) : LeafletMap :=
  mkMap (layers m) (S (moveHandlers m)) (fitted m).

Definition selectionEffect (csvResults : option CSVIntervalResult)
  (selectedJourneys : gset Z) (st : ViewerState) : ViewerState :=
  match mapInstanceRef st with
  | Some _ =>
      if decide (0 < size selectedJourneys)%nat
      then onMap registerMouseMove (showSelectedJourneys csvResults selectedJourneys st)
      else clearMap st
  | None => st
  end.

(** A [mousemove] on the map runs every handler registered on it. *)
Definition mouseMove (latlng : LatLng) (st : ViewerState) : ViewerState :=
  match mapInstanceRef st with
  | Some m => Nat.iter (moveHandlers m) (handleGlobalMouseMove latlng) st
  | None => st
  end.

(** ** Events *)

Inductive Event : Type :=
| SelectionChanged (csvResults : option CSVIntervalResult) (selectedJourneys : gset Z)
| ResetRequested                                  (* [clearMap] through the ref *)
| ShowRequested (csvResults : option CSVIntervalResult) (journeysToShow : gset Z)
                                                  (* [showSelectedJourneys] through the ref *)
| MouseOverPolyline (n : nat) (latlng : LatLng)   (* the n-th polyline drawn *)
| MouseOverFinalMarker
| MouseMoved (latlng : LatLng).

Definition isFinalMarker (marker : Marker) : bool :=
  match markerKind marker with
  | FinalMarker _ _ => true
  | StartMarker | EndMarker => false
  end.

Definition handle (e : Event) (st : ViewerState) : ViewerState :=
  match e with
  | SelectionChanged csvResults selectedJourneys =>
      selectionEffect csvResults selectedJourneys st
  | ResetRequested => clearMap st
  | ShowRequested csvResults journeysToShow =>
      showSelectedJourneys csvResults journeysToShow st
  | MouseOverPolyline n latlng =>
      match polylinesRef st !! n with
      | Some polyline => polylineMouseOver polyline latlng st
      | None => st
      end
  | MouseOverFinalMarker =>
      if existsb isFinalMarker (markersRef st) then finalMarkerMouseOver st else st
  | MouseMoved latlng => mouseMove latlng st
  end.

(** The same as a relation: an event happens only when the primitive it
    comes from is on the map. *)
Inductive step : ViewerState -> Event -> ViewerState -> Prop :=
| step_selection st csvResults selectedJourneys :
    step st (SelectionChanged csvResults selectedJourneys)
      (selectionEffect csvResults selectedJourneys st)
| step_reset st :
    step st ResetRequested (clearMap st)
| step_show st csvResults journeysToShow :
    step st (ShowRequested csvResults journeysToShow)
      (showSelectedJourneys csvResults journeysToShow st)
| step_over_polyline st n latlng polyline :
    polylinesRef st !! n = Some polyline ->
    step st (MouseOverPolyline n latlng) (polylineMouseOver polyline latlng st)
| step_over_final st marker :
    marker ∈ markersRef st -> isFinalMarker marker = true ->
    step st MouseOverFinalMarker (finalMarkerMouseOver st)
| step_move st latlng :
    step st (MouseMoved latlng) (mouseMove latlng st).

Inductive reachable : ViewerState -> Prop :=
| reachable_initial : reachable initialState
| reachable_step st e st' : reachable st -> step st e st' -> reachable st'.

End Handlers.

#[local] Set Warnings "-clear-no-such-hyp".

(** ** The session invariant *)

(** Hover mode is on exactly when a polyline is in focus; a tooltip is open
    only in hover mode; the polyline in focus is on the map. *)
Record SessionInv (st : ViewerState) : Prop := mkSessionInv {
  session_focus : proximityActiveRef st = true <-> is_Some (currentPolylineRef st);
  session_tooltip : is_Some (tooltipRef st) -> proximityActiveRef st = true;
  session_current (id : nat) :
    currentPolylineRef st = Some id -> id ∈ polylineId <$> polylinesRef st;
}.

(** The session is off: the state of [Inactive]. *)
Definition Inactive (st : ViewerState) : Prop :=
  proximityActiveRef st = false /\ currentPolylineRef st = None /\ tooltipRef st = None.

Section SessionFacts.
Context {surface : MapSurface}.
Implicit Types (st : ViewerState) (latlng : LatLng) (polyline : Polyline).

Lemma Inactive_SessionInv st : Inactive st -> SessionInv st.
Proof.
  intros (Ha & Hc & Ht). split; rewrite ?Ha, ?Hc, ?Ht.
  - split; [discriminate | intros [? [=]]].
  - intros [? [=]].
  - discriminate.
Qed.

(** *** The tooltip operations keep the tracking invariant *)

Lemma showTooltip_Tracked content latlng st : Tracked st -> Tracked (showTooltip content latlng st).
Proof.
  intros Ht. unfold showTooltip. destruct (tooltipRef st) as [t|] eqn:Htip.
  - apply (Tracked_same st); simpl; auto.
    + unfold trackedIds. simpl. now rewrite Htip.
    + intros m'. destruct (mapInstanceRef st) as [m|] eqn:Hm; [|discriminate].
      intros [= <-]. exists m. split; [reflexivity|]. simpl.
      rewrite (tracked_layers _ Ht m Hm). unfold trackedIds. rewrite Htip. simpl.
      rewrite !list_to_set_app_L. simpl. set_solver.
  - apply (Tracked_add st _ 1 Ht); simpl.
    + unfold trackedIds. simpl. rewrite Htip. simpl. rewrite app_nil_r. solve_Permutation.
    + lia.
    + intros m'. destruct (mapInstanceRef st) as [m|]; [|discriminate].
      intros [= <-]. exists m. split; [reflexivity|]. simpl. set_solver.
Qed.

Lemma closeTooltip_Tracked st : Tracked st -> Tracked (closeTooltip st).
Proof.
  intros Ht. unfold closeTooltip. destruct (tooltipRef st) as [t|] eqn:Htip; [|exact Ht].
  destruct Ht as [Hl Hf Hn]. unfold trackedIds in *. rewrite Htip in *. simpl in *.
  rewrite app_assoc in Hn. apply NoDup_app in Hn as (Hn & Hdisj & _).
  rewrite app_assoc in Hl, Hf. split; simpl; rewrite ?app_nil_r.
  - intros m'. destruct (mapInstanceRef st) as [m|]; [|discriminate].
    intros [= <-]. simpl. rewrite (Hl m eq_refl), list_to_set_app_L. simpl.
    assert (tooltipId t ∉ (markerId <$> markersRef st) ++ (polylineId <$> polylinesRef st)).
    { intros Hin. apply (Hdisj _ Hin). apply list_elem_of_singleton. reflexivity. }
    set_solver.
  - intros id Hid. apply Hf. apply elem_of_app. left.
    unfold trackedIds in Hid. simpl in Hid. now rewrite app_nil_r in Hid.
  - unfold trackedIds. simpl. now rewrite app_nil_r.
Qed.

Lemma setProximity_Tracked active current st : Tracked st -> Tracked (setProximity active current st).
Proof. intros [Hl Hf Hn]. split; assumption. Qed.

Lemma deactivate_Tracked st : Tracked st -> Tracked (deactivate st).
Proof. intros Ht. now apply closeTooltip_Tracked, setProximity_Tracked. Qed.

Lemma deactivate_Inactive st : Inactive (deactivate st).
Proof.
  unfold deactivate, closeTooltip, setProximity, Inactive. simpl.
  destruct (tooltipRef st); simpl; auto.
Qed.

Lemma finalMarkerMouseOver_deactivate st :
  is_Some (mapInstanceRef st) -> finalMarkerMouseOver st = deactivate st.
Proof.
  intros [m Hm]. unfold finalMarkerMouseOver, deactivate, closeTooltip. simpl. rewrite Hm.
  now destruct (tooltipRef st).
Qed.

(** *** The map stays in place *)

Lemma showTooltip_map_Some content latlng st :
  is_Some (mapInstanceRef st) -> is_Some (mapInstanceRef (showTooltip content latlng st)).
Proof. intros [m Hm]. unfold showTooltip. simpl. rewrite Hm. simpl. eauto. Qed.

Lemma deactivate_map_Some st :
  is_Some (mapInstanceRef st) -> is_Some (mapInstanceRef (deactivate st)).
Proof.
  intros [m Hm]. unfold deactivate, closeTooltip. simpl.
  destruct (tooltipRef st); simpl; rewrite Hm; simpl; eauto.
Qed.

Lemma clearMap_map_Some st :
  is_Some (mapInstanceRef st) -> is_Some (mapInstanceRef (clearMap st)).
Proof. intros [m Hm]. rewrite clearMap_map, Hm. simpl. eauto. Qed.

(** The invariant of the component: its primitives are tracked, the session
    is coherent and the map exists. *)
Definition Ready st : Prop := Tracked st /\ SessionInv st /\ is_Some (mapInstanceRef st).

(** *** The global watcher *)

(** The three outcomes of the watcher on an active session. *)
Lemma handleGlobalMouseMove_cases latlng st :
  handleGlobalMouseMove latlng st = st \/
  handleGlobalMouseMove latlng st = deactivate st \/
  (proximityActiveRef st = true /\
   exists content point, handleGlobalMouseMove latlng st = showTooltip content point st).
Proof.
  unfold handleGlobalMouseMove. destruct (proximityActiveRef st) eqn:Ha; simpl; [|now left].
  destruct (closestVertex latlng (polylinesRef st)) as [d [[v pl]|]]; simpl.
  - destruct (extLt d 500); [right; right; eauto|]. destruct (extGt d 800); auto.
  - destruct (extGt d 800); auto.
Qed.

Lemma showTooltip_SessionInv content latlng st :
  proximityActiveRef st = true -> SessionInv st -> SessionInv (showTooltip content latlng st).
Proof. intros Ha [Hf Ht Hc]. split; simpl; auto. Qed.

Lemma deactivate_Ready st : Ready st -> Ready (deactivate st).
Proof.
  intros (Ht & Hs & Hm). split_and!;
    [now apply deactivate_Tracked | apply Inactive_SessionInv, deactivate_Inactive
    | now apply deactivate_map_Some].
Qed.

Lemma clearMap_Ready st : Ready st -> Ready (clearMap st).
Proof.
  intros (Ht & Hs & Hm). split_and!;
    [now apply clearMap_Tracked | apply Inactive_SessionInv; unfold Inactive; auto
    | now apply clearMap_map_Some].
Qed.

Lemma handleGlobalMouseMove_inv latlng st : Ready st -> Ready (handleGlobalMouseMove latlng st).
Proof.
  intros Hr.
  destruct (handleGlobalMouseMove_cases latlng st) as [->|[->|(Ha & c & v & ->)]];
    [exact Hr | now apply deactivate_Ready |].
  destruct Hr as (Ht & Hs & Hm). split_and!;
    [now apply showTooltip_Tracked | now apply showTooltip_SessionInv
    | now apply showTooltip_map_Some].
Qed.

Lemma iter_invariant {St} (P : St -> Prop) (f : St -> St) (n : nat) (s : St) :
  P s -> (forall s', P s' -> P (f s')) -> P (Nat.iter n f s).
Proof. intros Hs Hf. induction n; simpl; auto. Qed.

(** *** Rebuilding resets the session *)

Lemma drawInterval_Inactive csv shown st k interval :
  Inactive st -> Inactive (drawInterval csv shown st k interval).
Proof.
  intros Hs. destruct (decide (renderable interval)) as [Hr|Hr].
  - destruct (drawInterval_renderable csv shown st k interval Hr) as (a & b & _ & _ & ->).
    exact Hs.
  - now rewrite drawInterval_not_renderable.
Qed.

Lemma addFinalMarker_Inactive st entry : Inactive st -> Inactive (addFinalMarker st entry).
Proof.
  intros Hs. destruct entry as [j x]. unfold addFinalMarker.
  destruct (last _) as [lp|]; [|exact Hs]. now destruct (truthyPoint lp).
Qed.

Lemma showSelectedJourneys_Inactive csv sel st :
  is_Some (mapInstanceRef st) -> Inactive (showSelectedJourneys csv sel st).
Proof.
  intros [m Hm]. unfold showSelectedJourneys. rewrite Hm.
  assert (Hc : Inactive (clearMap st)) by (unfold Inactive; auto).
  destruct (decide _); [exact Hc|].
  match goal with |- context [foldl addFinalMarker ?d ?l] =>
    assert (Hf : Inactive (foldl addFinalMarker d l)) end.
  { apply foldl_invariant; [|intros; now apply addFinalMarker_Inactive].
    apply forEach_invariant; [exact Hc|]. intros; now apply drawInterval_Inactive. }
  destruct (decide _); exact Hf.
Qed.

Lemma selectionEffect_Ready csv sel st : Ready st -> Ready (selectionEffect csv sel st).
Proof.
  intros Hr. pose proof Hr as (Ht & Hs & Hm). unfold selectionEffect.
  destruct (mapInstanceRef st) as [m|] eqn:Hmap; [|exact Hr].
  destruct (decide _); [|now apply clearMap_Ready]. split_and!.
  - apply onMap_Tracked; [reflexivity|]. now apply showSelectedJourneys_Tracked.
  - apply Inactive_SessionInv. apply (showSelectedJourneys_Inactive csv sel st). now rewrite Hmap.
  - destruct (showSelectedJourneys_map_Some csv sel st) as [m' Hm']; [now rewrite Hmap|].
    unfold onMap. simpl. rewrite Hm'. simpl. eauto.
Qed.

Lemma showSelectedJourneys_Ready csv sel st : Ready st -> Ready (showSelectedJourneys csv sel st).
Proof.
  intros (Ht & Hs & Hm). split_and!;
    [now apply showSelectedJourneys_Tracked
    | now apply Inactive_SessionInv, showSelectedJourneys_Inactive
    | now apply showSelectedJourneys_map_Some].
Qed.

Lemma polylineMouseOver_Ready st n pl latlng :
  polylinesRef st !! n = Some pl -> Ready st -> Ready (polylineMouseOver pl latlng st).
Proof.
  intros Hn (Ht & Hs & Hm). unfold polylineMouseOver. split_and!.
  - now apply showTooltip_Tracked, setProximity_Tracked.
  - split; simpl; [split; eauto | reflexivity |].
    intros id [= <-]. apply list_elem_of_fmap. exists pl. split; [reflexivity|].
    eapply list_elem_of_lookup_2; eauto.
  - now apply showTooltip_map_Some.
Qed.

Lemma step_inv st e st' : step st e st' -> Ready st -> Ready st'.
Proof.
  intros Hstep Hr.
  destruct Hstep as [st csv sel | st | st csv sel | st n latlng pl Hn | st mk _ _ | st latlng].
  - now apply selectionEffect_Ready.
  - now apply clearMap_Ready.
  - now apply showSelectedJourneys_Ready.
  - now apply (polylineMouseOver_Ready st n).
  - rewrite finalMarkerMouseOver_deactivate by apply Hr. now apply deactivate_Ready.
  - unfold mouseMove. destruct (mapInstanceRef st); [|exact Hr].
    apply (iter_invariant Ready); [exact Hr|]. intros s'. apply handleGlobalMouseMove_inv.
Qed.

Lemma reachable_inv st : reachable st -> Ready st.
Proof.
  induction 1 as [|st e st' _ IH Hstep].
  - split_and!; [apply Tracked_initial | apply Inactive_SessionInv; unfold Inactive; auto
                | simpl; eauto].
  - eapply step_inv; eauto.
Qed.

End SessionFacts.

(** ** The nearest vertex over all paths *)

Section Watcher.
Context {surface : MapSurface}.
Implicit Types (st : ViewerState) (latlng : LatLng) (polylines : list Polyline).

(** What the scan of lines 577-589 finds: nothing when no path has a
    vertex, else a vertex of a path on the map that no other vertex beats. *)
Inductive NearestVertex latlng polylines : ExtQ * option (LatLng * Polyline) -> Prop :=
| nearest_none :
    (forall pl, pl ∈ polylines -> latlngs pl = []) ->
    NearestVertex latlng polylines (Infinity, None)
| nearest_some pl v :
    pl ∈ polylines -> v ∈ latlngs pl ->
    (forall pl' v', pl' ∈ polylines -> v' ∈ latlngs pl' ->
       distance latlng v <= distance latlng v') ->
    NearestVertex latlng polylines (Fin (distance latlng v), Some (v, pl)).

Lemma vertexCandidates_elem latlng polylines c :
  c ∈ vertexCandidates latlng polylines <->
  exists pl v, pl ∈ polylines /\ v ∈ latlngs pl /\
    c = Some (distance latlng v, Some (v, pl)).
Proof.
  unfold vertexCandidates. rewrite list_elem_of_bind. split.
  - intros (pl & Hc & Hpl). apply list_elem_of_fmap in Hc as (v & -> & Hv). eauto.
  - intros (pl & v & Hpl & Hv & ->). exists pl. split; [|exact Hpl].
    apply list_elem_of_fmap. eauto.
Qed.

Lemma closestVertex_NearestVertex latlng polylines :
  NearestVertex latlng polylines (closestVertex latlng polylines).
Proof.
  unfold closestVertex.
  destruct (scanMin_spec (Infinity, None) (vertexCandidates latlng polylines))
    as [Hall | i d b Hi _ _ Hall].
  - apply nearest_none. intros pl Hpl. destruct (latlngs pl) as [|v vs] eqn:Hv; [reflexivity|].
    assert (Hc : Some (distance latlng v, Some (v, pl)) ∈ vertexCandidates latlng polylines).
    { apply vertexCandidates_elem. exists pl, v. rewrite Hv. split_and!; auto.
      apply elem_of_cons. now left. }
    apply list_elem_of_lookup in Hc as [j Hj]. destruct (Hall _ _ _ Hj).
  - apply list_elem_of_lookup_2, vertexCandidates_elem in Hi as (pl & v & Hpl & Hv & [= -> ->]).
    apply nearest_some; auto. intros pl' v' Hpl' Hv'.
    assert (Hc : Some (distance latlng v', Some (v', pl')) ∈ vertexCandidates latlng polylines).
    { apply vertexCandidates_elem. eauto. }
    apply list_elem_of_lookup in Hc as [j Hj]. exact (Hall _ _ _ Hj).
Qed.

(** *** The watcher, branch by branch *)

Lemma handleGlobalMouseMove_inactive latlng st :
  proximityActiveRef st = false -> handleGlobalMouseMove latlng st = st.
Proof. intros Ha. unfold handleGlobalMouseMove. now rewrite Ha. Qed.

Lemma handleGlobalMouseMove_near_aux latlng st :
  proximityActiveRef st = true ->
  (exists pl v, pl ∈ polylinesRef st /\ v ∈ latlngs pl /\ distance latlng v < 500) ->
  exists pl v,
    pl ∈ polylinesRef st /\ v ∈ latlngs pl /\
    (forall pl' v', pl' ∈ polylinesRef st -> v' ∈ latlngs pl' ->
       distance latlng v <= distance latlng v') /\
    handleGlobalMouseMove latlng st =
      showTooltip (generateTooltipContent (polylineEnv pl) v (intervalData pl)) v st.
Proof.
  intros Ha (pl0 & v0 & Hpl0 & Hv0 & Hd0). unfold handleGlobalMouseMove. rewrite Ha. simpl.
  destruct (closestVertex_NearestVertex latlng (polylinesRef st)) as [Hnone | pl v Hpl Hv Hmin].
  - rewrite (Hnone pl0 Hpl0) in Hv0. now apply elem_of_nil in Hv0.
  - simpl. exists pl, v. split_and!; auto.
    rewrite (proj2 (Qltb_lt _ _)); [reflexivity|].
    specialize (Hmin pl0 v0 Hpl0 Hv0). lra.
Qed.

Lemma handleGlobalMouseMove_band_aux latlng st :
  (forall pl v, pl ∈ polylinesRef st -> v ∈ latlngs pl -> 500 <= distance latlng v) ->
  (exists pl v, pl ∈ polylinesRef st /\ v ∈ latlngs pl /\ distance latlng v <= 800) ->
  handleGlobalMouseMove latlng st = st.
Proof.
  intros Hfar (pl0 & v0 & Hpl0 & Hv0 & Hd0). unfold handleGlobalMouseMove.
  destruct (proximityActiveRef st); simpl; [|reflexivity].
  destruct (closestVertex_NearestVertex latlng (polylinesRef st)) as [Hnone | pl v Hpl Hv Hmin].
  - rewrite (Hnone pl0 Hpl0) in Hv0. now apply elem_of_nil in Hv0.
  - simpl. specialize (Hfar pl v Hpl Hv). specialize (Hmin pl0 v0 Hpl0 Hv0).
    rewrite (proj2 (Qltb_ge _ _)) by lra. rewrite (proj2 (Qltb_ge _ _)) by lra. reflexivity.
Qed.

Lemma handleGlobalMouseMove_far_aux latlng st :
  proximityActiveRef st = true ->
  (forall pl v, pl ∈ polylinesRef st -> v ∈ latlngs pl -> 800 < distance latlng v) ->
  handleGlobalMouseMove latlng st = deactivate st.
Proof.
  intros Ha Hfar. unfold handleGlobalMouseMove. rewrite Ha. simpl.
  destruct (closestVertex_NearestVertex latlng (polylinesRef st)) as [Hnone | pl v Hpl Hv Hmin].
  - reflexivity.
  - simpl. specialize (Hfar pl v Hpl Hv).
    rewrite (proj2 (Qltb_ge _ _)) by lra. rewrite (proj2 (Qltb_lt _ _)) by lra. reflexivity.
Qed.

(** *** Running the watcher twice *)

Lemma showTooltip_idemp content latlng st :
  showTooltip content latlng (showTooltip content latlng st) = showTooltip content latlng st.
Proof.
  unfold showTooltip. destruct st as [[[L h v]|] ms ps [t|] a c n]; simpl; try reflexivity;
    do 2 f_equal; unfold addLayer; simpl; f_equal; set_solver.
Qed.

Lemma handleGlobalMouseMove_unfold latlng st d (found : option (LatLng * Polyline)) :
  proximityActiveRef st = true ->
  closestVertex latlng (polylinesRef st) = (d, found) ->
  handleGlobalMouseMove latlng st =
  match found with
  | Some (closestPoint, closestPolyline) =>
      if extLt d 500
      then showTooltip
             (generateTooltipContent (polylineEnv closestPolyline) closestPoint
                (intervalData closestPolyline)) closestPoint st
      else if extGt d 800 then deactivate st else st
  | None => if extGt d 800 then deactivate st else st
  end.
Proof. intros Ha Hcv. unfold handleGlobalMouseMove. now rewrite Ha, Hcv. Qed.

Lemma handleGlobalMouseMove_idemp latlng st :
  handleGlobalMouseMove latlng (handleGlobalMouseMove latlng st) =
  handleGlobalMouseMove latlng st.
Proof.
  destruct (proximityActiveRef st) eqn:Ha;
    [|now rewrite !(handleGlobalMouseMove_inactive latlng st Ha)].
  destruct (closestVertex latlng (polylinesRef st)) as [d found] eqn:Hcv.
  rewrite (handleGlobalMouseMove_unfold latlng st d found Ha Hcv).
  assert (Hoff : handleGlobalMouseMove latlng (deactivate st) = deactivate st)
    by apply handleGlobalMouseMove_inactive, deactivate_Inactive.
  assert (Hsame : (if extGt d 800 then deactivate st else st) =
                  handleGlobalMouseMove latlng st -> 
                  handleGlobalMouseMove latlng (if extGt d 800 then deactivate st else st) =
                  (if extGt d 800 then deactivate st else st)).
  { intros Heq. destruct (extGt d 800); [exact Hoff | now symmetry]. }
  destruct found as [[v pl]|].
  - destruct (extLt d 500) eqn:Hnear.
    + rewrite (handleGlobalMouseMove_unfold latlng _ d (Some (v, pl))); auto.
      rewrite Hnear. apply showTooltip_idemp.
    + apply Hsame. rewrite (handleGlobalMouseMove_unfold latlng st d _ Ha Hcv).
      now rewrite Hnear.
  - apply Hsame. now rewrite (handleGlobalMouseMove_unfold latlng st d _ Ha Hcv).
Qed.

Lemma iter_idemp {St} (f : St -> St) (n : nat) (s : St) :
  (forall s', f (f s') = f s') -> Nat.iter (S n) f s = f s.
Proof. intros Hf. induction n as [|n IH]; [reflexivity|]. simpl in *. now rewrite IH, Hf. Qed.

End Watcher.

(** ** Theorems *)

(** Had [handleMapMouseMove] been subscribed, it would show the
    journey-end message and nothing else: on a point within 150 m that is
    not the end of a journey it fails. *)
Lemma handleMapMouseMove_content {surface : MapSurface} polyline latlng st st' :
  proximityActiveRef st = true -> is_Some (currentPolylineRef st) ->
  extLt (closestDistance (getClosestPointOnLine latlng (latlngs polyline))) 150 = true ->
  handleMapMouseMove polyline latlng st = Some st' ->
  exists point,
    closestPoint (getClosestPointOnLine latlng (latlngs polyline)) = Some point /\
    isJourneyEnding (polylineEnv polyline) point (intervalData polyline) = true.
Proof.
  unfold handleMapMouseMove. intros -> Hc Hnear. rewrite (bool_decide_eq_true_2 _ Hc).
  cbv zeta. rewrite Hnear. cbn [negb orb].
  destruct (closestPoint (getClosestPointOnLine latlng (latlngs polyline))) as [point|];
    [|discriminate]. cbn [mbind option_bind].
  unfold generateTooltipContent.
  destruct (isJourneyEnding _ _ _) eqn:Hend; [intros _; eauto | discriminate].
Qed.

Section ProximityTheorems.
Context {surface : MapSurface}.
Implicit Types (st : ViewerState) (latlng : LatLng) (e : Event).

(** C4. No stale primitive: in every state the component can reach, the
    layers on the map are exactly the markers, paths and tooltip recorded in
    the refs, each under an identifier stamped once. *)
Theorem reachable_Tracked st : reachable st -> Tracked st.
Proof. intros Hr. apply (reachable_inv st Hr). Qed.

(** C5. In every reachable state hover mode is on exactly when a path is
    in focus, a tooltip is open only in hover mode, and the path in focus is
    one of the paths on the map. *)
Theorem reachable_SessionInv st : reachable st -> SessionInv st.
Proof. intros Hr. apply (reachable_inv st Hr). Qed.

(** The number of [mousemove] handlers registered on the map. *)
Definition handlersOf st : option nat := moveHandlers <$> mapInstanceRef st.

(** When an event can happen in a state. *)
Definition enabled st e : Prop :=
  match e with
  | MouseOverPolyline n _ => is_Some (polylinesRef st !! n)
  | MouseOverFinalMarker => existsb isFinalMarker (markersRef st) = true
  | SelectionChanged _ _ | ResetRequested | ShowRequested _ _ | MouseMoved _ => True
  end.

#[global] Instance enabled_dec st e : Decision (enabled st e).
Proof. destruct e; simpl; apply _. Defined.

(** A sequence of events, handled in order. *)
Definition run (es : list Event) (st : ViewerState) : ViewerState :=
  foldl (fun s e => handle e s) st es.

Fixpoint allEnabled (es : list Event) (st : ViewerState) : bool :=
  match es with
  | [] => true
  | e :: es' => bool_decide (enabled st e) && allEnabled es' (handle e st)
  end.

Lemma step_handle_eq st e st' : step st e st' -> enabled st e /\ st' = handle e st.
Proof.
  intros [st0 csv sel | st0 | st0 csv sel | st0 n latlng pl Hn | st0 mk Hin Hfinal | st0 latlng];
    simpl; [auto | auto | auto | rewrite Hn; eauto | | auto].
  assert (Hex : existsb isFinalMarker (markersRef st0) = true).
  { apply existsb_exists. exists mk. split; [now apply list_elem_of_In | exact Hfinal]. }
  rewrite Hex. auto.
Qed.

Lemma handle_step st e : enabled st e -> step st e (handle e st).
Proof.
  destruct e as [csv sel | | csv sel | n latlng | | latlng]; simpl; intros Hen; try constructor.
  - destruct Hen as [pl Hpl]. rewrite Hpl. now constructor.
  - rewrite Hen. apply existsb_exists in Hen as (mk & Hin & Hfinal).
    apply (step_over_final st mk); [now apply list_elem_of_In | exact Hfinal].
Qed.

Lemma run_reachable es st :
  reachable st -> allEnabled es st = true -> reachable (run es st).
Proof.
  revert st. induction es as [|e es IH]; intros st Hr Hen; simpl in *; [exact Hr|].
  apply andb_prop in Hen as [He Hes]. apply bool_decide_eq_true_1 in He.
  apply IH; [|exact Hes]. exact (reachable_step st e _ Hr (handle_step st e He)).
Qed.

(** The step relation and the executable handler agree: a step by an
    event leads to a state exactly when the event is enabled and the state
    is the one [handle] computes. *)
Theorem step_handle st e st' :
  step st e st' <-> enabled st e /\ st' = handle e st.
Proof.
  split; [apply step_handle_eq|]. intros [Hen ->]. now apply handle_step.
Qed.

(** C37. Within 500 m: when hover mode is on and some vertex of a path on
    the map is nearer than 500, the watcher shows the tooltip at a vertex of
    least distance over all paths, with the content generated for the path
    that owns it. *)
Theorem handleGlobalMouseMove_near latlng st :
  proximityActiveRef st = true ->
  (exists pl v, pl ∈ polylinesRef st /\ v ∈ latlngs pl /\ distance latlng v < 500) ->
  exists pl v,
    pl ∈ polylinesRef st /\ v ∈ latlngs pl /\
    (forall pl' v', pl' ∈ polylinesRef st -> v' ∈ latlngs pl' ->
       distance latlng v <= distance latlng v') /\
    handleGlobalMouseMove latlng st =
      showTooltip (generateTooltipContent (polylineEnv pl) v (intervalData pl)) v st.
Proof. apply handleGlobalMouseMove_near_aux. Qed.

(** The hysteresis band: when every vertex is at 500 or more and some
    vertex is at 800 or less, the watcher changes nothing; the session stays
    as it was and the tooltip keeps its content and place. *)
Theorem handleGlobalMouseMove_band latlng st :
  (forall pl v, pl ∈ polylinesRef st -> v ∈ latlngs pl -> 500 <= distance latlng v) ->
  (exists pl v, pl ∈ polylinesRef st /\ v ∈ latlngs pl /\ distance latlng v <= 800) ->
  handleGlobalMouseMove latlng st = st.
Proof. apply handleGlobalMouseMove_band_aux. Qed.

(** C10. Beyond 800 m: when hover mode is on and every vertex of every path
    is farther than 800 (in particular when there is no vertex), the watcher
    closes the tooltip, clears the focus and turns hover mode off. *)
Theorem handleGlobalMouseMove_far latlng st :
  proximityActiveRef st = true ->
  (forall pl v, pl ∈ polylinesRef st -> v ∈ latlngs pl -> 800 < distance latlng v) ->
  handleGlobalMouseMove latlng st = deactivate st /\
  Inactive (handleGlobalMouseMove latlng st).
Proof.
  intros Ha Hfar. rewrite (handleGlobalMouseMove_far_aux latlng st Ha Hfar).
  split; [reflexivity | apply deactivate_Inactive].
Qed.

(** However many [mousemove] handlers the selection effects have
    registered on the map, one pointer move has the effect of a single run
    of the watcher. *)
Theorem mouseMove_single_handler latlng st n :
  handlersOf st = Some (S n) ->
  mouseMove latlng st = handleGlobalMouseMove latlng st.
Proof.
  unfold handlersOf, mouseMove. destruct (mapInstanceRef st) as [m|]; [|discriminate].
  intros [= ->]. apply iter_idemp. intros s'. apply handleGlobalMouseMove_idemp.
Qed.

(** The watcher never moves the focus: while hover mode stays on,
    [currentPolylineRef] is the path entered last, whichever path owns the
    vertex the tooltip is shown at. *)
Theorem handleGlobalMouseMove_keeps_focus latlng st :
  proximityActiveRef (handleGlobalMouseMove latlng st) = true ->
  currentPolylineRef (handleGlobalMouseMove latlng st) = currentPolylineRef st.
Proof.
  destruct (handleGlobalMouseMove_cases latlng st) as [->|[->|(Ha & c & v & ->)]].
  - reflexivity.
  - destruct (deactivate_Inactive st) as (Hoff & _). rewrite Hoff. discriminate.
  - reflexivity.
Qed.

(** The events that end a hover session. *)
Definition resets e : bool :=
  match e with
  | SelectionChanged _ _ | ResetRequested | ShowRequested _ _ | MouseOverFinalMarker => true
  | MouseOverPolyline _ _ | MouseMoved _ => false
  end.

Lemma selectionEffect_Inactive csv sel st :
  is_Some (mapInstanceRef st) -> Inactive (selectionEffect csv sel st).
Proof.
  intros Hm. pose proof (showSelectedJourneys_Inactive csv sel st Hm) as Hs.
  unfold selectionEffect. destruct Hm as [m Hm]. rewrite Hm.
  destruct (decide _); [exact Hs | unfold Inactive; auto].
Qed.

(** The session is reset by every change of the selection, by every
    [clearMap] and by hovering a journey-end marker, whatever the distance
    to the paths: after such a step hover mode is off, no path is in focus
    and no tooltip is open. *)
Theorem step_resets st e st' :
  is_Some (mapInstanceRef st) -> resets e = true -> step st e st' -> Inactive st'.
Proof.
  intros Hm He Hstep.
  destruct Hstep as [st csv sel | st | st csv sel | st n latlng pl Hn | st mk _ _ | st latlng];
    try discriminate He.
  - now apply selectionEffect_Inactive.
  - unfold Inactive; auto.
  - now apply showSelectedJourneys_Inactive.
  - rewrite finalMarkerMouseOver_deactivate by exact Hm. apply deactivate_Inactive.
Qed.

Lemma drawInterval_handlers csv shown st k interval :
  handlersOf (drawInterval csv shown st k interval) = handlersOf st.
Proof.
  destruct (decide (renderable interval)) as [Hr|Hr].
  - destruct (drawInterval_renderable csv shown st k interval Hr) as (a & b & _ & _ & ->).
    unfold handlersOf. simpl. now destruct (mapInstanceRef st).
  - now rewrite drawInterval_not_renderable.
Qed.

Lemma addFinalMarker_handlers st entry : handlersOf (addFinalMarker st entry) = handlersOf st.
Proof.
  destruct entry as [j x]. unfold addFinalMarker.
  destruct (last _) as [lp|]; [|reflexivity].
  destruct (truthyPoint lp); [|reflexivity].
  unfold handlersOf. simpl. now destruct (mapInstanceRef st).
Qed.

Lemma clearMap_handlers st : handlersOf (clearMap st) = handlersOf st.
Proof. unfold handlersOf. rewrite clearMap_map. now destruct (mapInstanceRef st). Qed.

Lemma showSelectedJourneys_handlers csv sel st :
  handlersOf (showSelectedJourneys csv sel st) = handlersOf st.
Proof.
  unfold showSelectedJourneys. destruct (mapInstanceRef st) as [m|] eqn:Hm; [|reflexivity].
  destruct (decide _); [apply clearMap_handlers|].
  match goal with |- context [foldl addFinalMarker ?d ?l] =>
    assert (Hf : handlersOf (foldl addFinalMarker d l) = handlersOf st) end.
  { apply (foldl_invariant (fun s => handlersOf s = handlersOf st)).
    - apply (forEach_invariant (fun s => handlersOf s = handlersOf st));
        [apply clearMap_handlers|].
      intros s' k x _ Hs'. now rewrite drawInterval_handlers.
    - intros s' entry Hs'. now rewrite addFinalMarker_handlers. }
  destruct (decide _); [|exact Hf]. rewrite <- Hf. unfold handlersOf, onMap. simpl.
  now destruct (mapInstanceRef (foldl _ _ _)).
Qed.

(** Every selection effect with a non-empty selection registers one
    more [mousemove] handler on the map and removes none. *)
Theorem selectionEffect_adds_handler csv (sel : gset Z) st :
  is_Some (mapInstanceRef st) -> (0 < size sel)%nat ->
  handlersOf (selectionEffect csv sel st) = S <$> handlersOf st.
Proof.
  intros [m Hm] Hsel. unfold selectionEffect. rewrite Hm, decide_True by exact Hsel.
  rewrite <- (showSelectedJourneys_handlers csv sel st). unfold handlersOf, onMap. simpl.
  now destruct (mapInstanceRef (showSelectedJourneys csv sel st)).
Qed.

End ProximityTheorems.


(** ** A hover session on a concrete map

    Distances are 111 km per degree along each axis ([manhattanSurface]).
    The selection is journeys 1 and 2 of [sampleResults]; the first polyline
    drawn is the first interval of journey 1, from (36, -5) to (37, -6), the
    second is the interval of journey 2, from (35, -5) to (35, -4). *)

Definition session (es : list Event) : ViewerState :=
  run (surface := manhattanSurface) es initialState.

(** The point [metres] north of the vertex (36, -5). *)
Definition north (metres : Z) : LatLng := (36 + (metres # 111000), -5).

Definition hoverEvents : list Event :=
  [SelectionChanged sampleResults {[1%Z; 2%Z]}; MouseOverPolyline 0 (36, -5)].

Lemma hover_reachable es :
  allEnabled (surface := manhattanSurface) es initialState = true ->
  reachable (surface := manhattanSurface) (session es).
Proof. apply run_reachable. constructor. Qed.

Lemma reachable_Tracked_witness : Tracked (session (hoverEvents ++ [MouseMoved (north 100)])).
Proof.
  apply (reachable_Tracked (surface := manhattanSurface)).
  apply hover_reachable. vm_compute. reflexivity.
Defined.

Lemma reachable_SessionInv_witness :
  SessionInv (session (hoverEvents ++ [MouseMoved (north 900)])).
Proof.
  apply (reachable_SessionInv (surface := manhattanSurface)).
  apply hover_reachable. vm_compute. reflexivity.
Defined.

Abbreviation hovering := (session hoverEvents).

Lemma hovering_vertices :
  latlngs <$> polylinesRef hovering = [[(36, -5); (37, -6)]; [(35, -5); (35, -4)]].
Proof. vm_compute. reflexivity. Qed.

Lemma hovering_vertex_cases pl v :
  pl ∈ polylinesRef hovering -> v ∈ latlngs pl ->
  v ∈ [(36, -5); (37, -6) : LatLng] ++ [(35, -5); (35, -4)].
Proof.
  intros Hpl Hv. apply (list_elem_of_fmap_2 latlngs) in Hpl. rewrite hovering_vertices in Hpl.
  apply elem_of_cons in Hpl as [E|Hpl]; [|apply list_elem_of_singleton in Hpl as E];
    rewrite E in Hv; apply elem_of_app; auto.
Qed.

Lemma hovering_first_vertex :
  exists pl, pl ∈ polylinesRef hovering /\ ((36, -5) : LatLng) ∈ latlngs pl.
Proof.
  assert (H : [(36, -5); (37, -6)] ∈ latlngs <$> polylinesRef hovering)
    by (rewrite hovering_vertices; apply elem_of_cons; now left).
  apply list_elem_of_fmap in H as (pl & Hl & Hpl). exists pl. rewrite <- Hl.
  split; [exact Hpl | apply elem_of_cons; now left].
Qed.

(** Discharges a bound on the distance from a concrete point to every
    vertex of the hover scenario. *)
Ltac hovering_vertices :=
  let pl := fresh "pl" in let v := fresh "v" in
  let Hpl := fresh "Hpl" in let Hv := fresh "Hv" in
  intros pl v Hpl Hv;
  pose proof (hovering_vertex_cases pl v Hpl Hv) as Hv'; simpl in Hv';
  repeat (apply elem_of_cons in Hv' as [-> | Hv']); [| | | | now apply elem_of_nil in Hv'];
  now vm_compute.

Ltac hovering_vertex :=
  destruct hovering_first_vertex as (pl0 & Hpl0 & Hv0);
  exists pl0, (36, -5); split; [exact Hpl0 | split; [exact Hv0 | now vm_compute]].

Lemma handleGlobalMouseMove_near_witness :
  exists pl v,
    pl ∈ polylinesRef hovering /\ v ∈ latlngs pl /\
    (forall pl' v', pl' ∈ polylinesRef hovering -> v' ∈ latlngs pl' ->
       distance (MapSurface := manhattanSurface) (north 100) v
       <= distance (MapSurface := manhattanSurface) (north 100) v') /\
    handleGlobalMouseMove (surface := manhattanSurface) (north 100) hovering =
      showTooltip
        (generateTooltipContent (surface := manhattanSurface) (polylineEnv pl) v (intervalData pl))
        v hovering.
Proof.
  apply (handleGlobalMouseMove_near (surface := manhattanSurface) (north 100) hovering);
    [reflexivity | hovering_vertex].
Defined.

Lemma handleGlobalMouseMove_band_witness :
  handleGlobalMouseMove (surface := manhattanSurface) (north 600) hovering = hovering.
Proof.
  apply (handleGlobalMouseMove_band (surface := manhattanSurface) (north 600) hovering);
    [hovering_vertices | hovering_vertex].
Defined.

Lemma handleGlobalMouseMove_far_witness :
  handleGlobalMouseMove (surface := manhattanSurface) (north 900) hovering = deactivate hovering /\
  Inactive (handleGlobalMouseMove (surface := manhattanSurface) (north 900) hovering).
Proof.
  apply (handleGlobalMouseMove_far (surface := manhattanSurface) (north 900) hovering);
    [reflexivity | hovering_vertices].
Defined.

(** Two selection changes before the hover: two handlers on the map. *)
Definition hoveringTwice : ViewerState :=
  session (SelectionChanged sampleResults {[1%Z]} :: hoverEvents).

Lemma mouseMove_single_handler_witness :
  mouseMove (surface := manhattanSurface) (north 100) hoveringTwice =
  handleGlobalMouseMove (surface := manhattanSurface) (north 100) hoveringTwice.
Proof.
  apply (mouseMove_single_handler (surface := manhattanSurface) (north 100) hoveringTwice 1).
  vm_compute. reflexivity.
Defined.

Lemma handleGlobalMouseMove_keeps_focus_witness :
  currentPolylineRef (handleGlobalMouseMove (surface := manhattanSurface) (north 100) hovering) =
  currentPolylineRef hovering.
Proof.
  apply (handleGlobalMouseMove_keeps_focus (surface := manhattanSurface) (north 100) hovering).
  vm_compute. reflexivity.
Defined.

Lemma selectionEffect_adds_handler_witness :
  handlersOf (selectionEffect sampleResults {[1%Z]} hovering) = S <$> handlersOf hovering.
Proof.
  apply (selectionEffect_adds_handler sampleResults {[1%Z]} hovering);
    [vm_compute; eauto | vm_compute; lia].
Defined.

(** The hover scenario.  The pointer enters the first path at its
    vertex (36, -5): hover mode is on, the path is in focus and the tooltip
    stands at the vertex.  At 100 m from the vertex the tooltip is shown at
    the vertex; at 600 m nothing changes; at 900 m the session is off and
    the tooltip has left the map. *)
Theorem hover_scenario :
  proximityActiveRef hovering = true /\
  currentPolylineRef hovering = polylineId <$> polylinesRef hovering !! 0%nat /\
  tooltipLatLng <$> tooltipRef hovering = Some (36, -5) /\
  tooltipLatLng <$> tooltipRef (session (hoverEvents ++ [MouseMoved (north 100)]))
    = Some (36, -5) /\
  session (hoverEvents ++ [MouseMoved (north 100); MouseMoved (north 600)])
    = session (hoverEvents ++ [MouseMoved (north 100)]) /\
  Inactive (session (hoverEvents ++ [MouseMoved (north 100); MouseMoved (north 600);
                                      MouseMoved (north 900)])) /\
  Tracked (session (hoverEvents ++ [MouseMoved (north 100); MouseMoved (north 600);
                                     MouseMoved (north 900)])).
Proof.
  split_and!; try (vm_compute; reflexivity).
  - vm_compute. auto.
  - apply (reachable_inv (surface := manhattanSurface)), hover_reachable.
    vm_compute. reflexivity.
Qed.

(** The watcher shows the tooltip of whichever path owns the nearest
    vertex and leaves the focus where it was: after entering the first path
    and moving next to a vertex of the second, the tooltip carries the
    content of the second path while [currentPolylineRef] is still the
    first. *)
Theorem watcher_tooltip_off_focus :
  let st := session (hoverEvents ++ [MouseMoved (35 + (100 # 111000), -5)]) in
  exists first second,
    polylinesRef st !! 0%nat = Some first /\ polylinesRef st !! 1%nat = Some second /\
    currentPolylineRef st = Some (polylineId first) /\
    polylineId first <> polylineId second /\
    tooltipContent <$> tooltipRef st =
      Some (generateTooltipContent (surface := manhattanSurface) (polylineEnv second) (35, -5)
              (intervalData second)).
Proof.
  eexists _, _. split_and!; try (vm_compute; reflexivity). vm_compute. discriminate.
Qed.

Lemma step_resets_witness :
  Inactive (handle (surface := manhattanSurface) MouseOverFinalMarker hovering).
Proof.
  apply (step_resets (surface := manhattanSurface) hovering MouseOverFinalMarker);
    [vm_compute; eauto | reflexivity |].
  apply handle_step. vm_compute. reflexivity.
Defined.
