(* ===== verification/WellFormed.v ===== *)
(** * What a drawn path is made of

    The typing of the primitives on the map: what holds of every polyline
    and endpoint marker in the refs, in every state the component can
    reach.  A polyline carries the usable coordinates of its interval, at
    least two of them, none on the equator or the prime meridian; its
    interval has a numeric journey index, which gives its colour; the
    closure it holds finds its interval among those shown, at the position
    it was drawn from.  The start and end markers stand at the two ends of
    the paths, one pair for each path, in the order of the paths.

    The handlers read these primitives without testing them again: the
    invariant is what makes their reads defined. *)

From Stdlib Require Import QArith.
From stdpp Require Import prelude gmap.
From S2P Require Import Prelude DataModel Surface Geometry Extractor Tooltip RenderSet Proximity.

#[local] Set Warnings "-clear-no-such-hyp".

(** ** Well-drawn paths *)

Record WellDrawn (polyline : Polyline) : Prop := mkWellDrawn {
  drawn_source : latlngs polyline = intervalCoordinates (intervalData polyline);
  drawn_vertices : (2 <= length (latlngs polyline))%nat;
  drawn_journey : is_Some (journeyIndex (intervalData polyline));
  drawn_color : polylineColor polyline = journeyIndex (intervalData polyline);
  drawn_position :
    envShown (polylineEnv polyline) !! envPosition (polylineEnv polyline)
    = Some (intervalData polyline);
  drawn_shown :
    exists sel, envShown (polylineEnv polyline) =
                intervalsToShow sel (extractIntervalsFromResults (envResults (polylineEnv polyline)));
}.

(** The positions of the markers of a kind. *)
Definition isStartMarker (marker : Marker) : bool :=
  match markerKind marker with StartMarker => true | _ => false end.

Definition isEndMarker (marker : Marker) : bool :=
  match markerKind marker with EndMarker => true | _ => false end.

Definition markersAt (kind : Marker -> bool) (markers : list Marker) : list LatLng :=
  markerLatLng <$> filter (fun marker => kind marker = true) markers.

Record WellFormed (st : ViewerState) : Prop := mkWellFormed {
  wf_polylines : Forall WellDrawn (polylinesRef st);
  wf_starts : Some <$> markersAt isStartMarker (markersRef st)
              = (fun polyline => head (latlngs polyline)) <$> polylinesRef st;
  wf_ends : Some <$> markersAt isEndMarker (markersRef st)
            = (fun polyline => last (latlngs polyline)) <$> polylinesRef st;
}.

Section WellFormedFacts.
Context {surface : MapSurface}.
Implicit Types (st : ViewerState) (csv : option CSVIntervalResult) (sel : gset Z)
  (shown : list Interval) (interval : Interval) (polyline : Polyline).

Lemma WellFormed_empty st : markersRef st = [] -> polylinesRef st = [] -> WellFormed st.
Proof. intros Hm Hp. split; rewrite ?Hm, ?Hp; [constructor | reflexivity | reflexivity]. Qed.

(** A state with the same markers and polylines. *)
Lemma WellFormed_same st st' :
  markersRef st' = markersRef st -> polylinesRef st' = polylinesRef st ->
  WellFormed st -> WellFormed st'.
Proof. intros Hm Hp [H1 H2 H3]. split; rewrite ?Hm, ?Hp; assumption. Qed.

(** *** Drawing *)

Lemma polylineOf_WellDrawn csv sel k interval (id : nat) :
  let shown := intervalsToShow sel (extractIntervalsFromResults csv) in
  shown !! k = Some interval -> renderable interval ->
  WellDrawn (polylineOf id (mkEnv csv shown k) interval (intervalCoordinates interval)).
Proof.
  intros shown Hk Hr. split; simpl; [reflexivity | exact Hr | | reflexivity | exact Hk |].
  - apply list_elem_of_lookup_2, intervalsToShow_elem in Hk as [_ (n & -> & _)]. eauto.
  - now exists sel.
Qed.

Lemma markersAt_app (kind : Marker -> bool) (l1 l2 : list Marker) :
  markersAt kind (l1 ++ l2) = markersAt kind l1 ++ markersAt kind l2.
Proof. unfold markersAt. now rewrite filter_app, fmap_app. Qed.

Lemma drawInterval_WellFormed csv sel st k interval :
  let shown := intervalsToShow sel (extractIntervalsFromResults csv) in
  shown !! k = Some interval ->
  WellFormed st -> WellFormed (drawInterval csv shown st k interval).
Proof.
  intros shown Hk [Hp Hs He]. destruct (decide (renderable interval)) as [Hr|Hr].
  - destruct (drawInterval_renderable csv shown st k interval Hr)
      as (startPoint & endPoint & Hhead & Hlast & ->).
    split; simpl.
    + apply Forall_app. split; [exact Hp|]. apply Forall_singleton.
      now apply polylineOf_WellDrawn.
    + rewrite markersAt_app, !fmap_app, Hs. simpl. now rewrite Hhead.
    + rewrite markersAt_app, !fmap_app, He. simpl. now rewrite Hlast.
  - now rewrite (drawInterval_not_renderable _ _ _ _ _ Hr).
Qed.

Lemma addFinalMarker_WellFormed st entry : WellFormed st -> WellFormed (addFinalMarker st entry).
Proof.
  intros Hw. destruct entry as [j lastInterval]. unfold addFinalMarker.
  destruct (last _) as [lastPoint|]; [|exact Hw].
  destruct (truthyPoint lastPoint) as [c|]; [|exact Hw].
  destruct Hw as [Hp Hs He]. split; simpl; auto;
    rewrite markersAt_app; simpl; now rewrite app_nil_r.
Qed.

Lemma showSelectedJourneys_WellFormed csv sel st :
  WellFormed st -> WellFormed (showSelectedJourneys csv sel st).
Proof.
  intros Hw. unfold showSelectedJourneys. destruct (mapInstanceRef st); [|exact Hw].
  assert (Hc : WellFormed (clearMap st)) by now apply WellFormed_empty.
  destruct (decide _); [exact Hc|].
  match goal with |- context [foldl addFinalMarker ?d ?l] =>
    assert (Hf : WellFormed (foldl addFinalMarker d l)) end.
  { apply foldl_invariant; [|intros; now apply addFinalMarker_WellFormed].
    apply forEach_invariant; [exact Hc|]. intros; now apply drawInterval_WellFormed. }
  destruct (decide _); [|exact Hf]. eapply WellFormed_same; [| |exact Hf]; reflexivity.
Qed.

(** *** The handlers leave the drawing alone *)

Lemma showTooltip_drawing content latlng st :
  markersRef (showTooltip content latlng st) = markersRef st /\
  polylinesRef (showTooltip content latlng st) = polylinesRef st.
Proof. split; reflexivity. Qed.

Lemma deactivate_drawing st :
  markersRef (deactivate st) = markersRef st /\ polylinesRef (deactivate st) = polylinesRef st.
Proof. unfold deactivate, closeTooltip. simpl. now destruct (tooltipRef st). Qed.

Lemma handleGlobalMouseMove_drawing latlng st :
  markersRef (handleGlobalMouseMove latlng st) = markersRef st /\
  polylinesRef (handleGlobalMouseMove latlng st) = polylinesRef st.
Proof.
  destruct (handleGlobalMouseMove_cases latlng st) as [->|[->|(_ & c & p & ->)]];
    [auto | apply deactivate_drawing | apply showTooltip_drawing].
Qed.

Lemma finalMarkerMouseOver_drawing st :
  markersRef (finalMarkerMouseOver st) = markersRef st /\
  polylinesRef (finalMarkerMouseOver st) = polylinesRef st.
Proof.
  unfold finalMarkerMouseOver, closeTooltip.
  destruct (tooltipRef st), (mapInstanceRef st); auto.
Qed.

Lemma mouseMove_drawing latlng st :
  markersRef (mouseMove latlng st) = markersRef st /\
  polylinesRef (mouseMove latlng st) = polylinesRef st.
Proof.
  unfold mouseMove. destruct (mapInstanceRef st) as [m|]; [|auto].
  apply (iter_invariant (fun st' => markersRef st' = markersRef st /\
                                    polylinesRef st' = polylinesRef st)); [auto|].
  intros st' [<- <-]. apply handleGlobalMouseMove_drawing.
Qed.

Lemma step_WellFormed st e st' : step st e st' -> WellFormed st -> WellFormed st'.
Proof.
  intros Hstep Hw.
  destruct Hstep as [st csv sel | st | st csv sel | st n latlng pl Hn | st mk _ _ | st latlng].
  - unfold selectionEffect. destruct (mapInstanceRef st); [|exact Hw].
    destruct (decide _); [|now apply WellFormed_empty].
    apply (WellFormed_same (showSelectedJourneys csv sel st)); auto.
    now apply showSelectedJourneys_WellFormed.
  - now apply WellFormed_empty.
  - now apply showSelectedJourneys_WellFormed.
  - now apply (WellFormed_same st).
  - destruct (finalMarkerMouseOver_drawing st). now apply (WellFormed_same st).
  - destruct (mouseMove_drawing latlng st). now apply (WellFormed_same st).
Qed.

Lemma reachable_WellFormed_aux st : reachable st -> WellFormed st.
Proof.
  induction 1 as [|st e st' _ IH Hstep]; [now apply WellFormed_empty|].
  exact (step_WellFormed st e st' Hstep IH).
Qed.

(** *** What the handlers can rely on *)

(** A well-drawn path has a first and a last vertex, and no vertex on the
    equator or the prime meridian. *)
Lemma WellDrawn_ends polyline :
  WellDrawn polyline -> is_Some (head (latlngs polyline)) /\ is_Some (last (latlngs polyline)).
Proof.
  intros [_ Hlen _ _ _ _]. destruct (latlngs polyline) as [|v vs] eqn:Hv; [simpl in Hlen; lia|].
  split; [simpl; eauto|]. destruct (last (v :: vs)) eqn:Hl; [eauto|].
  apply last_None in Hl. discriminate.
Qed.

Lemma WellDrawn_nonzero polyline vertex :
  WellDrawn polyline -> vertex ∈ latlngs polyline -> ~ vertex.1 == 0 /\ ~ vertex.2 == 0.
Proof. intros [Hsrc _ _ _ _ _]. rewrite Hsrc. apply intervalCoordinates_nonzero. Qed.

(** With a well-drawn path among the polylines the scan of the watcher
    finds a vertex. *)
Lemma closestVertex_found latlng (polylines : list Polyline) polyline :
  polyline ∈ polylines -> WellDrawn polyline ->
  exists d vertex polyline',
    closestVertex latlng polylines = (Fin d, Some (vertex, polyline')) /\
    polyline' ∈ polylines /\ vertex ∈ latlngs polyline'.
Proof.
  intros Hin Hw. destruct (closestVertex_NearestVertex latlng polylines) as [Hnone|pl v Hpl Hv _].
  - destruct (WellDrawn_ends polyline Hw) as [[v Hv] _].
    rewrite (Hnone polyline Hin) in Hv. discriminate.
  - eauto 10.
Qed.

End WellFormedFacts.

(** ** Theorems *)

Section WellFormedTheorems.
Context {surface : MapSurface}.
Implicit Types (st : ViewerState) (polyline : Polyline).

(** C24. Every path on the map is well drawn, in every state the component
    reaches: it carries the usable coordinates of its interval, at least
    two; its interval has a numeric journey index, which is its colour;
    its closure finds the interval at its position among the intervals
    shown.  The start and end markers are the first and last vertices of
    the paths, one pair for each path, in the order of the paths. *)
Theorem reachable_WellFormed st :
  reachable st ->
  Forall WellDrawn (polylinesRef st) /\
  Some <$> markersAt isStartMarker (markersRef st)
    = (fun polyline => head (latlngs polyline)) <$> polylinesRef st /\
  Some <$> markersAt isEndMarker (markersRef st)
    = (fun polyline => last (latlngs polyline)) <$> polylinesRef st.
Proof. intros Hr. destruct (reachable_WellFormed_aux st Hr). auto. Qed.

(** In a reachable state with a path on the map, the scan of the
    watcher always finds a vertex of a path of the map, none of whose
    coordinates is zero: the test [closestPoint && closestPolyline] of
    line 592 never fails there, and the case of a missing point cannot
    arise. *)
Theorem watcher_finds_vertex st (latlng : LatLng) :
  reachable st -> polylinesRef st <> [] ->
  exists d vertex polyline,
    closestVertex latlng (polylinesRef st) = (Fin d, Some (vertex, polyline)) /\
    polyline ∈ polylinesRef st /\ vertex ∈ latlngs polyline /\
    ~ vertex.1 == 0 /\ ~ vertex.2 == 0.
Proof.
  intros Hr Hne. destruct (reachable_WellFormed_aux st Hr) as [Hp _ _].
  destruct (polylinesRef st) as [|p0 ps] eqn:Hps; [contradiction|].
  rewrite Forall_forall in Hp.
  destruct (closestVertex_found latlng (p0 :: ps) p0) as (d & v & pl & Hc & Hpl & Hv);
    [apply elem_of_cons; now left | apply Hp, elem_of_cons; now left |].
  exists d, v, pl. split_and!; auto; apply (WellDrawn_nonzero pl v); auto.
Qed.

(** [getClosestPointOnLine] on the vertices of a path of a reachable
    state returns a point: the value [undefined] that the empty line
    gives cannot reach the tooltip. *)
Theorem drawn_line_has_closest_point st polyline (mouseLatLng : LatLng) :
  reachable st -> polyline ∈ polylinesRef st ->
  is_Some (closestPoint (getClosestPointOnLine mouseLatLng (latlngs polyline))).
Proof.
  intros Hr Hin. destruct (reachable_WellFormed_aux st Hr) as [Hp _ _].
  rewrite Forall_forall in Hp. destruct (WellDrawn_ends polyline (Hp _ Hin)) as [[v Hv] _].
  destruct (getClosestPointOnLine_ClosestSpec mouseLatLng (latlngs polyline)) as [?|].
  - simpl. rewrite Hv. eauto.
  - simpl. eauto.
Qed.

End WellFormedTheorems.

(** ** The sample *)

Lemma hovering_reachable : reachable (surface := manhattanSurface) hovering.
Proof. apply hover_reachable. reflexivity. Qed.

Lemma reachable_WellFormed_witness :
  Forall WellDrawn (polylinesRef hovering) /\
  Some <$> markersAt isStartMarker (markersRef hovering)
    = (fun polyline => head (latlngs polyline)) <$> polylinesRef hovering /\
  Some <$> markersAt isEndMarker (markersRef hovering)
    = (fun polyline => last (latlngs polyline)) <$> polylinesRef hovering.
Proof. apply (reachable_WellFormed (surface := manhattanSurface)), hovering_reachable. Defined.

Lemma watcher_finds_vertex_witness :
  exists d vertex polyline,
    closestVertex (surface := manhattanSurface) (north 100) (polylinesRef hovering)
      = (Fin d, Some (vertex, polyline)) /\
    polyline ∈ polylinesRef hovering /\ vertex ∈ latlngs polyline /\
    ~ vertex.1 == 0 /\ ~ vertex.2 == 0.
Proof.
  apply (watcher_finds_vertex (surface := manhattanSurface)); [apply hovering_reachable|].
  intros Hnil. pose proof hovering_vertices as Hv. rewrite Hnil in Hv. discriminate.
Defined.

Lemma drawn_line_has_closest_point_witness :
  match polylinesRef hovering with
  | polyline :: _ =>
      is_Some (closestPoint (getClosestPointOnLine (surface := manhattanSurface) (north 100)
                               (latlngs polyline)))
  | [] => False
  end.
Proof.
  pose proof hovering_vertices as Hv. pose proof hovering_reachable as Hr.
  destruct (polylinesRef hovering) as [|polyline rest] eqn:Hp; [discriminate|].
  apply (drawn_line_has_closest_point (surface := manhattanSurface) hovering polyline
           (north 100) Hr).
  rewrite Hp. apply elem_of_cons. now left.
Defined.
