(* ===== verification/Loops.v ===== *)
(** * The counted loops, at the level of their counters

    Two functions of [MapViewer.tsx] search with a [for] statement:
    [getClosestPointOnLine] (lines 369-402) runs [i] over the segments of
    one line, and the watcher (lines 573-589) runs [i] over the vertices of
    every polyline inside a [forEach].  [Geometry] and [Proximity] state
    them as a scan over a list of candidates.  This file states them as the
    code does, a counter compared with a bound before every iteration and
    local variables assigned in the body, and proves that the two readings
    agree: the loops end after one iteration per segment (per vertex),
    read inside their arrays only, and return what the scans return.

    A read past the end of an array gives [undefined], on which
    [map.distance] fails: the body of a loop returns [None] there, and the
    loop with it.  That the loops of the code return a value is therefore
    a theorem about their bounds, and [lineLoop_bound] shows that
    [lineCoordinates.length - 1] is the largest bound with which the loop
    of [getClosestPointOnLine] stays in range.

    [forLoop] is defined by well-founded recursion on the distance of the
    counter to the bound, so it is total; the bound is an integer, since
    [lineCoordinates.length - 1] is [-1] on an empty line. *)

From Stdlib Require Import QArith ZArith Lia.
From Equations Require Import Equations.
From stdpp Require Import prelude.
From S2P Require Import Prelude DataModel Surface Geometry Extractor Tooltip RenderSet Proximity.

(** ** [for (let i = start; i < bound; i++) body] *)

Section ForLoop.
Context {St : Type}.
Implicit Types (bound : Z) (body : nat -> St -> option St) (i : nat) (s : St).

(** The body fails ([None]) when it reads outside an array; the loop
    stops there. *)
Equations forLoop bound body i s : option St by wf (Z.to_nat (bound - Z.of_nat i)) lt :=
forLoop bound body i s with decide (Z.of_nat i < bound)%Z := {
  | left _ with body i s := {
    | Some s' => forLoop bound body (S i) s'
    | None => None }
  | right _ => Some s }.
Next Obligation. lia. Qed.

(** The iterations still to run when the counter is [i]. *)
Definition iterationsLeft bound i : nat := Z.to_nat (bound - Z.of_nat i).

(** One iteration on the state so far, if there is one. *)
Definition iterate body (acc : option St) (j : nat) : option St := acc ≫= body j.

Lemma foldl_iterate_None body (js : list nat) : foldl (iterate body) None js = None.
Proof. induction js as [|j js IH]; [reflexivity | exact IH]. Qed.

Lemma iterationsLeft_S bound i :
  (Z.of_nat i < bound)%Z -> iterationsLeft bound i = S (iterationsLeft bound (S i)).
Proof. unfold iterationsLeft. lia. Qed.

Lemma iterationsLeft_0 bound i : ~ (Z.of_nat i < bound)%Z -> iterationsLeft bound i = 0%nat.
Proof. unfold iterationsLeft. lia. Qed.

(** The loop runs its body once for each value of the counter from [i] up
    to the bound, in order, and stops; it stops before when the body
    fails. *)
Lemma forLoop_foldl bound body i s :
  forLoop bound body i s = foldl (iterate body) (Some s) (seq i (iterationsLeft bound i)).
Proof.
  funelim (forLoop bound body i s).
  - rewrite iterationsLeft_0 by assumption. reflexivity.
  - rewrite iterationsLeft_S by assumption. cbn [seq foldl iterate mbind option_bind].
    now rewrite Heq.
  - rewrite iterationsLeft_S by assumption. cbn [seq foldl iterate mbind option_bind].
    now rewrite Heq, foldl_iterate_None.
Qed.

Lemma forLoop_done bound body i s : (bound <= Z.of_nat i)%Z -> forLoop bound body i s = Some s.
Proof. intros Hle. rewrite forLoop_foldl, iterationsLeft_0 by lia. reflexivity. Qed.

(** The loop returns when its body does at every value of the counter. *)
Lemma forLoop_is_Some bound body i s :
  (forall j s', (i <= j)%nat -> (Z.of_nat j < bound)%Z -> is_Some (body j s')) ->
  is_Some (forLoop bound body i s).
Proof.
  funelim (forLoop bound body i s); intros Hbody.
  - eauto.
  - apply H. intros j s'' Hj. apply Hbody. lia.
  - destruct (Hbody i s) as [s' Hs']; [lia | assumption | congruence].
Qed.

(** The loop fails when the counter reaches a value at which the body
    does. *)
Lemma forLoop_None bound body i s (j : nat) :
  (i <= j)%nat -> (Z.of_nat j < bound)%Z -> (forall s', body j s' = None) ->
  forLoop bound body i s = None.
Proof.
  funelim (forLoop bound body i s); intros Hj Hlt Hfail.
  - lia.
  - destruct (decide (i = j)) as [->|Hne]; [now rewrite Hfail in Heq|].
    apply (H j); [lia | assumption..].
  - reflexivity.
Qed.

(** The rule of the loop invariant: [P] holds of the counter and the state
    before every test of the condition, and of the bound at the end. *)
Lemma forLoop_invariant (P : nat -> St -> Prop) bound body i s s' :
  P i s ->
  (forall j t t', (i <= j)%nat -> (Z.of_nat j < bound)%Z -> P j t -> body j t = Some t' ->
     P (S j) t') ->
  forLoop bound body i s = Some s' -> P (i + iterationsLeft bound i)%nat s'.
Proof.
  funelim (forLoop bound body i s); intros Hi Hbody.
  - intros [= <-]. now rewrite iterationsLeft_0, Nat.add_0_r by assumption.
  - rewrite iterationsLeft_S, <- Nat.add_succ_comm by assumption.
    apply H; [now apply (Hbody i s) | intros j t t' Hj; apply Hbody; lia].
  - discriminate.
Qed.

End ForLoop.

(** A loop whose body reads the [j]-th element of a list and whose state
    is the image of the state of a fold over that list. *)
Lemma forLoop_simulates {A St C} (abs : A -> St) (g : A -> C -> A) (cs : list C)
    (bound : Z) (body : nat -> St -> option St) (a : A) :
  Z.to_nat bound = length cs ->
  (forall j c a', cs !! j = Some c -> body j (abs a') = Some (abs (g a' c))) ->
  forLoop bound body 0 (abs a) = Some (abs (foldl g a cs)).
Proof.
  intros Hlen Hbody. rewrite forLoop_foldl. unfold iterationsLeft.
  rewrite Z.sub_0_r, Hlen. clear Hlen.
  induction cs as [|c cs IH] using rev_ind; [reflexivity|].
  rewrite length_app, seq_app, !foldl_app. simpl. rewrite IH.
  - apply Hbody. rewrite lookup_app_r, Nat.sub_diag by lia. reflexivity.
  - intros j c' a' Hj. apply Hbody. rewrite lookup_app_l; [exact Hj|].
    now apply lookup_lt_Some in Hj.
Qed.

Lemma foldl_bind {A B C} (f : A -> C -> A) (k : B -> list C) (a : A) (l : list B) :
  foldl f a (l ≫= k) = foldl (fun a' x => foldl f a' (k x)) a l.
Proof.
  revert a. induction l as [|x l IH]; intros a; [reflexivity|].
  rewrite bind_cons, foldl_app. apply IH.
Qed.

(** The position of an element of a flattened list: the list it comes
    from and its place there. *)
Lemma length_take_bind_cons {A B} (f : A -> list B) (x : A) (l : list A) (n : nat) :
  length (take (S n) (x :: l) ≫= f) = (length (f x) + length (take n l ≫= f))%nat.
Proof. change (take (S n) (x :: l)) with (x :: take n l). now rewrite bind_cons, length_app. Qed.

Lemma lookup_bind_Some {A B} (f : A -> list B) (l : list A) (i : nat) (y : B) :
  (l ≫= f) !! i = Some y <->
  exists n j x, l !! n = Some x /\ f x !! j = Some y /\ i = (length (take n l ≫= f) + j)%nat.
Proof.
  revert i. induction l as [|x l IH]; intros i.
  - split; [discriminate | intros (n & j & x & Hn & _); now rewrite lookup_nil in Hn].
  - rewrite bind_cons. destruct (decide (i < length (f x))%nat) as [Hlt|Hge].
    + rewrite lookup_app_l by exact Hlt. split.
      * intros Hi. exists 0%nat, i, x. auto.
      * intros (n & j & x' & Hn & Hj & ->). destruct n as [|n].
        -- injection Hn as <-. exact Hj.
        -- rewrite length_take_bind_cons in Hlt. lia.
    + rewrite lookup_app_r by lia. rewrite IH. split.
      * intros (n & j & x' & Hn & Hj & Hi). exists (S n), j, x'. split_and!; auto.
        rewrite length_take_bind_cons. lia.
      * intros (n & j & x' & Hn & Hj & ->). destruct n as [|n].
        -- injection Hn as <-. apply lookup_lt_Some in Hj. simpl in Hge. lia.
        -- exists n, j, x'. split_and!; auto. rewrite length_take_bind_cons. lia.
Qed.

Lemma length_take_bind_lt {A B} (f : A -> list B) (l : list A) (n n' j' : nat) x' y' :
  l !! n' = Some x' -> f x' !! j' = Some y' -> (n' < n)%nat ->
  (length (take n' l ≫= f) + j' < length (take n l ≫= f))%nat.
Proof.
  intros Hn' Hj' Hlt. apply lookup_lt_Some in Hj'.
  rewrite <- (take_drop_middle l n' x' Hn') at 2.
  rewrite take_app_ge by (rewrite length_take; lia).
  rewrite bind_app, length_app, length_take_le by (apply lookup_lt_Some in Hn'; lia).
  replace (n - n')%nat with (S (n - S n')) by lia. rewrite length_take_bind_cons. lia.
Qed.

(** ** [getClosestPointOnLine] (lines 369-402) *)

(** The local variables of lines 370-373: [minDistance] and, under the
    names of the value returned, [closestSegmentIndex], [closestPoint] and
    [closestDistance]. *)
Record LineLocals : Type := mkLineLocals {
  minDistance : ExtQ;
  returned : ClosestPoint;
}.

Section Loops.
Context {surface : MapSurface}.

(** The body of the loop, lines 377-398.  A read [lineCoordinates[i]] or
    [lineCoordinates[i + 1]] past the end of the array is [undefined], and
    [map.distance(p1, p2)] fails on it at line 381. *)
Definition lineBody (mouseLatLng : LatLng) (lineCoordinates : list LatLng) (i : nat)
  (locals : LineLocals) : option LineLocals :=
  p1 ← lineCoordinates !! i;
  p2 ← lineCoordinates !! S i;
  let segmentLength := distance p1 p2 in
  if Qeq_bool segmentLength 0 then Some locals
  else
    let t := projectionParam mouseLatLng p1 p2 in
    let projected := pointAt p1 p2 t in
    let d := distance mouseLatLng projected in
    Some (if ltExt d (minDistance locals)
          then mkLineLocals (Fin d) (mkClosestPoint (Some projected) (Fin d) i)
          else locals).

(** Lines 370-373: the variables before the loop. *)
Definition lineStart (lineCoordinates : list LatLng) : LineLocals :=
  mkLineLocals Infinity (mkClosestPoint (head lineCoordinates) Infinity 0).

Definition lineLoop (mouseLatLng : LatLng) (lineCoordinates : list LatLng)
  : option LineLocals :=
  forLoop (Z.of_nat (length lineCoordinates) - 1) (lineBody mouseLatLng lineCoordinates) 0
    (lineStart lineCoordinates).

Definition getClosestPointOnLineLoop (mouseLatLng : LatLng) (lineCoordinates : list LatLng)
  : option ClosestPoint :=
  returned <$> lineLoop mouseLatLng lineCoordinates.

(** ** The scan of the watcher (lines 573-589) *)

(** The local variables of lines 573-575.  [watcherDistance] and
    [watcherPoint] are [closestDistance] and [closestPoint], named apart
    from the fields of [ClosestPoint]. *)
Record WatcherLocals : Type := mkWatcherLocals {
  watcherDistance : ExtQ;
  watcherPoint : option LatLng;
  closestPolyline : option Polyline;
}.

(** Lines 581-586; [latlngs[i]] past the end is [undefined], on which
    [map.distance] fails at line 581. *)
Definition vertexBody (latlng : LatLng) (polyline : Polyline) (i : nat)
  (locals : WatcherLocals) : option WatcherLocals :=
  vertex ← latlngs polyline !! i;
  let d := distance latlng vertex in
  Some (if ltExt d (watcherDistance locals)
        then mkWatcherLocals (Fin d) (Some vertex) (Some polyline)
        else locals).

(** Lines 577-589: [polylinesRef.current.forEach] around the loop. *)
Definition polylineBody (latlng : LatLng) (locals : WatcherLocals) (polyline : Polyline)
  : option WatcherLocals :=
  if decide (0 < length (latlngs polyline))%nat
  then forLoop (Z.of_nat (length (latlngs polyline))) (vertexBody latlng polyline) 0 locals
  else Some locals.

Definition closestVertexLoop (latlng : LatLng) (polylines : list Polyline)
  : option WatcherLocals :=
  foldl (fun acc polyline => acc ≫= fun locals => polylineBody latlng locals polyline)
    (Some (mkWatcherLocals Infinity None None)) polylines.

(** ** The loops and the scans *)

(** The variables of [getClosestPointOnLine] as a function of the state of
    the scan: [minDistance] and [closestDistance] hold the same value. *)
Definition lineLocalsOf (r : ExtQ * (nat * option LatLng)) : LineLocals :=
  mkLineLocals r.1 (mkClosestPoint r.2.2 r.1 r.2.1).

Definition watcherLocalsOf (r : ExtQ * option (LatLng * Polyline)) : WatcherLocals :=
  mkWatcherLocals r.1 (fst <$> r.2) (snd <$> r.2).

Lemma lineBody_scanStep mouseLatLng lineCoordinates j r c :
  imap (segmentCandidate mouseLatLng) (segments lineCoordinates) !! j = Some c ->
  lineBody mouseLatLng lineCoordinates j (lineLocalsOf r) = Some (lineLocalsOf (scanStep r c)).
Proof.
  rewrite list_lookup_imap. unfold lineBody.
  destruct (segments lineCoordinates !! j) as [[p1 p2]|] eqn:Hseg; [|discriminate].
  apply segments_lookup in Hseg as [-> ->]. simpl. intros [= <-].
  unfold segmentCandidate, projectedPoint. simpl.
  destruct (Qeq_bool (distance p1 p2) 0); [reflexivity|]. simpl.
  now destruct (ltExt _ r.1).
Qed.

Lemma lineLoop_scanMin mouseLatLng lineCoordinates :
  lineLoop mouseLatLng lineCoordinates =
  Some (lineLocalsOf (scanMin (Infinity, (O, head lineCoordinates))
                        (imap (segmentCandidate mouseLatLng) (segments lineCoordinates)))).
Proof.
  unfold lineLoop, scanMin.
  apply (forLoop_simulates lineLocalsOf scanStep _ _ _ (Infinity, (O, head lineCoordinates))).
  - rewrite length_imap, segments_length. lia.
  - intros j c r. apply lineBody_scanStep.
Qed.

(** The reads of the body are in range exactly below [length - 1]. *)
Lemma lineBody_is_Some mouseLatLng lineCoordinates (j : nat) locals :
  is_Some (lineBody mouseLatLng lineCoordinates j locals) <-> (S j < length lineCoordinates)%nat.
Proof.
  unfold lineBody. split.
  - destruct (lineCoordinates !! S j) as [p2|] eqn:H2; [now apply lookup_lt_Some in H2|].
    destruct (lineCoordinates !! j); simpl; now intros [? [=]].
  - intros Hlt. destruct (lookup_lt_is_Some_2 lineCoordinates j) as [p1 ->]; [lia|].
    destruct (lookup_lt_is_Some_2 lineCoordinates (S j) Hlt) as [p2 ->]. simpl.
    destruct (Qeq_bool _ _); eauto.
Qed.

Lemma vertexBody_scanStep latlng polyline j r c :
  ((fun vertex => Some (distance latlng vertex, Some (vertex, polyline)))
     <$> latlngs polyline) !! j = Some c ->
  vertexBody latlng polyline j (watcherLocalsOf r) = Some (watcherLocalsOf (scanStep r c)).
Proof.
  rewrite list_lookup_fmap. unfold vertexBody.
  destruct (latlngs polyline !! j) as [vertex|]; [|discriminate].
  simpl. intros [= <-]. simpl. now destruct (ltExt _ r.1).
Qed.

Lemma polylineBody_scanMin latlng polyline r :
  polylineBody latlng (watcherLocalsOf r) polyline =
  Some (watcherLocalsOf
          (scanMin r ((fun vertex => Some (distance latlng vertex, Some (vertex, polyline)))
                        <$> latlngs polyline))).
Proof.
  unfold polylineBody. destruct (decide _) as [Hpos|Hempty].
  - apply forLoop_simulates.
    + rewrite length_fmap. lia.
    + intros j c r'. apply vertexBody_scanStep.
  - destruct (latlngs polyline); [reflexivity | simpl in Hempty; lia].
Qed.

Lemma closestVertexLoop_scanMin latlng polylines r :
  foldl (fun acc polyline => acc ≫= fun locals => polylineBody latlng locals polyline)
    (Some (watcherLocalsOf r)) polylines =
  Some (watcherLocalsOf (scanMin r (vertexCandidates latlng polylines))).
Proof.
  unfold scanMin, vertexCandidates. rewrite foldl_bind.
  revert r. induction polylines as [|polyline polylines IH]; intros r; [reflexivity|].
  simpl. rewrite polylineBody_scanMin. apply IH.
Qed.

End Loops.

(** ** Theorems *)

Section LoopTheorems.
Context {surface : MapSurface}.

(** C32. Every read of the loop of [getClosestPointOnLine] is inside the
    array, and its bound is the largest of which this is true: run up to
    [bound], the loop returns a value exactly when [bound] is at most
    [lineCoordinates.length - 1], or at most 0 on the empty line, where the
    loop of the code does not run. *)
Theorem lineLoop_bound (mouseLatLng : LatLng) (lineCoordinates : list LatLng) (bound : Z) :
  is_Some (forLoop bound (lineBody mouseLatLng lineCoordinates) 0 (lineStart lineCoordinates))
  <-> (bound <= Z.max 0 (Z.of_nat (length lineCoordinates) - 1))%Z.
Proof.
  split.
  - intros Hsome. destruct (decide (bound <= Z.max 0 (Z.of_nat (length lineCoordinates) - 1))%Z)
      as [Hle|Hgt]; [exact Hle | exfalso].
    rewrite (forLoop_None _ _ _ _ (length lineCoordinates - 1)) in Hsome;
      [now destruct Hsome | lia | lia |].
    intros locals. apply eq_None_not_Some. rewrite lineBody_is_Some. lia.
  - intros Hle. apply forLoop_is_Some. intros j locals _ Hj. apply lineBody_is_Some. lia.
Qed.

(** C22. The loop with its four variables returns, with every read in
    range, what the scan over the segments returns:
    [Geometry.getClosestPointOnLine] is the function the code computes. *)
Theorem getClosestPointOnLineLoop_correct (mouseLatLng : LatLng)
    (lineCoordinates : list LatLng) :
  getClosestPointOnLineLoop mouseLatLng lineCoordinates =
  Some (getClosestPointOnLine mouseLatLng lineCoordinates).
Proof. unfold getClosestPointOnLineLoop. now rewrite lineLoop_scanMin. Qed.

(** The loop runs its body once for each of the [length - 1] segments, in
    order. *)
Theorem lineLoop_iterations (mouseLatLng : LatLng) (lineCoordinates : list LatLng) :
  lineLoop mouseLatLng lineCoordinates =
  foldl (iterate (lineBody mouseLatLng lineCoordinates)) (Some (lineStart lineCoordinates))
    (seq 0 (length lineCoordinates - 1)).
Proof.
  unfold lineLoop. rewrite forLoop_foldl. unfold iterationsLeft. do 2 f_equal. lia.
Qed.

(** The variables [minDistance] and [closestDistance] are equal when the
    loop ends: one of them is redundant. *)
Theorem lineLoop_minDistance (mouseLatLng : LatLng) (lineCoordinates : list LatLng) :
  minDistance <$> lineLoop mouseLatLng lineCoordinates =
  (fun locals => closestDistance (returned locals)) <$> lineLoop mouseLatLng lineCoordinates.
Proof. now rewrite lineLoop_scanMin. Qed.

(** The nested loops of the watcher, with their three variables, read
    inside the arrays and return what the scan over all the vertices
    returns: the point and the polyline are set together, and are those of
    [Proximity.closestVertex]. *)
Theorem closestVertexLoop_correct (latlng : LatLng) (polylines : list Polyline) :
  closestVertexLoop latlng polylines = Some (watcherLocalsOf (closestVertex latlng polylines)).
Proof. apply (closestVertexLoop_scanMin latlng polylines (Infinity, None)). Qed.

(** What the scan of the watcher finds, with its order: nothing when no
    path has a vertex; else the first vertex, in the order of the paths
    and then of the vertices of a path, among those nearest the cursor. *)
Inductive FirstNearest (latlng : LatLng) (polylines : list Polyline)
  : ExtQ * option (LatLng * Polyline) -> Prop :=
| first_none :
    (forall polyline, polyline ∈ polylines -> latlngs polyline = []) ->
    FirstNearest latlng polylines (Infinity, None)
| first_some (n j : nat) polyline vertex :
    polylines !! n = Some polyline -> latlngs polyline !! j = Some vertex ->
    (forall n' j' polyline' vertex',
       polylines !! n' = Some polyline' -> latlngs polyline' !! j' = Some vertex' ->
       distance latlng vertex <= distance latlng vertex') ->
    (forall n' j' polyline' vertex',
       polylines !! n' = Some polyline' -> latlngs polyline' !! j' = Some vertex' ->
       (n' < n \/ n' = n /\ j' < j)%nat ->
       distance latlng vertex < distance latlng vertex') ->
    FirstNearest latlng polylines (Fin (distance latlng vertex), Some (vertex, polyline)).

Lemma vertexCandidates_lookup latlng polylines (i : nat) c :
  vertexCandidates latlng polylines !! i = Some c <->
  exists n j polyline vertex,
    polylines !! n = Some polyline /\ latlngs polyline !! j = Some vertex /\
    c = Some (distance latlng vertex, Some (vertex, polyline)) /\
    i = (length (vertexCandidates latlng (take n polylines)) + j)%nat.
Proof.
  unfold vertexCandidates. rewrite lookup_bind_Some. split.
  - intros (n & j & polyline & Hn & Hj & ->). rewrite list_lookup_fmap in Hj.
    destruct (latlngs polyline !! j) as [vertex|] eqn:Hv; [|discriminate].
    injection Hj as <-. exists n, j, polyline, vertex. auto.
  - intros (n & j & polyline & vertex & Hn & Hj & -> & ->).
    exists n, j, polyline. rewrite list_lookup_fmap, Hj. auto.
Qed.

(** C35. Between vertices at the same distance the watcher keeps the one
    it met first: the first path in the order they were drawn, and in that
    path the first vertex. *)
Theorem closestVertex_first (latlng : LatLng) (polylines : list Polyline) :
  FirstNearest latlng polylines (closestVertex latlng polylines).
Proof.
  unfold closestVertex.
  destruct (scanMin_spec (Infinity, None) (vertexCandidates latlng polylines))
    as [Hall | i d b Hi _ Hfirst Hmin].
  - apply first_none. intros polyline [n Hn]%list_elem_of_lookup.
    destruct (latlngs polyline) as [|vertex rest] eqn:Hv; [reflexivity|].
    destruct (Hall (length (vertexCandidates latlng (take n polylines)) + 0)%nat
                (distance latlng vertex) (Some (vertex, polyline))).
    apply vertexCandidates_lookup. exists n, 0%nat, polyline, vertex. now rewrite Hv.
  - apply vertexCandidates_lookup in Hi as (n & j & polyline & vertex & Hn & Hj & [= -> ->] & ->).
    apply (first_some latlng polylines n j); auto.
    + intros n' j' polyline' vertex' Hn' Hj'.
      apply (Hmin (length (vertexCandidates latlng (take n' polylines)) + j')%nat _
               (Some (vertex', polyline'))).
      apply vertexCandidates_lookup. exists n', j', polyline', vertex'. auto.
    + intros n' j' polyline' vertex' Hn' Hj' Hbefore.
      apply (Hfirst (length (vertexCandidates latlng (take n' polylines)) + j')%nat _
               (Some (vertex', polyline'))).
      * destruct Hbefore as [Hlt | [-> Hlt]]; [|lia].
        pose proof (length_take_bind_lt
          (fun polyline => (fun vertex => Some (distance latlng vertex, Some (vertex, polyline)))
                             <$> latlngs polyline) polylines n n' j' polyline'
          (Some (distance latlng vertex', Some (vertex', polyline'))) Hn') as Hlen.
        unfold vertexCandidates. cbv beta in Hlen. rewrite list_lookup_fmap, Hj' in Hlen.
        specialize (Hlen eq_refl Hlt). lia.
      * apply vertexCandidates_lookup. exists n', j', polyline', vertex'. auto.
Qed.

End LoopTheorems.

(** ** A tie between two paths *)

(** Two journeys, listed in the results with journey 2 first, each with
    one path; the cursor at 111 m from the first vertex of both. *)
Definition tieResults : option CSVIntervalResult :=
  Some (mkResult true (Some (mkData
    [ mkJourney 2 (Some (mkMetadata false))
        [ sampleInterval 2 1 [samplePoint 36 (-5); samplePoint 36 (-4)] ];
      mkJourney 1 (Some (mkMetadata false))
        [ sampleInterval 1 1 [samplePoint (36 + (2 # 1000)) (-5);
                              samplePoint (36 + (2 # 1000)) (-4)] ] ]))).

Definition tieCursor : LatLng := (36 + (1 # 1000), -5).

(** The watcher resolves the tie to the path drawn first, which is the
    one of journey 2: the order is that of the results, not that of the
    journey indices. *)
Theorem tie_break_scenario :
  let st := showSelectedJourneys tieResults {[1%Z; 2%Z]} initialState in
  let found := closestVertex (surface := manhattanSurface) tieCursor (polylinesRef st) in
  (fun p => journeyIndex (intervalData p)) <$> polylinesRef st = [Some 2%Z; Some 1%Z] /\
  distance (MapSurface := manhattanSurface) tieCursor (36, -5) ==
    distance (MapSurface := manhattanSurface) tieCursor (36 + (2 # 1000), -5) /\
  extLt found.1 500 = true /\
  (fun r => journeyIndex (intervalData r.2)) <$> found.2 = Some (Some 2%Z).
Proof. vm_compute. split_and!; reflexivity. Qed.
