(* ===== verification/Fallible.v ===== *)
(** * The rebuild under exceptions

    The body of [showSelectedJourneys] runs inside one [try] (line 131);
    its [catch] (551-554) logs and returns.  A call of Leaflet that throws
    therefore ends the rebuild where it stands: what was mutated before
    stays, what comes after is skipped, and the caller sees a normal
    return.

    The file states the rebuild in a monad of state and exceptions.  Which
    calls of Leaflet throw is not decided by the component: it is the
    parameter [throws] of the section, asked once for each call site and
    each interval.  [RenderSet.showSelectedJourneys] is the run in which
    no call throws.

    The call of [clearMap] (line 132) is inside the [try], and its
    removals are calls of Leaflet too: [clearMapTry] is [clearMap] with
    them. *)

From Stdlib Require Import QArith.
From stdpp Require Import prelude gmap.
From S2P Require Import Prelude DataModel Surface Extractor Tooltip RenderSet.

#[local] Set Warnings "-clear-no-such-hyp".

(** ** The calls of Leaflet *)

Inductive LeafletCall : Type :=
| RemoveMarker (k : nat)       (* [removeLayer(marker)], line 80, for the k-th marker *)
| RemovePolyline (k : nat)     (* [removeLayer(polyline)], line 85, for the k-th polyline *)
| RemoveTooltip                (* [removeLayer(tooltipRef.current)], line 89 *)
| NewPolyline (k : nat)        (* [L.polyline(...)], line 185, for the k-th interval *)
| AddStartMarker (k : nat)     (* [L.circleMarker(startPoint, ...).addTo(map)], 217-224 *)
| AddEndMarker (k : nat)       (* [L.circleMarker(endPoint, ...).addTo(map)], 227-234 *)
| OnPolyline (k : nat)         (* [polyline.on(...)], 442-471 *)
| AddPolyline (k : nat)        (* [polyline.addTo(map)], 478 *)
| NewFinalMarker (n : nat)     (* [L.circleMarker(...)], 493-500, n-th entry of the Map *)
| OnFinalMarker (n : nat)      (* [finalMarker.on(...)], 503-518 *)
| AddFinalMarker (n : nat)     (* [finalMarker.bindTooltip(...).addTo(map)], 524-539 *)
| FitBounds                    (* [L.featureGroup(...)], [fitBounds], 548-549 *)
| OnMouseMove.                 (* [map.on('mousemove', ...)], 631, after the [try] *)

#[export] Instance LeafletCall_eq_dec : EqDecision LeafletCall.
Proof. solve_decision. Defined.

(** The calls of [clearMap]. *)
Definition isRemoval (c : LeafletCall) : bool :=
  match c with
  | RemoveMarker _ | RemovePolyline _ | RemoveTooltip => true
  | _ => false
  end.

(** The calls made for the k-th interval, in order. *)
Definition drawCalls (k : nat) : list LeafletCall :=
  [NewPolyline k; AddStartMarker k; AddEndMarker k; OnPolyline k; AddPolyline k].

(** ** State and exceptions *)

Inductive Outcome (A : Type) : Type :=
| Returned (a : A)
| Thrown (c : LeafletCall).
Arguments Returned {A} a.
Arguments Thrown {A} c.

(** A computation on the refs of the component: the state it leaves, and
    either a value or the call that threw. *)
Definition Try (A : Type) : Type := ViewerState -> ViewerState * Outcome A.

#[export] Instance Try_ret : MRet Try := fun A a st => (st, Returned a).

#[export] Instance Try_bind : MBind Try := fun A B k m st =>
  match m st with
  | (st', Returned a) => k a st'
  | (st', Thrown c) => (st', Thrown c)
  end.

(** [try { body } catch (error) { handler }] *)
Definition catch {A} (body : Try A) (handler : LeafletCall -> Try A) : Try A := fun st =>
  match body st with
  | (st', Returned a) => (st', Returned a)
  | (st', Thrown c) => handler c st'
  end.

Definition modify (f : ViewerState -> ViewerState) : Try unit := fun st => (f st, Returned tt).

Definition getState : Try ViewerState := fun st => (st, Returned st).

(** [markersRef.current.push(...)], [polylinesRef.current.push(polyline)] *)
Definition pushMarkers (markers : list Marker) : Try unit :=
  modify (fun st =>
    mkState (mapInstanceRef st) (markersRef st ++ markers) (polylinesRef st) (tooltipRef st)
      (proximityActiveRef st) (currentPolylineRef st) (nextId st)).

Definition pushPolyline (polyline : Polyline) : Try unit :=
  modify (fun st =>
    mkState (mapInstanceRef st) (markersRef st) (polylinesRef st ++ [polyline]) (tooltipRef st)
      (proximityActiveRef st) (currentPolylineRef st) (nextId st)).

(** The layer stamped [nextId] is on the map. *)
Definition stampAndAdd (st : ViewerState) : ViewerState :=
  mkState (addLayer (nextId st) <$> mapInstanceRef st) (markersRef st) (polylinesRef st)
    (tooltipRef st) (proximityActiveRef st) (currentPolylineRef st) (S (nextId st)).

Section Fallible.
Context (throws : LeafletCall -> bool).

(** A call that changes nothing the component holds. *)
Definition call (c : LeafletCall) : Try unit := fun st =>
  (st, if throws c then Thrown c else Returned tt).

(** [layer.addTo(mapInstanceRef.current)]: the stamp of the layer. *)
Definition addTo (c : LeafletCall) : Try nat := fun st =>
  if throws c then (st, Thrown c) else (stampAndAdd st, Returned (nextId st)).

(** [forEach] with a callback that may throw. *)
Fixpoint forEachTryFrom {A} (f : nat -> A -> Try unit) (k : nat) (l : list A) : Try unit :=
  match l with
  | [] => mret tt
  | x :: l' => f k x;; forEachTryFrom f (S k) l'
  end.

Definition forEachTry {A} (f : nat -> A -> Try unit) (l : list A) : Try unit :=
  forEachTryFrom f 0 l.

(** ** [clearMap] (lines 77-97) *)

(** [if (mapInstanceRef.current) mapInstanceRef.current.removeLayer(layer)] *)
Definition removeTry (c : LeafletCall) (id : nat) : Try unit := fun st =>
  match mapInstanceRef st with
  | Some _ => (call c;; modify (onMap (removeLayer id))) st
  | None => (st, Returned tt)
  end.

(** [tooltipRef.current = null], line 91. *)
Definition forgetTooltip : Try unit :=
  modify (fun st => mkState (mapInstanceRef st) (markersRef st) (polylinesRef st) None
                      (proximityActiveRef st) (currentPolylineRef st) (nextId st)).

(** Lines 93-96: the session is reset and the arrays are emptied after the
    last removal, so a removal that throws leaves them as they were. *)
Definition forgetPrimitives : Try unit :=
  modify (fun st => mkState (mapInstanceRef st) [] [] (tooltipRef st) false None (nextId st)).

Definition clearMapTry : Try unit :=
  st ← getState;
  forEachTry (fun k marker => removeTry (RemoveMarker k) (markerId marker)) (markersRef st);;
  forEachTry (fun k polyline => removeTry (RemovePolyline k) (polylineId polyline))
    (polylinesRef st);;
  match tooltipRef st with
  | Some tooltip => removeTry RemoveTooltip (tooltipId tooltip);; forgetTooltip
  | None => mret tt
  end;;
  forgetPrimitives.

(** ** Drawing one interval (lines 170-482) *)

Definition drawIntervalTry (csvResults : option CSVIntervalResult) (shown : list Interval)
  (k : nat) (interval : Interval) : Try unit :=
  if decide (1 < length (coordinatePoints interval))%nat then
    let coords := intervalCoordinates interval in
    if decide (1 < length coords)%nat then
      match head coords, last coords with
      | Some startPoint, Some endPoint =>
          call (NewPolyline k);;
          startId ← addTo (AddStartMarker k);
          endId ← addTo (AddEndMarker k);
          pushMarkers [startMarkerOf startId interval startPoint;
                       endMarkerOf endId interval endPoint];;
          call (OnPolyline k);;
          polylineId ← addTo (AddPolyline k);
          pushPolyline (polylineOf polylineId (mkEnv csvResults shown k) interval coords)
      | _, _ => mret tt
      end
    else mret tt
  else mret tt.

(** ** One final marker (lines 485-543) *)

Definition addFinalMarkerTry (n : nat) (entry : option Z * Interval) : Try unit :=
  match last (coordinatePoints entry.2) with
  | Some lastPoint =>
      match truthyPoint lastPoint with
      | Some c =>
          call (NewFinalMarker n);;
          call (OnFinalMarker n);;
          id ← addTo (AddFinalMarker n);
          pushMarkers [mkMarker id c entry.1 (FinalMarker entry.1 (truthyTime (endTime entry.2)))]
      | None => mret tt
      end
  | None => mret tt
  end.

(** ** [showSelectedJourneys] (lines 126-555) *)

(** Lines 132-550, the body of the [try]. *)
Definition rebuild (csvResults : option CSVIntervalResult) (journeysToShow : gset Z)
  : Try unit :=
  clearMapTry;;
  let allIntervals := extractIntervalsFromResults csvResults in
  if decide (length allIntervals = 0%nat) then mret tt
  else
    let shown := intervalsToShow journeysToShow allIntervals in
    let lastIntervals := lastIntervalsByJourney csvResults shown in
    forEachTry (drawIntervalTry csvResults shown) shown;;
    forEachTry addFinalMarkerTry lastIntervals;;
    marked ← getState;
    if decide (0 < length shown /\ 0 < length (polylinesRef marked))%nat
    then call FitBounds;; modify (onMap (fitBounds (boundsOf (polylinesRef marked))))
    else mret tt.

(** The function returns normally whatever a call of Leaflet throws: the
    [catch] of lines 551-553 logs and returns.  The calls of Leaflet are
    the only ones taken to throw; [getJourneyColor] (line 172) and the
    reads of the data are total in the model.  A call [addTo] that
    throws adds no layer. *)
Definition showSelectedJourneysTry (csvResults : option CSVIntervalResult)
  (journeysToShow : gset Z) (st : ViewerState) : ViewerState :=
  match mapInstanceRef st with
  | None => st
  | Some _ => (catch (rebuild csvResults journeysToShow) (fun _ => mret tt) st).1
  end.

End Fallible.

(** Two oracles: no call throws; exactly one call throws. *)
Definition neverThrows : LeafletCall -> bool := fun _ => false.

Definition throwsAt (c : LeafletCall) : LeafletCall -> bool := fun c' => bool_decide (c' = c).

(** ** The laws of the monad *)

Section TryLaws.
Context {A B C : Type}.
Implicit Types (st : ViewerState) (m : Try A) (f : A -> Try B) (g : B -> Try C).

Lemma Try_left_id (a : A) f st : (mret a ≫= f) st = f a st.
Proof. reflexivity. Qed.

Lemma Try_right_id m st : (m ≫= mret) st = m st.
Proof. unfold mbind, Try_bind. now destruct (m st) as [st' [a|c]]. Qed.

Lemma Try_assoc m f g st : ((m ≫= f) ≫= g) st = (m ≫= (fun a => f a ≫= g)) st.
Proof. unfold mbind, Try_bind. now destruct (m st) as [st' [a|c]]. Qed.

(** After an exception nothing runs. *)
Lemma Try_bind_thrown m f st st' c : m st = (st', Thrown c) -> (m ≫= f) st = (st', Thrown c).
Proof. unfold mbind, Try_bind. now intros ->. Qed.

Lemma Try_bind_returned m f st st' a : m st = (st', Returned a) -> (m ≫= f) st = f a st'.
Proof. unfold mbind, Try_bind. now intros ->. Qed.

End TryLaws.

(** ** Runs *)

Section Runs.
Context (throws : LeafletCall -> bool).
Implicit Types (st : ViewerState) (csv : option CSVIntervalResult) (shown : list Interval)
  (interval : Interval) (k : nat).

(** No call made for the intervals before [k] throws. *)
Definition quietBefore (k : nat) : Prop :=
  forall j c, (j < k)%nat -> c ∈ drawCalls j -> throws c = false.

(** No removal throws. *)
Definition quietClear : Prop := forall c, isRemoval c = true -> throws c = false.

Lemma drawIntervalTry_quiet csv shown k interval st :
  (forall c, c ∈ drawCalls k -> throws c = false) ->
  drawIntervalTry throws csv shown k interval st =
  (drawInterval csv shown st k interval, Returned tt).
Proof.
  intros Hq. unfold drawIntervalTry, drawInterval.
  destruct (decide _); [|reflexivity]. destruct (decide _); [|reflexivity].
  destruct (head _); [|reflexivity]. destruct (last _); [|reflexivity].
  unfold mbind, Try_bind, call, addTo. simpl.
  rewrite !Hq by (unfold drawCalls; set_solver). reflexivity.
Qed.

Lemma forEachTryFrom_app {A} (f : nat -> A -> Try unit) k (l1 l2 : list A) st :
  forEachTryFrom f k (l1 ++ l2) st =
  (forEachTryFrom f k l1;; forEachTryFrom f (k + length l1) l2) st.
Proof.
  revert k st. induction l1 as [|x l1 IH]; intros k st; simpl.
  - now rewrite Nat.add_0_r.
  - rewrite Try_assoc. destruct (f k x st) as [st' [[]|c]] eqn:Hf.
    + rewrite !(Try_bind_returned _ _ _ _ _ Hf), IH.
      now replace (S k + length l1)%nat with (k + S (length l1))%nat by lia.
    + now rewrite !(Try_bind_thrown _ _ _ _ _ Hf).
Qed.

(** *** [clearMap] *)

Lemma onMap_absent (f : LeafletMap -> LeafletMap) st : mapInstanceRef st = None -> onMap f st = st.
Proof. destruct st. simpl. now intros ->. Qed.

Lemma removeTry_quiet c (id : nat) st :
  throws c = false -> removeTry throws c id st = (onMap (removeLayer id) st, Returned tt).
Proof.
  intros Hc. unfold removeTry. destruct (mapInstanceRef st) eqn:Hm.
  - unfold mbind, Try_bind, call. now rewrite Hc.
  - now rewrite onMap_absent.
Qed.

Lemma removeTry_thrown c (id : nat) st :
  is_Some (mapInstanceRef st) -> throws c = true -> removeTry throws c id st = (st, Thrown c).
Proof.
  intros [m Hm] Hc. unfold removeTry. rewrite Hm. unfold mbind, Try_bind, call. now rewrite Hc.
Qed.

(** The loops of lines 78-87 while no removal throws, and up to one that
    does. *)
Lemma forEachTryFrom_remove_quiet {X} (mk : nat -> LeafletCall) (idOf : X -> nat)
    (l : list X) k st :
  (forall j, (k <= j < k + length l)%nat -> throws (mk j) = false) ->
  forEachTryFrom (fun j x => removeTry throws (mk j) (idOf x)) k l st =
  (foldl (fun s x => onMap (removeLayer (idOf x)) s) st l, Returned tt).
Proof.
  revert k st. induction l as [|x l IH]; intros k st Hq; [reflexivity|].
  simpl. erewrite Try_bind_returned by (apply removeTry_quiet, Hq; simpl; lia).
  apply IH. intros j Hj. apply Hq. simpl. lia.
Qed.

Lemma foldl_remove_map_Some {X} (idOf : X -> nat) (l : list X) st :
  is_Some (mapInstanceRef st) ->
  is_Some (mapInstanceRef (foldl (fun s x => onMap (removeLayer (idOf x)) s) st l)).
Proof.
  intros Hm. apply foldl_invariant; [exact Hm|]. intros s x [m Hs]. simpl. rewrite Hs.
  simpl. eauto.
Qed.

Lemma forEachTryFrom_remove_thrown {X} (mk : nat -> LeafletCall) (idOf : X -> nat)
    (l : list X) (i : nat) (x : X) st :
  is_Some (mapInstanceRef st) -> l !! i = Some x ->
  (forall j, (j < i)%nat -> throws (mk j) = false) -> throws (mk i) = true ->
  forEachTryFrom (fun j x => removeTry throws (mk j) (idOf x)) 0 l st =
  (foldl (fun s x => onMap (removeLayer (idOf x)) s) st (take i l), Thrown (mk i)).
Proof.
  intros Hm Hi Hq Hthrow. rewrite <- (take_drop_middle l i x Hi) at 1.
  rewrite forEachTryFrom_app.
  erewrite Try_bind_returned
    by (apply forEachTryFrom_remove_quiet; intros j Hj; apply Hq; rewrite length_take in Hj; lia).
  simpl. rewrite length_take_le by (apply lookup_lt_Some in Hi; lia).
  apply Try_bind_thrown, removeTry_thrown; [now apply foldl_remove_map_Some | exact Hthrow].
Qed.

(** While no removal throws [clearMapTry] is [RenderSet.clearMap]. *)
Lemma clearMapTry_quiet st : quietClear -> clearMapTry throws st = (clearMap st, Returned tt).
Proof.
  intros Hq. unfold clearMapTry, forEachTry, clearMap.
  erewrite Try_bind_returned by reflexivity.
  erewrite Try_bind_returned by (apply forEachTryFrom_remove_quiet; intros; now apply Hq).
  erewrite Try_bind_returned by (apply forEachTryFrom_remove_quiet; intros; now apply Hq).
  rewrite !removeLayers_foldl. destruct (tooltipRef st) as [tooltip|] eqn:Ht.
  - erewrite Try_bind_returned
      by (erewrite Try_bind_returned by (apply removeTry_quiet; now apply Hq); reflexivity).
    reflexivity.
  - unfold mbind, Try_bind, mret, Try_ret, forgetPrimitives, modify. simpl. now rewrite Ht.
Qed.

(** A removal that throws ends [clearMap] there: the markers before it
    are off the map, and every ref is as it was. *)
Lemma clearMapTry_marker_thrown st (i : nat) (marker : Marker) :
  is_Some (mapInstanceRef st) -> markersRef st !! i = Some marker ->
  (forall j, (j < i)%nat -> throws (RemoveMarker j) = false) -> throws (RemoveMarker i) = true ->
  clearMapTry throws st =
  (onMap (mapLayers (fun L => L ∖ list_to_set (markerId <$> take i (markersRef st)))) st,
   Thrown (RemoveMarker i)).
Proof.
  intros Hm Hi Hq Hthrow. unfold clearMapTry, forEachTry.
  erewrite Try_bind_returned by reflexivity.
  erewrite Try_bind_thrown; [reflexivity|].
  rewrite (forEachTryFrom_remove_thrown RemoveMarker markerId _ i marker st Hm Hi Hq Hthrow).
  now rewrite removeLayers_foldl.
Qed.

(** While no call throws, the loop is the loop of [RenderSet]. *)
Lemma forEachTryFrom_quiet csv shown (l : list Interval) j st :
  (forall i c, (j <= i < j + length l)%nat -> c ∈ drawCalls i -> throws c = false) ->
  forEachTryFrom (drawIntervalTry throws csv shown) j l st =
  (forEachFrom (drawInterval csv shown) j st l, Returned tt).
Proof.
  revert j st. induction l as [|x l IH]; intros j st Hq; [reflexivity|].
  simpl. erewrite Try_bind_returned by (apply drawIntervalTry_quiet; intros; apply (Hq j); [simpl; lia|auto]).
  apply IH. intros i c Hi. apply Hq. simpl. lia.
Qed.

Lemma addFinalMarkerTry_quiet n entry st :
  (forall c, throws c = false) ->
  addFinalMarkerTry throws n entry st = (addFinalMarker st entry, Returned tt).
Proof.
  intros Hq. destruct entry as [j lastInterval]. unfold addFinalMarkerTry, addFinalMarker. simpl.
  destruct (last _) as [lastPoint|]; [|reflexivity].
  destruct (truthyPoint lastPoint); [|reflexivity].
  unfold mbind, Try_bind, call, addTo. simpl. rewrite !Hq. reflexivity.
Qed.

Lemma forEachTryFrom_final_quiet (l : list (option Z * Interval)) n st :
  (forall c, throws c = false) ->
  forEachTryFrom (addFinalMarkerTry throws) n l st = (foldl addFinalMarker st l, Returned tt).
Proof.
  intros Hq. revert n st. induction l as [|x l IH]; intros n st; [reflexivity|].
  simpl. erewrite Try_bind_returned by now apply addFinalMarkerTry_quiet. apply IH.
Qed.

(** What one iteration leaves when a call of it throws: nothing when the
    polyline cannot be created; the start marker on the map, in no ref,
    when the end marker cannot be added. *)
Lemma drawIntervalTry_polyline_thrown csv shown k interval st :
  renderable interval -> throws (NewPolyline k) = true ->
  drawIntervalTry throws csv shown k interval st = (st, Thrown (NewPolyline k)).
Proof.
  intros Hr Hthrow. unfold drawIntervalTry. unfold renderable in Hr.
  pose proof (intervalCoordinates_length interval) as Hlen.
  rewrite decide_True by lia. rewrite decide_True by exact Hr.
  destruct (intervalCoordinates interval) as [|c0 cs] eqn:Hc; [simpl in Hr; lia|].
  destruct (last (c0 :: cs)) eqn:He; [|apply last_None in He; discriminate].
  simpl. apply Try_bind_thrown. unfold call. now rewrite Hthrow.
Qed.

Lemma drawIntervalTry_end_thrown csv shown k interval st :
  renderable interval ->
  throws (NewPolyline k) = false -> throws (AddStartMarker k) = false ->
  throws (AddEndMarker k) = true ->
  drawIntervalTry throws csv shown k interval st = (stampAndAdd st, Thrown (AddEndMarker k)).
Proof.
  intros Hr Hp Hs He. unfold drawIntervalTry. unfold renderable in Hr.
  pose proof (intervalCoordinates_length interval) as Hlen.
  rewrite decide_True by lia. rewrite decide_True by exact Hr.
  destruct (intervalCoordinates interval) as [|c0 cs] eqn:Hc; [simpl in Hr; lia|].
  destruct (last (c0 :: cs)) eqn:Hl; [|apply last_None in Hl; discriminate].
  simpl. unfold mbind, Try_bind, call, addTo. now rewrite Hp, Hs, He.
Qed.

(** The rebuild up to an exception raised while the k-th interval is
    drawn: the intervals before it are drawn, nothing else is. *)
Lemma rebuild_thrown csv sel st k interval st' c :
  let shown := intervalsToShow sel (extractIntervalsFromResults csv) in
  shown !! k = Some interval ->
  quietClear -> quietBefore k ->
  drawIntervalTry throws csv shown k interval
    (forEach (drawInterval csv shown) (clearMap st) (take k shown)) = (st', Thrown c) ->
  rebuild throws csv sel st = (st', Thrown c).
Proof.
  intros shown Hk Hclear Hq Hthrow. unfold rebuild. fold shown.
  erewrite Try_bind_returned by now apply clearMapTry_quiet.
  destruct (decide (length (extractIntervalsFromResults csv) = 0%nat)) as [Hz|_].
  { apply length_zero_iff_nil in Hz. subst shown. rewrite Hz in Hk. discriminate. }
  apply Try_bind_thrown. unfold forEachTry.
  rewrite <- (take_drop_middle shown k interval Hk) at 2.
  rewrite forEachTryFrom_app. erewrite Try_bind_returned.
  2:{ apply forEachTryFrom_quiet. intros i c0 Hi. apply Hq. rewrite length_take in Hi. lia. }
  simpl. apply Try_bind_thrown.
  rewrite length_take_le by (apply lookup_lt_Some in Hk; lia). exact Hthrow.
Qed.

End Runs.

(** ** A Hoare logic for [Try]

    [hoare P m Q E]: from a state of [P], the computation [m] either
    returns [a] in a state of [Q a], or throws in a state of [E]. *)

Definition hoare {A} (P : ViewerState -> Prop) (m : Try A)
    (Q : A -> ViewerState -> Prop) (E : ViewerState -> Prop) : Prop :=
  forall st, P st ->
    match m st with
    | (st', Returned a) => Q a st'
    | (st', Thrown _) => E st'
    end.

Section Hoare.
Context (throws : LeafletCall -> bool).
Context {A B : Type}.
Implicit Types (P E : ViewerState -> Prop) (Q : A -> ViewerState -> Prop)
  (R : B -> ViewerState -> Prop).

Lemma hoare_ret (a : A) Q E : hoare (Q a) (mret a) Q E.
Proof. intros st HP. exact HP. Qed.

Lemma hoare_bind P (m : Try A) Q (f : A -> Try B) R E :
  hoare P m Q E -> (forall a, hoare (Q a) (f a) R E) -> hoare P (m ≫= f) R E.
Proof.
  intros Hm Hf st HP. specialize (Hm st HP). unfold mbind, Try_bind.
  destruct (m st) as [st' [a|c]]; [now apply Hf | exact Hm].
Qed.

Lemma hoare_consequence P P' (m : Try A) Q Q' E E' :
  hoare P' m Q' E' -> (forall st, P st -> P' st) ->
  (forall a st, Q' a st -> Q a st) -> (forall st, E' st -> E st) -> hoare P m Q E.
Proof.
  intros Hm HP HQ HE st Hst. specialize (Hm st (HP st Hst)).
  destruct (m st) as [st' [a|c]]; auto.
Qed.

Lemma hoare_catch P (m : Try A) Q E (handler : LeafletCall -> Try A) E' :
  hoare P m Q E -> (forall c, hoare E (handler c) Q E') -> hoare P (catch m handler) Q E'.
Proof.
  intros Hm Hh st HP. specialize (Hm st HP). unfold catch.
  destruct (m st) as [st' [a|c]]; [exact Hm | now apply Hh].
Qed.

End Hoare.

Section HoareSteps.
Context (throws : LeafletCall -> bool).
Implicit Types (P E : ViewerState -> Prop).

Lemma hoare_call c P : hoare P (call throws c) (fun _ => P) P.
Proof. intros st HP. unfold call. now destruct (throws c). Qed.

Lemma hoare_modify f P (Q : ViewerState -> Prop) E :
  (forall st, P st -> Q (f st)) -> hoare P (modify f) (fun _ => Q) E.
Proof. intros Hf st HP. now apply Hf. Qed.

Lemma hoare_getState P E : hoare P getState (fun st0 st => st = st0 /\ P st) E.
Proof. intros st HP. simpl. auto. Qed.

Lemma hoare_addTo c P (Q : nat -> ViewerState -> Prop) :
  (forall st, P st -> Q (nextId st) (stampAndAdd st)) -> hoare P (addTo throws c) Q P.
Proof. intros Hq st HP. unfold addTo. destruct (throws c); [exact HP | now apply Hq]. Qed.

Lemma hoare_forEachTryFrom {X} (f : nat -> X -> Try unit) (I : ViewerState -> Prop) k l :
  (forall j x, hoare I (f j x) (fun _ => I) I) -> hoare I (forEachTryFrom f k l) (fun _ => I) I.
Proof.
  intros Hf. revert k. induction l as [|x l IH]; intros k; [apply (hoare_ret tt (fun _ => I))|].
  simpl. eapply hoare_bind; [apply Hf|]. intros []. apply IH.
Qed.

End HoareSteps.

(** ** What holds whatever throws

    Every primitive in a ref is on the map under an identifier of its
    own, and every layer was stamped by the counter.  [Tracked] also asks
    that the map holds nothing else. *)

Record Contained (st : ViewerState) : Prop := mkContained {
  contained_layers (m : LeafletMap) (id : nat) :
    mapInstanceRef st = Some m -> id ∈ trackedIds st -> id ∈ layers m;
  contained_stamped (m : LeafletMap) (id : nat) :
    mapInstanceRef st = Some m -> id ∈ layers m -> (id < nextId st)%nat;
  contained_fresh (id : nat) : id ∈ trackedIds st -> (id < nextId st)%nat;
  contained_nodup : NoDup (trackedIds st);
}.

(** Layers added to the map and not yet recorded. *)
Record Pending (ids : list nat) (st : ViewerState) : Prop := mkPending {
  pending_contained : Contained st;
  pending_nodup : NoDup ids;
  pending_new (id : nat) : id ∈ ids -> id ∉ trackedIds st;
  pending_stamped (id : nat) : id ∈ ids -> (id < nextId st)%nat;
  pending_layers (m : LeafletMap) (id : nat) :
    mapInstanceRef st = Some m -> id ∈ ids -> id ∈ layers m;
}.

Section ContainedFacts.
Implicit Types (st : ViewerState) (ids : list nat).

Lemma Tracked_Contained st : Tracked st -> Contained st.
Proof.
  intros [Hl Hf Hn]. split; auto.
  - intros m id Hm Hid. rewrite (Hl m Hm). now apply elem_of_list_to_set.
  - intros m id Hm Hid. rewrite (Hl m Hm) in Hid. apply Hf. now apply elem_of_list_to_set in Hid.
Qed.

Lemma Contained_Pending st : Contained st -> Pending [] st.
Proof. intros Hc. split; [exact Hc | constructor | | |]; intros; set_solver. Qed.

Lemma stampAndAdd_Pending ids st : Pending ids st -> Pending (ids ++ [nextId st]) (stampAndAdd st).
Proof.
  intros [[Hl Hs Hf Hn] Hnd Hnew Hst Hlay]. split; [split| | | |]; simpl.
  - intros m' id. destruct (mapInstanceRef st) as [m|]; [|discriminate].
    intros [= <-] Hid. simpl. specialize (Hl m id eq_refl Hid). set_solver.
  - intros m' id. destruct (mapInstanceRef st) as [m|]; [|discriminate].
    intros [= <-]. simpl. rewrite elem_of_union, elem_of_singleton.
    intros [->|Hid]; [lia|]. specialize (Hs m id eq_refl Hid). lia.
  - intros id Hid. specialize (Hf id Hid). lia.
  - exact Hn.
  - apply NoDup_app. split_and!; [exact Hnd | | apply NoDup_singleton].
    intros id Hid ->%list_elem_of_singleton. specialize (Hst _ Hid). lia.
  - intros id [Hid| ->%list_elem_of_singleton]%elem_of_app; [now apply Hnew|].
    intros Hin. specialize (Hf _ Hin). lia.
  - intros id [Hid| ->%list_elem_of_singleton]%elem_of_app; [specialize (Hst _ Hid)|]; lia.
  - intros m' id. destruct (mapInstanceRef st) as [m|]; [|discriminate].
    intros [= <-]. simpl. intros [Hid| ->%list_elem_of_singleton]%elem_of_app;
      [specialize (Hlay m id eq_refl Hid)|]; set_solver.
Qed.

(** Recording the pending layers. *)
Lemma Pending_recorded ids st st' :
  Pending ids st ->
  trackedIds st' ≡ₚ ids ++ trackedIds st ->
  mapInstanceRef st' = mapInstanceRef st -> nextId st' = nextId st ->
  Contained st'.
Proof.
  intros [[Hl Hs Hf Hn] Hnd Hnew Hst Hlay] Hperm Hmap Hnext. split.
  - intros m id. rewrite Hmap, Hperm, elem_of_app. intros Hm [Hid|Hid]; eauto.
  - intros m id. rewrite Hmap, Hnext. apply Hs.
  - intros id. rewrite Hperm, Hnext, elem_of_app. intros [Hid|Hid]; auto.
  - rewrite Hperm. apply NoDup_app. split_and!; auto.
Qed.

Lemma clearMap_Contained st : Contained st -> Contained (clearMap st).
Proof.
  intros [Hl Hs Hf Hn]. split.
  - intros m id _ []%elem_of_nil.
  - intros m' id. rewrite clearMap_map. destruct (mapInstanceRef st) as [m|]; [|discriminate].
    intros [= <-]. simpl. intros Hid. apply (Hs m id eq_refl). set_solver.
  - intros id []%elem_of_nil.
  - constructor.
Qed.

Lemma fitBounds_Contained bounds st : Contained st -> Contained (onMap (fitBounds bounds) st).
Proof.
  intros [Hl Hs Hf Hn]. split; auto; intros m' id; simpl;
    (destruct (mapInstanceRef st) as [m|]; [|discriminate]); intros [= <-]; simpl; eauto.
Qed.

End ContainedFacts.

Section ContainedRuns.
Context (throws : LeafletCall -> bool).
Implicit Types (st : ViewerState) (csv : option CSVIntervalResult) (shown : list Interval).

Lemma hoare_addTo_first c :
  hoare Contained (addTo throws c) (fun id => Pending [id]) Contained.
Proof.
  apply hoare_addTo. intros st Hc. apply (stampAndAdd_Pending [] st), Contained_Pending, Hc.
Qed.

Lemma hoare_addTo_next c (id0 : nat) :
  hoare (Pending [id0]) (addTo throws c) (fun id => Pending [id0; id]) Contained.
Proof.
  intros st HP. unfold addTo. destruct (throws c); [exact (pending_contained _ _ HP)|].
  apply (stampAndAdd_Pending [id0] st HP).
Qed.

Lemma hoare_pushMarkers (markers : list Marker) :
  hoare (Pending (markerId <$> markers)) (pushMarkers markers) (fun _ => Contained) Contained.
Proof.
  apply hoare_modify. intros st HP. apply (Pending_recorded _ st _ HP); auto.
  unfold trackedIds. simpl. rewrite fmap_app. solve_Permutation.
Qed.

Lemma hoare_pushPolyline (polyline : Polyline) :
  hoare (Pending [polylineId polyline]) (pushPolyline polyline) (fun _ => Contained) Contained.
Proof.
  apply hoare_modify. intros st HP. apply (Pending_recorded _ st _ HP); auto.
  unfold trackedIds. simpl. rewrite fmap_app. simpl. solve_Permutation.
Qed.

Lemma drawIntervalTry_Contained csv shown k interval :
  hoare Contained (drawIntervalTry throws csv shown k interval) (fun _ => Contained) Contained.
Proof.
  unfold drawIntervalTry.
  destruct (decide _); [|apply (hoare_ret tt (fun _ => Contained))].
  destruct (decide _); [|apply (hoare_ret tt (fun _ => Contained))].
  destruct (head _) as [startPoint|]; [|apply (hoare_ret tt (fun _ => Contained))].
  destruct (last _) as [endPoint|]; [|apply (hoare_ret tt (fun _ => Contained))].
  apply hoare_bind with (Q := fun _ => Contained); [apply hoare_call|]. intros [].
  apply hoare_bind with (Q := fun id => Pending [id]); [apply hoare_addTo_first|].
  intros startId.
  apply hoare_bind with (Q := fun id => Pending [startId; id]); [apply hoare_addTo_next|].
  intros endId.
  apply hoare_bind with (Q := fun _ => Contained);
    [apply (hoare_pushMarkers [startMarkerOf startId _ _; endMarkerOf endId _ _])|]. intros [].
  apply hoare_bind with (Q := fun _ => Contained); [apply hoare_call|]. intros [].
  apply hoare_bind with (Q := fun id => Pending [id]); [apply hoare_addTo_first|].
  intros polylineId. apply (hoare_pushPolyline (polylineOf polylineId _ _ _)).
Qed.

Lemma addFinalMarkerTry_Contained n entry :
  hoare Contained (addFinalMarkerTry throws n entry) (fun _ => Contained) Contained.
Proof.
  unfold addFinalMarkerTry.
  destruct (last _) as [lastPoint|]; [|apply (hoare_ret tt (fun _ => Contained))].
  destruct (truthyPoint lastPoint); [|apply (hoare_ret tt (fun _ => Contained))].
  apply hoare_bind with (Q := fun _ => Contained); [apply hoare_call|]. intros [].
  apply hoare_bind with (Q := fun _ => Contained); [apply hoare_call|]. intros [].
  apply hoare_bind with (Q := fun id => Pending [id]); [apply hoare_addTo_first|].
  intros id. apply (hoare_pushMarkers [mkMarker id _ _ _]).
Qed.

Lemma clearMapTry_Contained :
  quietClear throws -> hoare Contained (clearMapTry throws) (fun _ => Contained) Contained.
Proof. intros Hq st Hc. rewrite clearMapTry_quiet by exact Hq. now apply clearMap_Contained. Qed.

Lemma rebuild_Contained csv sel :
  quietClear throws ->
  hoare Contained (rebuild throws csv sel) (fun _ => Contained) Contained.
Proof.
  intros Hclear. unfold rebuild.
  apply hoare_bind with (Q := fun _ => Contained); [now apply clearMapTry_Contained|]. intros [].
  destruct (decide _); [apply (hoare_ret tt (fun _ => Contained))|].
  apply hoare_bind with (Q := fun _ => Contained);
    [apply hoare_forEachTryFrom, drawIntervalTry_Contained|]. intros [].
  apply hoare_bind with (Q := fun _ => Contained);
    [apply hoare_forEachTryFrom, addFinalMarkerTry_Contained|]. intros [].
  apply hoare_bind with (Q := fun _ => Contained); [intros st Hc; exact Hc|]. intros marked.
  destruct (decide _); [|apply (hoare_ret tt (fun _ => Contained))].
  apply hoare_bind with (Q := fun _ => Contained); [apply hoare_call|]. intros [].
  apply hoare_modify, fitBounds_Contained.
Qed.

End ContainedRuns.

(** ** Theorems *)

Section FallibleTheorems.
Context (throws : LeafletCall -> bool).
Implicit Types (st : ViewerState) (csv : option CSVIntervalResult) (sel : gset Z)
  (interval : Interval) (k : nat).

Lemma catch_quiet csv sel st :
  (forall c, throws c = false) ->
  showSelectedJourneysTry throws csv sel st = showSelectedJourneys csv sel st.
Proof.
  intros Hq. unfold showSelectedJourneysTry, showSelectedJourneys.
  destruct (mapInstanceRef st); [|reflexivity].
  unfold catch, rebuild. erewrite Try_bind_returned by (apply clearMapTry_quiet; intros c _; apply Hq).
  destruct (decide _); [reflexivity|].
  unfold forEachTry. erewrite Try_bind_returned by (apply forEachTryFrom_quiet; auto).
  erewrite Try_bind_returned by (apply forEachTryFrom_final_quiet; auto).
  erewrite Try_bind_returned by reflexivity.
  destruct (decide _); [|reflexivity].
  unfold mbind, Try_bind, call. rewrite Hq. reflexivity.
Qed.

(** C28. When no call of Leaflet throws, the rebuild inside the [try] is
    [RenderSet.showSelectedJourneys]: the model without exceptions is the
    behaviour of the code on the runs without exceptions. *)
Theorem showSelectedJourneysTry_quiet csv sel st :
  (forall c, throws c = false) ->
  showSelectedJourneysTry throws csv sel st = showSelectedJourneys csv sel st.
Proof. apply catch_quiet. Qed.

(** C18. An exception of [L.polyline] for the k-th interval, the first
    call of Leaflet for it, ends the rebuild there and is swallowed: the
    map shows the intervals before the k-th and nothing else, no
    journey-end marker, and the view is not fitted.  (A later call for
    the same interval that throws leaves a layer behind:
    [showSelectedJourneysTry_leak].) *)
Theorem showSelectedJourneysTry_thrown csv sel st k interval :
  let shown := intervalsToShow sel (extractIntervalsFromResults csv) in
  is_Some (mapInstanceRef st) ->
  shown !! k = Some interval -> renderable interval ->
  quietClear throws -> quietBefore throws k -> throws (NewPolyline k) = true ->
  showSelectedJourneysTry throws csv sel st =
  forEach (drawInterval csv shown) (clearMap st) (take k shown).
Proof.
  intros shown [m Hm] Hk Hr Hclear Hq Hthrow. unfold showSelectedJourneysTry, catch. rewrite Hm.
  erewrite (rebuild_thrown throws csv sel st k interval);
    [reflexivity | exact Hk | exact Hclear | exact Hq |].
  now apply drawIntervalTry_polyline_thrown.
Qed.

(** The start marker is added to the map before it is recorded
    (lines 217-224 and 238).  An exception in between, when the end marker
    is added, leaves it on the map in no ref: the rebuild returns with one
    layer more than it tracks, and [clearMap] no longer empties the map. *)
Theorem showSelectedJourneysTry_leak csv sel st k interval :
  let shown := intervalsToShow sel (extractIntervalsFromResults csv) in
  let drawn := forEach (drawInterval csv shown) (clearMap st) (take k shown) in
  Tracked st -> is_Some (mapInstanceRef st) ->
  shown !! k = Some interval -> renderable interval ->
  quietClear throws -> quietBefore throws k ->
  throws (NewPolyline k) = false -> throws (AddStartMarker k) = false ->
  throws (AddEndMarker k) = true ->
  showSelectedJourneysTry throws csv sel st = stampAndAdd drawn /\
  exists m, mapInstanceRef (clearMap (showSelectedJourneysTry throws csv sel st)) = Some m /\
            layers m = {[nextId drawn]}.
Proof.
  intros shown drawn Ht [m Hm] Hk Hr Hclear Hq Hp Hs He.
  assert (Hrun : showSelectedJourneysTry throws csv sel st = stampAndAdd drawn).
  { unfold showSelectedJourneysTry, catch. rewrite Hm.
    erewrite (rebuild_thrown throws csv sel st k interval);
      [reflexivity | exact Hk | exact Hclear | exact Hq |].
    now apply drawIntervalTry_end_thrown. }
  split; [exact Hrun|]. rewrite Hrun, clearMap_map.
  assert (Hd : Tracked drawn).
  { apply forEach_invariant; [now apply clearMap_Tracked|].
    intros; now apply drawInterval_Tracked. }
  assert (Hdm : is_Some (mapInstanceRef drawn)).
  { apply forEach_invariant; [rewrite clearMap_map, Hm; simpl; eauto|].
    intros; now apply drawInterval_map_Some. }
  destruct Hdm as [md Hmd]. simpl. rewrite Hmd. simpl. eexists. split; [reflexivity|].
  simpl. rewrite (tracked_layers _ Hd md Hmd).
  pose proof (tracked_fresh _ Hd (nextId drawn)) as Hfresh.
  assert (nextId drawn ∉ trackedIds drawn) by (intros Hin; specialize (Hfresh Hin); lia).
  unfold trackedIds in *. simpl. set_solver.
Qed.

Lemma catch_clear_thrown csv sel st (i : nat) (marker : Marker) :
  is_Some (mapInstanceRef st) -> markersRef st !! i = Some marker ->
  (forall j, (j < i)%nat -> throws (RemoveMarker j) = false) -> throws (RemoveMarker i) = true ->
  showSelectedJourneysTry throws csv sel st =
  onMap (mapLayers (fun L => L ∖ list_to_set (markerId <$> take i (markersRef st)))) st.
Proof.
  intros Hm Hi Hq Hthrow. unfold showSelectedJourneysTry, catch, rebuild.
  destruct Hm as [m Hm]. rewrite Hm.
  erewrite Try_bind_thrown; [reflexivity|].
  apply (clearMapTry_marker_thrown throws st i marker); eauto.
Qed.

(** C31. The call of [clearMap] (line 132) is inside the [try]: a removal
    that throws ends the rebuild there and the [catch] hides it.  Nothing
    is drawn again; the refs still hold every marker and polyline and the
    Proximity Session is as it was, while the markers before the one that
    threw are no longer on the map. *)
Theorem showSelectedJourneysTry_clear_thrown csv sel st (i : nat) (marker : Marker) :
  is_Some (mapInstanceRef st) -> markersRef st !! i = Some marker ->
  (forall j, (j < i)%nat -> throws (RemoveMarker j) = false) -> throws (RemoveMarker i) = true ->
  showSelectedJourneysTry throws csv sel st =
  onMap (mapLayers (fun L => L ∖ list_to_set (markerId <$> take i (markersRef st)))) st.
Proof. apply catch_clear_thrown. Qed.

(** After a removal other than the first has thrown the refs name a layer
    that is not on the map: the hypothesis on removals in
    [showSelectedJourneysTry_Contained] cannot be dropped. *)
Theorem showSelectedJourneysTry_clear_unsound csv sel st (i : nat) (marker : Marker) :
  is_Some (mapInstanceRef st) -> markersRef st !! S i = Some marker ->
  (forall j, (j < S i)%nat -> throws (RemoveMarker j) = false) ->
  throws (RemoveMarker (S i)) = true ->
  ~ Contained (showSelectedJourneysTry throws csv sel st).
Proof.
  intros Hm Hi Hq Hthrow [Hl _ _ _]. revert Hl.
  rewrite (catch_clear_thrown csv sel st (S i) marker Hm Hi Hq Hthrow).
  destruct Hm as [m Hm]. destruct (markersRef st) as [|first rest] eqn:Hms; [discriminate|].
  intros Hl. specialize (Hl _ (markerId first) ltac:(simpl; rewrite Hm; reflexivity)).
  unfold trackedIds in Hl. simpl in Hl. rewrite Hms in Hl. simpl in Hl. set_solver.
Qed.

(** C29. Whatever calls of Leaflet throw while the primitives are
    created, the state the rebuild leaves is sound for what follows: every
    marker and polyline in a ref is on the map, under an identifier of its
    own, and every layer of the map was stamped by the counter.  The
    removals of [clearMap] are the exception: they must not throw. *)
Theorem showSelectedJourneysTry_Contained csv sel st :
  quietClear throws -> Contained st -> Contained (showSelectedJourneysTry throws csv sel st).
Proof.
  intros Hclear Hc. unfold showSelectedJourneysTry. destruct (mapInstanceRef st); [|exact Hc].
  pose proof (hoare_catch _ _ _ _ (fun _ => mret tt) Contained
                (rebuild_Contained throws csv sel Hclear)
                (fun c => hoare_ret tt (fun _ => Contained) Contained) st Hc) as H.
  now destruct (catch _ _ st) as [st' [[]|c]].
Qed.

End FallibleTheorems.

(** ** The sample under exceptions *)

Lemma throwsAt_quietBefore (c : LeafletCall) (k : nat) :
  (forall j, (j < k)%nat -> c ∉ drawCalls j) -> quietBefore (throwsAt c) k.
Proof.
  intros Hc j c' Hj Hin. unfold throwsAt. apply bool_decide_eq_false.
  intros ->. exact (Hc j Hj Hin).
Qed.

Lemma throwsAt_quietClear (c : LeafletCall) : isRemoval c = false -> quietClear (throwsAt c).
Proof.
  intros Hc c' Hr. unfold throwsAt. apply bool_decide_eq_false. intros ->. congruence.
Qed.

Lemma drawCalls_index (c : LeafletCall) (j k : nat) : c ∈ drawCalls k -> c ∈ drawCalls j -> j = k.
Proof. unfold drawCalls. rewrite !elem_of_cons, !elem_of_nil. naive_solver. Qed.

Lemma showSelectedJourneysTry_quiet_witness :
  showSelectedJourneysTry neverThrows sampleResults {[1%Z; 2%Z]} initialState = sampleState.
Proof. apply (showSelectedJourneysTry_quiet neverThrows). reflexivity. Defined.

Lemma showSelectedJourneysTry_thrown_witness :
  showSelectedJourneysTry (throwsAt (NewPolyline 2)) sampleResults {[1%Z; 2%Z]} initialState =
  forEach (drawInterval sampleResults sampleShown) (clearMap initialState) (take 2 sampleShown).
Proof.
  apply (showSelectedJourneysTry_thrown (throwsAt (NewPolyline 2)) sampleResults {[1%Z; 2%Z]}
           initialState 2 (sampleInterval 2 1 [samplePoint 35 (-5); samplePoint 35 (-4)]));
    [simpl; eauto | reflexivity | unfold renderable; simpl; lia
    | now apply throwsAt_quietClear | | reflexivity].
  apply throwsAt_quietBefore. intros j Hj Hin.
  assert (j = 2%nat) by (apply (drawCalls_index (NewPolyline 2)); [set_solver | exact Hin]). lia.
Defined.

Lemma showSelectedJourneysTry_leak_witness :
  showSelectedJourneysTry (throwsAt (AddEndMarker 0)) sampleResults {[1%Z; 2%Z]} initialState =
    stampAndAdd (clearMap initialState) /\
  exists m,
    mapInstanceRef (clearMap (showSelectedJourneysTry (throwsAt (AddEndMarker 0)) sampleResults
                                {[1%Z; 2%Z]} initialState)) = Some m /\
    layers m = {[0%nat]}.
Proof.
  apply (showSelectedJourneysTry_leak (throwsAt (AddEndMarker 0)) sampleResults {[1%Z; 2%Z]}
           initialState 0 (sampleInterval 1 1 [samplePoint 36 (-5); samplePoint 37 (-6)]));
    [apply Tracked_initial | simpl; eauto | reflexivity | unfold renderable; simpl; lia
    | now apply throwsAt_quietClear | intros j c Hj; lia | reflexivity | reflexivity
    | reflexivity].
Defined.

Lemma showSelectedJourneysTry_Contained_witness :
  Contained (showSelectedJourneysTry (throwsAt (AddPolyline 2)) sampleResults {[1%Z; 2%Z]}
               initialState).
Proof.
  apply (showSelectedJourneysTry_Contained (throwsAt (AddPolyline 2)));
    [now apply throwsAt_quietClear | apply Tracked_Contained, Tracked_initial].
Defined.

Lemma throwsAt_quiet_markers (i : nat) :
  forall j, (j < i)%nat -> throwsAt (RemoveMarker i) (RemoveMarker j) = false.
Proof. intros j Hj. unfold throwsAt. apply bool_decide_eq_false. intros [= ->]. lia. Qed.

Lemma showSelectedJourneysTry_clear_thrown_witness :
  showSelectedJourneysTry (throwsAt (RemoveMarker 1)) sampleResults {[1%Z]} sampleState =
  onMap (mapLayers (fun L => L ∖ list_to_set (markerId <$> take 1 (markersRef sampleState))))
    sampleState.
Proof.
  eapply (showSelectedJourneysTry_clear_thrown (throwsAt (RemoveMarker 1)) sampleResults {[1%Z]}
            sampleState 1);
    [simpl; eauto | reflexivity | apply throwsAt_quiet_markers | reflexivity].
Defined.

Lemma showSelectedJourneysTry_clear_unsound_witness :
  ~ Contained (showSelectedJourneysTry (throwsAt (RemoveMarker 1)) sampleResults {[1%Z]}
                 sampleState).
Proof.
  eapply (showSelectedJourneysTry_clear_unsound (throwsAt (RemoveMarker 1)) sampleResults
            {[1%Z]} sampleState 0);
    [simpl; eauto | reflexivity | apply throwsAt_quiet_markers | reflexivity].
Defined.

(** The sample when the last polyline cannot be added: the first path
    with its markers, the two markers of the last path without the path,
    and no journey-end marker. *)
Example sample_polyline_thrown :
  let st := showSelectedJourneysTry (throwsAt (AddPolyline 2)) sampleResults {[1%Z; 2%Z]}
              initialState in
  markerShape <$> markersRef st =
    [ ((36, -5), Some 1%Z, StartMarker); ((37, -6), Some 1%Z, EndMarker);
      ((35, -5), Some 2%Z, StartMarker); ((35, -4), Some 2%Z, EndMarker) ] /\
  length (polylinesRef st) = 1%nat /\
  (fitted <$> mapInstanceRef st) = Some None.
Proof. vm_compute. auto. Qed.
