(* ===== verification/Escape.v ===== *)
(** * Exceptions that leave the component

    [showSelectedJourneys] catches what its body throws.  Two callers of
    [clearMap] do not: the selection effect, when the selection is empty
    (line 633), and [App], through the handle of the component
    ([resetForNewFiles], App.tsx line 94, which is [Fallible.clearMapTry]
    as it stands).  The effect also registers its [mousemove] handler after
    the [try] (line 631).  The file states the effect in the monad of
    [Fallible] and says which exceptions can leave it: what it throws,
    React receives. *)

From Stdlib Require Import QArith.
From stdpp Require Import prelude gmap.
From S2P Require Import Prelude DataModel Surface Extractor Tooltip RenderSet Proximity Fallible.

(** ** The selection effect (lines 564-635) under exceptions *)

Section Escape.
Context (throws : LeafletCall -> bool).

Definition selectionEffectTry (csvResults : option CSVIntervalResult)
  (selectedJourneys : gset Z) : Try unit := fun st =>
  match mapInstanceRef st with
  | Some _ =>
      if decide (0 < size selectedJourneys)%nat
      then (modify (showSelectedJourneysTry throws csvResults selectedJourneys);;
            call throws OnMouseMove;;
            modify (onMap registerMouseMove)) st
      else clearMapTry throws st
  | None => (st, Returned tt)
  end.

End Escape.

(** ** Which calls a computation can throw *)

Definition raises {A} (m : Try A) (C : LeafletCall -> Prop) : Prop :=
  forall st st' c, m st = (st', Thrown c) -> C c.

Section Raises.
Context (throws : LeafletCall -> bool).
Context {A B : Type}.
Implicit Types (C : LeafletCall -> Prop).

Lemma raises_ret (a : A) C : raises (mret a) C.
Proof. intros st st' c [=]. Qed.

Lemma raises_modify f C : raises (modify f) C.
Proof. intros st st' c [=]. Qed.

Lemma raises_getState C : raises getState C.
Proof. intros st st' c [=]. Qed.

Lemma raises_call c0 C : (throws c0 = true -> C c0) -> raises (call throws c0) C.
Proof. intros Hc st st' c. unfold call. destruct (throws c0); intros [= _ <-]. auto. Qed.

Lemma raises_bind (m : Try A) (f : A -> Try B) C :
  raises m C -> (forall a, raises (f a) C) -> raises (m ≫= f) C.
Proof.
  intros Hm Hf st st' c. unfold mbind, Try_bind.
  destruct (m st) as [st1 [a|c1]] eqn:Hrun; [apply Hf | intros [= _ <-]; eauto].
Qed.

Lemma raises_weaken (m : Try A) C C' : raises m C -> (forall c, C c -> C' c) -> raises m C'.
Proof. intros Hm HC st st' c Hrun. eauto. Qed.

End Raises.

Lemma raises_forEachTryFrom {X} (f : nat -> X -> Try unit) C k (l : list X) :
  (forall j x, raises (f j x) C) -> raises (forEachTryFrom f k l) C.
Proof.
  intros Hf. revert k. induction l as [|x l IH]; intros k; simpl; [apply raises_ret|].
  apply raises_bind; [apply Hf | intros []; apply IH].
Qed.

Create HintDb raises.
#[export] Hint Resolve raises_ret raises_modify raises_getState : raises.

Section EscapeFacts.
Context (throws : LeafletCall -> bool).
Implicit Types (st : ViewerState) (csv : option CSVIntervalResult) (sel : gset Z).

(** A removal that throws. *)
Definition thrownRemoval (c : LeafletCall) : Prop := isRemoval c = true /\ throws c = true.

Lemma removeTry_raises c (id : nat) :
  isRemoval c = true -> raises (removeTry throws c id) thrownRemoval.
Proof.
  intros Hc st st' c'. unfold removeTry. destruct (mapInstanceRef st); [|intros [=]].
  intros Hrun. refine (raises_bind _ _ thrownRemoval _ _ _ _ _ Hrun); [|auto with raises].
  apply raises_call. now split.
Qed.

Lemma clearMapTry_raises : raises (clearMapTry throws) thrownRemoval.
Proof.
  unfold clearMapTry. apply raises_bind; [auto with raises|]. intros st0.
  apply raises_bind; [apply raises_forEachTryFrom; intros; now apply removeTry_raises|].
  intros []. apply raises_bind;
    [apply raises_forEachTryFrom; intros; now apply removeTry_raises|].
  intros []. apply raises_bind; [|intros; apply raises_modify].
  destruct (tooltipRef st0); [|auto with raises].
  apply raises_bind; [now apply removeTry_raises | intros; apply raises_modify].
Qed.

Lemma registration_raises csv sel :
  raises (modify (showSelectedJourneysTry throws csv sel);;
          call throws OnMouseMove;; modify (onMap registerMouseMove))
    (fun c => throws c = true /\ c = OnMouseMove).
Proof.
  apply raises_bind; [auto with raises|]. intros [].
  apply raises_bind; [|auto with raises]. now apply raises_call.
Qed.

Lemma selectionEffectTry_raises_aux csv sel :
  raises (selectionEffectTry throws csv sel)
    (fun c => throws c = true /\
              if decide (0 < size sel)%nat then c = OnMouseMove else isRemoval c = true).
Proof.
  intros st st' c. unfold selectionEffectTry.
  destruct (mapInstanceRef st); [|intros [=]]. destruct (decide _).
  - apply registration_raises.
  - intros Hrun. destruct (clearMapTry_raises _ _ _ Hrun). now split.
Qed.

Lemma selectionEffectTry_quiet_aux csv sel st :
  (forall c, throws c = false) ->
  selectionEffectTry throws csv sel st = (selectionEffect csv sel st, Returned tt).
Proof.
  intros Hq. unfold selectionEffectTry, selectionEffect.
  destruct (mapInstanceRef st); [|reflexivity]. destruct (decide _).
  - unfold mbind, Try_bind, modify, call. rewrite Hq, catch_quiet by exact Hq. reflexivity.
  - apply clearMapTry_quiet. intros c _. apply Hq.
Qed.

End EscapeFacts.

(** ** Theorems *)

Section EscapeTheorems.
Context (throws : LeafletCall -> bool).
Implicit Types (st : ViewerState) (csv : option CSVIntervalResult) (sel : gset Z).

(** When no call of Leaflet throws the effect is
    [Proximity.selectionEffect] and returns. *)
Theorem selectionEffectTry_quiet csv sel st :
  (forall c, throws c = false) ->
  selectionEffectTry throws csv sel st = (selectionEffect csv sel st, Returned tt).
Proof. apply selectionEffectTry_quiet_aux. Qed.

(** C30. What leaves the selection effect.  With a selection, no failure
    to create or add a primitive does: only the registration of the
    [mousemove] handler, which is after the [try], can.  With an empty
    selection the effect calls [clearMap] outside any [try], and a removal
    that throws leaves it. *)
Theorem selectionEffectTry_escapes csv sel st st' c :
  selectionEffectTry throws csv sel st = (st', Thrown c) ->
  throws c = true /\
  if decide (0 < size sel)%nat then c = OnMouseMove else isRemoval c = true.
Proof. apply selectionEffectTry_raises_aux. Qed.

(** The exception of the removal of the i-th marker does leave the
    effect when the selection is empty: the effect stops there, with the
    refs as they were and the Proximity Session not reset. *)
Theorem selectionEffectTry_clear_escapes csv st (i : nat) (marker : Marker) :
  is_Some (mapInstanceRef st) -> markersRef st !! i = Some marker ->
  (forall j, (j < i)%nat -> throws (RemoveMarker j) = false) -> throws (RemoveMarker i) = true ->
  selectionEffectTry throws csv ∅ st =
  (onMap (mapLayers (fun L => L ∖ list_to_set (markerId <$> take i (markersRef st)))) st,
   Thrown (RemoveMarker i)).
Proof.
  intros Hm Hi Hq Hthrow. unfold selectionEffectTry. destruct Hm as [m Hm]. rewrite Hm.
  rewrite decide_False by (rewrite size_empty; lia).
  apply (clearMapTry_marker_thrown throws st i marker); eauto.
Qed.

End EscapeTheorems.

(** ** The sample *)

Lemma selectionEffectTry_quiet_witness :
  selectionEffectTry neverThrows sampleResults {[1%Z]} sampleState =
  (selectionEffect sampleResults {[1%Z]} sampleState, Returned tt).
Proof. apply (selectionEffectTry_quiet neverThrows). reflexivity. Defined.

Lemma selectionEffectTry_clear_escapes_witness :
  selectionEffectTry (throwsAt (RemoveMarker 1)) sampleResults ∅ sampleState =
  (onMap (mapLayers (fun L => L ∖ list_to_set (markerId <$> take 1 (markersRef sampleState))))
     sampleState, Thrown (RemoveMarker 1)).
Proof.
  eapply (selectionEffectTry_clear_escapes (throwsAt (RemoveMarker 1)) sampleResults
            sampleState 1);
    [simpl; eauto | reflexivity | apply throwsAt_quiet_markers | reflexivity].
Defined.

Lemma selectionEffectTry_escapes_witness :
  throwsAt OnMouseMove OnMouseMove = true /\
  if decide (0 < size ({[1%Z]} : gset Z))%nat then OnMouseMove = OnMouseMove
  else isRemoval OnMouseMove = true.
Proof.
  eapply (selectionEffectTry_escapes (throwsAt OnMouseMove) sampleResults {[1%Z]} sampleState).
  vm_compute. reflexivity.
Defined.

(** The sample when the handler cannot be registered: the paths are drawn
    and the exception leaves the effect. *)
Example sample_registration_thrown :
  let run := selectionEffectTry (throwsAt OnMouseMove) sampleResults {[1%Z]} sampleState in
  run.2 = Thrown OnMouseMove /\
  run.1 = showSelectedJourneys sampleResults {[1%Z]} sampleState.
Proof. vm_compute. auto. Qed.
