(* ===== verification/Uploader.v ===== *)
(** * File uploader

    The logic of [FileUploader.tsx]: [processFiles] (lines 49-61) keeps the
    CSV files among the files picked or dropped, leaves out those already
    in the list and appends the rest; [removeFile] (95-98) removes the file
    at an index; the drag handlers (68-93) count the drag events to decide
    whether the drop zone is highlighted.

    The component holds no file list of its own: [files] is a prop and
    every change goes through [onFilesChange], so the functions here return
    the list passed to it.  A state setter called with a function
    ([setDragCounter(prev => prev + 1)]) acts on the current state, while
    the test [dragCounter === 0] reads the value the handler captured at the
    last render, the argument [seen].  [DropZone] is the drag state with
    that captured value, and a render is an event of its own
    ([Rendered]): the browser may raise two drag events before React
    renders.  Strings are ASCII. *)

From Stdlib Require Import Ascii String ZArith QArith.
From stdpp Require Import prelude strings.
From S2P Require Import Prelude Duration.

#[local] Open Scope nat_scope.

(** ** Files *)

(** The fields of a [File] the component reads. *)
Record File : Type := mkFile {
  file_name : string;
  file_size : N;
  file_type : string;
}.

#[export] Instance File_eq_dec : EqDecision File.
Proof. solve_decision. Defined.

(** ** [file.name.toLowerCase().endsWith(".csv") || file.type === "text/csv"] *)

Definition toLowerChar (c : ascii) : ascii :=
  let n := nat_of_ascii c in
  if ((65 <=? n) && (n <=? 90))%nat then ascii_of_nat (n + 32) else c.

Definition toLowerCase (s : list ascii) : list ascii := toLowerChar <$> s.

Definition endsWith (suffix s : list ascii) : bool := isPrefix (rev suffix) (rev s).

Definition isCsv (file : File) : bool :=
  endsWith (lit ".csv") (toLowerCase (list_ascii_of_string (file_name file)))
  || bool_decide (file_type file = "text/csv"%string).

(** ** [processFiles] (lines 49-61) *)

(** [existingFile.name === newFile.name && existingFile.size === newFile.size] *)
Definition sameFile (newFile existingFile : File) : bool :=
  bool_decide (file_name existingFile = file_name newFile)
  && bool_decide (file_size existingFile = file_size newFile).

Definition processFiles (files selectedFiles : list File) : list File :=
  let csvFiles := filter (fun file => isCsv file = true) selectedFiles in
  let newFiles :=
    filter (fun newFile => existsb (sameFile newFile) files = false) csvFiles in
  files ++ newFiles.

(** [handleFileChange] (42-47): [Array.from(event.target.files || [])]. *)
Definition handleFileChange (files : list File) (picked : option (list File)) : list File :=
  processFiles files (default [] picked).

(** ** [removeFile] (lines 95-98) *)

Definition removeFile (files : list File) (indexToRemove : nat) : list File :=
  (imap (fun index file => if decide (index = indexToRemove) then None else Some file) files)
    ≫= option_list.

(** ** The drag state (lines 16-17, 68-93) *)

Record DragState : Type := mkDrag {
  isDragOver : bool;
  dragCounter : Z;
}.

Definition initialDrag : DragState := mkDrag false 0.

Definition handleDragEnter (seen : Z) (s : DragState) : DragState :=
  mkDrag (if decide (seen = 0%Z) then true else isDragOver s) (dragCounter s + 1).

Definition handleDragLeave (seen : Z) (s : DragState) : DragState :=
  mkDrag (if decide (seen = 1%Z) then false else isDragOver s) (dragCounter s - 1).

(** [handleDrop]: the state is reset and the files dropped are processed. *)
Definition handleDrop (files droppedFiles : list File) (s : DragState)
  : DragState * list File :=
  (mkDrag false 0, processFiles files droppedFiles).

(** The events of the drop zone, each handled after the render of the one
    before, so that the handler sees the current counter. *)
Inductive DragEvent : Type :=
| DragEnter
| DragLeave
| Drop.

Definition dragStep (s : DragState) (e : DragEvent) : DragState :=
  match e with
  | DragEnter => handleDragEnter (dragCounter s) s
  | DragLeave => handleDragLeave (dragCounter s) s
  | Drop => (handleDrop [] [] s).1
  end.

(** *** The drop zone between renders *)

(** The state React holds, and the [dragCounter] the handlers of the last
    render captured. *)
Record DropZone : Type := mkZone {
  zone : DragState;
  seen : Z;
}.

(** The browser raises a drag event on the zone; React renders the
    component, and the handlers of the new render see the counter. *)
Inductive ZoneEvent : Type :=
| Fired (e : DragEvent)
| Rendered.

Definition initialZone : DropZone := mkZone initialDrag 0.

Definition zoneStep (z : DropZone) (ev : ZoneEvent) : DropZone :=
  match ev with
  | Fired DragEnter => mkZone (handleDragEnter (seen z) (zone z)) (seen z)
  | Fired DragLeave => mkZone (handleDragLeave (seen z) (zone z)) (seen z)
  | Fired Drop => mkZone (handleDrop [] [] (zone z)).1 (seen z)
  | Rendered => mkZone (zone z) (dragCounter (zone z))
  end.

Definition zoneRun (evs : list ZoneEvent) : DropZone := foldl zoneStep initialZone evs.

(** Every event is rendered before the next. *)
Definition prompt (es : list DragEvent) : list ZoneEvent := es ≫= fun e => [Fired e; Rendered].

(** The handlers see the current counter. *)
Definition Fresh (z : DropZone) : Prop := seen z = dragCounter (zone z).

(** The events since the last drop: enters less leaves. *)
Definition balance (evs : list ZoneEvent) : Z :=
  foldl (fun n ev =>
           match ev with
           | Fired DragEnter => n + 1
           | Fired DragLeave => n - 1
           | Fired Drop => 0
           | Rendered => n
           end%Z) 0%Z evs.

(** ** What the component shows (lines 100-261) *)

(** The two texts of the drop zone (line 165): "Arrastra archivos CSV
    aqui" and "Suelta los archivos aqui". *)
Inductive DropText : Type :=
| DragFilesHere
| DropFilesHere.

(** The two labels of the button (lines 241-251): "Procesando..." and
    "Procesar Datos". *)
Inductive ProcessLabel : Type :=
| Processing
| ProcessData.

(** One row of the list (lines 199-224): the React key
    [`${file.name}-${index}`] as the pair it is built from, the name, and
    [(file.size / 1024).toFixed(1)] in tenths of a kilobyte.  Its button
    removes the file at [rowIndex]. *)
Record FileRow : Type := mkFileRow {
  rowKey : string * nat;
  rowName : string;
  rowTenthsOfKB : Z;
  rowIndex : nat;
}.

Definition fileRow (index : nat) (file : File) : FileRow :=
  mkFileRow (file_name file, index) (file_name file)
    (toFixed 1 (inject_Z (Z.of_N (file_size file)) / 1024)%Q) index.

(** The area of lines 189-228, shown when the list is not empty: the count
    with its plural mark (line 194) and the rows. *)
Record FileArea : Type := mkFileArea {
  shownCount : nat;
  plural : bool;
  rows : list FileRow;
}.

Record UploaderView : Type := mkUploaderView {
  dropZoneActive : bool;          (* the classes of lines 129-133 and 152-160 *)
  dropText : DropText;            (* line 165 *)
  dropOverlay : bool;             (* lines 174-185 *)
  fileArea : option FileArea;     (* lines 189-228 *)
  processDisabled : bool;         (* line 234 *)
  processLabel : ProcessLabel;    (* lines 241-251 *)
  processGlow : bool;             (* lines 253-255 *)
}.

Definition uploaderView (files : list File) (isProcessing : bool) (s : DragState)
  : UploaderView :=
  {| dropZoneActive := isDragOver s;
     dropText := if isDragOver s then DropFilesHere else DragFilesHere;
     dropOverlay := isDragOver s;
     fileArea :=
       if decide (0 < length files)
       then Some (mkFileArea (length files) (negb (bool_decide (length files = 1)))
                    (imap fileRow files))
       else None;
     processDisabled := bool_decide (length files = 0) || isProcessing;
     processLabel := if isProcessing then Processing else ProcessData;
     processGlow := bool_decide (0 < length files) && negb isProcessing |}.

(** ** [processFiles] *)

Section UploaderFacts.
Implicit Types (files selectedFiles : list File) (file : File).

Lemma existsb_sameFile file files :
  existsb (sameFile file) files = true <->
  exists existing, existing ∈ files /\ file_name existing = file_name file /\
                   file_size existing = file_size file.
Proof.
  rewrite existsb_exists. unfold sameFile. split.
  - intros (x & Hin & Hx). apply andb_true_iff in Hx as [Hn Hs].
    apply bool_decide_eq_true_1 in Hn, Hs. exists x. split; [now apply list_elem_of_In | auto].
  - intros (x & Hin & Hn & Hs). exists x. split; [now apply list_elem_of_In|].
    now rewrite !bool_decide_eq_true_2.
Qed.

(** What is appended: the CSV files picked that match no file of the list
    by name and size. *)
Lemma processFiles_elem files selectedFiles file :
  file ∈ processFiles files selectedFiles <->
  file ∈ files \/
  (file ∈ selectedFiles /\ isCsv file = true /\
   ~ exists existing, existing ∈ files /\ file_name existing = file_name file /\
                      file_size existing = file_size file).
Proof.
  unfold processFiles. rewrite elem_of_app, !list_elem_of_filter, <- existsb_sameFile.
  rewrite not_true_iff_false. tauto.
Qed.

Lemma processFiles_prefix files selectedFiles : files `prefix_of` processFiles files selectedFiles.
Proof. unfold processFiles. now apply prefix_app_r. Qed.

Lemma processFiles_nil files : processFiles files [] = files.
Proof. unfold processFiles. simpl. apply app_nil_r. Qed.

(** Picking again files that are all in the list changes nothing. *)
Lemma processFiles_known files selectedFiles :
  selectedFiles ⊆ files -> processFiles files selectedFiles = files.
Proof.
  intros Hsub. unfold processFiles.
  match goal with |- _ ++ ?l = _ => assert (E : l = []); [|now rewrite E, app_nil_r] end.
  apply elem_of_nil_inv. intros file Hin.
  apply list_elem_of_filter in Hin as [Hnew Hin]. apply list_elem_of_filter in Hin as [_ Hin].
  apply not_true_iff_false in Hnew. apply Hnew, existsb_sameFile. exists file. auto.
Qed.

(** ** [removeFile] *)

Lemma removeFrom_delete (k : nat) files indexToRemove :
  imap (fun index file => if decide (k + index = indexToRemove) then None else Some file) files
    ≫= option_list
  = if decide (k <= indexToRemove) then delete (indexToRemove - k) files else files.
Proof.
  revert k. induction files as [|file files IH]; intros k; [now destruct (decide _)|].
  cbn [imap]. rewrite (imap_ext _ (fun index file =>
    if decide (S k + index = indexToRemove) then None else Some file))
    by (intros i x _; simpl; repeat case_decide; congruence || lia).
  rewrite bind_cons, IH. repeat case_decide; try lia; simpl; try reflexivity.
  - replace (indexToRemove - k) with 0 by lia. reflexivity.
  - replace (indexToRemove - k) with (S (indexToRemove - S k)) by lia. reflexivity.
Qed.

Lemma removeFile_delete files indexToRemove :
  removeFile files indexToRemove = delete indexToRemove files.
Proof.
  unfold removeFile. rewrite (removeFrom_delete 0), decide_True by lia.
  now rewrite Nat.sub_0_r.
Qed.

Lemma removeFile_length files indexToRemove :
  (indexToRemove < length files)%nat ->
  S (length (removeFile files indexToRemove)) = length files.
Proof.
  intros Hlt. rewrite removeFile_delete, length_delete by (now apply lookup_lt_is_Some_2). lia.
Qed.

(** ** The drag state *)

(** The highlight follows the counter. *)
Definition DragInv (s : DragState) : Prop := isDragOver s = bool_decide (0 < dragCounter s)%Z.

Lemma dragStep_inv s e : DragInv s -> DragInv (dragStep s e).
Proof.
  unfold DragInv. intros Hs. destruct e; simpl; [| |reflexivity].
  - destruct (decide (dragCounter s = 0%Z)) as [Hz|Hz].
    + rewrite Hz. reflexivity.
    + rewrite Hs. apply bool_decide_ext. lia.
  - destruct (decide (dragCounter s = 1%Z)) as [Hz|Hz].
    + rewrite Hz. reflexivity.
    + rewrite Hs. apply bool_decide_ext. lia.
Qed.

(** An event and the render after it, from a state the handlers see. *)
Lemma zoneStep_prompt z e :
  Fresh z ->
  foldl zoneStep z [Fired e; Rendered]
  = mkZone (dragStep (zone z) e) (dragCounter (dragStep (zone z) e)).
Proof. unfold Fresh. intros Hz. destruct z as [s n]. simpl in *. subst n. now destruct e. Qed.

Lemma zoneRun_prompt es :
  zoneRun (prompt es) = mkZone (foldl dragStep initialDrag es)
                          (dragCounter (foldl dragStep initialDrag es)).
Proof.
  unfold zoneRun, prompt. induction es as [|e es IH] using rev_ind; [reflexivity|].
  rewrite bind_app, !foldl_app, IH.
  change ([e] ≫= fun e0 => [Fired e0; Rendered]) with [Fired e; Rendered].
  now rewrite zoneStep_prompt.
Qed.

(** ** The view *)

Lemma fileRow_lookup files (i : nat) row :
  imap fileRow files !! i = Some row <-> exists file, files !! i = Some file /\ row = fileRow i file.
Proof.
  rewrite list_lookup_imap. destruct (files !! i) as [file|]; simpl; split.
  - intros [= <-]. eauto.
  - now intros (f & [= <-] & ->).
  - discriminate.
  - now intros (f & [=] & _).
Qed.

Lemma rowIndex_imap files : rowIndex <$> imap fileRow files = seq 0 (length files).
Proof.
  apply list_eq. intros i. rewrite list_lookup_fmap, list_lookup_imap.
  destruct (files !! i) as [file|] eqn:Hi; simpl.
  - symmetry. apply lookup_seq. split; [reflexivity|]. now apply lookup_lt_Some in Hi.
  - symmetry. apply lookup_seq_ge. now apply lookup_ge_None in Hi.
Qed.

End UploaderFacts.

(** ** Theorems *)

Section UploaderTheorems.
Implicit Types (files selectedFiles : list File) (file : File).

(** C39. [processFiles] returns the list it was given followed by the CSV
    files picked that match no file of that list by name and size, in the
    order they were picked. *)
Theorem processFiles_spec files selectedFiles :
  exists newFiles,
    processFiles files selectedFiles = files ++ newFiles /\
    newFiles `sublist_of` selectedFiles /\
    forall file, file ∈ newFiles <->
      file ∈ selectedFiles /\ isCsv file = true /\
      ~ exists existing, existing ∈ files /\ file_name existing = file_name file /\
                         file_size existing = file_size file.
Proof.
  eexists. split; [reflexivity|]. split.
  - etransitivity; apply sublist_filter.
  - intros file. rewrite !list_elem_of_filter, <- existsb_sameFile, not_true_iff_false. tauto.
Qed.

(** Duplicates are avoided against the list only, not inside what is
    picked: a CSV file picked twice at once, and not in the list, is added
    twice. *)
Theorem processFiles_batch_duplicates files file :
  isCsv file = true -> existsb (sameFile file) files = false ->
  processFiles files [file; file] = files ++ [file; file].
Proof.
  intros Hcsv Hnew. unfold processFiles. f_equal.
  rewrite !filter_cons_True by assumption. reflexivity.
Qed.

(** The states of the drop zone when every event is rendered. *)
Definition dragRun (es : list DragEvent) : DragState := foldl dragStep initialDrag es.

(** C40. Whatever the drag events, when React renders after each of them
    the drop zone is highlighted exactly when the counter is positive, and
    the handlers see the current counter. *)
Theorem prompt_renders_DragInv (es : list DragEvent) :
  isDragOver (zone (zoneRun (prompt es)))
    = bool_decide (0 < dragCounter (zone (zoneRun (prompt es))))%Z /\
  Fresh (zoneRun (prompt es)).
Proof.
  rewrite zoneRun_prompt. split; [|reflexivity]. simpl.
  induction es as [|e es IH] using rev_ind; [reflexivity|].
  rewrite foldl_app. apply dragStep_inv, IH.
Qed.

(** The counter is exact whenever React renders: the setter called with
    a function does not depend on the render. *)
Theorem dragCounter_balance (evs : list ZoneEvent) :
  dragCounter (zone (zoneRun evs)) = balance evs.
Proof.
  unfold zoneRun, balance. induction evs as [|ev evs IH] using rev_ind; [reflexivity|].
  rewrite !foldl_app. simpl. rewrite <- IH. now destruct ev as [[]|].
Qed.

(** Two events handled before a render see the same counter.  Moving
    from the drop zone onto one of its children raises [dragenter] on the
    child and then [dragleave] on the zone.  When both are handled on one
    render, the highlight still follows the counter exactly when the
    counter was neither 0 nor 1: at 1 the highlight goes off with the files
    still over the zone, at 0 it stays on with nothing over it. *)
Theorem enter_leave_one_render (z : DropZone) :
  Fresh z -> DragInv (zone z) ->
  (DragInv (zone (foldl zoneStep z [Fired DragEnter; Fired DragLeave]))
   <-> dragCounter (zone z) <> 0%Z /\ dragCounter (zone z) <> 1%Z).
Proof.
  unfold Fresh, DragInv. destruct z as [[h c] n]. simpl. intros -> ->.
  repeat case_decide; subst; simpl; rewrite ?Z.add_simpl_r;
    repeat case_bool_decide; split; try easy; try lia; intros [? ?]; lia.
Qed.

(** Picking a new CSV file and removing the row it was given brings the
    list back. *)
Theorem pick_then_remove files file :
  isCsv file = true -> existsb (sameFile file) files = false ->
  removeFile (processFiles files [file]) (length files) = files.
Proof.
  intros Hcsv Hnew. unfold processFiles.
  rewrite !filter_cons_True by assumption. simpl.
  rewrite removeFile_delete. induction files as [|f files IH]; [reflexivity|].
  simpl. f_equal. apply IH. simpl in Hnew. now apply orb_false_iff in Hnew as [_ ?].
Qed.

(** The rows of the list keep distinct React keys whatever the
    files are, two equal files picked at once included, and the button
    of the i-th row removes the i-th file. *)
Theorem uploaderView_rows files (isProcessing : bool) (s : DragState) (area : FileArea) :
  fileArea (uploaderView files isProcessing s) = Some area ->
  NoDup (rowKey <$> rows area) /\
  rowName <$> rows area = file_name <$> files /\
  rowIndex <$> rows area = seq 0 (length files) /\
  shownCount area = length files /\ (plural area = false <-> length files = 1).
Proof.
  unfold uploaderView. simpl. destruct (decide _); [|discriminate]. intros [= <-]. simpl.
  split_and!; [| | apply rowIndex_imap | reflexivity |].
  - apply (NoDup_fmap_1 snd). rewrite <- list_fmap_compose.
    rewrite (list_fmap_ext _ rowIndex (imap fileRow files))
      by (intros i row Hrow; apply fileRow_lookup in Hrow as (f & _ & ->); reflexivity).
    rewrite rowIndex_imap. apply NoDup_seq.
  - apply list_eq. intros i. rewrite !list_lookup_fmap, list_lookup_imap.
    now destruct (files !! i).
  - rewrite negb_false_iff, bool_decide_eq_true. reflexivity.
Qed.

(** The button is enabled exactly when there is a file and no processing
    under way: the test of [handleProcessFiles] (App.tsx, line 22) repeats
    the one of the button. *)
Theorem uploaderView_process files (isProcessing : bool) (s : DragState) :
  processDisabled (uploaderView files isProcessing s) = false <->
  files <> [] /\ isProcessing = false.
Proof.
  unfold uploaderView. simpl. rewrite orb_false_iff, bool_decide_eq_false.
  rewrite length_zero_iff_nil. reflexivity.
Qed.

End UploaderTheorems.

Definition reportCsv : File := mkFile "Report.CSV" 2048 EmptyString.

Lemma processFiles_batch_duplicates_witness :
  processFiles [] [reportCsv; reportCsv] = [] ++ [reportCsv; reportCsv].
Proof. apply (processFiles_batch_duplicates [] reportCsv); reflexivity. Defined.

(** The child of the zone is entered from the zone and the two events
    share a render: the highlight is lost. *)
Lemma enter_leave_one_render_witness :
  DragInv (zone (foldl zoneStep (zoneRun (prompt [DragEnter])) [Fired DragEnter; Fired DragLeave]))
  <-> dragCounter (zone (zoneRun (prompt [DragEnter]))) <> 0%Z /\
      dragCounter (zone (zoneRun (prompt [DragEnter]))) <> 1%Z.
Proof. apply (enter_leave_one_render (zoneRun (prompt [DragEnter]))); reflexivity. Defined.

Example highlight_lost :
  zone (zoneRun (prompt [DragEnter] ++ [Fired DragEnter; Fired DragLeave])) = mkDrag false 1.
Proof. reflexivity. Qed.

Example highlight_stuck :
  zone (zoneRun [Fired DragEnter; Fired DragLeave; Rendered]) = mkDrag true 0.
Proof. reflexivity. Qed.

(** The sizes shown: 2048 bytes as 2.0 KB, 1587 bytes as 1.5 KB (1.5498),
    1588 bytes as 1.6 KB (1.5508), 51 bytes as 0.0 KB, 52 bytes as 0.1 KB. *)
Example fileRow_sizes :
  rowTenthsOfKB <$> imap fileRow
    [mkFile "a.csv" 2048 EmptyString; mkFile "b.csv" 1587 EmptyString;
     mkFile "c.csv" 1588 EmptyString; mkFile "d.csv" 51 EmptyString;
     mkFile "e.csv" 52 EmptyString]
  = [20; 15; 16; 0; 1]%Z.
Proof. vm_compute. reflexivity. Qed.

Lemma uploaderView_rows_witness :
  let area := mkFileArea 2 true (imap fileRow [reportCsv; reportCsv]) in
  NoDup (rowKey <$> rows area) /\
  rowName <$> rows area = file_name <$> [reportCsv; reportCsv] /\
  rowIndex <$> rows area = seq 0 (length [reportCsv; reportCsv]) /\
  shownCount area = length [reportCsv; reportCsv] /\
  (plural area = false <-> length [reportCsv; reportCsv] = 1%nat).
Proof.
  apply (uploaderView_rows [reportCsv; reportCsv] false initialDrag). reflexivity.
Defined.

Lemma pick_then_remove_witness :
  removeFile (processFiles [reportCsv] [mkFile "b.csv" 10 EmptyString]) (length [reportCsv])
  = [reportCsv].
Proof. apply (pick_then_remove [reportCsv] (mkFile "b.csv" 10 EmptyString)); reflexivity. Defined.
