(* ===== verification/App.v ===== *)
(** * The application: selection state and the viewer it drives

    [App.tsx] holds the state of the dashboard (the files, whether the
    uploader is shown, the set of selected journeys, the statistics view)
    and mounts [MapViewer] with the parsed results and the selection as
    props.  Its handlers (lines 21-95) are the functions below.  The hook
    [useCSVInterval] is not among the sources: what it returns from
    [processFiles] is an input of [handleProcessFiles], and its state
    [results] is that value; [clearResults] empties it.

    [System] pairs the state of [App] with the state of the viewer.  After
    a handler has run, React renders again and runs the effect of
    [MapViewer] (lines 564-635) when the selection or the results changed.
    Every handler that sets the selection passes a new [Set] object, so the
    effect runs after each of them, whether or not the content changed. *)

From Stdlib Require Import QArith.
From stdpp Require Import prelude gmap strings.
From S2P Require Import Prelude DataModel Surface Extractor Tooltip RenderSet Proximity Uploader.

#[local] Set Warnings "-clear-no-such-hyp".

(** ** State (lines 11-18) *)

Inductive StatsView : Type :=
| SpeedView
| ActivityView
| ComparisonView.

Record AppState : Type := mkApp {
  files : list File;
  showUploader : bool;
  selectedJourneys : gset Z;
  showStats : bool;
  activeStatsView : StatsView;
  results : option CSVIntervalResult;     (* [csvProcessor.results] *)
  isProcessing : bool;                    (* [csvProcessor.isProcessing] *)
}.

Definition initialApp : AppState := mkApp [] true ∅ false SpeedView None false.

Definition setFiles (fs : list File) (s : AppState) : AppState :=
  mkApp fs (showUploader s) (selectedJourneys s) (showStats s) (activeStatsView s)
    (results s) (isProcessing s).

Definition setShowUploader (b : bool) (s : AppState) : AppState :=
  mkApp (files s) b (selectedJourneys s) (showStats s) (activeStatsView s)
    (results s) (isProcessing s).

Definition setSelectedJourneys (sel : gset Z) (s : AppState) : AppState :=
  mkApp (files s) (showUploader s) sel (showStats s) (activeStatsView s)
    (results s) (isProcessing s).

Definition setShowStats (b : bool) (s : AppState) : AppState :=
  mkApp (files s) (showUploader s) (selectedJourneys s) b (activeStatsView s)
    (results s) (isProcessing s).

Definition setActiveStatsView (v : StatsView) (s : AppState) : AppState :=
  mkApp (files s) (showUploader s) (selectedJourneys s) (showStats s) v
    (results s) (isProcessing s).

(** The hook publishes its results. *)
Definition setResults (r : option CSVIntervalResult) (s : AppState) : AppState :=
  mkApp (files s) (showUploader s) (selectedJourneys s) (showStats s) (activeStatsView s)
    r (isProcessing s).

(** ** Handlers *)

(** [handleProcessFiles] (lines 21-36); [result] is what
    [csvProcessor.processFiles(files)] resolves to. *)
Definition handleProcessFiles (result : option CSVIntervalResult) (s : AppState) : AppState :=
  if bool_decide (length (files s) = 0%nat) || isProcessing s then s
  else
    let s' := setResults result s in
    match result with
    | Some r => if success r && bool_decide (is_Some (data r))
                then setShowUploader false s' else s'
    | None => s'
    end.

(** [toggleJourneySelection] (lines 39-49). *)
Definition toggleJourneySelection (journeyIndex : Z) (s : AppState) : AppState :=
  let newSelectedJourneys :=
    if decide (journeyIndex ∈ selectedJourneys s)
    then selectedJourneys s ∖ {[journeyIndex]}
    else {[journeyIndex]} ∪ selectedJourneys s in
  setSelectedJourneys newSelectedJourneys s.

(** [csvProcessor.results?.data?.journeys] *)
Definition journeysOf (r : option CSVIntervalResult) : option (list Journey) :=
  r' ← r; d ← data r'; Some (journeys d).

(** [selectAllJourneys] (lines 52-61). *)
Definition selectAllJourneys (s : AppState) : AppState :=
  match journeysOf (results s) with
  | Some js => setSelectedJourneys (list_to_set (journey_journeyIndex <$> js)) s
  | None => s
  end.

(** [deselectAllJourneys] (lines 64-66). *)
Definition deselectAllJourneys (s : AppState) : AppState := setSelectedJourneys ∅ s.

(** [toggleMultipleJourneys] (lines 69-86). *)
Definition toggleMultipleJourneys (journeyIndices : list Z) (s : AppState) : AppState :=
  let allSelected := forallb (fun index => bool_decide (index ∈ selectedJourneys s)) journeyIndices in
  let newSelectedJourneys :=
    if allSelected
    then foldl (fun sel index => sel ∖ {[index]}) (selectedJourneys s) journeyIndices
    else foldl (fun sel index => {[index]} ∪ sel) (selectedJourneys s) journeyIndices in
  setSelectedJourneys newSelectedJourneys s.

(** The part of [resetForNewFiles] (lines 89-95) that acts on [App]. *)
Definition resetApp (s : AppState) : AppState :=
  setResults None (setSelectedJourneys ∅ (setShowUploader true (setFiles [] s))).

(** ** The application with its viewer *)

Record System : Type := mkSystem {
  app : AppState;
  viewer : ViewerState;
}.

(** The application once the map of its viewer is created, before any
    action: the first values of the state of [App] (App.tsx, lines 11-17)
    with the refs [MapViewer] has after the effect of lines 54-75.  This is
    the page at the end of its mount when Leaflet is on the page already
    ([Lifecycle.mount_with_leaflet]); when Leaflet is imported the page
    starts without a map, at [Lifecycle.mount false], and what this file
    proves from [initialSystem] is proved of that page in [Lifecycle] and
    [Session]. *)
Definition initialSystem : System := mkSystem initialApp initialState.

(** What the user and the hook can do. *)
Inductive Action : Type :=
| FilesPicked (picked : option (list File))      (* the file input changed *)
| FilesDropped (droppedFiles : list File)
| FileRemoved (index : nat)
| ProcessClicked (result : option CSVIntervalResult)
| JourneyToggled (journeyIndex : Z)
| AllSelected
| AllDeselected
| JourneysToggled (journeyIndices : list Z)
| ResetClicked
| StatsShown (visible : bool)
| StatsViewChanged (view : StatsView)
| PointerEvent (e : Event).

(** The events of the map that come from the pointer; the others are
    raised by [App]. *)
Definition pointerEvent (e : Event) : bool :=
  match e with
  | MouseOverPolyline _ _ | MouseOverFinalMarker | MouseMoved _ => true
  | SelectionChanged _ _ | ResetRequested | ShowRequested _ _ => false
  end.

Section System.
Context {surface : MapSurface}.

(** A render after the selection or the results were set: the effect of
    [MapViewer] runs with the new props. *)
Definition render (s : AppState) (v : ViewerState) : System :=
  mkSystem s (selectionEffect (results s) (selectedJourneys s) v).

Definition act (a : Action) (sys : System) : System :=
  let s := app sys in
  let v := viewer sys in
  match a with
  | FilesPicked picked => mkSystem (setFiles (handleFileChange (files s) picked) s) v
  | FilesDropped droppedFiles => mkSystem (setFiles (processFiles (files s) droppedFiles) s) v
  | FileRemoved index => mkSystem (setFiles (removeFile (files s) index) s) v
  | ProcessClicked result =>
      if bool_decide (length (files s) = 0%nat) || isProcessing s then sys
      else render (handleProcessFiles result s) v
  | JourneyToggled journeyIndex => render (toggleJourneySelection journeyIndex s) v
  | AllSelected =>
      match journeysOf (results s) with
      | Some _ => render (selectAllJourneys s) v
      | None => sys
      end
  | AllDeselected => render (deselectAllJourneys s) v
  | JourneysToggled journeyIndices => render (toggleMultipleJourneys journeyIndices s) v
  | ResetClicked => render (resetApp s) (clearMap v)      (* lines 89-95 *)
  | StatsShown visible => mkSystem (setShowStats visible s) v
  | StatsViewChanged view => mkSystem (setActiveStatsView view s) v
  | PointerEvent e => if pointerEvent e then mkSystem s (handle e v) else sys
  end.

Definition runApp (actions : list Action) : System := foldl (fun sys a => act a sys) initialSystem actions.

End System.

(** ** The selection *)

Section SelectionFacts.
Implicit Types (s : AppState) (sel : gset Z).

Lemma foldl_delete sel (l : list Z) :
  foldl (fun sel index => sel ∖ {[index]}) sel l = sel ∖ list_to_set l.
Proof. revert sel. induction l as [|x l IH]; intros sel; simpl; [|rewrite IH]; set_solver. Qed.

Lemma foldl_add sel (l : list Z) :
  foldl (fun sel index => {[index]} ∪ sel) sel l = sel ∪ list_to_set l.
Proof. revert sel. induction l as [|x l IH]; intros sel; simpl; [|rewrite IH]; set_solver. Qed.

Lemma allSelected_subseteq sel (l : list Z) :
  forallb (fun index => bool_decide (index ∈ sel)) l = true <-> list_to_set l ⊆ sel.
Proof.
  rewrite forallb_forall. split.
  - intros H x Hx. apply elem_of_list_to_set in Hx. apply list_elem_of_In in Hx.
    specialize (H x Hx). now apply bool_decide_eq_true in H.
  - intros H x Hx. apply bool_decide_eq_true. apply H, elem_of_list_to_set.
    now apply list_elem_of_In.
Qed.

End SelectionFacts.

(** ** What the pointer leaves alone *)

Section SystemFacts.
Context {surface : MapSurface}.
Implicit Types (s : AppState) (v st : ViewerState) (sys : System) (e : Event).

Lemma handle_disabled e st : ~ enabled st e -> handle e st = st.
Proof.
  destruct e as [csv sel | | csv sel | n latlng | | latlng]; simpl; try (intros []; exact I).
  - intros Hn. destruct (polylinesRef st !! n); [destruct Hn; eauto | reflexivity].
  - intros Hn. now destruct (existsb isFinalMarker (markersRef st)).
Qed.

Lemma handle_Ready e st : Ready st -> Ready (handle e st).
Proof.
  intros Hr. destruct (decide (enabled st e)) as [Hen|Hen].
  - exact (step_inv st e _ (handle_step st e Hen) Hr).
  - now rewrite handle_disabled.
Qed.

Lemma shape_deactivate st : shape (deactivate st) = shape st.
Proof. unfold deactivate, closeTooltip. simpl. now destruct (tooltipRef st). Qed.

Lemma shape_handleGlobalMouseMove latlng st : shape (handleGlobalMouseMove latlng st) = shape st.
Proof.
  destruct (handleGlobalMouseMove_cases latlng st) as [->|[->|(_ & c & p & ->)]];
    [reflexivity | apply shape_deactivate | reflexivity].
Qed.

Lemma shape_finalMarkerMouseOver st : shape (finalMarkerMouseOver st) = shape st.
Proof.
  unfold finalMarkerMouseOver, closeTooltip.
  destruct (tooltipRef st), (mapInstanceRef st); reflexivity.
Qed.

(** A pointer event changes no marker and no path. *)
Lemma shape_handle_pointer e st : pointerEvent e = true -> shape (handle e st) = shape st.
Proof.
  destruct e as [csv sel | | csv sel | n latlng | | latlng]; try discriminate; intros _; simpl.
  - now destruct (polylinesRef st !! n).
  - destruct (existsb _ _); [apply shape_finalMarkerMouseOver | reflexivity].
  - unfold mouseMove. destruct (mapInstanceRef st) as [m|]; [|reflexivity].
    apply (iter_invariant (fun st' => shape st' = shape st)); [reflexivity|].
    intros st' <-. apply shape_handleGlobalMouseMove.
Qed.

(** ** What a render draws *)

(** The primitives the viewer shows for given results and selection. *)
Definition rendered (csvResults : option CSVIntervalResult) (sel : gset Z) :=
  shownShape csvResults (intervalsToShow sel (extractIntervalsFromResults csvResults)).

Lemma rendered_empty (csv : option CSVIntervalResult) : rendered csv ∅ = ([], []).
Proof. unfold rendered. now rewrite intervalsToShow_empty. Qed.

Lemma selectionEffect_shape csv (sel : gset Z) st :
  is_Some (mapInstanceRef st) -> shape (selectionEffect csv sel st) = rendered csv sel.
Proof.
  intros Hm. pose proof (showSelectedJourneys_shape csv sel st Hm) as Hs.
  unfold selectionEffect, rendered. destruct Hm as [m ->].
  destruct (decide (0 < size sel)%nat) as [Hpos|Hz]; [exact Hs|].
  assert (sel = ∅) as -> by (apply leibniz_equiv, size_empty_inv; lia).
  now rewrite intervalsToShow_empty.
Qed.

(** The invariant of the application: the viewer is coherent and shows
    what the current props describe. *)
Definition SystemInv sys : Prop :=
  Ready (viewer sys) /\
  shape (viewer sys) = rendered (results (app sys)) (selectedJourneys (app sys)).

Lemma render_inv s v : Ready v -> SystemInv (render s v).
Proof.
  intros Hr. split; simpl.
  - now apply selectionEffect_Ready.
  - apply selectionEffect_shape, Hr.
Qed.

Lemma act_inv a sys : SystemInv sys -> SystemInv (act a sys).
Proof.
  intros [Hr Hs]. pose proof (conj Hr Hs : SystemInv sys) as Hinv.
  destruct a; simpl; try (now apply render_inv); try (split; assumption).
  - destruct (_ || _); [exact Hinv | now apply render_inv].
  - destruct (journeysOf _); [now apply render_inv | exact Hinv].
  - apply render_inv. now apply clearMap_Ready.
  - destruct (pointerEvent e) eqn:He; [|exact Hinv]. split; simpl.
    + now apply handle_Ready.
    + now rewrite shape_handle_pointer.
Qed.

Lemma runApp_inv actions : SystemInv (runApp actions).
Proof.
  unfold runApp. induction actions as [|a actions IH] using rev_ind.
  - split; [apply (reachable_inv initialState); constructor | reflexivity].
  - rewrite foldl_app. now apply act_inv.
Qed.

End SystemFacts.

(** ** Theorems *)

Section AppTheorems.
Context {surface : MapSurface}.
Implicit Types (s : AppState) (sys : System) (actions : list Action).

(** C2. Whatever the user does (picking and removing files, processing,
    selecting and deselecting journeys, resetting, moving the pointer over
    the map), the markers and paths on the map are those of the current
    results and selection: the paths are, in order, the selected intervals
    with at least two usable coordinates; every layer of the map is one of
    these primitives or the tooltip, and the hover session is coherent. *)
Theorem runApp_rendered actions :
  let sys := runApp actions in
  shape (viewer sys) = rendered (results (app sys)) (selectedJourneys (app sys)) /\
  intervalData <$> polylinesRef (viewer sys) =
    filter renderable
      (intervalsToShow (selectedJourneys (app sys)) (extractIntervalsFromResults (results (app sys)))) /\
  Tracked (viewer sys) /\ SessionInv (viewer sys).
Proof.
  destruct (runApp_inv actions) as [(Ht & Hs & _) Hshape]. split_and!; try assumption.
  apply (f_equal snd) in Hshape. unfold rendered in Hshape. simpl in Hshape.
  rewrite <- drawn_paths with (csv := results (app (runApp actions)))
    (shown := intervalsToShow (selectedJourneys (app (runApp actions)))
                (extractIntervalsFromResults (results (app (runApp actions))))).
  rewrite <- Hshape, <- list_fmap_compose. reflexivity.
Qed.

(** [toggleMultipleJourneys] removes the journeys given when all of
    them are selected (so also when none is given) and adds them all
    otherwise. *)
Theorem toggleMultipleJourneys_spec (journeyIndices : list Z) s :
  selectedJourneys (toggleMultipleJourneys journeyIndices s) =
  if decide (list_to_set journeyIndices ⊆ selectedJourneys s)
  then selectedJourneys s ∖ list_to_set journeyIndices
  else selectedJourneys s ∪ list_to_set journeyIndices.
Proof.
  unfold toggleMultipleJourneys. simpl.
  destruct (forallb _ journeyIndices) eqn:Hall.
  - apply allSelected_subseteq in Hall. rewrite decide_True by exact Hall. apply foldl_delete.
  - rewrite decide_False; [apply foldl_add|].
    intros Hsub. apply allSelected_subseteq in Hsub. congruence.
Qed.

(** Toggling a journey twice gives the selection back. *)
Theorem toggleJourneySelection_twice (journeyIndex : Z) s :
  selectedJourneys (toggleJourneySelection journeyIndex (toggleJourneySelection journeyIndex s))
  = selectedJourneys s.
Proof.
  unfold toggleJourneySelection. simpl.
  destruct (decide (journeyIndex ∈ selectedJourneys s)) as [Hin|Hin].
  - rewrite decide_False by set_solver. apply set_eq. intros x.
    destruct (decide (x = journeyIndex)); set_solver.
  - rewrite decide_True by set_solver. set_solver.
Qed.

(** C23. Toggling a journey twice brings the application back: the
    selection is the one before, and the map shows the same markers and
    paths (under new identifiers, since the map was rebuilt twice). *)
Theorem toggle_twice_restores (journeyIndex : Z) sys :
  SystemInv sys ->
  let sys' := act (JourneyToggled journeyIndex) (act (JourneyToggled journeyIndex) sys) in
  selectedJourneys (app sys') = selectedJourneys (app sys) /\
  results (app sys') = results (app sys) /\
  shape (viewer sys') = shape (viewer sys).
Proof.
  intros [Hr Hshape]. cbv zeta.
  pose proof (toggleJourneySelection_twice journeyIndex (app sys)) as Hsel.
  pose proof (act_inv (JourneyToggled journeyIndex) _
                (act_inv (JourneyToggled journeyIndex) sys (conj Hr Hshape))) as [_ Hs2].
  simpl in *. split_and!; [exact Hsel | reflexivity |].
  rewrite Hs2, Hshape. simpl. now rewrite Hsel.
Qed.

(** [resetForNewFiles] empties the list of files, the selection and
    the results, shows the uploader again and leaves the map without any
    marker, path, tooltip or layer, with the hover session off. *)
Theorem resetForNewFiles_clears sys :
  Ready (viewer sys) ->
  let sys' := act ResetClicked sys in
  files (app sys') = [] /\ showUploader (app sys') = true /\
  selectedJourneys (app sys') = ∅ /\ results (app sys') = None /\
  shape (viewer sys') = ([], []) /\ Inactive (viewer sys') /\
  forall m, mapInstanceRef (viewer sys') = Some m -> layers m = ∅.
Proof.
  intros (Ht & _ & Hm). simpl. split_and!; try reflexivity.
  - rewrite selectionEffect_shape by now apply clearMap_map_Some. reflexivity.
  - apply selectionEffect_Inactive. now apply clearMap_map_Some.
  - unfold selectionEffect. destruct (clearMap_map_Some _ Hm) as [m' Hm']. rewrite Hm'.
    rewrite decide_False by (rewrite size_empty; lia).
    intros m Heq. apply (tracked_layers _ (clearMap_Tracked _ (clearMap_Tracked _ Ht)) m Heq).
Qed.

End AppTheorems.

(** ** A session of the application *)

Definition sampleFile : File := mkFile "journeys.csv" 4096 "text/csv".

Definition sampleActions : list Action :=
  [ FilesPicked (Some [sampleFile]); ProcessClicked sampleResults; AllSelected;
    PointerEvent (MouseOverPolyline 0 (36, -5)); JourneyToggled 2 ].

Lemma resetForNewFiles_clears_witness :
  let sys' := act (surface := manhattanSurface) ResetClicked
                (runApp (surface := manhattanSurface) sampleActions) in
  files (app sys') = [] /\ showUploader (app sys') = true /\
  selectedJourneys (app sys') = ∅ /\ results (app sys') = None /\
  shape (viewer sys') = ([], []) /\ Inactive (viewer sys') /\
  forall m, mapInstanceRef (viewer sys') = Some m -> layers m = ∅.
Proof.
  apply (resetForNewFiles_clears (surface := manhattanSurface)).
  apply (runApp_inv (surface := manhattanSurface) sampleActions).
Defined.

(** The sample session: after the file is processed, every journey
    selected, the first path hovered and journey 2 deselected, the uploader
    is hidden, journey 1 alone is selected, and the map shows the path of
    its first interval with its two markers and the journey-end marker,
    the hover session reset by the rebuild. *)
Theorem sample_session :
  let sys := runApp (surface := manhattanSurface) sampleActions in
  showUploader (app sys) = false /\
  selectedJourneys (app sys) = {[1%Z]} /\
  (fun p => (journeyIndex (intervalData p), intervalNumber (intervalData p)))
    <$> polylinesRef (viewer sys) = [(Some 1%Z, 1%Z)] /\
  (markerShape <$> markersRef (viewer sys)) =
    [ ((36, -5), Some 1%Z, StartMarker); ((37, -6), Some 1%Z, EndMarker);
      ((37, -6), Some 1%Z, FinalMarker (Some 1%Z) (Some 60000%Z)) ] /\
  tooltipRef (viewer sys) = None /\ proximityActiveRef (viewer sys) = false.
Proof. vm_compute. split_and!; reflexivity. Qed.

Lemma toggle_twice_restores_witness :
  let sys := runApp (surface := manhattanSurface) sampleActions in
  let sys' := act (surface := manhattanSurface) (JourneyToggled 2)
                (act (surface := manhattanSurface) (JourneyToggled 2) sys) in
  selectedJourneys (app sys') = selectedJourneys (app sys) /\
  results (app sys') = results (app sys) /\
  shape (viewer sys') = shape (viewer sys).
Proof.
  apply (toggle_twice_restores (surface := manhattanSurface) 2).
  apply (runApp_inv (surface := manhattanSurface) sampleActions).
Defined.
