(* ===== verification/Contract.v ===== *)
(** * The contract of the map engine

    Sections 4.3, 4.4 and 4.6 of the specification describe the engine as
    a machine: a cohort of rendered paths and markers, a Proximity Session
    that is [Inactive] or [Active(focusedPath)], one info panel, the
    viewport framed to the paths after a rebuild, and a pointer-move
    watcher.  [Display] is that state, with no ref, no layer
    and no identifier in it, and [contractStep] its transitions, one for
    each event of [Proximity.Event].

    The cohort of a selection ([App.rendered]) and the content of a panel
    ([Tooltip.generateTooltipContent]) are the functions of the
    component: the contract is about the machine, what is on the map and
    when, and [Extractor], [RenderSet] and [Tooltip] say what these
    functions compute.

    Two sentences of the specification are not what the code does; they
    are the two fields of [Policy].  [codePolicy] is the machine the
    component implements: [display] maps every state of the component to
    a state of the contract, and commutes with every event
    ([component_implements_contract]).  What is proved of the contract
    then holds of the component.  [specPolicy] is the machine of the
    specification as written, and the component is shown to leave it. *)

From Stdlib Require Import QArith.
From stdpp Require Import prelude gmap.
From S2P Require Import Prelude Machine DataModel Surface Extractor Tooltip RenderSet Bounds Proximity App.

(** ** The state of the contract *)

(** A marker and a path as the user sees them. *)
Definition Pin : Type := LatLng * option Z * MarkerKind.
Definition Path : Type := list LatLng * Interval * TooltipEnv.

Definition vertices (path : Path) : list LatLng := path.1.1.

Inductive ProximitySession : Type :=
| InactiveSession
| ActiveSession (focusedPath : Path).

Record InfoPanel : Type := mkPanel {
  panelContent : TooltipContent;
  panelAt : LatLng;
}.

Record Display : Type := mkDisplay {
  pins : list Pin;
  paths : list Path;
  proximity : ProximitySession;
  panel : option InfoPanel;
  framed : option (list LatLng);   (* the positions the viewport was last framed to *)
  watching : bool;                 (* the pointer-move watcher is subscribed *)
}.

(** Where the specification and the code part.  [refocus]: within 500 m
    the focus moves to the path that owns the nearest vertex (section
    4.4).  [unsubscribe]: the watcher is unsubscribed when the selection
    becomes empty (section 4.6). *)
Record Policy : Type := mkPolicy {
  refocus : bool;
  unsubscribe : bool;
}.

Definition codePolicy : Policy := mkPolicy false false.
Definition specPolicy : Policy := mkPolicy true true.

Definition emptyDisplay : Display := mkDisplay [] [] InactiveSession None None false.

Definition isFinalPin (pin : Pin) : bool :=
  match pin.2 with
  | FinalMarker _ _ => true
  | StartMarker | EndMarker => false
  end.

(** ** The transitions *)

Section Contract.
Context {surface : MapSurface}.

(** Section 4.5: the content for a path and a query point. *)
Definition synthesize (path : Path) (queryPoint : LatLng) : TooltipContent :=
  generateTooltipContent path.2 queryPoint path.1.2.

(** [clear()]. *)
Definition clear (d : Display) : Display :=
  mkDisplay [] [] InactiveSession None (framed d) (watching d).

(** The viewport after a rebuild: framed to the rendered paths when there
    is one. *)
Definition frame (rendering : list Path) (before : option (list LatLng))
  : option (list LatLng) :=
  if decide (rendering = []) then before else Some (rendering ≫= vertices).

(** [rebuild(selection)]: the cohort is a function of the data. *)
Definition rebuildSelection (csvResults : option CSVIntervalResult) (selection : gset Z) (d : Display)
  : Display :=
  let cohort := rendered csvResults selection in
  mkDisplay cohort.1 cohort.2 InactiveSession None (frame cohort.2 (framed d)) (watching d).

(** [Inactive -> Active(p)] on hover-enter, with the content at the entry
    point. *)
Definition hoverEnter (path : Path) (queryPoint : LatLng) (d : Display) : Display :=
  mkDisplay (pins d) (paths d) (ActiveSession path)
    (Some (mkPanel (synthesize path queryPoint) queryPoint)) (framed d) (watching d).

(** [Active -> Inactive]: the panel is closed and the focus cleared. *)
Definition leave (d : Display) : Display :=
  mkDisplay (pins d) (paths d) InactiveSession None (framed d) (watching d).

(** The nearest vertex over all rendered paths, the first one on a tie. *)
Definition nearestVertex (queryPoint : LatLng) (rendering : list Path)
  : ExtQ * option (LatLng * Path) :=
  scanMin (Infinity, None)
    (rendering ≫= fun path =>
       (fun vertex => Some (distance queryPoint vertex, Some (vertex, path))) <$> vertices path).

(** A pointer move while [Active]: below 500 m the panel shows the
    content of the owner of the nearest vertex, beyond 800 m the session
    ends, in between nothing changes. *)
Definition pointerMove (policy : Policy) (queryPoint : LatLng) (d : Display) : Display :=
  match proximity d with
  | InactiveSession => d
  | ActiveSession focus =>
      if watching d then
        let nearest := nearestVertex queryPoint (paths d) in
        if extLt nearest.1 500 then
          match nearest.2 with
          | Some (vertex, owner) =>
              mkDisplay (pins d) (paths d)
                (ActiveSession (if refocus policy then owner else focus))
                (Some (mkPanel (synthesize owner vertex) vertex)) (framed d) (watching d)
          | None => d
          end
        else if extGt nearest.1 800 then leave d else d
      else d
  end.

(** A change of the selection: a rebuild with the watcher subscribed, or
    a clear when nothing is selected. *)
Definition selectionChanged (policy : Policy) (csvResults : option CSVIntervalResult)
  (selection : gset Z) (d : Display) : Display :=
  if decide (0 < size selection)%nat
  then
    let cohort := rendered csvResults selection in
    mkDisplay cohort.1 cohort.2 InactiveSession None (frame cohort.2 (framed d)) true
  else
    mkDisplay [] [] InactiveSession None (framed d)
      (if unsubscribe policy then false else watching d).

Definition contractStep (policy : Policy) (d : Display) (e : Event) : Display :=
  match e with
  | SelectionChanged csvResults selection => selectionChanged policy csvResults selection d
  | ResetRequested => clear d
  | ShowRequested csvResults selection => rebuildSelection csvResults selection d
  | MouseOverPolyline n queryPoint =>
      match paths d !! n with
      | Some path => hoverEnter path queryPoint d
      | None => d
      end
  | MouseOverFinalMarker => if existsb isFinalPin (pins d) then leave d else d
  | MouseMoved queryPoint => pointerMove policy queryPoint d
  end.

(** An event comes from a primitive that is rendered. *)
Definition contractAllowed (d : Display) (e : Event) : bool :=
  match e with
  | MouseOverPolyline n _ => bool_decide (is_Some (paths d !! n))
  | MouseOverFinalMarker => existsb isFinalPin (pins d)
  | SelectionChanged _ _ | ResetRequested | ShowRequested _ _ | MouseMoved _ => true
  end.

#[export] Instance contractMachine (policy : Policy) : Machine Display Event := {|
  start := emptyDisplay;
  allowed := contractAllowed;
  advance := contractStep policy;
|}.

End Contract.

(** ** The component as a machine *)

(** [handle] on the events that are enabled: Leaflet delivers an event
    of a layer only while the layer is on the map. *)
#[export] Instance viewerMachine {surface : MapSurface} : Machine ViewerState Event := {|
  start := initialState;
  allowed st e := bool_decide (enabled st e);
  advance st e := handle e st;
|}.

(** ** The component seen as a display *)

Definition panelOf (tooltip : Tooltip) : InfoPanel :=
  mkPanel (tooltipContent tooltip) (tooltipLatLng tooltip).

(** The path in focus: the polyline [currentPolylineRef] names, while
    hover mode is on. *)
Definition sessionOf (st : ViewerState) : ProximitySession :=
  if proximityActiveRef st then
    match currentPolylineRef st with
    | Some id =>
        match list_find (fun polyline => polylineId polyline = id) (polylinesRef st) with
        | Some (_, polyline) => ActiveSession (polylineShape polyline)
        | None => InactiveSession
        end
    | None => InactiveSession
    end
  else InactiveSession.

Definition watchingOf (st : ViewerState) : bool :=
  match handlersOf st with
  | Some (S _) => true
  | _ => false
  end.

Definition display (st : ViewerState) : Display :=
  mkDisplay (markerShape <$> markersRef st) (polylineShape <$> polylinesRef st)
    (sessionOf st) (panelOf <$> tooltipRef st) (fittedOf st) (watchingOf st).

(** ** The machine and the step relation *)

Section ViewerMachine.
Context {surface : MapSurface}.

(** The closure of [step] is the set of states of the machine, and the
    sequences [allEnabled] accepts are its runs. *)
Lemma reachable_reach st : reachable st <-> reach viewerMachine st.
Proof.
  split.
  - induction 1 as [|st e st' _ IH Hstep]; [constructor|].
    apply step_handle_eq in Hstep as [Hen ->].
    apply (reach_advance (M := viewerMachine)); [exact IH | now apply bool_decide_eq_true_2].
  - induction 1 as [|st e _ IH Hen]; [constructor|].
    apply (reachable_step st e); [exact IH|]. apply handle_step.
    exact (bool_decide_eq_true_1 _ Hen).
Qed.

Lemma allEnabled_runs es st :
  allEnabled es st = true <-> runs viewerMachine es st = Some (run es st).
Proof.
  revert st. induction es as [|e es IH]; intros st; simpl; [easy|].
  destruct (bool_decide (enabled st e)); simpl; [apply IH | easy].
Qed.

End ViewerMachine.

(** ** What the display of a state is after each operation *)

Section DisplayFacts.
Context {surface : MapSurface}.
Implicit Types (st : ViewerState) (d : Display) (q : LatLng) (polyline : Polyline).

Lemma watchingOf_handlers st st' : handlersOf st' = handlersOf st -> watchingOf st' = watchingOf st.
Proof. unfold watchingOf. now intros ->. Qed.

(** A state with the session off shows its shape and nothing else. *)
Lemma display_Inactive st :
  Inactive st ->
  display st = mkDisplay (shape st).1 (shape st).2 InactiveSession None (fittedOf st) (watchingOf st).
Proof. intros (Ha & Hc & Ht). unfold display, sessionOf. now rewrite Ha, Ht. Qed.

Lemma Tracked_polyline_ids st : Tracked st -> NoDup (polylineId <$> polylinesRef st).
Proof.
  intros [_ _ Hn]. unfold trackedIds in Hn.
  apply NoDup_app in Hn as (_ & _ & Hn). now apply NoDup_app in Hn as (Hn & _ & _).
Qed.

(** The polyline an identifier names. *)
Lemma list_find_polyline (polylines : list Polyline) (n : nat) polyline :
  NoDup (polylineId <$> polylines) -> polylines !! n = Some polyline ->
  list_find (fun p => polylineId p = polylineId polyline) polylines = Some (n, polyline).
Proof.
  intros Hn Hl. apply list_find_Some. split_and!; [exact Hl | reflexivity|].
  intros j other Hj Hlt Hid.
  assert (j = n); [|lia].
  apply (NoDup_lookup _ j n (polylineId polyline) Hn); rewrite list_lookup_fmap.
  - rewrite Hj. simpl. now rewrite Hid.
  - now rewrite Hl.
Qed.

Lemma sessionOf_focus st (n : nat) polyline :
  Tracked st -> polylinesRef st !! n = Some polyline ->
  proximityActiveRef st = true -> currentPolylineRef st = Some (polylineId polyline) ->
  sessionOf st = ActiveSession (polylineShape polyline).
Proof.
  intros Ht Hl Ha Hc. unfold sessionOf. rewrite Ha, Hc.
  now rewrite (list_find_polyline _ n polyline (Tracked_polyline_ids st Ht) Hl).
Qed.

(** In hover mode some path is in focus. *)
Lemma sessionOf_Active st :
  SessionInv st -> proximityActiveRef st = true ->
  exists polyline, polyline ∈ polylinesRef st /\ sessionOf st = ActiveSession (polylineShape polyline).
Proof.
  intros [Hfocus _ Hcur] Ha. destruct (proj1 Hfocus Ha) as [id Hid].
  pose proof (Hcur _ Hid) as Hin. apply list_elem_of_fmap in Hin as (polyline & -> & Hin).
  destruct (list_find_elem_of (fun p => polylineId p = polylineId polyline) _ polyline Hin eq_refl)
    as [[i found] Hfind].
  exists found. unfold sessionOf. rewrite Ha, Hid, Hfind.
  apply list_find_Some in Hfind as (Hi & _ & _). split; [|reflexivity].
  now apply list_elem_of_lookup_2 in Hi.
Qed.

Lemma display_showTooltip content q st :
  display (showTooltip content q st) =
  mkDisplay (pins (display st)) (paths (display st)) (sessionOf st)
    (Some (mkPanel content q)) (fittedOf st) (watchingOf st).
Proof.
  unfold display, sessionOf, watchingOf, handlersOf, fittedOf. simpl.
  now destruct (mapInstanceRef st).
Qed.

Lemma deactivate_handlers st : handlersOf (deactivate st) = handlersOf st.
Proof.
  unfold handlersOf, deactivate, closeTooltip. simpl.
  destruct (tooltipRef st); simpl; now destruct (mapInstanceRef st).
Qed.

Lemma deactivate_fittedOf st : fittedOf (deactivate st) = fittedOf st.
Proof.
  unfold fittedOf, deactivate, closeTooltip. simpl.
  destruct (tooltipRef st); simpl; now destruct (mapInstanceRef st).
Qed.

Lemma display_deactivate st : display (deactivate st) = leave (display st).
Proof.
  rewrite (display_Inactive _ (deactivate_Inactive st)), shape_deactivate, deactivate_fittedOf.
  now rewrite (watchingOf_handlers _ _ (deactivate_handlers st)).
Qed.

Lemma display_clearMap st : display (clearMap st) = clear (display st).
Proof.
  rewrite display_Inactive by (unfold Inactive; auto).
  rewrite shape_clearMap, clearMap_fittedOf.
  now rewrite (watchingOf_handlers _ _ (clearMap_handlers st)).
Qed.

(** The positions of the polylines are the vertices of their paths. *)
Lemma boundsOf_vertices (polylines : list Polyline) :
  boundsOf polylines = (polylineShape <$> polylines) ≫= vertices.
Proof. unfold boundsOf. now rewrite list_fmap_bind. Qed.

(** The view after a rebuild is the frame of the cohort. *)
Lemma showSelectedJourneys_frame csv sel st :
  is_Some (mapInstanceRef st) ->
  fittedOf (showSelectedJourneys csv sel st) = frame (rendered csv sel).2 (fittedOf st).
Proof.
  intros Hm. pose proof (showSelectedJourneys_fittedOf csv sel st Hm) as Hf. cbv zeta in Hf.
  pose proof (showSelectedJourneys_shape csv sel st Hm) as Hs. fold (rendered csv sel) in Hs.
  unfold frame. rewrite <- Hs, Hf, boundsOf_vertices. unfold shape. simpl.
  destruct (polylinesRef (showSelectedJourneys csv sel st)); now repeat case_decide.
Qed.

Lemma display_showSelectedJourneys csv sel st :
  is_Some (mapInstanceRef st) ->
  display (showSelectedJourneys csv sel st) = rebuildSelection csv sel (display st).
Proof.
  intros Hm. rewrite (display_Inactive _ (showSelectedJourneys_Inactive csv sel st Hm)).
  rewrite (showSelectedJourneys_shape csv sel st Hm), (showSelectedJourneys_frame csv sel st Hm).
  now rewrite (watchingOf_handlers _ _ (showSelectedJourneys_handlers csv sel st)).
Qed.

Lemma display_selectionEffect csv sel st :
  is_Some (mapInstanceRef st) ->
  display (selectionEffect csv sel st) = selectionChanged codePolicy csv sel (display st).
Proof.
  intros Hm. rewrite (display_Inactive _ (selectionEffect_Inactive csv sel st Hm)).
  rewrite (selectionEffect_shape csv sel st Hm). unfold selectionChanged, selectionEffect.
  assert (Hm' : is_Some (mapInstanceRef st)) by exact Hm.
  destruct Hm as [m Hm]. rewrite Hm. destruct (decide _) as [Hpos|Hz].
  - cbv zeta. change (framed (display st)) with (fittedOf st).
    rewrite <- (showSelectedJourneys_frame csv sel st Hm').
    destruct (showSelectedJourneys_map_Some csv sel st Hm') as [m' Hs].
    unfold watchingOf, handlersOf, fittedOf, onMap. simpl. now rewrite Hs.
  - assert (sel = ∅) as -> by (apply leibniz_equiv, size_empty_inv; lia).
    rewrite rendered_empty, clearMap_fittedOf. simpl.
    now rewrite (watchingOf_handlers _ _ (clearMap_handlers st)).
Qed.

Lemma display_polylineMouseOver st (n : nat) polyline q :
  Tracked st -> polylinesRef st !! n = Some polyline ->
  display (polylineMouseOver polyline q st) = hoverEnter (polylineShape polyline) q (display st).
Proof.
  intros Ht Hl. unfold polylineMouseOver. rewrite display_showTooltip.
  rewrite (sessionOf_focus _ n polyline); [reflexivity | | exact Hl | reflexivity..].
  now apply setProximity_Tracked.
Qed.

(** The scan of the watcher is the scan of the contract. *)
Lemma nearestVertex_display q (polylines : list Polyline) :
  nearestVertex q (polylineShape <$> polylines) =
  prod_map id (fmap (prod_map id polylineShape)) (closestVertex q polylines).
Proof.
  unfold nearestVertex, closestVertex.
  rewrite <- (scanMin_fmap (fmap (M := option) (prod_map id polylineShape)) (Infinity, None)).
  simpl. f_equal. unfold vertexCandidates.
  induction polylines as [|polyline polylines IH]; [reflexivity|].
  rewrite fmap_cons, !bind_cons, fmap_app, IH. f_equal.
  unfold vertices. simpl. now rewrite <- list_fmap_compose.
Qed.

(** With no vertex in reach of the scan its distance is [Infinity]. *)
Lemma closestVertex_None q (polylines : list Polyline) :
  (closestVertex q polylines).2 = None -> (closestVertex q polylines).1 = Infinity.
Proof.
  unfold closestVertex.
  destruct (scanMin_spec (Infinity, None) (vertexCandidates q polylines))
    as [_ | i d b Hi _ _ _]; [reflexivity|].
  simpl. intros ->. apply list_elem_of_lookup_2 in Hi. unfold vertexCandidates in Hi.
  apply list_elem_of_bind in Hi as (polyline & Hin & _).
  apply list_elem_of_fmap in Hin as (vertex & [=] & _).
Qed.

End DisplayFacts.

(** ** The component implements the contract *)

Section Refinement.
Context {surface : MapSurface}.
Implicit Types (st : ViewerState) (d : Display) (q : LatLng) (e : Event).

Lemma display_handleGlobalMouseMove q st :
  Ready st -> watchingOf st = true ->
  display (handleGlobalMouseMove q st) = pointerMove codePolicy q (display st).
Proof.
  intros (Ht & Hs & Hm) Hw. unfold handleGlobalMouseMove, pointerMove.
  change (proximity (display st)) with (sessionOf st).
  change (watching (display st)) with (watchingOf st).
  change (paths (display st)) with (polylineShape <$> polylinesRef st).
  change (framed (display st)) with (fittedOf st).
  destruct (proximityActiveRef st) eqn:Ha; simpl;
    [|unfold sessionOf; now rewrite Ha].
  destruct (sessionOf_Active st Hs Ha) as (focus & _ & Hfocus).
  rewrite Hfocus, Hw, nearestVertex_display.
  pose proof (closestVertex_None q (polylinesRef st)) as Hnone.
  destruct (closestVertex q (polylinesRef st)) as [dist [[vertex owner]|]]; simpl in *.
  - destruct (extLt dist 500); [now rewrite display_showTooltip, Hfocus, Hw|].
    destruct (extGt dist 800); [apply display_deactivate | reflexivity].
  - rewrite (Hnone eq_refl). simpl. apply display_deactivate.
Qed.

Lemma display_mouseMove q st :
  Ready st -> display (mouseMove q st) = pointerMove codePolicy q (display st).
Proof.
  intros Hr. destruct (handlersOf st) as [[|n]|] eqn:Hh.
  - assert (Hw : watchingOf st = false) by (unfold watchingOf; now rewrite Hh).
    unfold handlersOf in Hh. unfold mouseMove, pointerMove.
    change (watching (display st)) with (watchingOf st). rewrite Hw.
    destruct (mapInstanceRef st) as [m|]; [|discriminate]. injection Hh as ->.
    now destruct (proximity (display st)).
  - rewrite (mouseMove_single_handler q st n Hh).
    apply display_handleGlobalMouseMove; [exact Hr | unfold watchingOf; now rewrite Hh].
  - destruct Hr as (_ & _ & [m Hm]). unfold handlersOf in Hh. now rewrite Hm in Hh.
Qed.

Lemma existsb_isFinalPin (markers : list Marker) :
  existsb isFinalPin (markerShape <$> markers) = existsb isFinalMarker markers.
Proof.
  induction markers as [|marker markers IH]; [reflexivity|].
  rewrite fmap_cons. cbn [existsb]. now rewrite IH.
Qed.

(** The diagram: an event of the component is the same event of the
    contract on its display. *)
Lemma display_step st e :
  Ready st -> enabled st e -> display (handle e st) = contractStep codePolicy (display st) e.
Proof.
  intros Hr Hen. pose proof Hr as (Ht & Hs & Hm).
  destruct e as [csv sel | | csv sel | n q | | q]; simpl.
  - now apply display_selectionEffect.
  - apply display_clearMap.
  - now apply display_showSelectedJourneys.
  - destruct Hen as [polyline Hl]. rewrite list_lookup_fmap, Hl. simpl.
    now apply (display_polylineMouseOver st n).
  - simpl in Hen. rewrite existsb_isFinalPin, Hen.
    rewrite finalMarkerMouseOver_deactivate by exact Hm. apply display_deactivate.
  - now apply display_mouseMove.
Qed.

Lemma display_allowed st e : enabled st e -> contractAllowed (display st) e = true.
Proof.
  destruct e as [csv sel | | csv sel | n q | | q]; simpl; try reflexivity.
  - intros [polyline Hl]. apply bool_decide_eq_true_2. rewrite list_lookup_fmap, Hl. simpl. eauto.
  - now rewrite existsb_isFinalPin.
Qed.

Lemma reach_Ready st : reach viewerMachine st -> Ready st.
Proof. intros Hs. now apply reachable_inv, reachable_reach. Qed.

Lemma component_projection : Projection viewerMachine (contractMachine codePolicy) display.
Proof.
  split; [reflexivity | |]; intros st e Hs Hen; apply bool_decide_eq_true_1 in Hen.
  - now apply display_allowed.
  - apply (display_step st e); [now apply reach_Ready | exact Hen].
Qed.

End Refinement.

(** ** What the contract guarantees, under either policy *)

(** The viewport frames the rendered paths, when there is one. *)
Definition Framed (rendering : list Path) (view : option (list LatLng)) : Prop :=
  rendering <> [] -> view = Some (rendering ≫= vertices).

(** The path in focus is rendered; the panel is open only in an active
    session and shows the content of a rendered path at the point where
    it stands; the cohort is the one some selection describes and the
    viewport frames its paths. *)
Record DisplayInv {surface : MapSurface} (d : Display) : Prop := mkDisplayInv {
  inv_focus (path : Path) : proximity d = ActiveSession path -> path ∈ paths d;
  inv_panel_active : is_Some (panel d) -> proximity d <> InactiveSession;
  inv_panel_content (p : InfoPanel) :
    panel d = Some p ->
    exists path, path ∈ paths d /\ panelContent p = synthesize path (panelAt p);
  inv_cohort : exists csvResults selection, (pins d, paths d) = rendered csvResults selection;
  inv_framed : Framed (paths d) (framed d);
}.

(** The two policies show the user the same thing: the same cohort, the
    same panel and a session that is active in both or in neither.  The
    watcher may be subscribed in one only while nothing is rendered. *)
Record LookAlike (d d' : Display) : Prop := mkLookAlike {
  alike_pins : pins d = pins d';
  alike_paths : paths d = paths d';
  alike_panel : panel d = panel d';
  alike_framed : framed d = framed d';
  alike_active : proximity d = InactiveSession <-> proximity d' = InactiveSession;
  alike_watching : watching d = watching d' \/ (paths d = [] /\ proximity d = InactiveSession);
}.

(** Where the specification as written and the code part: a pointer
    move of an active session next to a vertex of a path that is not the
    one in focus, where the specification moves the focus; and a selection
    that becomes empty while the watcher is subscribed, where the
    specification unsubscribes it. *)
Inductive Departs {surface : MapSurface} (d : Display) : Event -> Prop :=
| departs_focus queryPoint (focus owner : Path) (vertex : LatLng) (dist : ExtQ) :
    proximity d = ActiveSession focus -> watching d = true ->
    nearestVertex queryPoint (paths d) = (dist, Some (vertex, owner)) ->
    extLt dist 500 = true -> owner <> focus ->
    Departs d (MouseMoved queryPoint)
| departs_watcher csvResults (selection : gset Z) :
    size selection = 0%nat -> watching d = true ->
    Departs d (SelectionChanged csvResults selection).

(** The events [App] can cause: it has the effect of the selection and
    [clearMap] through the ref, and never calls [showSelectedJourneys]
    itself. *)
Definition fromApp (e : Event) : bool :=
  match e with
  | ShowRequested _ _ => false
  | _ => true
  end.

Section ContractFacts.
Context {surface : MapSurface}.
Implicit Types (d : Display) (q : LatLng) (e : Event) (policy : Policy).

Lemma nearestVertex_owner q (rendering : list Path) (vertex : LatLng) (owner : Path) :
  (nearestVertex q rendering).2 = Some (vertex, owner) -> owner ∈ rendering.
Proof.
  unfold nearestVertex.
  match goal with |- context [scanMin ?acc ?cs] =>
    destruct (scanMin_spec acc cs) as [_ | i dist b Hi _ _ _] end; [discriminate|].
  simpl. intros ->. apply list_elem_of_lookup_2, list_elem_of_bind in Hi as (path & Hin & Hpath).
  now apply list_elem_of_fmap in Hin as (v & [= _ _ ->] & _).
Qed.

Lemma Framed_nil view : Framed [] view.
Proof. now intros []. Qed.

Lemma frame_Framed (rendering : list Path) before : Framed rendering (frame rendering before).
Proof. intros Hne. unfold frame. now rewrite decide_False. Qed.

Lemma DisplayInv_quiet (shown : list Pin) (rendering : list Path) view (on : bool) :
  (exists csvResults selection, (shown, rendering) = rendered csvResults selection) ->
  Framed rendering view ->
  DisplayInv (mkDisplay shown rendering InactiveSession None view on).
Proof.
  intros Hc Hv.
  split; simpl; [discriminate | intros [? [=]] | discriminate | exact Hc | exact Hv].
Qed.

(** An empty cohort, and the cohort of a selection framed anew. *)
Lemma DisplayInv_empty view (on : bool) :
  DisplayInv (mkDisplay [] [] InactiveSession None view on).
Proof.
  apply DisplayInv_quiet; [|apply Framed_nil]. exists None, ∅. now rewrite rendered_empty.
Qed.

Lemma DisplayInv_rendered csv (sel : gset Z) before (on : bool) :
  DisplayInv (mkDisplay (rendered csv sel).1 (rendered csv sel).2 InactiveSession None
                (frame (rendered csv sel).2 before) on).
Proof.
  apply DisplayInv_quiet; [|apply frame_Framed]. exists csv, sel. now destruct (rendered csv sel).
Qed.

Lemma leave_inv d : DisplayInv d -> DisplayInv (leave d).
Proof. intros [_ _ _ Hc Hv]. now apply DisplayInv_quiet. Qed.

Lemma shown_inv d (focus owner : Path) (q : LatLng) (on : bool) :
  DisplayInv d -> focus ∈ paths d -> owner ∈ paths d ->
  DisplayInv (mkDisplay (pins d) (paths d) (ActiveSession focus)
                (Some (mkPanel (synthesize owner q) q)) (framed d) on).
Proof.
  intros [_ _ _ Hc Hv] Hf Ho.
  split; simpl; [now intros ? [= <-] | discriminate | | exact Hc | exact Hv].
  intros p [= <-]. eauto.
Qed.

Lemma pointerMove_inv policy q d : DisplayInv d -> DisplayInv (pointerMove policy q d).
Proof.
  intros Hd. unfold pointerMove. destruct (proximity d) as [|focus] eqn:Hp; [exact Hd|].
  destruct (watching d); [|exact Hd].
  pose proof (nearestVertex_owner q (paths d)) as Howner.
  destruct (nearestVertex q (paths d)) as [dist [[vertex owner]|]]; simpl in *.
  - destruct (extLt dist 500).
    + specialize (Howner _ _ eq_refl). pose proof (inv_focus d Hd focus Hp).
      destruct (refocus policy); now apply shown_inv.
    + destruct (extGt dist 800); [now apply leave_inv | exact Hd].
  - destruct (extLt dist 500); [exact Hd|]. destruct (extGt dist 800); [now apply leave_inv | exact Hd].
Qed.

Lemma contractStep_inv policy d e : DisplayInv d -> DisplayInv (contractStep policy d e).
Proof.
  intros Hd. destruct e as [csv sel | | csv sel | n q | | q]; simpl.
  - unfold selectionChanged. destruct (decide _); [apply DisplayInv_rendered | apply DisplayInv_empty].
  - apply DisplayInv_empty.
  - apply DisplayInv_rendered.
  - destruct (paths d !! n) as [path|] eqn:Hn; [|exact Hd].
    apply list_elem_of_lookup_2 in Hn. now apply shown_inv.
  - destruct (existsb _ _); [now apply leave_inv | exact Hd].
  - now apply pointerMove_inv.
Qed.

Lemma DisplayInv_invariant policy : Invariant (contractMachine policy) DisplayInv.
Proof.
  split; [apply DisplayInv_empty | intros d e Hd _; now apply contractStep_inv].
Qed.

(** *** The two policies *)

Lemma LookAlike_quiet (shown : list Pin) (rendering : list Path) view (on on' : bool) :
  on = on' \/ rendering = [] ->
  LookAlike (mkDisplay shown rendering InactiveSession None view on)
    (mkDisplay shown rendering InactiveSession None view on').
Proof. intros Hw. split; simpl; try reflexivity. destruct Hw; auto. Qed.

(** Looking alike is an equivalence, and what the user sees respects
    it. *)
#[export] Instance LookAlike_equivalence : Equivalence LookAlike.
Proof.
  split.
  - intros d. split; auto.
  - intros d d' [Hpins Hpaths Hpanel Hview Hact Hw]. split; auto; try (now symmetry).
    destruct Hw as [Hw|[Hnil Hin]]; [now left|]. right. split; [congruence | now apply Hact].
  - intros d1 d2 d3 [Hpins Hpaths Hpanel Hview Hact Hw] [Hpins' Hpaths' Hpanel' Hview' Hact' Hw'].
    split; try congruence; [now rewrite Hact|].
    destruct Hw as [Hw|Hq]; [|now right]. destruct Hw' as [Hw'|[Hnil Hin]]; [left; congruence|].
    right. split; [congruence | now apply Hact].
Qed.

#[export] Instance pins_Proper : Proper (LookAlike ==> (=)) pins.
Proof. now intros d d' []. Qed.

#[export] Instance paths_Proper : Proper (LookAlike ==> (=)) paths.
Proof. now intros d d' []. Qed.

#[export] Instance panel_Proper : Proper (LookAlike ==> (=)) panel.
Proof. now intros d d' []. Qed.

#[export] Instance framed_Proper : Proper (LookAlike ==> (=)) framed.
Proof. now intros d d' []. Qed.

Lemma LookAlike_leave d d' : LookAlike d d' -> LookAlike (leave d) (leave d').
Proof.
  intros [Hpins Hpaths _ Hview _ Hw]. unfold leave. rewrite Hpins, Hpaths, Hview.
  apply LookAlike_quiet. destruct Hw as [->|[He _]]; [now left|]. right. now rewrite <- Hpaths.
Qed.

Lemma LookAlike_pointerMove policy policy' q d d' :
  LookAlike d d' -> LookAlike (pointerMove policy q d) (pointerMove policy' q d').
Proof.
  intros Ha. pose proof Ha as [Hpins Hpaths Hpanel Hview Hact Hw]. unfold pointerMove.
  destruct (proximity d) as [|focus] eqn:Hp.
  { rewrite (proj1 Hact eq_refl). exact Ha. }
  destruct (proximity d') as [|focus'] eqn:Hp'; [destruct Hact as [_ Hact]; now specialize (Hact eq_refl)|].
  destruct Hw as [Hw|[_ [=]]]. rewrite <- Hw, <- Hpaths, <- Hpins, <- Hview.
  destruct (watching d); [|exact Ha].
  destruct (nearestVertex q (paths d)) as [dist [[vertex owner]|]]; simpl;
    destruct (extLt dist 500); try exact Ha;
    try (destruct (extGt dist 800); [now apply LookAlike_leave | exact Ha]).
  split; simpl; auto. split; discriminate.
Qed.

Lemma LookAlike_step policy policy' d d' e :
  fromApp e = true -> LookAlike d d' ->
  LookAlike (contractStep policy d e) (contractStep policy' d' e).
Proof.
  intros He Ha. pose proof Ha as [Hpins Hpaths Hpanel Hview Hact Hw].
  destruct e as [csv sel | | csv sel | n q | | q]; try discriminate He; simpl.
  - unfold selectionChanged. rewrite <- Hview. destruct (decide _); apply LookAlike_quiet; auto.
  - unfold clear. rewrite <- Hview. apply LookAlike_quiet. now right.
  - rewrite <- Hpaths. destruct (paths d !! n) as [path|] eqn:Hn; [|exact Ha].
    unfold hoverEnter. rewrite <- Hpins, <- Hpaths, <- Hview.
    split; simpl; auto; try (split; discriminate).
    destruct Hw as [Hw|[He' _]]; [now left|]. now rewrite He' in Hn.
  - rewrite <- Hpins. destruct (existsb _ _); [now apply LookAlike_leave | exact Ha].
  - now apply LookAlike_pointerMove.
Qed.


Lemma LookAlike_drive policy policy' (events : list Event) d d' :
  forallb fromApp events = true -> LookAlike d d' ->
  LookAlike (drive (contractMachine policy) events d) (drive (contractMachine policy') events d').
Proof.
  revert d d'. induction events as [|e events IH]; intros d d' He Ha; [exact Ha|].
  apply andb_prop in He as [He Hes]. apply IH; [exact Hes|]. now apply LookAlike_step.
Qed.

End ContractFacts.

(** ** Theorems *)

Section ContractTheorems.
Context {surface : MapSurface}.
Implicit Types (st : ViewerState) (events : list Event).

Lemma display_runs events st :
  runs viewerMachine events initialState = Some st ->
  runs (contractMachine codePolicy) events emptyDisplay = Some (display st).
Proof.
  exact (projection_runs _ _ _ component_projection events initialState st
           (reach_start (M := viewerMachine))).
Qed.

Lemma reachable_DisplayInv st : reachable st -> DisplayInv (display st).
Proof.
  intros Hr. apply reachable_reach in Hr. revert st Hr.
  apply (projection_transfer _ _ _ component_projection).
  apply (invariant_reach (M := contractMachine codePolicy)), DisplayInv_invariant.
Qed.

Lemma reachable_fittedOf st :
  reachable st -> polylinesRef st <> [] -> fittedOf st = Some (boundsOf (polylinesRef st)).
Proof.
  intros Hr Hne. rewrite boundsOf_vertices.
  apply (inv_framed _ (reachable_DisplayInv st Hr)). simpl.
  intros Hnil. now apply fmap_nil_inv in Hnil.
Qed.

(** C3. The component implements the contract: whatever events arrive,
    each from a primitive that is on the map, the machine of sections
    4.3, 4.4 and 4.6 accepts the same events and stands in the display
    of the state the component is in.  The refs, the layers of the map, their
    identifiers and the number of handlers are invisible in what the
    component shows. *)
Theorem component_implements_contract events st :
  runs viewerMachine events initialState = Some st ->
  runs (contractMachine codePolicy) events emptyDisplay = Some (display st).
Proof. apply display_runs. Qed.

(** The info panel never shows stale content: in every state the
    component reaches, an open tooltip carries the content generated, at
    the point where it stands, for a path that is on the map now. *)
Theorem panel_shows_rendered_path st (tooltip : Tooltip) :
  reachable st -> tooltipRef st = Some tooltip ->
  exists polyline,
    polyline ∈ polylinesRef st /\
    tooltipContent tooltip =
      generateTooltipContent (polylineEnv polyline) (tooltipLatLng tooltip)
        (intervalData polyline).
Proof.
  intros Hr Ht. destruct (reachable_DisplayInv st Hr) as [_ _ Hcontent _].
  destruct (Hcontent (panelOf tooltip)) as (path & Hin & Hc); [simpl; now rewrite Ht|].
  apply list_elem_of_fmap in Hin as (polyline & -> & Hin). eauto.
Qed.

(** C17. In every state the events can lead to, the view frames every
    path on the map: each vertex of each polyline of [polylinesRef] lies
    inside the padded bounds the map was last fitted to, whatever hover,
    pointer move, removal of a marker or clearing happened since. *)
Theorem reachable_view_frames_paths st polyline p :
  reachable st -> polyline ∈ polylinesRef st -> p ∈ latlngs polyline ->
  exists view, viewOf st = Some view /\ contains view p = true.
Proof.
  intros Hr Hpoly Hp. apply (fitted_frames st polyline); [|assumption..].
  apply reachable_fittedOf; [assumption|]. intros Hnil. rewrite Hnil in Hpoly. inversion Hpoly.
Qed.

(** Nothing accumulates: in every state the component reaches, the
    markers and paths on the map are those some selection describes. *)
Theorem reachable_shape st :
  reachable st -> exists csvResults selection, shape st = rendered csvResults selection.
Proof. intros Hr. now destruct (reachable_DisplayInv st Hr) as [_ _ _ Hc]. Qed.

Lemma display_LookAlike events st :
  runs viewerMachine events initialState = Some st -> forallb fromApp events = true ->
  LookAlike (display st) (drive (contractMachine specPolicy) events emptyDisplay).
Proof.
  intros Hen Happ. pose proof (display_runs events st Hen) as Hrun.
  apply runs_drive in Hrun. rewrite Hrun. now apply LookAlike_drive.
Qed.

(** C26. The specification as written and the code show the user the same
    thing: on the events [App] can cause, the display of the component
    and the state of the machine with the policy of the specification
    have the same markers, paths and panel, and a session active in both
    or in neither.  They part only in which path is in focus and in
    whether the watcher stays subscribed while nothing is rendered. *)
Theorem component_looks_like_spec events st :
  runs viewerMachine events initialState = Some st -> forallb fromApp events = true ->
  LookAlike (display st) (drive (contractMachine specPolicy) events emptyDisplay).
Proof. apply display_LookAlike. Qed.

(** The tooltip on the map and the view are those the specification as
    written prescribes. *)
Corollary tooltip_and_view_as_specified events st :
  runs viewerMachine events initialState = Some st -> forallb fromApp events = true ->
  let specified := drive (contractMachine specPolicy) events emptyDisplay in
  panelOf <$> tooltipRef st = panel specified /\ fittedOf st = framed specified.
Proof.
  intros Hen Happ specified. subst specified.
  rewrite <- (display_LookAlike events st Hen Happ). now split.
Qed.


(** *** The application

    [App] drives the component through the selection effect, [clearMap]
    and the pointer: the states of its viewer are states the component
    reaches, so what the contract guarantees holds in the application,
    where the selection and the results are known. *)

Lemma handle_reachable (e : Event) st : reachable st -> reachable (handle e st).
Proof.
  intros Hr. destruct (decide (enabled st e)) as [Hen|Hen].
  - exact (reachable_step st e _ Hr (handle_step st e Hen)).
  - now rewrite handle_disabled.
Qed.

Lemma act_reachable (a : Action) (sys : System) :
  reachable (viewer sys) -> reachable (viewer (act a sys)).
Proof.
  intros Hr. pose proof (fun csv sel v => handle_reachable (SelectionChanged csv sel) v) as He.
  destruct a; simpl; try exact Hr; try (now apply He).
  - destruct (_ || _); [exact Hr | now apply He].
  - destruct (journeysOf _); [now apply He | exact Hr].
  - apply He. exact (handle_reachable ResetRequested _ Hr).
  - destruct (pointerEvent e); [now apply handle_reachable | exact Hr].
Qed.

Lemma runApp_reachable (actions : list Action) : reachable (viewer (runApp actions)).
Proof.
  unfold runApp. induction actions as [|a actions IH] using rev_ind; [constructor|].
  rewrite foldl_app. now apply act_reachable.
Qed.

(** C9. In the application the tooltip only ever shows a journey that is
    selected: after any actions of the user, an open tooltip carries the
    content generated for a path on the map whose interval belongs to the
    current results and to a journey of the current selection. *)
Theorem tooltip_of_selected_journey (actions : list Action) (tooltip : Tooltip) :
  let sys := runApp actions in
  tooltipRef (viewer sys) = Some tooltip ->
  exists polyline journey,
    polyline ∈ polylinesRef (viewer sys) /\
    tooltipContent tooltip =
      generateTooltipContent (polylineEnv polyline) (tooltipLatLng tooltip)
        (intervalData polyline) /\
    intervalData polyline ∈ extractIntervalsFromResults (results (app sys)) /\
    journeyIndex (intervalData polyline) = Some journey /\
    journey ∈ selectedJourneys (app sys).
Proof.
  intros sys. subst sys. set (sys := runApp actions). intros Ht.
  destruct (reachable_DisplayInv _ (runApp_reachable actions)) as [_ _ Hcontent _].
  destruct (Hcontent (panelOf tooltip)) as (path & Hin & Hc); [simpl; fold sys; now rewrite Ht|].
  apply list_elem_of_fmap in Hin as (polyline & -> & Hin). fold sys in Hin.
  destruct (runApp_inv actions) as [_ Hshape]. fold sys in Hshape.
  apply (f_equal snd) in Hshape. simpl in Hshape.
  assert (Hshown : intervalData polyline ∈
            intervalsToShow (selectedJourneys (app sys))
              (extractIntervalsFromResults (results (app sys)))).
  { apply (list_elem_of_fmap_2 polylineShape) in Hin as Hpath. rewrite Hshape in Hpath.
    apply (list_elem_of_fmap_2 (fun x => x.1.2)) in Hpath. rewrite drawn_paths in Hpath.
    now apply list_elem_of_filter in Hpath as [_ Hpath]. }
  apply intervalsToShow_elem in Hshown as (Hall & journey & Hj & Hsel).
  exists polyline, journey. auto.
Qed.

End ContractTheorems.

(** ** The policy of the specification *)

(** The pointer enters the first path of the sample and moves next to a
    vertex of the second. *)
Definition crossing : list Event := hoverEvents ++ [MouseMoved (35 + (100 # 111000), -5)].

(** The position, among the intervals shown, of the path in focus. *)
Definition focusPosition (d : Display) : option nat :=
  match proximity d with
  | ActiveSession path => Some (envPosition path.2)
  | InactiveSession => None
  end.

Lemma crossing_runs :
  runs (viewerMachine (surface := manhattanSurface)) crossing initialState =
  Some (run (surface := manhattanSurface) crossing initialState).
Proof. apply allEnabled_runs. vm_compute. reflexivity. Qed.

(** On the sample the component does not implement the machine of the
    specification as written: after the pointer has entered one path and
    moved next to another, the specification has the second path in
    focus and the component still the first. *)
Theorem spec_policy_not_implemented :
  ~ Projection (viewerMachine (surface := manhattanSurface))
      (contractMachine (surface := manhattanSurface) specPolicy) display.
Proof.
  intros Hp.
  pose proof (projection_runs _ _ _ Hp crossing initialState _
                (reach_start (M := viewerMachine)) crossing_runs) as Hrun.
  apply runs_drive, (f_equal focusPosition) in Hrun. vm_compute in Hrun. discriminate.
Qed.

(** The two machines on the crossing: the same panel, another focus. *)
Example crossing_focus :
  let code := drive (contractMachine (surface := manhattanSurface) codePolicy) crossing emptyDisplay in
  let spec := drive (contractMachine (surface := manhattanSurface) specPolicy) crossing emptyDisplay in
  focusPosition code = Some 0%nat /\ focusPosition spec = Some 2%nat /\ panel code = panel spec /\
  code = display (run (surface := manhattanSurface) crossing initialState).
Proof. split_and!; vm_compute; reflexivity. Qed.

Lemma component_implements_contract_witness :
  runs (contractMachine (surface := manhattanSurface) codePolicy) crossing emptyDisplay =
  Some (display (run (surface := manhattanSurface) crossing initialState)).
Proof. apply (component_implements_contract (surface := manhattanSurface)), crossing_runs. Defined.

Lemma panel_shows_rendered_path_witness :
  exists polyline,
    polyline ∈ polylinesRef hovering /\
    tooltipContent (mkTooltip 7 (generateTooltipContent (surface := manhattanSurface)
                                   (mkEnv sampleResults sampleShown 0) (36, -5)
                                   (sampleInterval 1 1 [samplePoint 36 (-5); samplePoint 37 (-6)]))
                      (36, -5)) =
      generateTooltipContent (surface := manhattanSurface) (polylineEnv polyline) (36, -5)
        (intervalData polyline).
Proof.
  apply (panel_shows_rendered_path (surface := manhattanSurface) hovering);
    [apply hover_reachable | ]; vm_compute; reflexivity.
Defined.

Lemma reachable_view_frames_paths_witness :
  match polylinesRef hovering with
  | polyline :: _ => exists view, viewOf hovering = Some view /\ contains view (37, -6) = true
  | [] => False
  end.
Proof.
  assert (Hv : latlngs <$> polylinesRef hovering = [[(36, -5); (37, -6)]; [(35, -5); (35, -4)]])
    by (vm_compute; reflexivity).
  destruct (polylinesRef hovering) as [|polyline rest] eqn:Hp; [discriminate|].
  injection Hv as Hv _.
  apply (reachable_view_frames_paths (surface := manhattanSurface) hovering polyline).
  - apply hover_reachable. vm_compute. reflexivity.
  - rewrite Hp. apply elem_of_cons. now left.
  - rewrite Hv. apply elem_of_cons. right. apply elem_of_cons. now left.
Defined.


Example crossing_departs :
  Departs (surface := manhattanSurface) (display hovering) (MouseMoved (35 + (100 # 111000), -5)).
Proof.
  eapply departs_focus; [vm_compute; reflexivity.. | ].
  intros Heq. apply (f_equal (fun path => envPosition path.2)) in Heq. vm_compute in Heq.
  discriminate.
Qed.

Lemma component_looks_like_spec_witness :
  LookAlike (display (run (surface := manhattanSurface) crossing initialState))
    (drive (contractMachine (surface := manhattanSurface) specPolicy) crossing emptyDisplay).
Proof.
  apply (component_looks_like_spec (surface := manhattanSurface));
    [apply crossing_runs | reflexivity].
Defined.

Lemma spec_policy_not_implemented_witness :
  ~ Projection (viewerMachine (surface := manhattanSurface))
      (contractMachine (surface := manhattanSurface) specPolicy) display.
Proof. apply spec_policy_not_implemented. Defined.

(** The watcher stays subscribed when the selection is emptied, where the
    specification unsubscribes it. *)
Example emptied_watching :
  let events := [SelectionChanged sampleResults {[1%Z]}; SelectionChanged sampleResults ∅] in
  watching (display (run (surface := manhattanSurface) events initialState)) = true /\
  watching (drive (contractMachine (surface := manhattanSurface) specPolicy) events emptyDisplay)
    = false.
Proof. split; vm_compute; reflexivity. Qed.

(** The user picks a file, processes it, selects every journey and points
    at the first path. *)
Definition pointing : list Action :=
  [FilesPicked (Some [sampleFile]); ProcessClicked sampleResults; AllSelected;
   PointerEvent (MouseOverPolyline 0 (36, -5))].

Lemma tooltip_of_selected_journey_witness :
  exists polyline journey,
    polyline ∈ polylinesRef (viewer (runApp (surface := manhattanSurface) pointing)) /\
    tooltipContent
      (mkTooltip 7 (generateTooltipContent (surface := manhattanSurface)
                      (mkEnv sampleResults sampleShown 0) (36, -5)
                      (sampleInterval 1 1 [samplePoint 36 (-5); samplePoint 37 (-6)]))
         (36, -5)) =
      generateTooltipContent (surface := manhattanSurface) (polylineEnv polyline) (36, -5)
        (intervalData polyline) /\
    intervalData polyline ∈
      extractIntervalsFromResults
        (results (app (runApp (surface := manhattanSurface) pointing))) /\
    journeyIndex (intervalData polyline) = Some journey /\
    journey ∈ selectedJourneys (app (runApp (surface := manhattanSurface) pointing)).
Proof.
  apply (tooltip_of_selected_journey (surface := manhattanSurface) pointing).
  vm_compute. reflexivity.
Defined.
