(* ===== verification/Views.v ===== *)
(** * What the application shows, and what the user can do

    The markup of [App.tsx] (lines 97-185) as a function of the state: the
    components mounted and the props they receive.  A handler of [App] can
    run only when the component that holds it as a callback is mounted, so
    the view decides which actions of [App.Action] are available in a
    state.  [userMachine] is [App.act] restricted to them.

    The components [JourneySelector], [SpeedProfile],
    [ActivityDistribution] and [JourneyComparison] are not among the
    sources: a mounted component is taken to be able to call any of the
    callbacks it is given, at any time.  A statistics panel is mounted
    whatever [showStats] is and receives it as [isVisible]: [offers] lets
    it call its callbacks also while it is not visible, which is the safe
    reading for what holds after every action.  For what the user can
    bring about the safe reading is the other one, and [visiblyAvailable]
    leaves the callbacks of a panel that is not visible out;
    [return_to_start_visible] says from which screens the user needs no
    hidden panel.

    The file also counts the listeners [FileUploader] adds to the document
    when it is mounted and removes when it is unmounted (FileUploader.tsx,
    lines 20-40). *)

From Stdlib Require Import QArith.
From stdpp Require Import prelude gmap strings.
From S2P Require Import Prelude Machine DataModel Surface Extractor Tooltip RenderSet Proximity.
From S2P Require Import Uploader App.

#[local] Set Warnings "-clear-no-such-hyp".
#[local] Open Scope nat_scope.

(** ** The view (App.tsx, lines 97-185) *)

Inductive Widget : Type :=
| MapViewerW (csvResults : option CSVIntervalResult) (selected : gset Z)        (* 100-104 *)
| FileUploaderW (uploaderFiles : list File) (processing : bool)                 (* 107-118 *)
| ResetButtonW                                                                  (* 121-133 *)
| JourneySelectorW (csvResults : option CSVIntervalResult) (selected : gset Z)  (* 136-147 *)
| SpeedProfileW (csvResults : option CSVIntervalResult) (selected : gset Z)
    (isVisible : bool)                                                          (* 150-158 *)
| ActivityDistributionW (csvResults : option CSVIntervalResult) (selected : gset Z)
    (isVisible : bool)                                                          (* 160-168 *)
| JourneyComparisonW (csvResults : option CSVIntervalResult) (selected : gset Z)
    (journeysShown : list Journey) (isVisible : bool).                          (* 170-181 *)

Definition statsWidget (s : AppState) : Widget :=
  match activeStatsView s with
  | SpeedView => SpeedProfileW (results s) (selectedJourneys s) (showStats s)
  | ActivityView => ActivityDistributionW (results s) (selectedJourneys s) (showStats s)
  | ComparisonView =>
      JourneyComparisonW (results s) (selectedJourneys s)
        (default [] (journeysOf (results s))) (showStats s)
  end.

Definition appView (s : AppState) : list Widget :=
  [MapViewerW (results s) (selectedJourneys s)]
  ++ (if showUploader s then [FileUploaderW (files s) (isProcessing s)] else [])
  ++ (if negb (showUploader s) then [ResetButtonW] else [])
  ++ (if negb (showUploader s) then [JourneySelectorW (results s) (selectedJourneys s)] else [])
  ++ [statsWidget s].

(** The callbacks each component is given, as the actions it can raise. *)
Definition offers (w : Widget) (a : Action) : bool :=
  match w, a with
  | MapViewerW _ _, PointerEvent e => pointerEvent e
  | FileUploaderW _ _, (FilesPicked _ | FilesDropped _) => true
  | FileUploaderW uploaderFiles _, FileRemoved index =>
      bool_decide (index < length uploaderFiles)
  | FileUploaderW uploaderFiles processing, ProcessClicked _ =>
      negb (bool_decide (length uploaderFiles = 0) || processing)
  | ResetButtonW, ResetClicked => true
  | JourneySelectorW _ _,
    (JourneyToggled _ | AllSelected | AllDeselected | JourneysToggled _
     | StatsShown true | StatsViewChanged _) => true
  | (SpeedProfileW _ _ _ | ActivityDistributionW _ _ _ | JourneyComparisonW _ _ _ _),
    (StatsShown false | StatsViewChanged _) => true
  | _, _ => false
  end.

Definition available (s : AppState) (a : Action) : bool :=
  existsb (fun w => offers w a) (appView s).

(** A statistics panel shows something only when [isVisible] holds. *)
Definition visible (w : Widget) : bool :=
  match w with
  | SpeedProfileW _ _ isVisible | ActivityDistributionW _ _ isVisible
  | JourneyComparisonW _ _ _ isVisible => isVisible
  | _ => true
  end.

(** The actions offered by something the user sees. *)
Definition visiblyAvailable (s : AppState) (a : Action) : bool :=
  existsb (fun w => visible w && offers w a) (appView s).

(** ** The listeners of the document (FileUploader.tsx, lines 20-40) *)

Record DocumentListeners : Type := mkListeners {
  dragoverListeners : nat;
  dropListeners : nat;
}.

(** The effect of lines 20-40 when the uploader is mounted, and its
    cleanup when it is unmounted. *)
Definition uploaderMounted (d : DocumentListeners) : DocumentListeners :=
  mkListeners (S (dragoverListeners d)) (S (dropListeners d)).

Definition uploaderUnmounted (d : DocumentListeners) : DocumentListeners :=
  mkListeners (pred (dragoverListeners d)) (pred (dropListeners d)).

(** A render in which [showUploader] went from [before] to [after]. *)
Definition syncListeners (before after : bool) (d : DocumentListeners) : DocumentListeners :=
  match before, after with
  | false, true => uploaderMounted d
  | true, false => uploaderUnmounted d
  | _, _ => d
  end.

(** ** The steps of the user *)

Record Screen : Type := mkScreen {
  system : System;
  listeners : DocumentListeners;
}.

Section Views.
Context {surface : MapSurface}.

(** The first render: the uploader is mounted. *)
Definition initialScreen : Screen :=
  mkScreen initialSystem (uploaderMounted (mkListeners 0 0)).

Definition userAct (a : Action) (sc : Screen) : Screen :=
  let sys' := act a (system sc) in
  mkScreen sys'
    (syncListeners (showUploader (app (system sc))) (showUploader (app sys')) (listeners sc)).

(** The user as a machine: an action is allowed when a mounted component
    offers it, and runs its handler. *)
#[export] Instance userMachine : Machine Screen Action := {|
  start := initialScreen;
  allowed sc a := available (app (system sc)) a;
  advance sc a := userAct a sc;
|}.

(** The user who acts only on what is visible. *)
Definition visibleMachine : Machine Screen Action := {|
  start := initialScreen;
  allowed sc a := visiblyAvailable (app (system sc)) a;
  advance sc a := userAct a sc;
|}.

(** The screens the user can reach, and running a list of actions, each
    one available when its turn comes. *)
Definition userReachable : Screen -> Prop := reach userMachine.

Definition userRun (actions : list Action) (sc : Screen) : option Screen :=
  runs userMachine actions sc.

End Views.

(** ** The invariant of the screen *)

(** While the uploader is shown nothing is selected; once it is hidden the
    results are those of a successful processing; the document holds one
    pair of listeners while the uploader is mounted and none otherwise. *)
Record ScreenInv (sc : Screen) : Prop := mkScreenInv {
  inv_selection :
    showUploader (app (system sc)) = true -> selectedJourneys (app (system sc)) = ∅;
  inv_results :
    showUploader (app (system sc)) = false ->
    exists r d, results (app (system sc)) = Some r /\ success r = true /\ data r = Some d;
  inv_listeners :
    listeners sc = if showUploader (app (system sc)) then mkListeners 1 1 else mkListeners 0 0;
  inv_system : SystemInv (system sc);
}.

Section ViewFacts.
Context {surface : MapSurface}.
Implicit Types (s : AppState) (sc : Screen) (a : Action) (w : Widget).

Lemma available_elem s a : available s a = true <-> exists w, w ∈ appView s /\ offers w a = true.
Proof.
  unfold available. rewrite existsb_exists. setoid_rewrite <- list_elem_of_In. reflexivity.
Qed.

(** The actions only the uploader raises, and those only the reset button
    and the journey selector raise. *)
Definition uploaderAction a : bool :=
  match a with
  | FilesPicked _ | FilesDropped _ | FileRemoved _ | ProcessClicked _ => true
  | _ => false
  end.

Definition selectorAction a : bool :=
  match a with
  | ResetClicked | JourneyToggled _ | AllSelected | AllDeselected | JourneysToggled _
  | StatsShown true => true
  | _ => false
  end.

(** An offer found in the view. *)
Ltac find_offer Hw Hoff :=
  unfold appView, statsWidget in Hw;
  repeat match type of Hw with
         | _ ∈ _ ++ _ => apply elem_of_app in Hw as [Hw|Hw]
         | _ ∈ (if ?b then _ else _) => destruct b eqn:?; simpl in Hw
         | _ ∈ _ :: _ => apply elem_of_cons in Hw as [->|Hw]
         | _ ∈ [] => now apply elem_of_nil in Hw
         end;
  try match type of Hoff with
      | context [activeStatsView ?s] => destruct (activeStatsView s)
      end;
  simpl in Hoff; try discriminate.

Lemma available_uploader s a :
  available s a = true -> uploaderAction a = true -> showUploader s = true.
Proof.
  intros Hav Ha. apply available_elem in Hav as (w & Hw & Hoff).
  destruct a; try discriminate; find_offer Hw Hoff; auto.
Qed.

Lemma available_selector s a :
  available s a = true -> selectorAction a = true -> showUploader s = false.
Proof.
  intros Hav Ha. apply available_elem in Hav as (w & Hw & Hoff).
  destruct a as [| | | | | | | | |[]| |]; try discriminate; find_offer Hw Hoff;
    auto using negb_true_iff; now apply negb_true_iff.
Qed.

Lemma available_process s result :
  available s (ProcessClicked result) = true ->
  showUploader s = true /\ files s <> [] /\ isProcessing s = false.
Proof.
  intros Hav. pose proof (available_uploader s _ Hav eq_refl) as Hu. split; [exact Hu|].
  apply available_elem in Hav as (w & Hw & Hoff). find_offer Hw Hoff.
  apply negb_true_iff, orb_false_iff in Hoff as [Hlen Hp].
  apply bool_decide_eq_false in Hlen. rewrite length_zero_iff_nil in Hlen. auto.
Qed.

Lemma available_remove s index :
  available s (FileRemoved index) = true -> index < length (files s).
Proof.
  intros Hav. apply available_elem in Hav as (w & Hw & Hoff). find_offer Hw Hoff.
  now apply bool_decide_eq_true in Hoff.
Qed.

(** The handler of [App] each action runs. *)
Definition handlerOf a s : AppState :=
  match a with
  | FilesPicked picked => setFiles (handleFileChange (files s) picked) s
  | FilesDropped droppedFiles => setFiles (processFiles (files s) droppedFiles) s
  | FileRemoved index => setFiles (removeFile (files s) index) s
  | ProcessClicked result => handleProcessFiles result s
  | JourneyToggled journeyIndex => toggleJourneySelection journeyIndex s
  | AllSelected => selectAllJourneys s
  | AllDeselected => deselectAllJourneys s
  | JourneysToggled journeyIndices => toggleMultipleJourneys journeyIndices s
  | ResetClicked => resetApp s
  | StatsShown visible => setShowStats visible s
  | StatsViewChanged view => setActiveStatsView view s
  | PointerEvent _ => s
  end.

Lemma app_act a (sys : System) : app (act a sys) = handlerOf a (app sys).
Proof.
  destruct sys as [s v]. destruct a; simpl; try reflexivity.
  - unfold handleProcessFiles. now destruct (_ || _).
  - unfold selectAllJourneys. now destruct (journeysOf _).
  - now destruct (pointerEvent e).
Qed.

Lemma handleProcessFiles_cases result s :
  files s <> [] -> isProcessing s = false ->
  (exists r d, result = Some r /\ success r = true /\ data r = Some d /\
     handleProcessFiles result s = setShowUploader false (setResults result s)) \/
  handleProcessFiles result s = setResults result s.
Proof.
  intros Hf Hp. unfold handleProcessFiles. rewrite Hp, orb_false_r.
  rewrite bool_decide_eq_false_2 by (now rewrite length_zero_iff_nil).
  destruct result as [r|]; [|now right].
  destruct (success r) eqn:Hs; [|now right]. simpl.
  destruct (data r) as [d|] eqn:Hd.
  - left. exists r, d. rewrite bool_decide_eq_true_2 by eauto. auto.
  - right. rewrite bool_decide_eq_false_2; [reflexivity|]. now intros [? [=]].
Qed.

(** The part of the invariant that is about [App] alone. *)
Definition AppInv s : Prop :=
  (showUploader s = true -> selectedJourneys s = ∅) /\
  (showUploader s = false ->
   exists r d, results s = Some r /\ success r = true /\ data r = Some d).

Lemma handlerOf_AppInv a s : available s a = true -> AppInv s -> AppInv (handlerOf a s).
Proof.
  intros Hav [Hsel Hres]. unfold AppInv.
  destruct a as [| | |result| | | | | |[]| |]; simpl;
    try (pose proof (available_uploader s _ Hav eq_refl) as Hu; rewrite Hu in *; auto; fail);
    try (pose proof (available_selector s _ Hav eq_refl) as Hu; rewrite Hu in *;
         split; [discriminate | auto]; fail);
    auto.
  - destruct (available_process s result Hav) as (Hu & Hf & Hp).
    destruct (handleProcessFiles_cases result s Hf Hp) as [(r & dt & -> & Hs & Hd & ->) | ->];
      simpl; rewrite ?Hu; split; eauto; discriminate.
  - pose proof (available_selector s _ Hav eq_refl) as Hu. unfold selectAllJourneys.
    destruct (journeysOf (results s)); simpl; rewrite Hu; split; auto; discriminate.
  - split; [reflexivity | discriminate].
Qed.

(** The uploader is mounted and unmounted as [showUploader] changes. *)
Lemma syncListeners_inv (before after : bool) :
  syncListeners before after (if before then mkListeners 1 1 else mkListeners 0 0) =
  if after then mkListeners 1 1 else mkListeners 0 0.
Proof. now destruct before, after. Qed.

Lemma ScreenInv_initial : ScreenInv initialScreen.
Proof.
  split; simpl; auto; [discriminate|]. apply (runApp_inv []).
Qed.

Lemma userAct_inv sc a :
  ScreenInv sc -> available (app (system sc)) a = true -> ScreenInv (userAct a sc).
Proof.
  intros [Hsel Hres Hlis Hsys] Hav.
  destruct (handlerOf_AppInv a _ Hav (conj Hsel Hres)) as [Hsel' Hres'].
  unfold userAct. split; simpl; rewrite ?app_act; auto.
  - rewrite Hlis. apply syncListeners_inv.
  - now apply act_inv.
Qed.

Lemma ScreenInv_invariant : Invariant userMachine ScreenInv.
Proof. split; [apply ScreenInv_initial | apply userAct_inv]. Qed.

Lemma userReachable_inv sc : userReachable sc -> ScreenInv sc.
Proof. apply invariant_reach, ScreenInv_invariant. Qed.

End ViewFacts.

(** ** Finding what is offered *)

Section Offers.
Context {surface : MapSurface}.
Implicit Types (s : AppState) (sc : Screen) (a : Action).

Lemma available_stats s (view : StatsView) :
  available s (StatsShown false) = true /\ available s (StatsViewChanged view) = true.
Proof.
  unfold available, appView, statsWidget. rewrite !existsb_app. simpl.
  destruct (activeStatsView s); simpl; rewrite !orb_true_r; auto.
Qed.

Lemma available_reset s : showUploader s = false -> available s ResetClicked = true.
Proof. intros Hu. unfold available, appView. rewrite Hu. reflexivity. Qed.

Lemma available_remove_first s :
  showUploader s = true -> files s <> [] -> available s (FileRemoved 0) = true.
Proof.
  intros Hu Hf. unfold available, appView. rewrite Hu. simpl.
  rewrite bool_decide_eq_true_2; [reflexivity|]. destruct (files s); [contradiction | simpl; lia].
Qed.

(** Removing the first file as many times as there are files empties the
    list and changes nothing else. *)
Lemma userRun_remove_all sc :
  showUploader (app (system sc)) = true ->
  exists sc',
    userRun (replicate (length (files (app (system sc)))) (FileRemoved 0)) sc = Some sc' /\
    app (system sc') = setFiles [] (app (system sc)) /\ viewer (system sc') = viewer (system sc) /\
    listeners sc' = listeners sc.
Proof.
  destruct sc as [[s v] d]. simpl. intros Hu.
  remember (length (files s)) as n eqn:Hn. revert s d Hu Hn.
  induction n as [|n IH]; intros s d Hu Hn.
  - symmetry in Hn. apply length_zero_iff_nil in Hn. simpl. eexists. split; [reflexivity|].
    simpl. destruct s; simpl in *; subst. auto.
  - destruct (files s) as [|file rest] eqn:Hf; [discriminate|].
    unfold userRun in *. cbn [replicate runs allowed advance userMachine]. cbn [system app].
    rewrite available_remove_first by (rewrite ?Hf; auto).
    unfold userAct. cbn [system act app viewer]. rewrite Hu. simpl.
    destruct (IH (setFiles (removeFile (files s) 0) s) d) as (sc' & Hrun & Happ & Hv & Hl).
    + exact Hu.
    + simpl. rewrite removeFile_delete, Hf. simpl in *. lia.
    + exists sc'. rewrite Hf, Hu in *. split_and!; auto.
Qed.

(** *** What is visible *)

(** The callbacks only a statistics panel is given. *)
Definition panelAction a : bool :=
  match a with
  | StatsShown false | StatsViewChanged _ => true
  | _ => false
  end.

Lemma visiblyAvailable_other s a :
  panelAction a = false -> visiblyAvailable s a = available s a.
Proof.
  intros Ha. unfold visiblyAvailable, available, appView, statsWidget.
  destruct (showUploader s), (activeStatsView s), (showStats s), a as [| | | | | | | | |[]| |];
    try discriminate; reflexivity.
Qed.

Lemma runs_visibly (actions : list Action) sc :
  forallb (fun a => negb (panelAction a)) actions = true ->
  runs visibleMachine actions sc = userRun actions sc.
Proof.
  unfold userRun. revert sc. induction actions as [|a actions IH]; intros sc Hall; [reflexivity|].
  apply andb_prop in Hall as [Ha Hall]. apply negb_true_iff in Ha. simpl.
  rewrite (visiblyAvailable_other _ a Ha). destruct (available _ a); [now apply IH | reflexivity].
Qed.

Lemma visibly_selector_view s (view : StatsView) :
  showUploader s = false -> visiblyAvailable s (StatsViewChanged view) = true.
Proof. intros Hu. unfold visiblyAvailable, appView. rewrite Hu. reflexivity. Qed.

Lemma visibly_panel s (view : StatsView) :
  showStats s = true ->
  visiblyAvailable s (StatsShown false) = true /\ visiblyAvailable s (StatsViewChanged view) = true.
Proof.
  intros Hs. unfold visiblyAvailable, appView, statsWidget. rewrite !existsb_app. simpl.
  destruct (activeStatsView s); simpl; rewrite Hs, !orb_true_r; auto.
Qed.

(** *** The runs that lead back *)

(** The reset, when the uploader is hidden, and the removal of every
    file: no panel is needed, and the statistics are left as they are. *)
Lemma user_reset_remove sc :
  exists actions sc',
    forallb (fun a => negb (panelAction a)) actions = true /\
    userRun actions sc = Some sc' /\
    files (app (system sc')) = [] /\ showUploader (app (system sc')) = true /\
    showStats (app (system sc')) = showStats (app (system sc)) /\
    activeStatsView (app (system sc')) = activeStatsView (app (system sc)).
Proof.
  assert (Hshown : forall sc0, showUploader (app (system sc0)) = true ->
            exists actions sc', forallb (fun a => negb (panelAction a)) actions = true /\
              userRun actions sc0 = Some sc' /\ app (system sc') = setFiles [] (app (system sc0))).
  { intros sc0 Hu. destruct (userRun_remove_all sc0 Hu) as (sc1 & Hrun & Happ & _).
    eexists _, sc1. split_and!; [|exact Hrun | exact Happ].
    apply forallb_forall. intros a Ha%list_elem_of_In. now apply elem_of_replicate in Ha as [-> _]. }
  destruct (showUploader (app (system sc))) eqn:Hu.
  - destruct (Hshown sc Hu) as (actions & sc' & Hall & Hrun & Happ).
    exists actions, sc'. rewrite Happ. simpl. split_and!; auto.
  - destruct (Hshown (userAct ResetClicked sc)) as (actions & sc' & Hall & Hrun & Happ);
      [reflexivity|].
    exists (ResetClicked :: actions), sc'. unfold userRun in *. simpl.
    rewrite available_reset by exact Hu. rewrite Happ. split_and!; auto.
Qed.

End Offers.

(** ** Theorems *)

Section ViewTheorems.
Context {surface : MapSurface}.
Implicit Types (sc : Screen).

Lemma no_path_Inactive (st : ViewerState) :
  SessionInv st -> polylinesRef st = [] -> Inactive st.
Proof.
  intros [Hfocus Htip Hcur] Hp.
  assert (Hc : currentPolylineRef st = None).
  { destruct (currentPolylineRef st) as [id|] eqn:Hid; [|reflexivity].
    specialize (Hcur id eq_refl). rewrite Hp in Hcur. now apply elem_of_nil in Hcur. }
  assert (Ha : proximityActiveRef st = false).
  { destruct (proximityActiveRef st); [|reflexivity].
    destruct (proj1 Hfocus eq_refl) as [id Hid]. congruence. }
  split_and!; auto. destruct (tooltipRef st) eqn:Ht; [|reflexivity].
  rewrite Htip in Ha by eauto. discriminate.
Qed.

(** C21. While the uploader is shown, nothing is selected and nothing is
    drawn: in every state the user can reach the selection is empty, the
    map has no marker and no path, the hover session is off, and the
    document holds exactly the pair of listeners of the mounted uploader
    (none when it is hidden). *)
Theorem uploader_shown_nothing_drawn sc :
  userReachable sc ->
  (showUploader (app (system sc)) = true ->
   selectedJourneys (app (system sc)) = ∅ /\
   markersRef (viewer (system sc)) = [] /\ polylinesRef (viewer (system sc)) = [] /\
   Inactive (viewer (system sc))) /\
  listeners sc =
    if showUploader (app (system sc)) then mkListeners 1 1 else mkListeners 0 0.
Proof.
  intros Hr. destruct (userReachable_inv sc Hr) as [Hsel _ Hlis [(_ & Hs & _) Hshape]].
  split; [|exact Hlis]. intros Hu. specialize (Hsel Hu).
  rewrite Hsel, rendered_empty in Hshape. injection Hshape as Hm Hp.
  apply fmap_nil_inv in Hm, Hp. split_and!; auto. now apply no_path_Inactive.
Qed.

(** Two guards of the handlers never fire in a state the user can
    reach: the button that runs [handleProcessFiles] is disabled exactly
    when the test of line 22 holds, and [selectAllJourneys] is offered only
    when the results have journeys (line 53). *)
Theorem handler_guards_redundant sc (result : option CSVIntervalResult) :
  userReachable sc ->
  (available (app (system sc)) (ProcessClicked result) = true ->
   bool_decide (length (files (app (system sc))) = 0) || isProcessing (app (system sc)) = false) /\
  (available (app (system sc)) AllSelected = true ->
   is_Some (journeysOf (results (app (system sc))))).
Proof.
  intros Hr. destruct (userReachable_inv sc Hr) as [_ Hres _ _]. split; intros Hav.
  - destruct (available_process _ _ Hav) as (_ & Hf & ->).
    rewrite orb_false_r. apply bool_decide_eq_false. now rewrite length_zero_iff_nil.
  - destruct (Hres (available_selector _ _ Hav eq_refl)) as (r & d & -> & _ & Hd).
    simpl. rewrite Hd. simpl. eauto.
Qed.

(** The state of [App] at the start, whatever the hook holds. *)
Definition atStart (s : AppState) : Prop :=
  files s = [] /\ showUploader s = true /\ selectedJourneys s = ∅ /\
  showStats s = false /\ activeStatsView s = SpeedView.

Lemma at_start_blank sc :
  userReachable sc -> showUploader (app (system sc)) = true ->
  shape (viewer (system sc)) = ([], []).
Proof.
  intros Hr Hu. destruct (userReachable_inv sc Hr) as [Hsel _ _ [_ Hshape]].
  now rewrite Hshape, (Hsel Hu), rendered_empty.
Qed.

Lemma app_userAct a sc : app (system (userAct a sc)) = handlerOf a (app (system sc)).
Proof. unfold userAct. simpl. apply app_act. Qed.

(** What is visible is offered. *)
Lemma visible_runs (actions : list Action) sc sc' :
  runs visibleMachine actions sc = Some sc' -> userRun actions sc = Some sc'.
Proof.
  unfold userRun. revert sc. induction actions as [|a actions IH]; intros sc; [auto|].
  simpl. destruct (visiblyAvailable _ a) eqn:Hv; [|discriminate].
  assert (Ha : available (app (system sc)) a = true).
  { unfold visiblyAvailable in Hv. unfold available.
    apply existsb_exists in Hv as (w & Hw & [_ Hoff]%andb_prop). apply existsb_exists. eauto. }
  rewrite Ha. apply IH.
Qed.

(** Closing the statistics on their first view, through what is
    visible. *)
Lemma visible_closing sc :
  showUploader (app (system sc)) = false \/ showStats (app (system sc)) = true \/
    activeStatsView (app (system sc)) = SpeedView ->
  exists closing sc',
    runs visibleMachine closing sc = Some sc' /\
    showStats (app (system sc')) = false /\ activeStatsView (app (system sc')) = SpeedView.
Proof.
  destruct sc as [[s v] d]. simpl. intros Hcan. destruct (showStats s) eqn:Hs.
  - exists [StatsViewChanged SpeedView; StatsShown false]. eexists.
    cbn [runs allowed advance visibleMachine system app].
    rewrite (proj2 (visibly_panel s SpeedView Hs)), app_userAct. cbn [handlerOf system app].
    rewrite (proj1 (visibly_panel (setActiveStatsView SpeedView s) SpeedView Hs)).
    split; [reflexivity|]. rewrite !app_userAct. simpl. auto.
  - destruct Hcan as [Hu|[[=]|Hv]].
    + exists [StatsViewChanged SpeedView]. eexists.
      cbn [runs allowed advance visibleMachine system app].
      rewrite (visibly_selector_view s SpeedView Hu). split; [reflexivity|]. simpl. auto.
    + exists []. eexists. split; [reflexivity|]. simpl. auto.
Qed.

(** C34. The user can always come back to the start: from every state
    that can be reached there are actions, each available in its turn,
    after which no file is listed, the uploader is shown, nothing is
    selected or drawn and the statistics are closed on their first view. *)
Theorem return_to_start sc :
  userReachable sc ->
  exists actions sc',
    userRun actions sc = Some sc' /\ userReachable sc' /\
    atStart (app (system sc')) /\ shape (viewer (system sc')) = ([], []).
Proof.
  unfold userRun, userReachable. intros Hr.
  destruct (user_reset_remove sc) as (actions & sc1 & _ & Hrun & Hf & Hu & _).
  pose proof (runs_reach _ _ _ Hr Hrun) as Hr1.
  set (closing := [StatsShown false; StatsViewChanged SpeedView]).
  assert (Hclose : runs userMachine closing sc1 =
                   Some (userAct (StatsViewChanged SpeedView) (userAct (StatsShown false) sc1))).
  { unfold closing. cbn [runs allowed advance userMachine].
    rewrite (proj1 (available_stats _ SpeedView)).
    unfold userAct at 2. cbn [system app act].
    now rewrite (proj2 (available_stats _ SpeedView)). }
  exists (actions ++ closing), (userAct (StatsViewChanged SpeedView) (userAct (StatsShown false) sc1)).
  rewrite runs_app. unfold userRun in Hrun. rewrite Hrun. cbn [mbind option_bind].
  pose proof (runs_reach _ _ _ Hr1 Hclose) as Hr2.
  split_and!; [exact Hclose | exact Hr2 | | now apply at_start_blank].
  destruct (userReachable_inv _ Hr1) as [Hsel _ _ _]. unfold atStart. simpl. auto.
Qed.

(** The same with what is visible only.  When the journey selector is
    mounted, or the statistics are open, or they are closed on their first
    view, the user comes back to the start without a hidden panel: the
    view is changed through the selector or the open panel, the panel is
    closed by itself.  Left out are the screens with the uploader shown
    over statistics closed on another view, from which only a new
    processing mounts the selector again. *)
Theorem return_to_start_visible sc :
  userReachable sc ->
  showUploader (app (system sc)) = false \/ showStats (app (system sc)) = true \/
    activeStatsView (app (system sc)) = SpeedView ->
  exists actions sc',
    runs visibleMachine actions sc = Some sc' /\ userReachable sc' /\
    atStart (app (system sc')) /\ shape (viewer (system sc')) = ([], []).
Proof.
  intros Hr Hcan. destruct (visible_closing sc Hcan) as (closing & sc1 & Hrun1 & Hs & Hv).
  pose proof (runs_reach (M := userMachine) _ _ _ Hr (visible_runs _ _ _ Hrun1)) as Hr1.
  destruct (user_reset_remove sc1) as (actions & sc2 & Hall & Hrun2 & Hf & Hu & Hs2 & Hv2).
  pose proof (runs_reach (M := userMachine) _ _ _ Hr1 Hrun2) as Hr2.
  exists (closing ++ actions), sc2. rewrite (runs_app (M := visibleMachine)), Hrun1. cbn [mbind option_bind].
  rewrite (runs_visibly _ _ Hall).
  split_and!; [exact Hrun2 | exact Hr2 | | now apply at_start_blank].
  destruct (userReachable_inv _ Hr2) as [Hsel _ _ _]. unfold atStart.
  rewrite Hs2, Hv2, Hs, Hv. auto.
Qed.

End ViewTheorems.

(** ** A session on the screen *)

(** The sample session, each action available in its turn: the file is
    picked and processed, the statistics opened, and the reset clicked.
    The reset shows the uploader again and leaves the statistics open
    behind it. *)
Theorem reset_leaves_stats_open :
  let actions := [FilesPicked (Some [sampleFile]); ProcessClicked sampleResults;
                  StatsShown true; ResetClicked] in
  exists sc,
    userRun (surface := manhattanSurface) actions initialScreen = Some sc /\
    appView (app (system sc)) =
      [MapViewerW None ∅; FileUploaderW [] false; SpeedProfileW None ∅ true].
Proof. eexists. split; vm_compute; reflexivity. Qed.

(** A screen of the sample: the file processed, every journey selected,
    the statistics open. *)
Definition sampleUserActions : list Action :=
  [FilesPicked (Some [sampleFile]); ProcessClicked sampleResults; AllSelected; StatsShown true].

Definition sampleScreen : Screen :=
  default initialScreen
    (userRun (surface := manhattanSurface) sampleUserActions initialScreen).

Lemma sampleScreen_reachable : userReachable (surface := manhattanSurface) sampleScreen.
Proof.
  apply (runs_reach sampleUserActions initialScreen); [constructor | vm_compute; reflexivity].
Qed.

Lemma uploader_shown_nothing_drawn_witness :
  (showUploader (app (system sampleScreen)) = true ->
   selectedJourneys (app (system sampleScreen)) = ∅ /\
   markersRef (viewer (system sampleScreen)) = [] /\
   polylinesRef (viewer (system sampleScreen)) = [] /\
   Inactive (viewer (system sampleScreen))) /\
  listeners sampleScreen =
    if showUploader (app (system sampleScreen)) then mkListeners 1 1 else mkListeners 0 0.
Proof.
  apply (uploader_shown_nothing_drawn (surface := manhattanSurface)), sampleScreen_reachable.
Defined.

Lemma handler_guards_redundant_witness :
  (available (app (system sampleScreen)) (ProcessClicked sampleResults) = true ->
   bool_decide (length (files (app (system sampleScreen))) = 0)
   || isProcessing (app (system sampleScreen)) = false) /\
  (available (app (system sampleScreen)) AllSelected = true ->
   is_Some (journeysOf (results (app (system sampleScreen))))).
Proof.
  apply (handler_guards_redundant (surface := manhattanSurface)), sampleScreen_reachable.
Defined.

Lemma return_to_start_witness :
  exists actions sc',
    userRun (surface := manhattanSurface) actions sampleScreen = Some sc' /\
    userReachable (surface := manhattanSurface) sc' /\
    atStart (app (system sc')) /\ shape (viewer (system sc')) = ([], []).
Proof. apply (return_to_start (surface := manhattanSurface)), sampleScreen_reachable. Defined.
