(* ===== verification/Lifecycle.v ===== *)
(** * The life of the map: loading Leaflet and creating the map

    [MapViewer] starts without a map.  Its first effect (lines 33-51) loads
    Leaflet, unless [window.L] is there already, and sets [isMapLoaded];
    its second effect (54-75) creates the map in the render that follows;
    its third effect (564-635) draws the selection and depends on the props
    alone.  Until the map exists every operation of the component returns
    at its first guard.

    [Component] is the state of the component: the refs of [RenderSet]
    with [isMapLoaded], whether [window.L] is defined, whether the
    [import] is pending, and what the map was created with.  [Page] pairs
    it with the state of [App]; its events are the end of the import and
    the actions of [App].  [App.System] is the page in which Leaflet was
    there when the component was mounted.

    The tile layer is kept in [setup], apart from the [layers] of the map,
    which are the overlays the component adds and removes. *)

From Stdlib Require Import QArith.
From stdpp Require Import prelude gmap strings.
From S2P Require Import Prelude DataModel Surface Extractor Tooltip RenderSet Proximity.
From S2P Require Import Uploader App.

#[local] Set Warnings "-clear-no-such-hyp".

(** ** The component (lines 22-30) *)

(** [L.tileLayer(url, { attribution: false, subdomains, maxZoom })], 68-72. *)
Record TileLayer : Type := mkTileLayer {
  urlTemplate : string;
  subdomains : string;
  tileMaxZoom : Z;
}.

(** [L.map(mapRef.current, { zoomControl, minZoom, maxZoom }).setView(center,
    zoom)], lines 61-65, and the tile layer added to it. *)
Record MapSetup : Type := mkSetup {
  zoomControl : bool;
  minZoom : Z;
  maxZoom : Z;
  center : LatLng;
  zoom : Z;
  tiles : TileLayer;
}.

Definition voyager : TileLayer :=
  mkTileLayer "https://{s}.basemaps.cartocdn.com/rastertiles/voyager/{z}/{x}/{y}{r}.png"
    "abcd" 19.

(** The map centred on the Strait of Gibraltar. *)
Definition gibraltar : MapSetup := mkSetup false 10 18 (36, -(54 # 10)) 10 voyager.

Record Component : Type := mkComponent {
  isMapLoaded : bool;          (* [useState(false)], line 30 *)
  leaflet : bool;              (* [window.L] is defined *)
  loading : bool;              (* the promise of [import('leaflet')] is pending *)
  mapRef : bool;               (* [mapRef.current]: the [div] is attached *)
  setup : option MapSetup;
  refs : ViewerState;          (* lines 24-29 *)
}.

(** The refs as [useRef] creates them. *)
Definition unmountedRefs : ViewerState := mkState None [] [] None false None 0.

Definition setIsMapLoaded (b : bool) (c : Component) : Component :=
  mkComponent b (leaflet c) (loading c) (mapRef c) (setup c) (refs c).

Definition setLeaflet (b : bool) (c : Component) : Component :=
  mkComponent (isMapLoaded c) b (loading c) (mapRef c) (setup c) (refs c).

Definition setLoading (b : bool) (c : Component) : Component :=
  mkComponent (isMapLoaded c) (leaflet c) b (mapRef c) (setup c) (refs c).

Definition setRefs (st : ViewerState) (c : Component) : Component :=
  mkComponent (isMapLoaded c) (leaflet c) (loading c) (mapRef c) (setup c) st.

(** ** The effects *)

(** [loadLeaflet] up to its [await] (lines 34-36, 47): with [window.L]
    defined nothing is awaited and [isMapLoaded] is set at once. *)
Definition startLoad (c : Component) : Component :=
  if leaflet c then setIsMapLoaded true c else setLoading true c.

(** The map effect (lines 54-75), with the value of [isMapLoaded] its
    render saw. *)
Definition initMap (seenLoaded : bool) (c : Component) : Component :=
  if negb seenLoaded || negb (mapRef c) || bool_decide (is_Some (mapInstanceRef (refs c)))
  then c
  else if negb (leaflet c) then c
  else
    let st := refs c in
    mkComponent (isMapLoaded c) (leaflet c) (loading c) (mapRef c) (Some gibraltar)
      (mkState (Some (mkMap ∅ 0 None)) (markersRef st) (polylinesRef st) (tooltipRef st)
         (proximityActiveRef st) (currentPolylineRef st) (nextId st)).

(** The render after [setIsMapLoaded(true)]: the dependencies of the map
    effect changed, those of the selection effect did not. *)
Definition loadedCommit (c : Component) : Component := initMap (isMapLoaded c) c.

(** ** The page: [App] with its [MapViewer] (App.tsx, lines 100-104) *)

Record Page : Type := mkPage {
  pageApp : AppState;
  component : Component;
}.

Inductive PageEvent : Type :=
| ImportSettled (imported : bool)     (* the promise of line 36 is fulfilled or rejected *)
| UserAction (a : Action).

Section Lifecycle.
Context {surface : MapSurface}.

(** The first commit: the three effects in the order of the source, each
    with the state of the first render. *)
Definition firstCommit (s : AppState) (c : Component) : Component :=
  let seenLoaded := isMapLoaded c in
  let c1 := startLoad c in
  let c2 := initMap seenLoaded c1 in
  setRefs (selectionEffect (results s) (selectedJourneys s) (refs c2)) c2.

Definition mount (leafletPresent : bool) : Page :=
  let c := firstCommit initialApp (mkComponent false leafletPresent false true None unmountedRefs) in
  mkPage initialApp (if isMapLoaded c then loadedCommit c else c).

(** The rest of [loadLeaflet] (lines 37-47) when the import is fulfilled;
    when it is rejected the function ends there and nothing handles it. *)
Definition importSettled (imported : bool) (c : Component) : Component :=
  if loading c then
    if imported
    then loadedCommit (setIsMapLoaded true (setLeaflet true (setLoading false c)))
    else setLoading false c
  else c.

Definition pageStep (p : Page) (e : PageEvent) : Page :=
  match e with
  | ImportSettled imported => mkPage (pageApp p) (importSettled imported (component p))
  | UserAction a =>
      let sys := act a (mkSystem (pageApp p) (refs (component p))) in
      mkPage (app sys) (setRefs (viewer sys) (component p))
  end.

Definition pageRun (p : Page) (events : list PageEvent) : Page := foldl pageStep p events.

End Lifecycle.

(** ** Before the map *)

Section LifecycleFacts.
Context {surface : MapSurface}.
Implicit Types (s : AppState) (c : Component) (p : Page) (a : Action) (v st : ViewerState).

(** The state of [App] after an action does not depend on the viewer. *)
Lemma act_app a s v v' : app (act a (mkSystem s v)) = app (act a (mkSystem s v')).
Proof.
  destruct a; simpl; try reflexivity.
  - now destruct (_ || _).
  - now destruct (journeysOf _).
  - now destruct (pointerEvent e).
Qed.

(** Without a map every action leaves the refs as they are. *)
Lemma act_unmounted a s : viewer (act a (mkSystem s unmountedRefs)) = unmountedRefs.
Proof.
  destruct a; simpl; try reflexivity.
  - now destruct (_ || _).
  - now destruct (journeysOf _).
  - destruct (pointerEvent e); [|reflexivity]. now destruct e.
Qed.

Lemma foldl_act_app (actions : list Action) s v v' :
  app (foldl (fun sys a => act a sys) (mkSystem s v) actions) =
  app (foldl (fun sys a => act a sys) (mkSystem s v') actions).
Proof.
  induction actions as [|a actions IH] using rev_ind; [reflexivity|].
  rewrite !foldl_app. simpl.
  destruct (foldl _ (mkSystem s v) actions) as [s1 v1], (foldl _ (mkSystem s v') actions) as [s2 v2].
  simpl in IH. subst s2. apply act_app.
Qed.

(** The pages in which the map is still to come. *)
Definition Unloaded p : Prop :=
  refs (component p) = unmountedRefs /\ isMapLoaded (component p) = false /\
  setup (component p) = None /\ mapRef (component p) = true.

Lemma pageStep_user_Unloaded p a : Unloaded p -> Unloaded (pageStep p (UserAction a)).
Proof.
  intros (Hr & Hl & Hs & Hd). unfold Unloaded. simpl. rewrite Hr, act_unmounted. auto.
Qed.

Lemma pageRun_users_Unloaded p (actions : list Action) :
  Unloaded p -> Unloaded (pageRun p (UserAction <$> actions)).
Proof.
  intros Hp. unfold pageRun. induction actions as [|a actions IH] using rev_ind; [exact Hp|].
  rewrite fmap_app, foldl_app. now apply pageStep_user_Unloaded.
Qed.

Lemma pageRun_users_app p (actions : list Action) :
  pageApp (pageRun p (UserAction <$> actions)) =
  app (foldl (fun sys a => act a sys) (mkSystem (pageApp p) (refs (component p))) actions).
Proof.
  unfold pageRun. induction actions as [|a actions IH] using rev_ind; [reflexivity|].
  rewrite fmap_app, !foldl_app. simpl. rewrite IH.
  destruct (foldl (fun sys a0 => act a0 sys) _ actions) as [s v]. apply act_app.
Qed.

(** On a page with a map the user actions are the actions of [App]. *)
Lemma pageRun_users p (actions : list Action) :
  let sys := foldl (fun sys a => act a sys) (mkSystem (pageApp p) (refs (component p))) actions in
  pageRun p (UserAction <$> actions) = mkPage (app sys) (setRefs (viewer sys) (component p)).
Proof.
  unfold pageRun. induction actions as [|a actions IH] using rev_ind.
  - destruct p as [s []]. reflexivity.
  - rewrite fmap_app, !foldl_app. simpl. rewrite IH. simpl.
    now destruct (foldl (fun sys a0 => act a0 sys) _ actions) as [s v].
Qed.

Lemma importSettled_Unloaded c :
  refs c = unmountedRefs -> mapRef c = true -> loading c = true ->
  refs (importSettled true c) = initialState /\ setup (importSettled true c) = Some gibraltar.
Proof.
  intros Hr Hd Hl. unfold importSettled, loadedCommit, initMap. rewrite Hl. simpl.
  rewrite Hr, Hd. simpl. auto.
Qed.

(** ** With the map *)

Lemma act_Ready a sys : Ready (viewer sys) -> Ready (viewer (act a sys)).
Proof.
  intros Hr. destruct a; simpl; try exact Hr; try (now apply selectionEffect_Ready).
  - destruct (_ || _); [exact Hr | now apply selectionEffect_Ready].
  - destruct (journeysOf _); [now apply selectionEffect_Ready | exact Hr].
  - now apply selectionEffect_Ready, clearMap_Ready.
  - destruct (pointerEvent e); [now apply handle_Ready | exact Hr].
Qed.

(** The pages that have their map. *)
Definition Loaded p : Prop :=
  Ready (refs (component p)) /\ setup (component p) = Some gibraltar /\
  loading (component p) = false.

Lemma pageStep_Loaded p (e : PageEvent) : Loaded p -> Loaded (pageStep p e).
Proof.
  intros (Hr & Hs & Hl). destruct e as [imported|a]; unfold Loaded; simpl.
  - unfold importSettled. rewrite Hl. auto.
  - split_and!; auto. apply (act_Ready a (mkSystem _ _)), Hr.
Qed.

Lemma pageRun_Loaded p (events : list PageEvent) : Loaded p -> Loaded (pageRun p events).
Proof.
  intros Hp. unfold pageRun. induction events as [|e events IH] using rev_ind; [exact Hp|].
  rewrite foldl_app. now apply pageStep_Loaded.
Qed.

Lemma pageRun_users_loading p (actions : list Action) :
  loading (component (pageRun p (UserAction <$> actions))) = loading (component p).
Proof. now rewrite pageRun_users. Qed.

Lemma Ready_initialState : Ready initialState.
Proof. apply (reachable_inv initialState). constructor. Qed.

Lemma loading_initMap (seenLoaded : bool) c : loading (initMap seenLoaded c) = loading c.
Proof. unfold initMap. destruct (_ || _); [reflexivity|]. now destruct (negb _). Qed.

Lemma loadedCommit_leaflet c : leaflet (loadedCommit c) = leaflet c.
Proof.
  unfold loadedCommit, initMap. destruct (_ || _); [reflexivity|]. now destruct (negb _).
Qed.

Lemma importSettled_Loaded p :
  Unloaded p -> loading (component p) = true -> Loaded (pageStep p (ImportSettled true)).
Proof.
  intros (Hr & _ & _ & Hd) Hl.
  destruct (importSettled_Unloaded (component p) Hr Hd Hl) as [Hrefs Hsetup].
  unfold Loaded. simpl. rewrite Hrefs, Hsetup. split_and!; [apply Ready_initialState | reflexivity|].
  unfold importSettled, loadedCommit. rewrite Hl. apply loading_initMap.
Qed.

End LifecycleFacts.

(** ** Theorems *)

Section LifecycleTheorems.
Context {surface : MapSurface}.
Implicit Types (p : Page) (actions : list Action).

(** With Leaflet already there, the component is mounted with its map:
    the refs are those of [RenderSet.initialState], the map is centred on
    the Strait of Gibraltar at zoom 10, inside the zoom range allowed. *)
Theorem mount_with_leaflet :
  let p := mount true in
  pageApp p = initialApp /\ refs (component p) = initialState /\
  setup (component p) = Some gibraltar /\
  (minZoom gibraltar <= zoom gibraltar <= maxZoom gibraltar)%Z.
Proof. split_and!; try reflexivity; vm_compute; discriminate. Qed.

(** [App.System] is the page whose map exists before the user acts,
    because Leaflet was present at mount or because the import ended
    first: after any actions the two hold the same state of [App] and the
    same refs. *)
Theorem page_refines_app actions (present : bool) :
  let events := if present then UserAction <$> actions
                else ImportSettled true :: (UserAction <$> actions) in
  let p := pageRun (mount present) events in
  pageApp p = app (runApp actions) /\ refs (component p) = viewer (runApp actions).
Proof.
  destruct present; simpl; rewrite pageRun_users; simpl; auto.
Qed.

(** Until the import ends nothing reaches the map: whatever the user
    does, the refs stay as [useRef] created them, while [App] changes as it
    does with a map. *)
Theorem unloaded_page_inert actions :
  let p := pageRun (mount false) (UserAction <$> actions) in
  refs (component p) = unmountedRefs /\ pageApp p = app (runApp actions).
Proof.
  simpl. split.
  - apply (pageRun_users_Unloaded (mount false) actions). repeat split.
  - rewrite pageRun_users_app. apply foldl_act_app.
Qed.

(** C19. The selection effect depends on the props alone (line 635), so it
    does not run in the render that creates the map.  When the import ends
    after the user has acted, the map is created empty whatever is
    selected, and stays so until the selection or the results change. *)
Theorem late_map_is_empty actions :
  let p := pageRun (mount false) ((UserAction <$> actions) ++ [ImportSettled true]) in
  refs (component p) = initialState /\ pageApp p = app (runApp actions).
Proof.
  simpl. unfold pageRun. rewrite foldl_app. simpl.
  destruct (pageRun_users_Unloaded (mount false) actions) as (Hr & Hl & Hs & Hd);
    [repeat split|].
  pose proof (pageRun_users (mount false) actions) as Hrun. simpl in Hrun.
  unfold pageRun in *. rewrite Hrun in *. simpl in *. split; [|apply foldl_act_app].
  apply importSettled_Unloaded; auto.
Qed.

(** When the import is rejected the map is never created: no later
    event changes the refs, and [App] goes on as if nothing had happened. *)
Theorem failed_import_no_map actions :
  let p := pageRun (mount false) (ImportSettled false :: (UserAction <$> actions)) in
  refs (component p) = unmountedRefs /\ isMapLoaded (component p) = false /\
  pageApp p = app (runApp actions).
Proof.
  simpl. split_and!.
  - apply (pageRun_users_Unloaded _ actions). repeat split.
  - apply (pageRun_users_Unloaded _ actions). repeat split.
  - rewrite pageRun_users_app. apply foldl_act_app.
Qed.

(** C33. The map arrives and stays: whatever the user did while Leaflet
    was loading, once the import is fulfilled the page has its map, and
    after every later event it still has it, with the refs coherent. *)
Theorem map_arrives_and_stays actions (events : list PageEvent) :
  let p := pageRun (mount false)
             ((UserAction <$> actions) ++ ImportSettled true :: events) in
  is_Some (mapInstanceRef (refs (component p))) /\
  Tracked (refs (component p)) /\ SessionInv (refs (component p)) /\
  setup (component p) = Some gibraltar.
Proof.
  cbv zeta. unfold pageRun. rewrite foldl_app. cbn [foldl].
  destruct (pageRun_Loaded
              (pageStep (pageRun (mount false) (UserAction <$> actions)) (ImportSettled true))
              events) as ((Ht & Hs & Hm) & Hg & _); [|auto].
  apply importSettled_Loaded.
  - apply pageRun_users_Unloaded. repeat split.
  - now rewrite pageRun_users_loading.
Qed.

End LifecycleTheorems.

(** ** A late map *)

(** The sample with a slow network: the file is processed and every
    journey selected while Leaflet loads.  When the import ends the map is
    created with no path on it although two journeys are selected; the
    next change of the selection draws what is selected then. *)
Theorem late_map_scenario :
  let selecting := [FilesPicked (Some [sampleFile]); ProcessClicked sampleResults; AllSelected] in
  let late := pageRun (surface := manhattanSurface) (mount false)
                ((UserAction <$> selecting) ++ [ImportSettled true]) in
  let next := pageStep (surface := manhattanSurface) late (UserAction (JourneyToggled 2)) in
  selectedJourneys (pageApp late) = {[1%Z; 2%Z]} /\
  polylinesRef (refs (component late)) = [] /\
  length (rendered (results (pageApp late)) (selectedJourneys (pageApp late))).2 = 2%nat /\
  (fun p => (journeyIndex (intervalData p), intervalNumber (intervalData p)))
    <$> polylinesRef (refs (component next)) = [(Some 1%Z, 1%Z)].
Proof. vm_compute. split_and!; reflexivity. Qed.
