(* ===== verification/Processing.v ===== *)
(** * Processing in two steps

    [handleProcessFiles] (App.tsx, lines 21-35) is asynchronous: it tests
    its guard, calls [csvProcessor.processFiles(files)] with the files of
    its render and waits; when the promise settles it hides the uploader if
    the result is a success with data.  Between the two the page is live:
    the user can do whatever the components then mounted allow.

    [App.handleProcessFiles] runs the two halves in one step.  This file
    splits them: [beginProcess] is the handler up to its [await],
    [endProcess] what follows it, and a [Flight] is the system with the
    files of the call that has not settled.  The hook is not among the
    sources; what is taken from it is what its names promise:
    [isProcessing] is true exactly while a call of [processFiles] has not
    settled, and [results] is what the call was fulfilled with.

    Theorems: a click answered at once is the step of [App]; a call is in
    flight exactly while [isProcessing] holds, so at most one is; during
    the flight the uploader stays, nothing is selected and neither the
    process button nor the reset button can be used; when the call is
    fulfilled with data the uploader goes and the results are those of the
    call; the files listed may by then differ from the files sent. *)

From Stdlib Require Import QArith.
From stdpp Require Import prelude gmap strings.
From S2P Require Import Prelude Machine DataModel Surface Extractor Tooltip RenderSet Proximity Uploader App Views.

(** ** The two halves of [handleProcessFiles] *)

(** How the promise of [csvProcessor.processFiles(files)] settles. *)
Inductive Settlement : Type :=
| Fulfilled (result : option CSVIntervalResult)
| Rejected.

(** The hook sets its [isProcessing]. *)
Definition setIsProcessing (b : bool) (s : AppState) : AppState :=
  mkApp (files s) (showUploader s) (selectedJourneys s) (showStats s) (activeStatsView s)
    (results s) b.

(** The system, with the files passed to the call of the hook that has
    not settled. *)
Record Flight : Type := mkFlight {
  ground : System;
  inFlight : option (list File);
}.

Definition initialFlight : Flight := mkFlight initialSystem None.

(** The user, or the promise. *)
Inductive FlightEvent : Type :=
| UserDid (a : Action)
| Settled (settlement : Settlement).

Section Processing.
Context {surface : MapSurface}.

(** Lines 21-26: the guard and the call.  The handler reads [files] and
    [isProcessing] as its render captured them; it runs on a click, which
    React renders before it handles the next, so these are the values of
    the state when the click is handled. *)
Definition beginProcess (f : Flight) : Flight :=
  let s := app (ground f) in
  if bool_decide (length (files s) = 0%nat) || isProcessing s then f
  else mkFlight (mkSystem (setIsProcessing true s) (viewer (ground f))) (Some (files s)).

(** Lines 26-35: what runs when the promise settles.  A rejection is
    caught by the empty [catch]. *)
Definition endProcess (settlement : Settlement) (f : Flight) : Flight :=
  match inFlight f with
  | None => f
  | Some _ =>
      let s := setIsProcessing false (app (ground f)) in
      match settlement with
      | Fulfilled result =>
          let published := setResults result s in
          let s' := match result with
                    | Some r => if success r && bool_decide (is_Some (data r))
                                then setShowUploader false published else published
                    | None => published
                    end in
          mkFlight (render s' (viewer (ground f))) None
      | Rejected => mkFlight (mkSystem s (viewer (ground f))) None
      end
  end.

(** A click on the process button starts the call, whatever result the
    action of [App] carries; every other action is the step of [App]. *)
Definition flightStep (f : Flight) (e : FlightEvent) : Flight :=
  match e with
  | UserDid (ProcessClicked _) => beginProcess f
  | UserDid a => mkFlight (act a (ground f)) (inFlight f)
  | Settled settlement => endProcess settlement f
  end.

(** The user can do what the view offers; the promise settles when there
    is one. *)
Definition enabledIn (f : Flight) (e : FlightEvent) : bool :=
  match e with
  | UserDid a => available (app (ground f)) a
  | Settled _ => bool_decide (is_Some (inFlight f))
  end.

#[export] Instance flightMachine : Machine Flight FlightEvent := {|
  start := initialFlight;
  allowed := enabledIn;
  advance := flightStep;
|}.

Definition flightReachable : Flight -> Prop := reach flightMachine.

Definition flightRun (events : list FlightEvent) (f : Flight) : option Flight :=
  runs flightMachine events f.

(** The run of [App] as a flight: every click is answered at once. *)
Definition answeredAtOnce (a : Action) : list FlightEvent :=
  match a with
  | ProcessClicked result => [UserDid a; Settled (Fulfilled result)]
  | _ => [UserDid a]
  end.

End Processing.

(** ** The invariant of a flight *)

Record FlightInv {surface : MapSurface} (f : Flight) : Prop := mkFlightInv {
  flight_processing : isProcessing (app (ground f)) = bool_decide (is_Some (inFlight f));
  flight_uploader : is_Some (inFlight f) -> showUploader (app (ground f)) = true;
  flight_sent : inFlight f <> Some [];
  flight_app : AppInv (app (ground f));
  flight_system : SystemInv (ground f);
}.

Section ProcessingFacts.
Context {surface : MapSurface}.
Implicit Types (s : AppState) (f : Flight) (a : Action) (e : FlightEvent).

Definition processClick a : bool :=
  match a with ProcessClicked _ => true | _ => false end.

Lemma setIsProcessing_same s : setIsProcessing (isProcessing s) s = s.
Proof. now destruct s. Qed.

Lemma handlerOf_isProcessing a s : isProcessing (handlerOf a s) = isProcessing s.
Proof.
  destruct a; simpl; try reflexivity.
  - unfold handleProcessFiles. destruct (_ || _); [reflexivity|].
    destruct result as [r|]; [destruct (_ && _)|]; reflexivity.
  - unfold selectAllJourneys. now destruct (journeysOf _).
Qed.

(** While the uploader is shown no action but the click on the process
    button can hide it. *)
Lemma handlerOf_showUploader a s :
  available s a = true -> processClick a = false -> showUploader s = true ->
  showUploader (handlerOf a s) = true.
Proof.
  intros Hav Hc Hu.
  destruct (selectorAction a) eqn:Hsel.
  - pose proof (available_selector s a Hav Hsel). congruence.
  - destruct a as [| | | | | | | | |[]| |]; try discriminate; exact Hu.
Qed.

Lemma flightStep_user a f :
  processClick a = false -> flightStep f (UserDid a) = mkFlight (act a (ground f)) (inFlight f).
Proof. now destruct a. Qed.

Lemma FlightInv_initial : FlightInv initialFlight.
Proof.
  split; simpl; try discriminate.
  - reflexivity.
  - now intros [? [=]].
  - split; [reflexivity | discriminate].
  - apply (runApp_inv []).
Qed.

Lemma beginProcess_inv f :
  available (app (ground f)) (ProcessClicked None) = true -> FlightInv f ->
  FlightInv (beginProcess f) /\ inFlight (beginProcess f) = Some (files (app (ground f))).
Proof.
  intros Hav [Hp Hu Hsent Happ Hsys].
  destruct (available_process _ _ Hav) as (Hshown & Hfiles & Hnot).
  unfold beginProcess. rewrite Hnot, orb_false_r.
  rewrite bool_decide_eq_false_2 by (now rewrite length_zero_iff_nil).
  split; [|reflexivity]. split; simpl; auto. congruence.
Qed.

Lemma AppInv_shown s : showUploader s = true -> selectedJourneys s = ∅ -> AppInv s.
Proof. intros Hu Hsel. split; [auto | congruence]. Qed.

(** What [endProcess] leaves in [App] when the call is fulfilled. *)
Definition published (result : option CSVIntervalResult) s : AppState :=
  let s' := setResults result (setIsProcessing false s) in
  match result with
  | Some r => if success r && bool_decide (is_Some (data r))
              then setShowUploader false s' else s'
  | None => s'
  end.

Lemma published_cases result s :
  (exists r d, result = Some r /\ success r = true /\ data r = Some d /\
     published result s = setShowUploader false (setResults result (setIsProcessing false s))) \/
  published result s = setResults result (setIsProcessing false s).
Proof.
  unfold published. destruct result as [r|]; [|now right].
  destruct (success r) eqn:Hs; [|now right]. simpl.
  destruct (data r) as [d|] eqn:Hd.
  - left. exists r, d. rewrite bool_decide_eq_true_2 by eauto. auto.
  - right. rewrite bool_decide_eq_false_2; [reflexivity|]. now intros [? [=]].
Qed.

Lemma published_data r d s :
  success r = true -> data r = Some d ->
  published (Some r) s = setShowUploader false (setResults (Some r) (setIsProcessing false s)).
Proof.
  intros Hs Hd. unfold published. now rewrite Hs, Hd, bool_decide_eq_true_2 by eauto.
Qed.

Lemma endProcess_fulfilled result f sent :
  inFlight f = Some sent ->
  endProcess (Fulfilled result) f =
  mkFlight (render (published result (app (ground f))) (viewer (ground f))) None.
Proof. intros Hsent. unfold endProcess. now rewrite Hsent. Qed.

Lemma published_AppInv result s :
  showUploader s = true -> selectedJourneys s = ∅ ->
  AppInv (published result s) /\ isProcessing (published result s) = false.
Proof.
  intros Hu Hsel.
  destruct (published_cases result s) as [(r & d & -> & Hs & Hd & ->) | ->]; simpl.
  - split; [|reflexivity]. split; [discriminate | simpl; eauto].
  - split; [|reflexivity]. now apply AppInv_shown.
Qed.

Lemma endProcess_inv settlement f :
  is_Some (inFlight f) -> FlightInv f -> FlightInv (endProcess settlement f).
Proof.
  intros [sent Hsent] [Hp Hu _ [Hsel _] [Hready Hshape]].
  specialize (Hu (ex_intro _ sent Hsent)). specialize (Hsel Hu).
  destruct settlement as [result|].
  - rewrite (endProcess_fulfilled result f sent Hsent).
    destruct (published_AppInv result (app (ground f)) Hu Hsel) as [Happ Hnot].
    split; simpl; try discriminate; auto; try (now intros [? [=]]). now apply render_inv.
  - unfold endProcess. rewrite Hsent.
    split; simpl; try discriminate; auto; try (now intros [? [=]]);
      [now apply AppInv_shown | now split].
Qed.

Lemma user_inv a f :
  processClick a = false -> available (app (ground f)) a = true -> FlightInv f ->
  FlightInv (mkFlight (act a (ground f)) (inFlight f)).
Proof.
  intros Hc Hav [Hp Hu Hsent Happ Hsys]. split; simpl; rewrite ?app_act; auto.
  - now rewrite handlerOf_isProcessing.
  - intros Hin. apply handlerOf_showUploader; auto.
  - now apply handlerOf_AppInv.
  - now apply act_inv.
Qed.

Lemma flightStep_inv f e : FlightInv f -> enabledIn f e = true -> FlightInv (flightStep f e).
Proof.
  intros Hinv Hen. destruct e as [a|settlement]; simpl in Hen.
  - destruct (processClick a) eqn:Hc.
    + destruct a; try discriminate. apply beginProcess_inv; [|exact Hinv].
      erewrite <- Hen. reflexivity.
    + rewrite flightStep_user by exact Hc. now apply user_inv.
  - apply endProcess_inv; [|exact Hinv]. now apply bool_decide_eq_true in Hen.
Qed.

Lemma FlightInv_invariant : Invariant flightMachine FlightInv.
Proof. split; [apply FlightInv_initial | apply flightStep_inv]. Qed.

Lemma flightReachable_inv f : flightReachable f -> FlightInv f.
Proof. apply invariant_reach, FlightInv_invariant. Qed.

(** One click answered at once. *)
Lemma answered_at_once a (sys : System) :
  isProcessing (app sys) = false ->
  foldl flightStep (mkFlight sys None) (answeredAtOnce a) = mkFlight (act a sys) None.
Proof.
  intros Hp. destruct a; try reflexivity. destruct sys as [s v]. simpl in *.
  unfold beginProcess, endProcess, handleProcessFiles. simpl. rewrite Hp, orb_false_r.
  destruct (bool_decide (length (files s) = 0%nat)); simpl; [reflexivity|].
  unfold render. f_equal. f_equal; destruct s; simpl in *; subst; reflexivity.
Qed.

Lemma act_isProcessing a (sys : System) : isProcessing (app (act a sys)) = isProcessing (app sys).
Proof. rewrite app_act. apply handlerOf_isProcessing. Qed.

Lemma answered_at_once_run (actions : list Action) (sys : System) :
  isProcessing (app sys) = false ->
  foldl flightStep (mkFlight sys None) (actions ≫= answeredAtOnce) =
  mkFlight (foldl (fun sys a => act a sys) sys actions) None.
Proof.
  revert sys. induction actions as [|a actions IH]; intros sys Hp; [reflexivity|].
  rewrite bind_cons, foldl_app, answered_at_once by exact Hp. simpl.
  apply IH. now rewrite act_isProcessing.
Qed.

(** The screens of [Views], where a click is answered in the step, are
    the flights with nothing in flight. *)
Definition grounded (sc : Screen) f : Prop := f = mkFlight (system sc) None.

(** Where a click is answered in the step the hook is never seen at work. *)
Lemma user_never_processing sc : userReachable sc -> isProcessing (app (system sc)) = false.
Proof.
  revert sc. apply invariant_reach. split; [reflexivity|].
  intros sc a Hp _. simpl. now rewrite act_isProcessing.
Qed.

Lemma user_simulation : Simulation userMachine flightMachine grounded answeredAtOnce.
Proof.
  split; [reflexivity|]. intros sc f a Hsc -> Hav. simpl in Hav.
  pose proof (user_never_processing sc Hsc) as Hp.
  exists (mkFlight (act a (system sc)) None). split; [|reflexivity].
  rewrite <- (answered_at_once a (system sc) Hp).
  destruct a; simpl; rewrite Hav; try reflexivity.
  destruct (available_process _ _ Hav) as (_ & Hfiles & _).
  unfold beginProcess. simpl. rewrite Hp, orb_false_r.
  destruct (bool_decide (length (files (app (system sc))) = 0%nat)) eqn:Hlen; [|reflexivity].
  apply bool_decide_eq_true, length_zero_iff_nil in Hlen. contradiction.
Qed.

End ProcessingFacts.

(** ** Theorems *)

Section ProcessingTheorems.
Context {surface : MapSurface}.

(** The step of [App] is the flight in which every call is fulfilled
    before anything else happens: running the actions one by one, each
    click on the process button followed at once by its answer, gives the
    system [App.runApp] gives, with no call in flight. *)
Theorem flight_refines_app (actions : list Action) :
  foldl flightStep initialFlight (actions ≫= answeredAtOnce) = mkFlight (runApp actions) None.
Proof. now apply answered_at_once_run. Qed.

(** The screens of [Views] are flights: every state the user reaches
    where a click is answered in the step is a state reached where the
    call is in flight in between, with nothing in flight. *)
Theorem screens_are_flights sc :
  userReachable sc -> flightReachable (mkFlight (system sc) None).
Proof.
  intros Hsc. destruct (simulation_reach _ _ _ _ user_simulation sc Hsc) as (f & Hf & ->).
  exact Hf.
Qed.

(** C25. One call at a time: in every state the user and the hook can
    reach, [isProcessing] holds exactly while a call is in flight; and
    during the flight the uploader is shown, nothing is selected, nothing
    is drawn on the map, and neither the process button nor the reset
    button can be used. *)
Theorem processing_is_exclusive f :
  flightReachable f ->
  (isProcessing (app (ground f)) = true <-> is_Some (inFlight f)) /\
  (is_Some (inFlight f) ->
   showUploader (app (ground f)) = true /\ selectedJourneys (app (ground f)) = ∅ /\
   shape (viewer (ground f)) = ([], []) /\
   (forall result, available (app (ground f)) (ProcessClicked result) = false) /\
   available (app (ground f)) ResetClicked = false).
Proof.
  intros Hr. destruct (flightReachable_inv f Hr) as [Hp Hu _ [Hsel _] [_ Hshape]]. split.
  - rewrite Hp. apply bool_decide_eq_true.
  - intros Hin. specialize (Hu Hin). specialize (Hsel Hu). split_and!; auto.
    + now rewrite Hshape, Hsel, rendered_empty.
    + intros result. apply not_true_is_false. intros Hav.
      destruct (available_process _ _ Hav) as (_ & _ & Hnot).
      rewrite Hp, bool_decide_eq_true_2 in Hnot by exact Hin. discriminate.
    + apply not_true_is_false. intros Hav.
      pose proof (available_selector _ _ Hav eq_refl). congruence.
Qed.

(** When the call is fulfilled with data, the uploader is hidden,
    the results are those of the call, nothing is in flight, and the map
    is empty until a journey is selected. *)
Theorem fulfilled_with_data f r d :
  flightReachable f -> is_Some (inFlight f) -> success r = true -> data r = Some d ->
  let f' := flightStep f (Settled (Fulfilled (Some r))) in
  showUploader (app (ground f')) = false /\ results (app (ground f')) = Some r /\
  isProcessing (app (ground f')) = false /\ inFlight f' = None /\
  selectedJourneys (app (ground f')) = ∅ /\ shape (viewer (ground f')) = ([], []).
Proof.
  intros Hr [sent Hsent] Hs Hd.
  destruct (flightReachable_inv f Hr) as [_ Hu _ [Hsel _] [Hready _]].
  specialize (Hsel (Hu (ex_intro _ sent Hsent))).
  cbv zeta. simpl flightStep.
  rewrite (endProcess_fulfilled _ f sent Hsent), (published_data r d) by assumption.
  match goal with |- context [render ?s ?v] => destruct (render_inv s v Hready) as [_ Hshape] end.
  cbn [ground inFlight]. rewrite Hshape. simpl. rewrite Hsel, rendered_empty. repeat split.
Qed.

(** A call that is rejected, or fulfilled without data, leaves the
    uploader where it was: the user can click again. *)
Theorem rejected_can_retry f :
  flightReachable f -> is_Some (inFlight f) -> files (app (ground f)) <> [] ->
  let f' := flightStep f (Settled Rejected) in
  files (app (ground f')) = files (app (ground f)) /\
  available (app (ground f')) (ProcessClicked None) = true.
Proof.
  intros Hr Hin Hfiles. destruct (flightReachable_inv f Hr) as [_ Hu _ _ _].
  specialize (Hu Hin). cbv zeta. simpl. unfold endProcess. destruct Hin as [sent ->]. simpl.
  split; [reflexivity|]. unfold available, appView. simpl. rewrite Hu. simpl.
  rewrite bool_decide_eq_false_2 by (now rewrite length_zero_iff_nil). reflexivity.
Qed.

End ProcessingTheorems.

(** ** A flight in which the list changes

    The user picks a file and clicks; while the hook works the file is
    removed from the list and another is dropped.  The answer is for the
    file sent: the uploader goes, and the list behind it names a file the
    results know nothing of. *)

Definition otherFile : File := mkFile "later.csv" 2048 "text/csv".

Definition changingFlight : list FlightEvent :=
  [UserDid (FilesPicked (Some [sampleFile])); UserDid (ProcessClicked None);
   UserDid (FileRemoved 0); UserDid (FilesDropped [otherFile]);
   Settled (Fulfilled sampleResults)].

Theorem files_change_in_flight :
  (inFlight <$> flightRun (surface := manhattanSurface) (take 4 changingFlight) initialFlight)
    = Some (Some [sampleFile]) /\
  ((fun f => (files (app (ground f)), showUploader (app (ground f)),
              isProcessing (app (ground f)), inFlight f, results (app (ground f))))
     <$> flightRun (surface := manhattanSurface) changingFlight initialFlight)
    = Some ([otherFile], false, false, None, sampleResults).
Proof. split; vm_compute; reflexivity. Qed.

Lemma changingFlight_reachable :
  match flightRun (surface := manhattanSurface) (take 2 changingFlight) initialFlight with
  | Some f => flightReachable (surface := manhattanSurface) f /\ inFlight f = Some [sampleFile]
  | None => False
  end.
Proof.
  destruct (flightRun (take 2 changingFlight) initialFlight) as [f|] eqn:Hrun;
    [|vm_compute in Hrun; discriminate].
  split; [exact (runs_reach _ _ _ (reach_start (M := flightMachine)) Hrun)|].
  vm_compute in Hrun. now injection Hrun as <-.
Qed.

Lemma processing_is_exclusive_witness :
  match flightRun (surface := manhattanSurface) (take 2 changingFlight) initialFlight with
  | Some f =>
      (isProcessing (app (ground f)) = true <-> is_Some (inFlight f)) /\
      (is_Some (inFlight f) ->
       showUploader (app (ground f)) = true /\ selectedJourneys (app (ground f)) = ∅ /\
       shape (viewer (ground f)) = ([], []) /\
       (forall result, available (app (ground f)) (ProcessClicked result) = false) /\
       available (app (ground f)) ResetClicked = false)
  | None => False
  end.
Proof.
  pose proof changingFlight_reachable as Hr.
  destruct (flightRun (take 2 changingFlight) initialFlight) as [f|]; [|exact Hr].
  apply (processing_is_exclusive (surface := manhattanSurface) f), Hr.
Defined.

Lemma fulfilled_with_data_witness :
  match flightRun (surface := manhattanSurface) (take 2 changingFlight) initialFlight,
        sampleResults with
  | Some f, Some r =>
      let f' := flightStep (surface := manhattanSurface) f (Settled (Fulfilled (Some r))) in
      showUploader (app (ground f')) = false /\ results (app (ground f')) = Some r /\
      isProcessing (app (ground f')) = false /\ inFlight f' = None /\
      selectedJourneys (app (ground f')) = ∅ /\ shape (viewer (ground f')) = ([], [])
  | _, _ => False
  end.
Proof.
  pose proof changingFlight_reachable as Hr.
  destruct (flightRun (take 2 changingFlight) initialFlight) as [f|]; [|exact Hr].
  destruct Hr as [Hr Hin]. destruct sampleResults as [r|] eqn:Hsample; [|discriminate].
  destruct (data r) as [d|] eqn:Hd;
    [|vm_compute in Hsample; injection Hsample as <-; discriminate].
  apply (fulfilled_with_data (surface := manhattanSurface) f r d Hr);
    [rewrite Hin; eauto | | exact Hd].
  vm_compute in Hsample. injection Hsample as <-. reflexivity.
Defined.

