(* ===== verification/Session.v ===== *)
(** * Session: the page with everything in motion

    [Lifecycle] has the map arriving while the user acts, with the call of
    the hook answered at once; [Processing] has the call in flight, with
    the map there from the start.  A [Session] has both: the component of
    [MapViewer] with its import pending or settled, the state of [App], and
    the files of the call of [handleProcessFiles] that has not settled.  Its
    events are the end of the import (MapViewer.tsx, lines 36-47), the
    actions of the user on what is mounted (App.tsx, lines 97-184), and the
    answer of the hook (App.tsx, lines 26-35).

    The session is the machine the other systems are views of.  Seen from
    [App] it is a flight: the import changes nothing [App] reads.  With
    Leaflet present at mount it is a flight altogether.  With Leaflet
    late, the map is created blank and shows the selection from the next
    event that draws; from then on it always does.

    The life of the map has three phases, [Loading], [Failed] and
    [Mapped]; only the end of the import leaves [Loading], and nothing
    leaves the other two. *)

From Stdlib Require Import QArith.
From stdpp Require Import prelude gmap strings.
From S2P Require Import Prelude Machine DataModel Surface Extractor Tooltip RenderSet Proximity.
From S2P Require Import Uploader App Views Lifecycle Processing.

#[local] Set Warnings "-clear-no-such-hyp".

(** ** The machine *)

Record Session : Type := mkSession {
  page : Page;
  pending : option (list File);    (* the files of the call that has not settled *)
}.

Inductive SessionEvent : Type :=
| Imported (imported : bool)          (* the promise of [import('leaflet')] settles *)
| Did (a : Action)                    (* a callback of a mounted component *)
| Answered (settlement : Settlement). (* the promise of [processFiles] settles *)

(** Where the map stands. *)
Inductive Phase : Type :=
| Loading
| Failed
| Mapped.

Definition phase (c : Component) : Phase :=
  if bool_decide (is_Some (mapInstanceRef (refs c))) then Mapped
  else if loading c then Loading else Failed.

(** The events after which the selection effect of [MapViewer] runs: the
    handlers that set the selection, and the hook publishing its results. *)
Definition redraws (e : SessionEvent) : bool :=
  match e with
  | Did (JourneyToggled _ | AllSelected | AllDeselected | JourneysToggled _ | ResetClicked) => true
  | Answered (Fulfilled _) => true
  | _ => false
  end.

Section Session.
Context {surface : MapSurface}.

(** The flight a session is, the map apart: [App] with the refs. *)
Definition flightOf (s : Session) : Flight :=
  mkFlight (mkSystem (pageApp (page s)) (refs (component (page s)))) (pending s).

(** A step of the flight, back in the session: it sets the state of [App]
    and the refs, and nothing else of the component. *)
Definition landed (f : Flight) (s : Session) : Session :=
  mkSession (mkPage (app (ground f)) (setRefs (viewer (ground f)) (component (page s))))
    (inFlight f).

Definition sessionStep (s : Session) (e : SessionEvent) : Session :=
  match e with
  | Imported imported => mkSession (pageStep (page s) (ImportSettled imported)) (pending s)
  | Did a => landed (flightStep (flightOf s) (UserDid a)) s
  | Answered settlement => landed (flightStep (flightOf s) (Settled settlement)) s
  end.

(** The import settles while it is pending; the user does what the view
    offers, and the pointer reaches the map only once there is one; the
    hook answers a call in flight. *)
Definition sessionAllowed (s : Session) (e : SessionEvent) : bool :=
  match e with
  | Imported _ => loading (component (page s))
  | Did (PointerEvent e') =>
      available (pageApp (page s)) (PointerEvent e') &&
      bool_decide (is_Some (mapInstanceRef (refs (component (page s)))))
  | Did a => available (pageApp (page s)) a
  | Answered _ => bool_decide (is_Some (pending s))
  end.

(** The first commit, with Leaflet on the page already or not. *)
Definition sessionStart (leafletPresent : bool) : Session :=
  mkSession (mount leafletPresent) None.

#[export] Instance sessionMachine (leafletPresent : bool) : Machine Session SessionEvent := {|
  start := sessionStart leafletPresent;
  allowed := sessionAllowed;
  advance := sessionStep;
|}.

(** The map shows what the props describe; the map shows nothing. *)
Definition Shown (s : Session) : Prop :=
  shape (refs (component (page s))) =
  rendered (results (pageApp (page s))) (selectedJourneys (pageApp (page s))).

Definition Blank (s : Session) : Prop := shape (refs (component (page s))) = ([], []).

End Session.

(** ** The session seen from [App] *)

(** The events of the flight a session event is: the import is none. *)
Definition seenByApp (e : SessionEvent) : list FlightEvent :=
  match e with
  | Imported _ => []
  | Did a => [UserDid a]
  | Answered settlement => [Settled settlement]
  end.

(** Two systems that agree on [App] and on the call in flight. *)
Definition sameApp (s : Session) (f : Flight) : Prop :=
  app (ground f) = pageApp (page s) /\ inFlight f = pending s.

(** What [Processing] proves of [App] in flight. *)
Record AppFacts (s : AppState) (sent : option (list File)) : Prop := mkAppFacts {
  facts_processing : isProcessing s = bool_decide (is_Some sent);
  facts_uploader : is_Some sent -> showUploader s = true;
  facts_app : AppInv s;
}.

Section SessionFacts.
Context {surface : MapSurface}.
Implicit Types (s : Session) (f : Flight) (e : SessionEvent) (a : Action) (b : bool).

Lemma flightOf_landed f s : flightOf (landed f s) = f.
Proof. now destruct f as [[]]. Qed.

(** [App] and the call in flight do not depend on the refs. *)
Lemma flightStep_sameApp f f' (e : FlightEvent) :
  app (ground f) = app (ground f') -> inFlight f = inFlight f' ->
  app (ground (flightStep f e)) = app (ground (flightStep f' e)) /\
  inFlight (flightStep f e) = inFlight (flightStep f' e).
Proof.
  destruct f as [[s v] sent], f' as [[s' v'] sent']. simpl. intros <- <-.
  destruct e as [a|settlement].
  - destruct a; simpl; try (split; [apply act_app | reflexivity]);
      try (split; reflexivity).
    + unfold beginProcess. simpl. now destruct (_ || _).
    + split; [|reflexivity]. now destruct (journeysOf _).
    + split; [|reflexivity]. now destruct (pointerEvent e).
  - simpl. unfold endProcess. simpl. destruct sent; [|auto].
    now destruct settlement.
Qed.

Lemma sessionAllowed_did s a :
  sessionAllowed s (Did a) = true -> available (pageApp (page s)) a = true.
Proof. destruct a; simpl; auto. now intros [? _]%andb_true_iff. Qed.

Lemma session_simulation b : Simulation (sessionMachine b) flightMachine sameApp seenByApp.
Proof.
  split; [now destruct b|].
  intros s f e _ [Happ Hsent] Hen. destruct e as [imported|a|settlement]; simpl.
  - exists f. split; [reflexivity|]. split; auto.
  - apply sessionAllowed_did in Hen. rewrite Happ, Hen.
    eexists. split; [reflexivity|].
    destruct (flightStep_sameApp f (flightOf s) (UserDid a)); [auto..|]. now split.
  - simpl in Hen. rewrite Hsent, Hen. eexists. split; [reflexivity|].
    destruct (flightStep_sameApp f (flightOf s) (Settled settlement)); [auto..|]. now split.
Qed.

Lemma session_AppFacts b s :
  reach (sessionMachine b) s -> AppFacts (pageApp (page s)) (pending s).
Proof.
  revert s. apply (simulation_transfer _ _ _ _ (session_simulation b) FlightInv
                     (fun s => AppFacts (pageApp (page s)) (pending s))).
  - apply flightReachable_inv.
  - intros c f [<- <-] [Hp Hu _ Happ _]. now split.
Qed.

(** ** The refs through an event *)

(** What an action of [App] does to a map: it draws the props, or it
    leaves the primitives and the props as they are. *)
Definition Kept (sys sys' : System) : Prop :=
  shape (viewer sys') = shape (viewer sys) /\ results (app sys') = results (app sys) /\
  selectedJourneys (app sys') = selectedJourneys (app sys).

Lemma act_draws_or_keeps a sys :
  Ready (viewer sys) -> SystemInv (act a sys) \/ Kept sys (act a sys).
Proof.
  intros Hr. destruct a; simpl;
    try (left; now apply render_inv); try (right; repeat split; reflexivity).
  - destruct (_ || _); [right; now repeat split | left; now apply render_inv].
  - destruct (journeysOf _); [left; now apply render_inv | right; now repeat split].
  - left. apply render_inv. now apply clearMap_Ready.
  - destruct (pointerEvent e) eqn:He; [|right; now repeat split].
    right. repeat split. simpl. now apply shape_handle_pointer.
Qed.

Lemma flightStep_draws_or_keeps f (e : FlightEvent) :
  Ready (viewer (ground f)) ->
  SystemInv (ground (flightStep f e)) \/ Kept (ground f) (ground (flightStep f e)).
Proof.
  intros Hr. destruct e as [a|settlement].
  - destruct (processClick a) eqn:Hc.
    + destruct a; try discriminate. right. simpl. unfold beginProcess.
      destruct (_ || _); now repeat split.
    + rewrite flightStep_user by exact Hc. now apply act_draws_or_keeps.
  - simpl. unfold endProcess. destruct (inFlight f); [|right; now repeat split].
    destruct settlement; [left; now apply render_inv | right; now repeat split].
Qed.

Lemma flightStep_Ready f (e : FlightEvent) :
  Ready (viewer (ground f)) -> Ready (viewer (ground (flightStep f e))).
Proof.
  intros Hr. destruct e as [a|settlement].
  - destruct (processClick a) eqn:Hc.
    + destruct a; try discriminate. simpl. unfold beginProcess. now destruct (_ || _).
    + rewrite flightStep_user by exact Hc. now apply act_Ready.
  - simpl. unfold endProcess. destruct (inFlight f); [|exact Hr].
    destruct settlement; [now apply selectionEffect_Ready | exact Hr].
Qed.

Lemma flightStep_unmounted f (e : FlightEvent) :
  viewer (ground f) = unmountedRefs -> viewer (ground (flightStep f e)) = unmountedRefs.
Proof.
  destruct f as [[s v] sent]. simpl. intros ->. destruct e as [a|settlement].
  - destruct (processClick a) eqn:Hc.
    + destruct a; try discriminate. simpl. unfold beginProcess. now destruct (_ || _).
    + rewrite flightStep_user by exact Hc. apply act_unmounted.
  - simpl. unfold endProcess. simpl. destruct sent; [|reflexivity]. now destruct settlement.
Qed.

(** An event that draws does draw: the one handler that may return early,
    [selectAllJourneys], is offered only when the results have journeys. *)
Lemma flightStep_draws f (e : FlightEvent) :
  Ready (viewer (ground f)) -> AppInv (app (ground f)) -> enabledIn f e = true ->
  match e with
  | UserDid a => redraws (Did a)
  | Settled settlement => redraws (Answered settlement)
  end = true ->
  SystemInv (ground (flightStep f e)).
Proof.
  intros Hr [_ Hres] Hen Hd. destruct e as [a|settlement]; simpl in Hen.
  - destruct a; try discriminate; simpl; try (now apply render_inv).
    + pose proof (available_selector _ _ Hen eq_refl) as Hu.
      destruct (Hres Hu) as (r & d & Hrs & _ & Hdata).
      unfold journeysOf. rewrite Hrs. simpl. rewrite Hdata. simpl. now apply render_inv.
    + apply render_inv. now apply clearMap_Ready.
  - destruct settlement; [|discriminate]. apply bool_decide_eq_true in Hen as [sent Hsent].
    simpl. unfold endProcess. rewrite Hsent. now apply render_inv.
Qed.

(** ** The invariant of the map *)

(** Without a map the refs are as [useRef] made them; with a map they are
    coherent and show the props or nothing; the import is pending only
    without a map. *)
Record MapInv s : Prop := mkMapInv {
  map_absent : mapInstanceRef (refs (component (page s))) = None -> Unloaded (page s);
  map_present :
    is_Some (mapInstanceRef (refs (component (page s)))) ->
    Loaded (page s) /\ (Shown s \/ Blank s);
  map_loading :
    loading (component (page s)) = true -> mapInstanceRef (refs (component (page s))) = None;
}.

Lemma MapInv_start b : MapInv (sessionStart b).
Proof.
  destruct b; split; simpl; try discriminate; try reflexivity.
  - intros _. split; [|left; reflexivity]. split_and!; [apply Ready_initialState | reflexivity..].
  - intros _. repeat split.
  - now intros [? [=]].
Qed.

Lemma MapInv_imported imported s :
  MapInv s -> loading (component (page s)) = true ->
  MapInv (sessionStep s (Imported imported)).
Proof.
  intros [Habsent _ Hloading] Hl. specialize (Habsent (Hloading Hl)).
  pose proof Habsent as (Hr & Hm & Hs & Hd). destruct imported.
  - pose proof (importSettled_Loaded (page s) Habsent Hl) as Hloaded.
    destruct (importSettled_Unloaded (component (page s)) Hr Hd Hl) as [Hrefs _].
    pose proof Hloaded as (_ & _ & Hnot).
    split; simpl in *; rewrite ?Hrefs, ?Hnot; try discriminate.
    intros _. split; [exact Hloaded | right]. unfold Blank. simpl. now rewrite Hrefs.
  - split; simpl; unfold importSettled; rewrite Hl; simpl; try discriminate.
    + intros _. now repeat split.
    + rewrite Hr. now intros [? [=]].
Qed.

(** An event of the flight changes the refs and nothing else of the
    component. *)
Lemma MapInv_landed s (e : FlightEvent) :
  MapInv s -> MapInv (landed (flightStep (flightOf s) e) s).
Proof.
  intros [Habsent Hpresent Hloading].
  destruct (mapInstanceRef (refs (component (page s)))) as [m|] eqn:Hm.
  - destruct (Hpresent (ex_intro _ m eq_refl)) as [(Hr & Hs & Hl) Hshown].
    pose proof (flightStep_Ready (flightOf s) e Hr) as Hr'.
    assert (Hsome : is_Some (mapInstanceRef (viewer (ground (flightStep (flightOf s) e)))))
      by apply Hr'.
    split; simpl.
    + intros Hn. rewrite Hn in Hsome. now destruct Hsome.
    + intros _. split; [now split_and!|].
      destruct (flightStep_draws_or_keeps (flightOf s) e Hr) as [[_ Hdrawn] | (Hk & Hres & Hsel)].
      * left. exact Hdrawn.
      * unfold Shown, Blank in *. simpl in *. rewrite Hk, Hres, Hsel. exact Hshown.
    + rewrite Hl. discriminate.
  - destruct (Habsent eq_refl) as (Hr & Hload & Hs & Hd).
    pose proof (flightStep_unmounted (flightOf s) e Hr) as Hr'.
    split; simpl; rewrite ?Hr'; simpl; auto.
    + intros _. now repeat split.
    + now intros [? [=]].
Qed.

(** Through an event of the flight a map stays, and so does its absence;
    a map that shows the props goes on showing them. *)
Lemma landed_phase s (e : FlightEvent) :
  MapInv s ->
  phase (component (page (landed (flightStep (flightOf s) e) s))) = phase (component (page s)).
Proof.
  intros [Habsent Hpresent _]. unfold phase. simpl.
  destruct (mapInstanceRef (refs (component (page s)))) as [m|] eqn:Hm.
  - destruct (Hpresent (ex_intro _ m eq_refl)) as [(Hr & _) _].
    destruct (flightStep_Ready (flightOf s) e Hr) as (_ & _ & Hsome).
    now rewrite !bool_decide_eq_true_2 by eauto.
  - destruct (Habsent eq_refl) as (Hr & _).
    rewrite (flightStep_unmounted (flightOf s) e Hr). reflexivity.
Qed.

Lemma landed_Shown s (e : FlightEvent) :
  Ready (refs (component (page s))) -> Shown s -> Shown (landed (flightStep (flightOf s) e) s).
Proof.
  intros Hr Hshown. unfold Shown in *. simpl.
  destruct (flightStep_draws_or_keeps (flightOf s) e Hr) as [[_ Hdrawn] | (Hk & Hres & Hsel)];
    [exact Hdrawn|]. simpl in *. now rewrite Hk, Hres, Hsel.
Qed.

Lemma MapInv_step s e : MapInv s -> sessionAllowed s e = true -> MapInv (sessionStep s e).
Proof.
  intros Hinv Hen. destruct e as [imported|a|settlement].
  - now apply MapInv_imported.
  - apply MapInv_landed, Hinv.
  - apply MapInv_landed, Hinv.
Qed.

Lemma MapInv_invariant b : Invariant (sessionMachine b) MapInv.
Proof. split; [apply MapInv_start | apply MapInv_step]. Qed.

End SessionFacts.

(** ** Theorems *)

Section SessionTheorems.
Context {surface : MapSurface}.
Implicit Types (s : Session) (e : SessionEvent) (b : bool).

Lemma session_MapInv b s : reach (sessionMachine b) s -> MapInv s.
Proof. apply invariant_reach, MapInv_invariant. Qed.

Lemma sessionAllowed_enabledIn s e :
  sessionAllowed s e = true -> forallb (enabledIn (flightOf s)) (seenByApp e) = true.
Proof.
  destruct e as [imported|a|settlement]; simpl; [reflexivity | |now intros ->].
  intros Hen. now rewrite (sessionAllowed_did s a Hen).
Qed.

(** Seen from [App] a session is a flight: whenever Leaflet arrives,
    or if it never does, the state of [App] and the call in flight are
    those of a state the flight of [Processing] reaches.  *)
Theorem session_app_is_flight b s :
  reach (sessionMachine b) s ->
  exists f, flightReachable f /\ app (ground f) = pageApp (page s) /\ inFlight f = pending s.
Proof. intros Hs. exact (simulation_reach _ _ _ _ (session_simulation b) s Hs). Qed.

(** The life of the map: an allowed event changes the phase only when
    it is the end of the import, which takes [Loading] to [Mapped] when the
    promise is fulfilled and to [Failed] when it is rejected.  [Failed]
    and [Mapped] are never left. *)
Theorem session_phases b s e :
  reach (sessionMachine b) s -> sessionAllowed s e = true ->
  phase (component (page (sessionStep s e))) =
  match e, phase (component (page s)) with
  | Imported true, Loading => Mapped
  | Imported false, Loading => Failed
  | _, ph => ph
  end.
Proof.
  intros Hs Hen. pose proof (session_MapInv b s Hs) as Hinv.
  pose proof (MapInv_step s e Hinv Hen) as [Habsent' _ Hloading'].
  pose proof Hinv as [Habsent Hpresent Hloading].
  destruct e as [imported|a|settlement]; [|now apply (landed_phase s (UserDid a))
                                          |now apply (landed_phase s (Settled settlement))].
  unfold phase in *.
  simpl in Hen.
  rewrite (bool_decide_eq_false_2 (is_Some (mapInstanceRef (refs (component (page s))))));
    [|rewrite (Hloading Hen); now intros [? [=]]].
  rewrite Hen. destruct (Habsent (Hloading Hen)) as (Hr & _ & _ & Hd).
  destruct imported; simpl.
  - destruct (importSettled_Unloaded _ Hr Hd Hen) as [-> _]. reflexivity.
  - unfold importSettled. rewrite Hen. simpl. rewrite Hr. reflexivity.
Qed.

(** C20. A map that does not show the props is blank, behind the journey
    selector, with journeys selected: never while the uploader is shown. *)
Theorem stale_only_behind_selector b s :
  reach (sessionMachine b) s -> is_Some (mapInstanceRef (refs (component (page s)))) ->
  ~ Shown s ->
  Blank s /\ showUploader (pageApp (page s)) = false /\ selectedJourneys (pageApp (page s)) <> ∅.
Proof.
  intros Hs Hm Hstale. destruct (session_MapInv b s Hs) as [_ Hpresent _].
  destruct (Hpresent Hm) as [_ [Hshown|Hblank]]; [contradiction|].
  destruct (session_AppFacts b s Hs) as [_ _ [Hsel _]].
  assert (Hne : selectedJourneys (pageApp (page s)) <> ∅).
  { intros Hempty. apply Hstale. unfold Shown. now rewrite Hblank, Hempty, rendered_empty. }
  split_and!; auto. destruct (showUploader (pageApp (page s))); [now destruct Hne; auto|reflexivity].
Qed.

Lemma sessionStep_Shown b s e :
  reach (sessionMachine b) s -> is_Some (mapInstanceRef (refs (component (page s)))) ->
  sessionAllowed s e = true ->
  (redraws e = true -> Shown (sessionStep s e)) /\ (Shown s -> Shown (sessionStep s e)).
Proof.
  intros Hs Hm Hen. destruct (session_MapInv b s Hs) as [_ Hpresent Hloading].
  destruct (Hpresent Hm) as [(Hr & _ & Hl) _].
  destruct (session_AppFacts b s Hs) as [_ _ Happ].
  pose proof (sessionAllowed_enabledIn s e Hen) as Hfl.
  destruct e as [imported|a|settlement]; [simpl in Hen; congruence| |];
    simpl in Hfl; rewrite andb_true_r in Hfl; (split; [intros Hd | intros Hshown]).
  - now destruct (flightStep_draws (flightOf s) (UserDid a) Hr Happ Hfl Hd).
  - now apply (landed_Shown s (UserDid a)).
  - now destruct (flightStep_draws (flightOf s) (Settled settlement) Hr Happ Hfl Hd).
  - now apply (landed_Shown s (Settled settlement)).
Qed.

(** C27. The map heals at the next event that draws, and stays healed:
    once there is a map, an allowed event that sets the selection or
    publishes results leaves the map showing the props, and no event makes
    a map that shows the props stop showing them. *)
Theorem session_self_stabilises b s e :
  reach (sessionMachine b) s -> is_Some (mapInstanceRef (refs (component (page s)))) ->
  sessionAllowed s e = true ->
  (redraws e = true -> Shown (sessionStep s e)) /\ (Shown s -> Shown (sessionStep s e)).
Proof. apply sessionStep_Shown. Qed.

(** The user can always heal the map: from every state with a map some
    allowed events lead to a map that shows the props; one event is
    enough. *)
Theorem session_can_heal b s :
  reach (sessionMachine b) s -> is_Some (mapInstanceRef (refs (component (page s)))) ->
  exists events s', (length events <= 1)%nat /\
    runs (sessionMachine b) events s = Some s' /\ Shown s'.
Proof.
  intros Hs Hm. destruct (session_MapInv b s Hs) as [_ Hpresent _].
  destruct (session_AppFacts b s Hs) as [_ _ [Hsel _]].
  destruct (Hpresent Hm) as [_ [Hshown|Hblank]];
    [exists [], s; split_and!; [simpl; lia | reflexivity | exact Hshown]|].
  destruct (showUploader (pageApp (page s))) eqn:Hu.
  - exists [], s. split_and!; [simpl; lia | reflexivity |].
    unfold Shown. now rewrite Hblank, Hsel, rendered_empty.
  - assert (Hen : sessionAllowed s (Did AllDeselected) = true).
    { simpl. unfold available, appView. now rewrite Hu. }
    exists [Did AllDeselected], (sessionStep s (Did AllDeselected)). split_and!; [simpl; lia | |].
    + simpl runs. simpl in Hen. now rewrite Hen.
    + exact (proj1 (sessionStep_Shown b s (Did AllDeselected) Hs Hm Hen) eq_refl).
Qed.

(** With Leaflet on the page at mount there is a map from the start. *)
Lemma prompt_mapped s :
  reach (sessionMachine true) s -> is_Some (mapInstanceRef (refs (component (page s)))).
Proof.
  revert s.
  apply (invariant_reach_with (M := sessionMachine true)
           (fun s => is_Some (mapInstanceRef (refs (component (page s))))) MapInv);
    [apply session_MapInv | simpl; eauto |].
  intros s0 e [_ Hpresent Hloading] Hm Hen. destruct e as [imported|a|settlement].
  - simpl in Hen. rewrite (Hloading Hen) in Hm. now destruct Hm.
  - destruct (Hpresent Hm) as [(Hr & _) _]. apply (flightStep_Ready (flightOf s0) (UserDid a) Hr).
  - destruct (Hpresent Hm) as [(Hr & _) _].
    apply (flightStep_Ready (flightOf s0) (Settled settlement) Hr).
Qed.

(** The guard [!window.L] of [showSelectedJourneys] (MapViewer.tsx, line
    127) never decides: a map exists only where Leaflet is on the page,
    since the effect that creates it tests [window.L] (line 55) and
    nothing removes it. *)
Theorem map_needs_leaflet b s :
  reach (sessionMachine b) s -> is_Some (mapInstanceRef (refs (component (page s)))) ->
  leaflet (component (page s)) = true.
Proof.
  revert s.
  apply (invariant_reach_with (M := sessionMachine b)
           (fun s => is_Some (mapInstanceRef (refs (component (page s)))) ->
                     leaflet (component (page s)) = true) MapInv);
    [apply session_MapInv | destruct b; simpl; [reflexivity | now intros [? [=]]] |].
  intros s0 e [Habsent _ Hloading] IH Hen Hm.
  assert (Hkept : forall f, is_Some (mapInstanceRef (viewer (ground (flightStep (flightOf s0) f)))) ->
                            leaflet (component (page s0)) = true).
  { intros f Hf. apply IH.
    destruct (mapInstanceRef (refs (component (page s0)))) eqn:Hm0; [eauto|].
    destruct (Habsent eq_refl) as (Hr & _).
    rewrite (flightStep_unmounted (flightOf s0) f Hr) in Hf. now destruct Hf. }
  destruct e as [imported|a|settlement]; [|now apply (Hkept (UserDid a))
                                          |now apply (Hkept (Settled settlement))].
  simpl in Hen, Hm |- *. pose proof (Hloading Hen) as Hnone.
  unfold importSettled in *. rewrite Hen in *.
  destruct imported; [now rewrite loadedCommit_leaflet|].
  simpl in Hm. rewrite Hnone in Hm. now destruct Hm.
Qed.

Lemma prompt_simulation :
  Simulation (sessionMachine true) flightMachine (fun s f => flightOf s = f) seenByApp.
Proof.
  split; [reflexivity|]. intros s f e Hs <- Hen.
  pose proof (sessionAllowed_enabledIn s e Hen) as Hfl.
  destruct e as [imported|a|settlement]; simpl in *.
  - pose proof (prompt_mapped s Hs) as Hm. destruct (session_MapInv true s Hs) as [_ _ Hloading].
    rewrite (Hloading Hen) in Hm. now destruct Hm.
  - rewrite andb_true_r in Hfl. rewrite Hfl. eexists. split; [reflexivity|]. apply flightOf_landed.
  - rewrite andb_true_r in Hfl. rewrite Hfl. eexists. split; [reflexivity|]. apply flightOf_landed.
Qed.

(** With Leaflet on the page at mount the session is the flight of
    [Processing] itself, refs included, and its map always shows the
    props: the stale map needs a late Leaflet. *)
Theorem prompt_session_is_flight s :
  reach (sessionMachine true) s -> flightReachable (flightOf s) /\ Shown s.
Proof.
  intros Hs. destruct (simulation_reach _ _ _ _ prompt_simulation s Hs) as (f & Hf & <-).
  split; [exact Hf|]. now destruct (flightReachable_inv _ Hf) as [_ _ _ _ [_ Hshape]].
Qed.

End SessionTheorems.

(** ** A late map

    Leaflet is not on the page at mount.  The user picks the file, has it
    processed and selects every journey while the import is pending; then
    the import is fulfilled.  The map appears blank with two journeys
    selected, whose paths it would show; the next toggle draws what is
    selected then. *)

Definition lateEvents : list SessionEvent :=
  [Did (FilesPicked (Some [sampleFile])); Did (ProcessClicked None);
   Answered (Fulfilled sampleResults); Did AllSelected; Imported true].

Definition lateSession : Session :=
  default (sessionStart false)
    (runs (sessionMachine (surface := manhattanSurface) false) lateEvents (sessionStart false)).

Lemma lateSession_reach : reach (sessionMachine (surface := manhattanSurface) false) lateSession.
Proof.
  apply (runs_reach lateEvents (sessionStart false)); [constructor | vm_compute; reflexivity].
Qed.

Theorem late_session_blank :
  phase (component (page lateSession)) = Mapped /\ Blank lateSession /\
  size (selectedJourneys (pageApp (page lateSession))) = 2%nat /\
  length (rendered (results (pageApp (page lateSession)))
            (selectedJourneys (pageApp (page lateSession)))).2 = 2%nat /\
  Shown (sessionStep (surface := manhattanSurface) lateSession (Did (JourneyToggled 2))).
Proof. split_and!; vm_compute; reflexivity. Qed.

Lemma session_self_stabilises_witness :
  (redraws (Did (JourneyToggled 2)) = true ->
   Shown (sessionStep (surface := manhattanSurface) lateSession (Did (JourneyToggled 2)))) /\
  (Shown lateSession ->
   Shown (sessionStep (surface := manhattanSurface) lateSession (Did (JourneyToggled 2)))).
Proof.
  apply (session_self_stabilises (surface := manhattanSurface) false);
    [apply lateSession_reach | vm_compute; eauto | vm_compute; reflexivity].
Defined.

Lemma session_app_is_flight_witness :
  exists f, flightReachable (surface := manhattanSurface) f /\
    app (ground f) = pageApp (page lateSession) /\ inFlight f = pending lateSession.
Proof. apply (session_app_is_flight (surface := manhattanSurface) false), lateSession_reach. Defined.

Lemma session_phases_witness :
  phase (component (page (sessionStep (surface := manhattanSurface) (sessionStart false)
                            (Imported true)))) =
  match phase (component (page (sessionStart false))) with
  | Loading => Mapped
  | ph => ph
  end.
Proof.
  apply (session_phases (surface := manhattanSurface) false (sessionStart false) (Imported true));
    [constructor | reflexivity].
Defined.

Lemma prompt_session_is_flight_witness :
  flightReachable (surface := manhattanSurface) (flightOf (sessionStart true)) /\
  Shown (sessionStart true).
Proof. apply (prompt_session_is_flight (surface := manhattanSurface)). constructor. Defined.

Lemma stale_only_behind_selector_witness :
  Blank lateSession /\ showUploader (pageApp (page lateSession)) = false /\
  selectedJourneys (pageApp (page lateSession)) <> ∅.
Proof.
  apply (stale_only_behind_selector (surface := manhattanSurface) false);
    [apply lateSession_reach | vm_compute; eauto |].
  unfold Shown. intros Hshown. apply (f_equal (fun shp => length shp.2)) in Hshown.
  vm_compute in Hshown. discriminate.
Defined.
